(* ===== verification/_CoqProject ===== *)
-Q . S2P
Prelude.v
Fips197.v
Aes.v
AesTTable.v
Fips180.v
Sha256.v
Hmac.v
CtrDrbg.v
World.v
AuditLog.v
State.v
Rand.v
RandService.v
Algs.v
Pct.v
Integrity.v
Post.v
Init.v
Module.v
Running.v
Services.v
Fips202.v
Keccak.v
Shake.v
ShakeX4.v
Fips203.v
MlkemPoly.v
MlkemNtt.v
MlkemCompress.v
MlkemSampling.v
MlkemRing.v
MlkemIndcpa.v
MlkemPke.v
MlkemCorrect.v
MlkemSpec.v
MlkemKem.v
MlkemWrapper.v
KeyEncoding.v
KeyInterop.v
SlhdsaInterop.v
Fips204.v
MldsaRounding.v
MldsaHint.v
