(* ===== verification/Prelude.v ===== *)
(** * The qudo-pqc FIPS module of QudoSSL

    A model of the module core of [src/qudo-pqc-lib/]: the primitives it is built on, the random bit
    generator, the self-tests, the integrity check and the state machine that ties them together; and of
    one of its algorithms from top to bottom, ML-KEM, from the service interface through FIPS 203 down to
    the permutation of SHA-3; with the theorems that make them correct.

    ** The program

    The module is a C library.  An application loads it (the constructor [qudo_dep_init] runs), calls
    [qudo_pqc_init], which verifies the integrity of the module, runs known-answer tests, seeds the
    generator and enters the state RUNNING (or ERROR), and then uses the services: random bits, the
    algorithm wrappers (ML-KEM, ML-DSA, SLH-DSA), indicator queries, self-tests on demand, shutdown.
    Everything is global state behind three reader/writer locks; failures are return codes, audit
    records, callbacks and the latched state ERROR.

    ** Files

    - [Prelude]: machine integers as [Z] with explicit truncation, byte arrays as [list Z], generic
      lemmas, hint databases and tactics.
    - [Fips197], [Fips180]: reference definitions of AES and SHA-256, written from the standards and
      independent of the code ([Fips180] also has HMAC's inputs; SP 800-90A's CTR_DRBG is the module
      [SP800_90A] of [CtrDrbg]).
    - [Aes]: [src/fips/qudo_fips_aes_ct.c] and the dispatcher of [src/fips/qudo_fips_aes.c]; the class
      [AesImpl]/[AesImplOk] is what the rest needs of a block cipher.  [AesTTable]: the T-table
      implementation, an instance of that class.
    - [Sha256]: [qudo-slhdsa/slhdsa-native/sha2_256.c], on the bytes of the context; [Hmac]:
      [src/fips/qudo_fips_hmac.c]; [CtrDrbg]: [src/fips/qudo_fips_ctrdrbg.c].
    - [World]: the module's global variables as records, one per source file ([core_t] for
      [qudo_pqc_init.c], [audit_t]/[log_t], [rand_t], [post_t], ...), the state monad [M] whose [None] is a
      call that blocks for ever, the environment ([Env]: entropy, allocator, callbacks, uninitialised
      stack memory; [EnvOk]: what is assumed of it) and [src/qudo_pqc_platform.c] (locks, once, malloc).
    - [AuditLog]: [src/qudo_pqc_audit.c].  [State]: the state queries and error reporting of
      [src/qudo_pqc_init.c] and [src/qudo_pqc_selftest.h].
    - [Rand]: [src/fips/qudo_fips_rand.c] and the health tests' theorem; [RandService]: the generator's
      invariants and its refinement to SP 800-90A.
    - [Algs]: the interface [AlgOps]/[AlgOpsOk] of the algorithm wrappers, and a calculus of operations that keep the
      module's invariants: [open_op] for callers that do not hold the self-test lock, [safe_op] for the self-tests,
      which do and must stop after an operation that has moved the module to ERROR, [quiet_op] for bookkeeping that may follow even then.
      [Pct]: [src/qudo_pqc_pct.c].
    - [Integrity]: [src/qudo_pqc_integrity.c] over the interfaces [FileIO] and [Image].
    - [Post]: [src/qudo_pqc_post.c] and the vectors of [src/qudo_self_test_data.inc].
    - [Init]: the rest of [src/qudo_pqc_init.c] (conditional self-tests, power-up and on-demand tests,
      initialisation, shutdown, load and unload); [Module]: its invariants over all sequences of public
      calls; [Running]: what has been tested when the module is RUNNING.
    - [Services]: [src/qudo_pqc_security.c], [src/qudo_pqc_indicator.c], [src/qudo_pqc_utils.c].
    - [Fips202], [Fips203]: reference definitions of SHA-3/SHAKE and of the functions of FIPS 203 on
      polynomials, from the standards (the schemes over them are the modules [K_PKE] of [MlkemSpec] and [ML_KEM]
      of [MlkemKem]).
    - [Keccak]: [keccakf1600.c] of mlkem-native and mldsa-native; [Shake]: mlkem-native's one-shot
      [fips202.c] and mldsa-native's incremental one; [ShakeX4]: [fips202x4.c], the four-way interface.
    - [MlkemPoly]: [verify.h], [poly.h], [poly.c]; [MlkemNtt]: the number-theoretic transform is FIPS 203's;
      [MlkemRing]: and turns products into coordinate-wise ones.
    - [MlkemCompress]: [compress.h], [compress.c]; [MlkemSampling]: [sampling.c].
    - [MlkemIndcpa]: [symmetric.h], [params.h], [poly_k.h], [poly_k.c], [indcpa.c]; [MlkemPke]: products of
      vectors; [MlkemCorrect]: decryption inverts encryption; [MlkemSpec]: K-PKE of FIPS 203 (Algorithms 13 to 15)
      and that [indcpa.c] computes it.
    - [MlkemKem]: [kem.c]; [MlkemWrapper]: [qudo-mlkem/src/mlkem_wrapper.c] and [mlkem_rand.c], with the
      locks, the generator, the indicator and the pairwise test they call.
    - [KeyEncoding]: base64, DER lengths and PEM text, which the three algorithms' [*_interop.c] share; [KeyInterop]: public
      keys of ML-KEM and ML-DSA and private keys of ML-DSA; [SlhdsaInterop]: [slhdsa_interop.c] and the parameter
      table of [slhdsa_config.c].
    - [Fips204]: rounding and hints of FIPS 204; [MldsaRounding]: [ct.h], [reduce.h], [rounding.h] of mldsa-native and the loops over
      them; [MldsaHint]: the hint section of a signature ([packing.c]).

    ** How the code is translated

    A C function is a Rocq definition of the same name.  A pointer that may be NULL is an [option]; a
    function that writes through a pointer returns the new contents; return codes are [Z].  Unsigned
    arithmetic is truncated where it can overflow ([u8], [u32], [u64]).  Arrays have their C length and
    out-of-range accesses do not occur in the cases the theorems cover, as the lengths are hypotheses or
    invariants.  Preprocessor switches are the class [BuildConfig].  Loops are structural where possible
    and otherwise have fuel that is proved or visibly enough: [gen_loop], [rand_loop] and [raw_loop] get the
    number of bytes left, of which every pass consumes at least one; the key-schedule loops get their
    number of passes; [put_length] gets the 8 bytes of a 64-bit counter; [tt_loop] gets [rounds / 2].
    Rejection sampling has no bound in the code: its fuel is the number of further blocks it may squeeze,
    [None] means not finished, and the theorem is that it returns as soon as the standard's stream has the
    accepted values.  ML-KEM arrays of [int16_t] are [list Z] with every store truncated ([i16]), [int32_t] values are
    truncated ([i32]); that nothing is truncated is part of the theorems.  Native (assembly) back ends of mlkem-native and mldsa-native
    are switched off in the model: the portable C path is the one translated.
    Uninitialised memory is a parameter of the environment and nothing depends on it.  Calls are
    sequential: a lock that is taken twice blocks ([None]), and [Module] proves that this never happens;
    the interleaving of a second thread is considered for the one window where it matters
    ([Module.concurrent_error_is_lost]).

    ** What the theorems show

    - Primitives: constant-time AES is FIPS 197, T-table AES equals it, dispatch is transparent; SHA-256
      and HMAC streaming equal the one-shot standards for any chunking; finished HMAC contexts are inert.
    - CTR_DRBG refines SP 800-90A over any sequence of calls; its refusals are exact; freeing erases.
    - Health tests equal the RCT and APT of SP 800-90B; unhealthy entropy latches the module's ERROR until the generator is
      cleaned up; random bits refine SP 800-90A with reseeding from the platform's source, with the exact final state, or are refused;
      clean-up erases.
    - Integrity checks succeed exactly when the HMAC of file or image matches; the hexadecimal parser is
      exact; known-answer tests pass on a correct implementation and detect a wrong result; pairwise
      tests decide consistency.
    - The module: no public call blocks; a RUNNING module was taken there by an initialisation in which every self-test and the integrity
      check returned success; ERROR is final, reports are limited, initialisation decides, shutdown clears; and the exceptions the model shows (a concurrent error can
      be lost, DRBG contexts of applications cannot be released in ERROR).

    - SHA-3 and SHAKE: the unrolled permutation is Keccak-f of FIPS 202; one-shot, incremental (any
      chunking, any squeezing) and four-way hashing equal the standard.
    - ML-KEM: the transforms, products, encodings, compressions and samplers are those of FIPS 203, with
      bounds on every intermediate value; the code refines FIPS 203's K-PKE and its key generation, encapsulation and
      decapsulation with their input checks and implicit rejection; decapsulation returns the secret of
      encapsulation whenever the noise of the ciphertext is small, a condition on the sampled values that
      is stated as an executable predicate ([small_noise]); the exact probability that it fails is not
      computed.
    - The ML-KEM interface: keys are handed out only after their pairwise test, a failed test wipes them
      and latches ERROR; outside service everything is refused; and the exception, key generation by level.
    - Key encodings: export followed by import returns the key, in DER and PEM and for every size, with exact
      answers to size queries and short buffers; what is accepted lies within the input; and the exceptions (six of
      the nine sizes of ML-DSA private keys cannot be read back, algorithm and key size are not compared).

    - ML-DSA: reduction and rounding are those of FIPS 204 for every coefficient, without overflow; hints are read back as they were written,
      and a hint section that is accepted is the canonical one.

    The wrappers' operations appear in the theorems of [Module] and [Running] as parameters with the laws of [AlgOpsOk]: they finish, keep
    the module's invariants, and an operation that moves a self-testing module to ERROR returns a failure.

    ** Not modelled

    - AES-NI ([src/fips/qudo_fips_aes_ni.c]) and SHA-NI: compiler intrinsics and assembly; the theorems
      hold for any correct instance of the interface.
    - ML-DSA apart from its SHAKE, rounding and hints, SLH-DSA apart from its SHA-256, and their wrappers ([qudo-mldsa],
      [qudo-slhdsa]): they appear as the interface [AlgOps] with named laws; the large known-answer vectors
      of the algorithms are the parameter [KatData].
    - Of ML-KEM: the native back ends and run-time dispatch, the configuration, version and memory helpers.
    - Of the key encodings: the variants that are compiled with OpenSSL only, among them the PKCS#8 format argument
      of ML-DSA, and the readers of configuration files.
    - The Windows and thread-less branches of the platform layer, and the entropy sources other than
      [getentropy].
    - The OpenSSL fork, benchmarks, tools and tests. *)

From stdpp Require Import base list numbers strings.
From Stdlib Require Import ZArith Lia Btauto.

#[local] Open Scope Z_scope.

(** ** Machine integers

    C's fixed-width unsigned integers are [Z] values kept in range by an explicit
    truncation at every operation that can leave the range. *)

Definition u8 (x : Z) : Z := Z.land x 0xff.
Definition u32 (x : Z) : Z := Z.land x 0xffffffff.
Definition u64 (x : Z) : Z := Z.land x 0xffffffffffffffff.

(** [(int32_t)x]: the representative of [x] modulo 2^32 in [-2^31, 2^31). *)
Definition i32 (x : Z) : Z := u32 (x + 0x80000000) - 0x80000000.

Definition is_u8 (x : Z) : Prop := 0 <= x < 256.
Definition is_u32 (x : Z) : Prop := 0 <= x < 2 ^ 32.

(** Byte buffers are lists of [Z] whose elements are bytes. *)
Definition bytes : Type := list Z.
Definition are_bytes (l : bytes) : Prop := Forall is_u8 l.

(** Array reads and writes.  A read outside the array is undefined behaviour in C;
    the model returns 0 there and every theorem keeps indices in range. *)
Definition rd (l : list Z) (i : nat) : Z := nth i l 0.
Definition wr (l : list Z) (i : nat) (v : Z) : list Z := <[i := v]> l.

(** [memcpy(dst + off, src, length src)]. *)
Definition blit (dst : list Z) (off : nat) (src : list Z) : list Z :=
  take off dst ++ src ++ drop (off + length src) dst.

(** [sub l off n] is the [n] elements starting at offset [off]. *)
Definition sub (l : list Z) (off n : nat) : list Z := take n (drop off l).

(** [memset(p, 0, n)]. *)
Definition zeros (n : nat) : bytes := replicate n 0.

Definition xor_bytes (a b : bytes) : bytes := zip_with Z.lxor a b.

(** Big-endian value of a byte string. *)
Definition be_to_Z (l : bytes) : Z := fold_left (fun acc b => acc * 256 + b) l 0.

(** The [n] low-order bytes of [v], most significant first. *)
Fixpoint Z_to_be (n : nat) (v : Z) : bytes :=
  match n with
  | O => []
  | S n' => Z_to_be n' (v / 256) ++ [v mod 256]
  end.

(** ** Bit-level automation *)

Create HintDb bits discriminated.
#[export] Hint Constants Opaque : bits.

Lemma testbit_u8_ge x i : is_u8 x -> 8 <= i -> Z.testbit x i = false.
Proof.
  intros Hx Hi. rewrite <- (Z.mod_small x (2 ^ 8)) by (unfold is_u8 in Hx; lia).
  apply Z.mod_pow2_bits_high; lia.
Qed.

Lemma testbit_u32_ge x i : is_u32 x -> 32 <= i -> Z.testbit x i = false.
Proof.
  intros Hx Hi. rewrite <- (Z.mod_small x (2 ^ 32)) by exact Hx.
  apply Z.mod_pow2_bits_high; lia.
Qed.

Lemma u8_mod x : u8 x = x mod 256.
Proof. unfold u8. change 0xff with (Z.ones 8). now rewrite Z.land_ones by lia. Qed.

Lemma u32_mod x : u32 x = x mod 2 ^ 32.
Proof. unfold u32. change 0xffffffff with (Z.ones 32). now rewrite Z.land_ones by lia. Qed.

Lemma u64_mod x : u64 x = x mod 2 ^ 64.
Proof. unfold u64. change 0xffffffffffffffff with (Z.ones 64). now rewrite Z.land_ones by lia. Qed.

Lemma u8_range x : is_u8 (u8 x).
Proof. rewrite u8_mod. unfold is_u8. apply Z.mod_pos_bound. lia. Qed.

Lemma u32_range x : is_u32 (u32 x).
Proof. rewrite u32_mod. unfold is_u32. apply Z.mod_pos_bound. lia. Qed.

Lemma u8_id x : is_u8 x -> u8 x = x.
Proof. intros H. rewrite u8_mod. apply Z.mod_small. exact H. Qed.

Lemma u32_id x : is_u32 x -> u32 x = x.
Proof. intros H. rewrite u32_mod. apply Z.mod_small. exact H. Qed.

Lemma i32_mod x : i32 x = (x + 2 ^ 31) mod 2 ^ 32 - 2 ^ 31.
Proof. unfold i32. now rewrite u32_mod. Qed.

Lemma i32_id x : - 2 ^ 31 <= x < 2 ^ 31 -> i32 x = x.
Proof. intros H. rewrite i32_mod, Z.mod_small; lia. Qed.

Lemma i32_range x : - 2 ^ 31 <= i32 x < 2 ^ 31.
Proof. rewrite i32_mod. pose proof (Z.mod_pos_bound (x + 2 ^ 31) (2 ^ 32)). lia. Qed.

Lemma i32_u32 x : i32 (Z.land x 0xffffffff) = i32 x.
Proof.
  rewrite !i32_mod. change 0xffffffff with (Z.ones 32). rewrite Z.land_ones by lia. now rewrite Z.add_mod_idemp_l by lia.
Qed.

#[export] Hint Resolve u8_range u32_range : bits.

(** Bounds by bits: a value all of whose bits from [n] on are zero is below [2^n]. *)
Lemma bits_bound n x :
  0 <= n -> 0 <= x -> (forall i, n <= i -> Z.testbit x i = false) -> 0 <= x < 2 ^ n.
Proof.
  intros Hn Hx Hb. split; [exact Hx |].
  destruct (Z.eq_dec x 0) as [-> | Hx0]; [apply Z.pow_pos_nonneg; lia |].
  apply Z.log2_lt_pow2; [lia |].
  destruct (Z.lt_ge_cases (Z.log2 x) n) as [Hl | Hl]; [exact Hl |].
  specialize (Hb _ Hl). rewrite Z.bit_log2 in Hb by lia. discriminate.
Qed.

Lemma lxor_u8 a b : is_u8 a -> is_u8 b -> is_u8 (Z.lxor a b).
Proof.
  intros Ha Hb. apply (bits_bound 8); [lia | apply Z.lxor_nonneg; unfold is_u8 in *; lia |].
  intros i Hi. rewrite Z.lxor_spec, !testbit_u8_ge by assumption. reflexivity.
Qed.

Lemma lxor_u32 a b : is_u32 a -> is_u32 b -> is_u32 (Z.lxor a b).
Proof.
  intros Ha Hb. apply (bits_bound 32); [lia | apply Z.lxor_nonneg; unfold is_u32 in *; lia |].
  intros i Hi. rewrite Z.lxor_spec, !testbit_u32_ge by assumption. reflexivity.
Qed.

#[export] Hint Resolve lxor_u8 lxor_u32 : bits.

(** [zbits]: prove an equation between bit expressions position by position.
    The goal's atoms may be arbitrary integers; shifts are by constants. *)
Ltac zbits_specs :=
  repeat first
    [ rewrite Z.lxor_spec | rewrite Z.land_spec | rewrite Z.lor_spec
    | rewrite Z.ldiff_spec
    | rewrite Z.shiftr_spec by lia | rewrite Z.shiftl_spec by lia ].

Ltac zbits := apply Z.bits_inj'; intros ?i ?Hi; zbits_specs; try btauto.

(** ** Forall over the 256 byte values by computation *)

Definition all_bytes : list Z := map Z.of_nat (seq 0 256).

Lemma all_bytes_spec x : is_u8 x -> In x all_bytes.
Proof.
  intros Hx. unfold all_bytes. apply in_map_iff. exists (Z.to_nat x).
  unfold is_u8 in Hx. split; [lia |]. apply in_seq. lia.
Qed.

Lemma byte_forall (P : Z -> bool) :
  forallb P all_bytes = true -> forall x, is_u8 x -> P x = true.
Proof. intros H x Hx. rewrite forallb_forall in H. apply H, all_bytes_spec, Hx. Qed.

Lemma byte_forall2 (P : Z -> Z -> bool) :
  forallb (fun a => forallb (P a) all_bytes) all_bytes = true ->
  forall a b, is_u8 a -> is_u8 b -> P a b = true.
Proof.
  intros H a b Ha Hb. apply byte_forall; [| exact Hb].
  exact (byte_forall (fun a => forallb (P a) all_bytes) H a Ha).
Qed.

(** ** Arrays *)

Lemma rd_lookup (l : list Z) i x : l !! i = Some x -> rd l i = x.
Proof. intros H. unfold rd. apply nth_lookup_Some with (d := 0) in H. exact H. Qed.

Lemma rd_in_range (l : list Z) i : (i < length l)%nat -> l !! i = Some (rd l i).
Proof.
  intros H. destruct (lookup_lt_is_Some_2 l i H) as [x Hx].
  rewrite Hx. f_equal. symmetry. now apply rd_lookup.
Qed.

Lemma rd_Forall (P : Z -> Prop) l i : P 0 -> Forall P l -> P (rd l i).
Proof.
  intros H0 HF. unfold rd. destruct (nth_in_or_default i l 0) as [Hin | ->]; [| exact H0].
  rewrite List.Forall_forall in HF. now apply HF.
Qed.

Lemma rd_ext (l1 l2 : list Z) : length l1 = length l2 -> (forall i, (i < length l1)%nat -> rd l1 i = rd l2 i) -> l1 = l2.
Proof. intros Hl H. apply (nth_ext l1 l2 0 0); [exact Hl |]. intros i Hi. now apply H. Qed.

Lemma rd_map_seq (f : nat -> Z) n i : (i < n)%nat -> rd (map f (seq 0 n)) i = f i.
Proof.
  intros Hi. unfold rd. rewrite (nth_indep _ 0 (f 0%nat)) by (rewrite length_map, length_seq; lia).
  rewrite map_nth, seq_nth by lia. reflexivity.
Qed.

Lemma rd_map (h : Z -> Z) l i : (i < length l)%nat -> rd (map h l) i = h (rd l i).
Proof.
  intros Hi. apply rd_lookup. rewrite list_lookup_fmap. now rewrite rd_in_range.
Qed.

Lemma rd_zip_with (h : Z -> Z -> Z) x y i : (i < length x)%nat -> (i < length y)%nat -> rd (zip_with h x y) i = h (rd x i) (rd y i).
Proof.
  intros Hx Hy. apply rd_lookup. rewrite lookup_zip_with, (rd_in_range x i Hx), (rd_in_range y i Hy). reflexivity.
Qed.

Lemma nth_map_lt {A B} (f : A -> B) l i d d' : (i < length l)%nat -> nth i (map f l) d' = f (nth i l d).
Proof. intros Hi. rewrite (nth_indep _ d' (f d)) by (now rewrite length_map). apply map_nth. Qed.

Lemma nth_zip_with_lt {A B C} (f : A -> B -> C) l k i da db dc : (i < length l)%nat -> (i < length k)%nat ->
  nth i (zip_with f l k) dc = f (nth i l da) (nth i k db).
Proof.
  revert k i. induction l as [|x l IH]; intros [|y k] [|i] Hl Hk; cbn in *; try lia; [reflexivity |]. apply IH; lia.
Qed.

Lemma Forall_nth_lt {A} (P : A -> Prop) l i d : Forall P l -> (i < length l)%nat -> P (nth i l d).
Proof. intros H Hi. rewrite List.Forall_forall in H. apply H, nth_In, Hi. Qed.

Lemma nth_Forall {A} (P : A -> Prop) l d : (forall i, (i < length l)%nat -> P (nth i l d)) -> Forall P l.
Proof.
  intros H. apply List.Forall_forall. intros x Hx. apply In_nth with (d := d) in Hx as (i & Hi & <-). now apply H.
Qed.

Lemma nth_fill {A} (x : A) n : forall j, nth j (replicate n x) x = x.
Proof. induction n as [|n IH]; intros [|j]; cbn [replicate nth]; auto. Qed.

Lemma rd_wr_eq l i v : (i < length l)%nat -> rd (wr l i v) i = v.
Proof. intros H. apply rd_lookup. now apply list_lookup_insert_eq. Qed.

Lemma rd_wr_ne l i j v : i <> j -> rd (wr l i v) j = rd l j.
Proof.
  intros H. unfold rd, wr. rewrite !nth_lookup. now rewrite list_lookup_insert_ne by exact H.
Qed.

Lemma length_wr l i v : length (wr l i v) = length l.
Proof. apply length_insert. Qed.

Lemma rd_take l n i : (i < n)%nat -> rd (take n l) i = rd l i.
Proof. intros H. unfold rd. rewrite !nth_lookup. now rewrite lookup_take_lt by exact H. Qed.

Lemma rd_app_l l1 l2 i : (i < length l1)%nat -> rd (l1 ++ l2) i = rd l1 i.
Proof. intros H. unfold rd. now apply app_nth1. Qed.

Lemma rd_app_r l1 l2 i : (length l1 <= i)%nat -> rd (l1 ++ l2) i = rd l2 (i - length l1).
Proof. intros H. unfold rd. now apply app_nth2. Qed.

Lemma take_S_wr l n v :
  (n < length l)%nat -> take (S n) (wr l n v) = take n l ++ [v].
Proof.
  intros H. rewrite (take_S_r _ _ v).
  - unfold wr. now rewrite take_insert_ge by lia.
  - now apply list_lookup_insert_eq.
Qed.

Lemma length_blit dst off src :
  (off + length src <= length dst)%nat -> length (blit dst off src) = length dst.
Proof.
  intros H. unfold blit. rewrite !length_app, length_take, length_drop. lia.
Qed.

Lemma length_sub l off n : (off + n <= length l)%nat -> length (sub l off n) = n.
Proof. intros H. unfold sub. rewrite length_take, length_drop. lia. Qed.

Create Rewrite HintDb arrays.
#[export] Hint Rewrite length_wr : arrays.

Lemma is_u8_0 : is_u8 0. Proof. unfold is_u8. lia. Qed.
Lemma is_u32_0 : is_u32 0. Proof. unfold is_u32. lia. Qed.
#[export] Hint Resolve is_u8_0 is_u32_0 : bits.

Lemma rd_is_u8 l i : are_bytes l -> is_u8 (rd l i).
Proof. intros H. apply rd_Forall; auto with bits. Qed.
#[export] Hint Resolve rd_is_u8 : bits.

(** ** 32-bit words and their bytes *)

(** The four bytes of a word, most significant first. *)
Definition wbytes (w : Z) : bytes :=
  [ u8 (Z.shiftr w 24); u8 (Z.shiftr w 16); u8 (Z.shiftr w 8); u8 w ].

Definition word (a b c d : Z) : Z :=
  Z.lxor (Z.lxor (Z.lxor (Z.shiftl a 24) (Z.shiftl b 16)) (Z.shiftl c 8)) d.

Lemma wbytes_lxor a b : wbytes (Z.lxor a b) = xor_bytes (wbytes a) (wbytes b).
Proof.
  unfold wbytes, xor_bytes, u8. cbn [zip_with].
  f_equal; [zbits | f_equal; [zbits | f_equal; [zbits | f_equal; zbits]]].
Qed.

Lemma wbytes_u8 w : are_bytes (wbytes w).
Proof. unfold wbytes. repeat constructor; apply u8_range. Qed.

Lemma word_u32 a b c d : is_u8 a -> is_u8 b -> is_u8 c -> is_u8 d -> is_u32 (word a b c d).
Proof.
  intros Ha Hb Hc Hd. unfold word. unfold is_u8 in *.
  repeat apply lxor_u32; unfold is_u32; rewrite ?Z.shiftl_mul_pow2 by lia; lia.
Qed.

Lemma wbytes_word a b c d :
  is_u8 a -> is_u8 b -> is_u8 c -> is_u8 d -> wbytes (word a b c d) = [a; b; c; d].
Proof.
  intros Ha Hb Hc Hd. unfold word. rewrite !wbytes_lxor.
  assert (H24 : wbytes (Z.shiftl a 24) = [a; 0; 0; 0]).
  { apply (byte_forall (fun a => bool_decide (wbytes (Z.shiftl a 24) = [a; 0; 0; 0]))) in Ha;
      [now apply bool_decide_eq_true in Ha | vm_compute; reflexivity]. }
  assert (H16 : wbytes (Z.shiftl b 16) = [0; b; 0; 0]).
  { apply (byte_forall (fun a => bool_decide (wbytes (Z.shiftl a 16) = [0; a; 0; 0]))) in Hb;
      [now apply bool_decide_eq_true in Hb | vm_compute; reflexivity]. }
  assert (H8 : wbytes (Z.shiftl c 8) = [0; 0; c; 0]).
  { apply (byte_forall (fun a => bool_decide (wbytes (Z.shiftl a 8) = [0; 0; a; 0]))) in Hc;
      [now apply bool_decide_eq_true in Hc | vm_compute; reflexivity]. }
  assert (H0 : wbytes d = [0; 0; 0; d]).
  { apply (byte_forall (fun a => bool_decide (wbytes a = [0; 0; 0; a]))) in Hd;
      [now apply bool_decide_eq_true in Hd | vm_compute; reflexivity]. }
  rewrite H24, H16, H8, H0. unfold xor_bytes. cbn [zip_with].
  now rewrite !Z.lxor_0_r, !Z.lxor_0_l.
Qed.

(** A word is determined by its bytes. *)
Lemma wbytes_inj a b : is_u32 a -> is_u32 b -> wbytes a = wbytes b -> a = b.
Proof.
  intros Ha Hb H. unfold wbytes in H. injection H as H1 H2 H3 H4.
  apply Z.bits_inj'. intros i Hi.
  destruct (Z.lt_ge_cases i 32) as [Hlt | Hge];
    [| now rewrite !testbit_u32_ge by assumption].
  assert (Hbyte : forall k, 0 <= k -> u8 (Z.shiftr a k) = u8 (Z.shiftr b k) ->
            k <= i < k + 8 -> Z.testbit a i = Z.testbit b i).
  { intros k Hk He Hr. apply (f_equal (fun z => Z.testbit z (i - k))) in He.
    unfold u8 in He. rewrite !Z.land_spec, !Z.shiftr_spec in He by lia.
    change 0xff with (Z.ones 8) in He. rewrite Z.ones_spec_low in He by lia.
    rewrite !andb_true_r in He. now replace (i - k + k) with i in He by lia. }
  destruct (Z.lt_ge_cases i 8); [apply (Hbyte 0); rewrite ?Z.shiftr_0_r; lia |].
  destruct (Z.lt_ge_cases i 16); [apply (Hbyte 8); lia |].
  destruct (Z.lt_ge_cases i 24); [apply (Hbyte 16); lia |].
  apply (Hbyte 24); lia.
Qed.

(** Bytes in disjoint positions: [|] and [^] agree. *)
Lemma word_lor a b c d :
  is_u8 a -> is_u8 b -> is_u8 c -> is_u8 d ->
  Z.lor (Z.lor (Z.lor (Z.shiftl a 24) (Z.shiftl b 16)) (Z.shiftl c 8)) d = word a b c d.
Proof.
  intros Ha Hb Hc Hd. unfold word. apply Z.bits_inj'. intros i Hi.
  rewrite !Z.lor_spec, !Z.lxor_spec, !Z.shiftl_spec by lia.
  destruct (Z.lt_ge_cases i 8).
  { rewrite !(Z.testbit_neg_r _ (i - _)) by lia. btauto. }
  rewrite (testbit_u8_ge d) by assumption.
  destruct (Z.lt_ge_cases i 16).
  { rewrite !(Z.testbit_neg_r _ (i - 24)), !(Z.testbit_neg_r _ (i - 16)) by lia. btauto. }
  rewrite (testbit_u8_ge c) by (assumption || lia).
  destruct (Z.lt_ge_cases i 24).
  { rewrite !(Z.testbit_neg_r _ (i - 24)) by lia. btauto. }
  rewrite (testbit_u8_ge b) by (assumption || lia). btauto.
Qed.

Lemma wbytes_expand w : is_u32 w ->
  w = word (u8 (Z.shiftr w 24)) (u8 (Z.shiftr w 16)) (u8 (Z.shiftr w 8)) (u8 w).
Proof.
  intros Hw. apply wbytes_inj; [exact Hw | apply word_u32; auto with bits |].
  now rewrite wbytes_word by auto with bits.
Qed.

Lemma u8_u8 x : u8 (u8 x) = u8 x.
Proof. apply u8_id, u8_range. Qed.

Lemma shiftr24_u8 x : is_u32 x -> Z.shiftr x 24 = u8 (Z.shiftr x 24).
Proof.
  intros Hx. symmetry. apply u8_id. unfold is_u8, is_u32 in *.
  rewrite Z.shiftr_div_pow2 by lia. split; [apply Z.div_pos; lia |].
  apply Z.div_lt_upper_bound; lia.
Qed.

(** An 8-bit field of a word, in place. *)
Lemma land_field x k : 0 <= k -> Z.land x (Z.shiftl 0xff k) = Z.shiftl (u8 (Z.shiftr x k)) k.
Proof.
  intros Hk. apply Z.bits_inj'. intros i Hi. unfold u8.
  rewrite Z.land_spec, !Z.shiftl_spec by lia.
  destruct (Z.lt_ge_cases i k).
  - rewrite !(Z.testbit_neg_r _ (i - k)) by lia. apply andb_false_r.
  - rewrite Z.land_spec, Z.shiftr_spec by lia. now replace (i - k + k) with i by lia.
Qed.

(** ** Buffers: copies, concatenation, big-endian encodings *)

Lemma length_Z_to_be n v : length (Z_to_be n v) = n.
Proof. revert v. induction n as [|n IH]; intros v; [reflexivity |]. cbn. rewrite length_app, IH. cbn. lia. Qed.

Lemma Z_to_be_0 n : Z_to_be n 0 = zeros n.
Proof.
  induction n as [|n IH]; [reflexivity |]. cbn [Z_to_be]. change (0 / 256) with 0. change (0 mod 256) with 0.
  rewrite IH. unfold zeros. now rewrite replicate_S_end.
Qed.

Lemma Z_to_be_bytes n v : are_bytes (Z_to_be n v).
Proof.
  revert v. induction n as [|n IH]; intros v; [constructor |]. cbn [Z_to_be].
  apply Forall_app_2; [apply IH |]. constructor; [| constructor].
  unfold is_u8. apply Z.mod_pos_bound. lia.
Qed.

Lemma zeros_bytes n : are_bytes (zeros n).
Proof. unfold zeros. apply Forall_replicate. apply is_u8_0. Qed.

Lemma length_zeros n : length (zeros n) = n.
Proof. apply length_replicate. Qed.

Lemma wr_app_mid A b B x : wr (A ++ b :: B) (length A) x = A ++ x :: B.
Proof. unfold wr. rewrite insert_app_r_alt by lia. now rewrite Nat.sub_diag. Qed.

Lemma rd_drop l n i : rd (drop n l) i = rd l (n + i).
Proof. unfold rd. rewrite !nth_lookup. now rewrite lookup_drop. Qed.

Lemma rd_sub l off n i : (i < n)%nat -> rd (sub l off n) i = rd l (off + i).
Proof. intros Hi. unfold sub. rewrite rd_take by exact Hi. apply rd_drop. Qed.

Lemma blit_bytes d o s : are_bytes d -> are_bytes s -> are_bytes (blit d o s).
Proof.
  intros Hd Hs. unfold blit. apply Forall_app_2; [now apply Forall_take |].
  apply Forall_app_2; [exact Hs | now apply Forall_drop].
Qed.

Lemma take_blit_le d o s n : (n <= o)%nat -> (o <= length d)%nat -> take n (blit d o s) = take n d.
Proof.
  intros Hn Ho. unfold blit. rewrite take_app_le by (rewrite length_take; lia).
  rewrite take_take. f_equal. lia.
Qed.

(** Reading back a prefix that ends where the copied bytes end. *)
Lemma sub_blit d o s a n : (a <= o)%nat -> (o + length s <= length d)%nat -> (a + n = o + length s)%nat ->
  sub (blit d o s) a n = sub d a (o - a) ++ s.
Proof.
  intros Ha Ho Hn. unfold sub, blit.
  rewrite drop_app_le by (rewrite length_take; lia).
  rewrite take_app_ge by (rewrite length_drop, length_take; lia).
  rewrite length_drop, length_take, Nat.min_l by lia.
  rewrite take_app_length' by lia. f_equal.
  rewrite skipn_firstn_comm. reflexivity.
Qed.

Lemma blit_app A B d o : o = length A -> blit (A ++ B) o d = A ++ d ++ drop (length d) B.
Proof.
  intros ->. unfold blit. rewrite take_app_length, <- drop_drop, drop_app_length. reflexivity.
Qed.

Lemma is_u8_dec_list l : forallb (fun x => (0 <=? x) && (x <? 256)) l = true -> are_bytes l.
Proof.
  intros H. apply List.Forall_forall. intros x Hx. rewrite forallb_forall in H.
  specialize (H x Hx). unfold is_u8. lia.
Qed.

Lemma xor_bytes_u8 a b : are_bytes a -> are_bytes b -> are_bytes (xor_bytes a b).
Proof.
  unfold are_bytes, xor_bytes. intros Ha. revert b.
  induction Ha as [|x a Hx Ha IH]; intros [|y b] Hb; cbn [zip_with]; try constructor;
    inversion Hb; subst; auto using lxor_u8.
Qed.

Lemma Z_to_be_mod n v : Z_to_be n (v mod 256 ^ Z.of_nat n) = Z_to_be n v.
Proof.
  revert v. induction n as [|n IH]; intros v; [reflexivity |]. cbn [Z_to_be].
  rewrite Nat2Z.inj_succ, Z.pow_succ_r by lia.
  assert (Hp : 0 < 256 ^ Z.of_nat n) by (apply Z.pow_pos_nonneg; lia).
  rewrite Z.rem_mul_r by lia. f_equal; [| f_equal].
  - rewrite (Z.add_comm (v mod 256)), Z.mul_comm, Z.div_add_l by lia.
    rewrite (Z.div_small (v mod 256)), Z.add_0_r by (apply Z.mod_pos_bound; lia). apply IH.
  - rewrite Z.mul_comm, Z.mod_add, Z.mod_mod by lia. reflexivity.
Qed.

Lemma be_to_Z_snoc l x : be_to_Z (l ++ [x]) = be_to_Z l * 256 + x.
Proof. unfold be_to_Z. now rewrite fold_left_app. Qed.

Lemma Z_to_be_be_to_Z l : are_bytes l -> Z_to_be (length l) (be_to_Z l) = l.
Proof.
  induction l as [|x l IH] using rev_ind; intros Hb; [reflexivity |].
  apply Forall_app in Hb as [Hl Hx]. apply Forall_cons_1 in Hx as [Hx _]. unfold is_u8 in Hx.
  rewrite length_app, Nat.add_1_r, be_to_Z_snoc. cbn [Z_to_be].
  rewrite Z.div_add_l, (Z.div_small x), Z.add_0_r by lia.
  rewrite (Z.add_comm (_ * 256)), Z.mod_add, Z.mod_small by lia. now rewrite IH.
Qed.

Lemma xor_bytes_take n a b : take n (xor_bytes a b) = xor_bytes (take n a) (take n b).
Proof. unfold xor_bytes. revert a b. induction n; intros [|x a] [|y b]; cbn; f_equal; auto; now destruct a. Qed.

Lemma xor_bytes_drop n a b : drop n (xor_bytes a b) = xor_bytes (drop n a) (drop n b).
Proof.
  unfold xor_bytes. revert a b. induction n; intros [|x a] [|y b]; cbn; auto. now destruct (drop n a).
Qed.

(** XOR reads only as much of its right argument as the left one has. *)
Lemma xor_bytes_take_r a b : xor_bytes a (take (length a) b) = xor_bytes a b.
Proof. unfold xor_bytes. revert b. induction a as [|x a IH]; intros [|y b]; cbn; f_equal; auto. Qed.

Lemma xor_bytes_zeros a n : (length a <= n)%nat -> xor_bytes a (zeros n) = a.
Proof.
  unfold xor_bytes, zeros. revert n. induction a as [|x a IH]; intros [|n] Hn; cbn in *; try lia; auto.
  rewrite Z.lxor_0_r, IH by lia. reflexivity.
Qed.

Lemma length_xor_bytes a b : length a = length b -> length (xor_bytes a b) = length a.
Proof. intros H. unfold xor_bytes. rewrite length_zip_with. lia. Qed.

Lemma sub_app_mid A B C o n : o = length A -> n = length B -> sub (A ++ B ++ C) o n = B.
Proof. intros -> ->. unfold sub. now rewrite drop_app_length, take_app_length. Qed.
