(* ===== verification/Fips197.v ===== *)
(** * FIPS 197 reference cipher

    The Advanced Encryption Standard as the standard defines it, with no table: bytes
    are elements of GF(2^8), the S-box is the affine image of the multiplicative inverse,
    the state is the 16-byte column-major array of Section 3.4.  The files [Aes] and
    [AesTTable] show that the module's two implementations compute this cipher. *)

From stdpp Require Import base list numbers.
From Stdlib Require Import ZArith Lia.
From S2P Require Import Prelude.

#[local] Open Scope Z_scope.

(** ** GF(2^8) modulo x^8 + x^4 + x^3 + x + 1 *)

Definition gf_double (x : Z) : Z :=
  if Z.testbit x 7 then Z.lxor (2 * x) 0x11b else 2 * x.

(** Multiplication, one bit of [b] at a time, least significant first. *)
Fixpoint gf_mul_aux (n : nat) (a b : Z) : Z :=
  match n with
  | O => 0
  | S n' =>
      Z.lxor (if Z.odd b then a else 0) (gf_mul_aux n' (gf_double a) (b / 2))
  end.
Definition gf_mul (a b : Z) : Z := gf_mul_aux 8 a b.

Fixpoint gf_pow (a : Z) (n : nat) : Z :=
  match n with O => 1 | S n' => gf_mul a (gf_pow a n') end.

(** The inverse of [a], and 0 for 0: the group of units has order 255, so it is
    a^254 = a^2 a^4 a^8 a^16 a^32 a^64 a^128. *)
Definition gf_inv (a : Z) : Z :=
  let sq x := gf_mul x x in
  let a2 := sq a in let a4 := sq a2 in let a8 := sq a4 in let a16 := sq a8 in
  let a32 := sq a16 in let a64 := sq a32 in let a128 := sq a64 in
  gf_mul a2 (gf_mul a4 (gf_mul a8 (gf_mul a16 (gf_mul a32 (gf_mul a64 a128))))).

(** Section 5.1.1: b'_i = b_i + b_(i+4) + b_(i+5) + b_(i+6) + b_(i+7) + c_i, indices mod 8,
    c = 0x63. *)
Definition affine_bit (b : Z) (i : Z) : bool :=
  xorb (Z.testbit b i)
    (xorb (Z.testbit b ((i + 4) mod 8))
       (xorb (Z.testbit b ((i + 5) mod 8))
          (xorb (Z.testbit b ((i + 6) mod 8))
             (xorb (Z.testbit b ((i + 7) mod 8)) (Z.testbit 0x63 i))))).

Definition affine (b : Z) : Z :=
  fold_right (fun i acc => Z.lor (if affine_bit b i then Z.shiftl 1 i else 0) acc) 0
    [0; 1; 2; 3; 4; 5; 6; 7].

Definition sbox (b : Z) : Z := affine (gf_inv b).

(** ** Words *)

Definition SubWord (w : Z) : Z :=
  word (sbox (u8 (Z.shiftr w 24))) (sbox (u8 (Z.shiftr w 16)))
       (sbox (u8 (Z.shiftr w 8))) (sbox (u8 w)).

Definition RotWord (w : Z) : Z :=
  word (u8 (Z.shiftr w 16)) (u8 (Z.shiftr w 8)) (u8 w) (u8 (Z.shiftr w 24)).

(** Rcon[j] = [x^(j-1), 0, 0, 0]. *)
Definition Rcon (j : nat) : Z := Z.shiftl (gf_pow 2 (j - 1)) 24.

(** ** Key expansion (Section 5.2) *)

(** The next word of an expansion that so far has the words [w]. *)
Definition next_word (Nk : nat) (w : list Z) : Z :=
  let i := length w in
  let temp := rd w (i - 1) in
  let temp :=
    if Nat.eqb (i mod Nk) 0 then Z.lxor (SubWord (RotWord temp)) (Rcon (i / Nk))
    else if andb (Nat.ltb 6 Nk) (Nat.eqb (i mod Nk) 4) then SubWord temp
    else temp in
  Z.lxor (rd w (i - Nk)) temp.

Definition key_words (Nk : nat) (key : bytes) : list Z :=
  map (fun i => word (rd key (4 * i)) (rd key (4 * i + 1))
                     (rd key (4 * i + 2)) (rd key (4 * i + 3))) (seq 0 Nk).

Fixpoint expand (Nk n : nat) (w : list Z) : list Z :=
  match n with
  | O => w
  | S n' => let w' := expand Nk n' w in w' ++ [next_word Nk w']
  end.

(** Nr = Nk + 6 rounds need 4 (Nr + 1) words. *)
Definition KeyExpansion (Nk : nat) (key : bytes) : list Z :=
  expand Nk (4 * (Nk + 7) - Nk) (key_words Nk key).

(** ** The cipher (Section 5.1) *)

Definition SubBytes (s : bytes) : bytes := map sbox s.

(** s'[r, c] = s[r, (c + r) mod 4]; byte [r + 4 c] of the array is s[r, c]. *)
Definition ShiftRows (s : bytes) : bytes :=
  map (fun i => let r := (i mod 4)%nat in let c := (i / 4)%nat in
                rd s (r + 4 * ((c + r) mod 4))) (seq 0 16).

(** s'[r, c] = 02 s[r, c] + 03 s[r+1, c] + s[r+2, c] + s[r+3, c], rows mod 4. *)
Definition MixColumns (s : bytes) : bytes :=
  map (fun i => let r := (i mod 4)%nat in let c := (i / 4)%nat in
                let a k := rd s ((r + k) mod 4 + 4 * c) in
                Z.lxor (Z.lxor (Z.lxor (gf_mul (a 0%nat) 2) (gf_mul (a 1%nat) 3)) (a 2%nat)) (a 3%nat))
      (seq 0 16).

(** The key of round [k] is the words [4 k .. 4 k + 3]. *)
Definition round_key (w : list Z) (k : nat) : bytes :=
  wbytes (rd w (4 * k)) ++ wbytes (rd w (4 * k + 1)) ++
  wbytes (rd w (4 * k + 2)) ++ wbytes (rd w (4 * k + 3)).

Definition AddRoundKey (s : bytes) (w : list Z) (k : nat) : bytes :=
  xor_bytes s (round_key w k).

Definition full_round (w : list Z) (s : bytes) (k : nat) : bytes :=
  AddRoundKey (MixColumns (ShiftRows (SubBytes s))) w k.

(** Rounds [1 .. n], all with MixColumns. *)
Definition full_rounds (w : list Z) (n : nat) (s : bytes) : bytes :=
  fold_left (full_round w) (seq 1 n) s.

Definition Cipher (Nr : nat) (w : list Z) (input : bytes) : bytes :=
  let s := AddRoundKey input w 0 in
  let s := full_rounds w (Nr - 1) s in
  AddRoundKey (ShiftRows (SubBytes s)) w Nr.

(** Encryption of one block under a key of [4 Nk] bytes. *)
Definition AES (Nk : nat) (key input : bytes) : bytes :=
  Cipher (Nk + 6) (KeyExpansion Nk key) input.

(** ** Facts used by the implementation proofs *)

Lemma length_expand Nk n w : length (expand Nk n w) = (n + length w)%nat.
Proof. induction n as [|n IH]; [reflexivity |]. cbn [expand]. rewrite length_app, IH. simpl. lia. Qed.

Lemma length_key_words Nk key : length (key_words Nk key) = Nk.
Proof. unfold key_words. now rewrite length_map, length_seq. Qed.

(** The S-box is opened by computation only. *)
#[global] Opaque sbox gf_mul gf_pow Rcon.
