(* ===== verification/Aes.v ===== *)
(** * AES, constant-time implementation

    Model of [src/fips/qudo_fips_aes_ct.c] and of the dispatch layer at the top of
    [src/fips/qudo_fips_aes.c].  Words and bytes are [Z] kept at their width; the key
    schedule writes the [rd_key] array through a moving [rk] offset as the code does. *)

From stdpp Require Import base list numbers.
From Stdlib Require Import ZArith Lia ZifyNat Btauto.
From S2P Require Import Prelude Fips197.

#[local] Open Scope Z_scope.

(** The substitution table of [qudo_fips_aes_ct.c]. *)
Definition SBOX : list Z :=
  [ 0x63; 0x7c; 0x77; 0x7b; 0xf2; 0x6b; 0x6f; 0xc5; 0x30; 0x01; 0x67; 0x2b;
    0xfe; 0xd7; 0xab; 0x76; 0xca; 0x82; 0xc9; 0x7d; 0xfa; 0x59; 0x47; 0xf0;
    0xad; 0xd4; 0xa2; 0xaf; 0x9c; 0xa4; 0x72; 0xc0; 0xb7; 0xfd; 0x93; 0x26;
    0x36; 0x3f; 0xf7; 0xcc; 0x34; 0xa5; 0xe5; 0xf1; 0x71; 0xd8; 0x31; 0x15;
    0x04; 0xc7; 0x23; 0xc3; 0x18; 0x96; 0x05; 0x9a; 0x07; 0x12; 0x80; 0xe2;
    0xeb; 0x27; 0xb2; 0x75; 0x09; 0x83; 0x2c; 0x1a; 0x1b; 0x6e; 0x5a; 0xa0;
    0x52; 0x3b; 0xd6; 0xb3; 0x29; 0xe3; 0x2f; 0x84; 0x53; 0xd1; 0x00; 0xed;
    0x20; 0xfc; 0xb1; 0x5b; 0x6a; 0xcb; 0xbe; 0x39; 0x4a; 0x4c; 0x58; 0xcf;
    0xd0; 0xef; 0xaa; 0xfb; 0x43; 0x4d; 0x33; 0x85; 0x45; 0xf9; 0x02; 0x7f;
    0x50; 0x3c; 0x9f; 0xa8; 0x51; 0xa3; 0x40; 0x8f; 0x92; 0x9d; 0x38; 0xf5;
    0xbc; 0xb6; 0xda; 0x21; 0x10; 0xff; 0xf3; 0xd2; 0xcd; 0x0c; 0x13; 0xec;
    0x5f; 0x97; 0x44; 0x17; 0xc4; 0xa7; 0x7e; 0x3d; 0x64; 0x5d; 0x19; 0x73;
    0x60; 0x81; 0x4f; 0xdc; 0x22; 0x2a; 0x90; 0x88; 0x46; 0xee; 0xb8; 0x14;
    0xde; 0x5e; 0x0b; 0xdb; 0xe0; 0x32; 0x3a; 0x0a; 0x49; 0x06; 0x24; 0x5c;
    0xc2; 0xd3; 0xac; 0x62; 0x91; 0x95; 0xe4; 0x79; 0xe7; 0xc8; 0x37; 0x6d;
    0x8d; 0xd5; 0x4e; 0xa9; 0x6c; 0x56; 0xf4; 0xea; 0x65; 0x7a; 0xae; 0x08;
    0xba; 0x78; 0x25; 0x2e; 0x1c; 0xa6; 0xb4; 0xc6; 0xe8; 0xdd; 0x74; 0x1f;
    0x4b; 0xbd; 0x8b; 0x8a; 0x70; 0x3e; 0xb5; 0x66; 0x48; 0x03; 0xf6; 0x0e;
    0x61; 0x35; 0x57; 0xb9; 0x86; 0xc1; 0x1d; 0x9e; 0xe1; 0xf8; 0x98; 0x11;
    0x69; 0xd9; 0x8e; 0x94; 0x9b; 0x1e; 0x87; 0xe9; 0xce; 0x55; 0x28; 0xdf;
    0x8c; 0xa1; 0x89; 0x0d; 0xbf; 0xe6; 0x42; 0x68; 0x41; 0x99; 0x2d; 0x0f;
    0xb0; 0x54; 0xbb; 0x16 ].

(** The round constants. *)
Definition rcon : list Z :=
  [ 0x01000000; 0x02000000; 0x04000000; 0x08000000; 0x10000000;
    0x20000000; 0x40000000; 0x80000000; 0x1b000000; 0x36000000 ].

(** [qudo_aes_key_t]: up to 60 round-key words and the number of rounds. *)
Record qudo_aes_key_t := mk_aes_key { rd_key : list Z; rounds : Z }.

(** [memset(ctx, 0, sizeof( *ctx))]. *)
Definition zero_aes_key : qudo_aes_key_t := mk_aes_key (replicate 60 0) 0.

Definition GETU32 (pt : bytes) (off : nat) : Z :=
  Z.lxor (Z.lxor (Z.lxor (Z.shiftl (rd pt off) 24) (Z.shiftl (rd pt (off + 1)) 16))
                 (Z.shiftl (rd pt (off + 2)) 8)) (rd pt (off + 3)).

Definition PUTU32 (st : Z) : bytes :=
  [ u8 (Z.shiftr st 24); u8 (Z.shiftr st 16); u8 (Z.shiftr st 8); u8 st ].

(** The table scan: every entry is read and masked. *)
Definition ct_sbox (x : Z) : Z :=
  fold_left
    (fun result i =>
       let diff := Z.lxor x (Z.of_nat i) in
       let mask := Z.land (Z.shiftr (u32 (diff - 1)) 8) 0xff in
       Z.lor result (u8 (Z.land (rd SBOX i) mask)))
    (seq 0 256) 0.

Definition ct_subword (x : Z) : Z :=
  Z.lor (Z.lor (Z.lor (Z.shiftl (ct_sbox (u8 (Z.shiftr x 24))) 24)
                      (Z.shiftl (ct_sbox (u8 (Z.shiftr x 16))) 16))
               (Z.shiftl (ct_sbox (u8 (Z.shiftr x 8))) 8))
        (ct_sbox (u8 x)).

Definition ct_rotword (x : Z) : Z := Z.lor (u32 (Z.shiftl x 8)) (Z.shiftr x 24).

(** ** Key schedule

    The loops are shared by the constant-time and the T-table files, which differ only in
    how they compute [SubWord (RotWord temp)] and [SubWord temp]. *)
Section KeySchedule.
Context (subrot subword : Z -> Z) (rc : list Z).

(** One pass of the 128-bit loop; [rk] is the offset of the moving pointer. *)
Definition ks128_pass (rk i : nat) (w : list Z) : list Z :=
  let temp := rd w (rk + 3) in
  let w := wr w (rk + 4) (Z.lxor (Z.lxor (rd w rk) (subrot temp)) (rd rc i)) in
  let w := wr w (rk + 5) (Z.lxor (rd w (rk + 1)) (rd w (rk + 4))) in
  let w := wr w (rk + 6) (Z.lxor (rd w (rk + 2)) (rd w (rk + 5))) in
  wr w (rk + 7) (Z.lxor (rd w (rk + 3)) (rd w (rk + 6))).

Fixpoint ks128_loop (fuel rk i : nat) (w : list Z) : list Z :=
  match fuel with
  | O => w
  | S fuel =>
      let w := ks128_pass rk i w in
      if Nat.eqb (S i) 10 then w else ks128_loop fuel (rk + 4) (S i) w
  end.

Definition ks192_pass (rk i : nat) (w : list Z) : list Z :=
  let temp := rd w (rk + 5) in
  let w := wr w (rk + 6) (Z.lxor (Z.lxor (rd w rk) (subrot temp)) (rd rc i)) in
  let w := wr w (rk + 7) (Z.lxor (rd w (rk + 1)) (rd w (rk + 6))) in
  let w := wr w (rk + 8) (Z.lxor (rd w (rk + 2)) (rd w (rk + 7))) in
  wr w (rk + 9) (Z.lxor (rd w (rk + 3)) (rd w (rk + 8))).

Definition ks192_rest (rk : nat) (w : list Z) : list Z :=
  let w := wr w (rk + 10) (Z.lxor (rd w (rk + 4)) (rd w (rk + 9))) in
  wr w (rk + 11) (Z.lxor (rd w (rk + 5)) (rd w (rk + 10))).

Fixpoint ks192_loop (fuel rk i : nat) (w : list Z) : list Z :=
  match fuel with
  | O => w
  | S fuel =>
      let w := ks192_pass rk i w in
      if Nat.eqb (S i) 8 then w
      else ks192_loop fuel (rk + 6) (S i) (ks192_rest rk w)
  end.

Definition ks256_pass (rk i : nat) (w : list Z) : list Z :=
  let temp := rd w (rk + 7) in
  let w := wr w (rk + 8) (Z.lxor (Z.lxor (rd w rk) (subrot temp)) (rd rc i)) in
  let w := wr w (rk + 9) (Z.lxor (rd w (rk + 1)) (rd w (rk + 8))) in
  let w := wr w (rk + 10) (Z.lxor (rd w (rk + 2)) (rd w (rk + 9))) in
  wr w (rk + 11) (Z.lxor (rd w (rk + 3)) (rd w (rk + 10))).

Definition ks256_rest (rk : nat) (w : list Z) : list Z :=
  let temp := rd w (rk + 11) in
  let w := wr w (rk + 12) (Z.lxor (rd w (rk + 4)) (subword temp)) in
  let w := wr w (rk + 13) (Z.lxor (rd w (rk + 5)) (rd w (rk + 12))) in
  let w := wr w (rk + 14) (Z.lxor (rd w (rk + 6)) (rd w (rk + 13))) in
  wr w (rk + 15) (Z.lxor (rd w (rk + 7)) (rd w (rk + 14))).

Fixpoint ks256_loop (fuel rk i : nat) (w : list Z) : list Z :=
  match fuel with
  | O => w
  | S fuel =>
      let w := ks256_pass rk i w in
      if Nat.eqb (S i) 7 then w
      else ks256_loop fuel (rk + 8) (S i) (ks256_rest rk w)
  end.

(** [rk[j] = GETU32(userKey + 4 j)] for [j] in [lo .. lo + n - 1]. *)
Definition load_words (userKey : bytes) (lo n : nat) (w : list Z) : list Z :=
  fold_left (fun w j => wr w j (GETU32 userKey (4 * j))) (seq lo n) w.

Definition set_encrypt_key (userKey : option bytes) (bits : Z) (key : option qudo_aes_key_t)
  : Z * option qudo_aes_key_t :=
  match userKey, key with
  | None, _ | _, None => (-1, key)
  | Some uk, Some k =>
      if negb (bits =? 128) && negb (bits =? 192) && negb (bits =? 256) then (-2, key)
      else if bits =? 128 then
        (0, Some (mk_aes_key (ks128_loop 10 0 0 (load_words uk 0 4 (rd_key k))) 10))
      else
        let w := load_words uk 0 4 (rd_key k) in
        if bits =? 192 then
          (0, Some (mk_aes_key (ks192_loop 8 0 0 (load_words uk 4 2 w)) 12))
        else
          (0, Some (mk_aes_key (ks256_loop 7 0 0 (load_words uk 4 4 w)) 14))
  end.
End KeySchedule.

Definition ct_subrot (temp : Z) : Z := ct_subword (ct_rotword temp).

Definition qudo_aes_ct_set_encrypt_key := set_encrypt_key ct_subrot ct_subword rcon.

(** ** One block *)

Definition xtime (x : Z) : Z :=
  u8 (Z.lxor (Z.shiftl x 1) (Z.land (Z.shiftr x 7) 1 * 0x1b)).

(** The [tmp] buffer copied back into [state] with the rows rotated. *)
Definition ct_shift_rows (tmp : bytes) : bytes :=
  [ rd tmp 0; rd tmp 5; rd tmp 10; rd tmp 15;
    rd tmp 4; rd tmp 9; rd tmp 14; rd tmp 3;
    rd tmp 8; rd tmp 13; rd tmp 2; rd tmp 7;
    rd tmp 12; rd tmp 1; rd tmp 6; rd tmp 11 ].

Definition ct_mix_column (state : bytes) (c : nat) : bytes :=
  let off := (c * 4)%nat in
  let s0 := rd state off in let s1 := rd state (off + 1) in
  let s2 := rd state (off + 2) in let s3 := rd state (off + 3) in
  let t := Z.lxor (Z.lxor (Z.lxor s0 s1) s2) s3 in
  let state := wr state off (Z.lxor (Z.lxor s0 (xtime (Z.lxor s0 s1))) t) in
  let state := wr state (off + 1) (Z.lxor (Z.lxor s1 (xtime (Z.lxor s1 s2))) t) in
  let state := wr state (off + 2) (Z.lxor (Z.lxor s2 (xtime (Z.lxor s2 s3))) t) in
  wr state (off + 3) (Z.lxor (Z.lxor s3 (xtime (Z.lxor s3 s0))) t).

(** [state[i] ^= ...] for the four words at [rk + 4 round]. *)
Definition ct_add_round_key (rk : list Z) (round : nat) (state : bytes) : bytes :=
  xor_bytes state
    (PUTU32 (rd rk (round * 4)) ++ PUTU32 (rd rk (round * 4 + 1)) ++
     PUTU32 (rd rk (round * 4 + 2)) ++ PUTU32 (rd rk (round * 4 + 3))).

Definition ct_round (rk : list Z) (nr : Z) (state : bytes) (round : nat) : bytes :=
  let tmp := map ct_sbox state in
  let state := ct_shift_rows tmp in
  let state :=
    if Z.of_nat round <? nr then fold_left ct_mix_column [0; 1; 2; 3]%nat state else state in
  ct_add_round_key rk round state.

Definition qudo_aes_ct_encrypt (input : bytes) (key : qudo_aes_key_t) : bytes :=
  let rk := rd_key key in
  let nr := rounds key in
  let w0 := Z.lxor (GETU32 input 0) (rd rk 0) in
  let w1 := Z.lxor (GETU32 input 4) (rd rk 1) in
  let w2 := Z.lxor (GETU32 input 8) (rd rk 2) in
  let w3 := Z.lxor (GETU32 input 12) (rd rk 3) in
  let state := PUTU32 w0 ++ PUTU32 w1 ++ PUTU32 w2 ++ PUTU32 w3 in
  fold_left (ct_round rk nr) (seq 1 (Z.to_nat nr)) state.

(** ** The S-box *)

(** The mask is all ones at the wanted entry and zero elsewhere. *)
Lemma ct_mask x i : is_u8 x -> is_u8 i ->
  Z.land (Z.shiftr (u32 (Z.lxor x i - 1)) 8) 0xff = if x =? i then 0xff else 0.
Proof.
  intros Hx Hi. destruct (Z.eqb_spec x i) as [-> | Hne].
  - rewrite Z.lxor_nilpotent. reflexivity.
  - pose proof (lxor_u8 x i Hx Hi) as Hr.
    assert (Z.lxor x i <> 0) by (intros H0; apply Z.lxor_eq in H0; contradiction).
    unfold is_u8 in Hr. rewrite u32_id by (unfold is_u32; lia).
    rewrite Z.shiftr_div_pow2, Z.div_small by lia. reflexivity.
Qed.

Lemma SBOX_u8 i : is_u8 (rd SBOX i).
Proof.
  apply rd_is_u8. repeat (constructor; [unfold is_u8; lia |]). constructor.
Qed.

Lemma ct_sbox_scan x l acc : is_u8 x -> Forall (fun i => is_u8 (Z.of_nat i)) l ->
  fold_left
    (fun result i =>
       let diff := Z.lxor x (Z.of_nat i) in
       let mask := Z.land (Z.shiftr (u32 (diff - 1)) 8) 0xff in
       Z.lor result (u8 (Z.land (rd SBOX i) mask))) l acc =
  Z.lor acc (if existsb (Nat.eqb (Z.to_nat x)) l then rd SBOX (Z.to_nat x) else 0).
Proof.
  intros Hx. revert acc. induction l as [|i l IH]; intros acc Hl; cbn [fold_left existsb].
  - now rewrite Z.lor_0_r.
  - inversion Hl as [|? ? Hi Hl']; subst. cbv zeta. rewrite IH by exact Hl'.
    rewrite ct_mask by assumption.
    destruct (Z.eqb_spec x (Z.of_nat i)) as [-> | Hne].
    + rewrite Nat2Z.id, Nat.eqb_refl. cbn [orb].
      change (Z.land (rd SBOX i) 255) with (u8 (rd SBOX i)). rewrite !(u8_id (rd SBOX i)) by apply SBOX_u8.
      rewrite <- Z.lor_assoc. f_equal. destruct (existsb (Nat.eqb i) l); [apply Z.lor_diag | apply Z.lor_0_r].
    + rewrite (proj2 (Nat.eqb_neq _ _)) by (unfold is_u8 in Hx; lia). cbn [orb].
      rewrite Z.land_0_r. change (u8 0) with 0. now rewrite Z.lor_0_r.
Qed.

(** The constant-time scan reads exactly the table entry. *)
Lemma ct_sbox_SBOX x : is_u8 x -> ct_sbox x = rd SBOX (Z.to_nat x).
Proof.
  intros Hx. unfold ct_sbox. rewrite ct_sbox_scan; [| exact Hx |].
  - replace (existsb _ _) with true; [apply Z.lor_0_l |]. symmetry. apply existsb_exists.
    exists (Z.to_nat x). split; [| apply Nat.eqb_refl]. apply in_seq. unfold is_u8 in Hx. lia.
  - apply List.Forall_forall. intros i Hi. apply in_seq in Hi. unfold is_u8. lia.
Qed.

Lemma sbox_SBOX x : is_u8 x -> sbox x = rd SBOX (Z.to_nat x).
Proof.
  intros Hx. apply Z.eqb_eq.
  apply (byte_forall (fun x => sbox x =? rd SBOX (Z.to_nat x))); [vm_compute; reflexivity | exact Hx].
Qed.

Lemma ct_sbox_spec x : is_u8 x -> ct_sbox x = sbox x.
Proof. intros Hx. now rewrite ct_sbox_SBOX, sbox_SBOX. Qed.

Lemma sbox_u8 x : is_u8 x -> is_u8 (sbox x).
Proof. intros Hx. rewrite sbox_SBOX by exact Hx. apply SBOX_u8. Qed.
#[export] Hint Resolve sbox_u8 : bits.
#[global] Opaque ct_sbox.

Lemma GETU32_word p off :
  GETU32 p off = word (rd p off) (rd p (off + 1)) (rd p (off + 2)) (rd p (off + 3)).
Proof. reflexivity. Qed.

Lemma PUTU32_wbytes w : PUTU32 w = wbytes w.
Proof. reflexivity. Qed.

Lemma ct_subword_spec x : ct_subword x = SubWord x.
Proof.
  unfold ct_subword, SubWord. rewrite !ct_sbox_spec by apply u8_range.
  apply word_lor; apply sbox_u8, u8_range.
Qed.

Lemma SubWord_u32 x : is_u32 (SubWord x).
Proof. unfold SubWord. apply word_u32; auto with bits. Qed.

Lemma ct_rotword_spec x : is_u32 x -> ct_rotword x = RotWord x.
Proof.
  intros Hx. apply wbytes_inj.
  - unfold ct_rotword. apply (bits_bound 32); [lia | |].
    + apply Z.lor_nonneg. split; [apply u32_range |]. apply Z.shiftr_nonneg.
      unfold is_u32 in Hx. lia.
    + intros i Hi. rewrite Z.lor_spec, (testbit_u32_ge (u32 _)) by (auto with bits).
      rewrite Z.shiftr_spec by lia. rewrite testbit_u32_ge by (assumption || lia). reflexivity.
  - unfold RotWord. apply word_u32; auto with bits.
  - unfold RotWord. rewrite wbytes_word by auto with bits.
    unfold wbytes, ct_rotword. rewrite (shiftr24_u8 x Hx).
    rewrite !Z.shiftr_lor.
    assert (Hhi : forall k, 8 <= k -> Z.shiftr (u8 (Z.shiftr x 24)) k = 0).
    { intros k Hk. apply Z.bits_inj'. intros i Hi. rewrite Z.shiftr_spec, Z.bits_0 by lia.
      apply testbit_u8_ge; [apply u8_range | lia]. }
    rewrite !Hhi by lia.
    rewrite !Z.lor_0_r.
    assert (Hsh : forall k, 8 <= k <= 24 -> u8 (Z.shiftr (u32 (Z.shiftl x 8)) k) = u8 (Z.shiftr x (k - 8))).
    { intros k Hk. unfold u8, u32. apply Z.bits_inj'. intros i Hi.
      rewrite !Z.land_spec, !Z.shiftr_spec, Z.land_spec by lia.
      change 0xff with (Z.ones 8). change 0xffffffff with (Z.ones 32).
      destruct (Z.lt_ge_cases i 8);
        [| rewrite !(Z.ones_spec_high 8) by lia; now rewrite !andb_false_r].
      rewrite !Z.ones_spec_low by lia. rewrite Z.shiftl_spec by lia.
      rewrite !andb_true_r. f_equal. lia. }
    rewrite !Hsh by lia. cbn [Z.sub Z.add Z.opp Z.pos_sub Pos.pred_double Z.pred_double].
    rewrite Z.shiftr_0_r. do 4 f_equal.
    assert (H0 : u8 (u32 (Z.shiftl x 8)) = 0).
    { unfold u8, u32. apply Z.bits_inj'. intros i Hi.
      rewrite !Z.land_spec, Z.shiftl_spec, Z.bits_0 by lia.
      change 0xff with (Z.ones 8).
      destruct (Z.lt_ge_cases i 8);
        [now rewrite Z.testbit_neg_r by lia | rewrite (Z.ones_spec_high 8) by lia; btauto]. }
    unfold u8 at 1. rewrite Z.land_lor_distr_l. fold (u8 (u32 (Z.shiftl x 8))).
    rewrite H0, Z.lor_0_l. change (Z.land ?a 255) with (u8 a). now rewrite ?u8_u8.
Qed.

(** ** The key schedule is FIPS 197's KeyExpansion *)

Lemma rcon_spec i : (i < 10)%nat -> rd rcon i = Rcon (S i).
Proof. intros Hi. do 10 (destruct i as [|i]; [vm_compute; reflexivity |]). lia. Qed.

Lemma length_load_words uk lo n w : length (load_words uk lo n w) = length w.
Proof.
  unfold load_words. revert w. induction (seq lo n) as [|j l IH]; intros w; [reflexivity |].
  cbn [fold_left]. now rewrite IH, length_wr.
Qed.

Lemma take_load_words uk lo n w :
  (lo + n <= length w)%nat ->
  take (lo + n) (load_words uk lo n w) =
  take lo w ++ map (fun j => GETU32 uk (4 * j)) (seq lo n).
Proof.
  induction n as [|n IH]; intros Hlen.
  - rewrite Nat.add_0_r. cbn. now rewrite app_nil_r.
  - unfold load_words in *. rewrite seq_S, fold_left_app, map_app. cbn [fold_left map].
    rewrite Nat.add_succ_r, take_S_wr.
    + rewrite IH by lia. now rewrite app_assoc.
    + fold (load_words uk lo n w). rewrite length_load_words. lia.
Qed.

Lemma GETU32_u32 p off : are_bytes p -> is_u32 (GETU32 p off).
Proof. intros H. rewrite GETU32_word. apply word_u32; auto with bits. Qed.

Lemma key_words_GETU32 Nk key :
  map (fun j => GETU32 key (4 * j)) (seq 0 Nk) = key_words Nk key.
Proof. reflexivity. Qed.

Lemma key_words_u32 Nk key : are_bytes key -> Forall is_u32 (key_words Nk key).
Proof.
  intros Hk. rewrite <- key_words_GETU32. apply List.Forall_map, List.Forall_forall.
  intros j _. now apply GETU32_u32.
Qed.

Section Expansion.
Context (subrot subword : Z -> Z) (rc : list Z) (Nk : nat) (kw : list Z).
Context (Hsubrot : forall x, is_u32 x -> subrot x = SubWord (RotWord x)).
Context (Hsubword : forall x, is_u32 x -> subword x = SubWord x).
Context (Hrc : forall i, (i < 10)%nat -> rd rc i = Rcon (S i)).
Context (HNk : (0 < Nk)%nat).

(** The first [n] words of the array are the expansion, and they are 32-bit words. *)
Definition expanded (n : nat) (w : list Z) : Prop :=
  length w = 60%nat /\ take n w = expand Nk (n - Nk) kw /\ Forall is_u32 (take n w).

Lemma expanded_rd_u32 n w j : expanded n w -> (j < n)%nat -> is_u32 (rd w j).
Proof.
  intros (_ & _ & HF) Hj. rewrite <- (rd_take w n) by exact Hj.
  apply rd_Forall; auto with bits.
Qed.

Lemma expanded_write n w v :
  expanded n w -> (Nk <= n < 60)%nat -> is_u32 v -> v = next_word Nk (take n w) ->
  expanded (S n) (wr w n v).
Proof.
  intros (Hlen & Htake & HF) Hn Hv Hnext. unfold expanded.
  rewrite length_wr, take_S_wr by lia. split; [exact Hlen |]. split.
  - replace (S n - Nk)%nat with (S (n - Nk)) by lia. cbn [expand].
    now rewrite <- Htake, <- Hnext.
  - apply Forall_app. auto.
Qed.

Lemma next_word_rd n w :
  (Nk <= n < 60)%nat -> length w = 60%nat ->
  next_word Nk (take n w) =
    Z.lxor (rd w (n - Nk))
      (if Nat.eqb (n mod Nk) 0 then Z.lxor (SubWord (RotWord (rd w (n - 1)))) (Rcon (n / Nk))
       else if andb (Nat.ltb 6 Nk) (Nat.eqb (n mod Nk) 4) then SubWord (rd w (n - 1))
       else rd w (n - 1)).
Proof.
  intros Hn Hlen. unfold next_word. rewrite length_take, Hlen, Nat.min_l by lia.
  now rewrite !rd_take by lia.
Qed.

Lemma Rcon_u32 j : (0 < j <= 10)%nat -> is_u32 (Rcon j).
Proof.
  intros Hj. destruct j as [|j]; [lia |]. rewrite <- rcon_spec by lia.
  apply rd_Forall; [auto with bits |]. repeat constructor; cbv; discriminate.
Qed.

Lemma expanded_rot n w a b i :
  expanded n w -> (Nk <= n < 60)%nat -> (n mod Nk = 0)%nat -> (n / Nk = S i)%nat -> (i < 10)%nat ->
  a = (n - Nk)%nat -> b = (n - 1)%nat ->
  expanded (S n) (wr w n (Z.lxor (Z.lxor (rd w a) (subrot (rd w b))) (rd rc i))).
Proof.
  intros Hw Hn Hmod Hdiv Hi -> ->.
  pose proof (expanded_rd_u32 n w (n - Nk) Hw ltac:(lia)) as Ha.
  pose proof (expanded_rd_u32 n w (n - 1) Hw ltac:(lia)) as Hb.
  rewrite Hsubrot, Hrc by assumption.
  apply expanded_write; [exact Hw | exact Hn | |].
  - pose proof (SubWord_u32 (RotWord (rd w (n - 1)))).
    pose proof (Rcon_u32 (S i) ltac:(lia)). auto with bits.
  - rewrite next_word_rd by (apply Hw || exact Hn).
    rewrite Hmod, Hdiv. cbn [Nat.eqb]. apply Z.lxor_assoc.
Qed.

Lemma expanded_sub n w a b :
  expanded n w -> (Nk <= n < 60)%nat -> (6 < Nk)%nat -> (n mod Nk = 4)%nat ->
  a = (n - Nk)%nat -> b = (n - 1)%nat ->
  expanded (S n) (wr w n (Z.lxor (rd w a) (subword (rd w b)))).
Proof.
  intros Hw Hn HN Hmod -> ->.
  pose proof (expanded_rd_u32 n w (n - Nk) Hw ltac:(lia)) as Ha.
  pose proof (expanded_rd_u32 n w (n - 1) Hw ltac:(lia)) as Hb.
  rewrite Hsubword by assumption.
  apply expanded_write; [exact Hw | exact Hn | |].
  - pose proof (SubWord_u32 (rd w (n - 1))). auto with bits.
  - rewrite next_word_rd by (apply Hw || exact Hn). rewrite Hmod.
    now rewrite (proj2 (Nat.ltb_lt 6 Nk) HN).
Qed.

Lemma expanded_plain n w a b :
  expanded n w -> (Nk <= n < 60)%nat -> (n mod Nk <> 0)%nat ->
  ((6 < Nk)%nat -> (n mod Nk <> 4)%nat) -> a = (n - Nk)%nat -> b = (n - 1)%nat ->
  expanded (S n) (wr w n (Z.lxor (rd w a) (rd w b))).
Proof.
  intros Hw Hn Hmod Hmod4 -> ->.
  pose proof (expanded_rd_u32 n w (n - Nk) Hw ltac:(lia)) as Ha.
  pose proof (expanded_rd_u32 n w (n - 1) Hw ltac:(lia)) as Hb.
  apply expanded_write; [exact Hw | exact Hn | auto with bits |].
  rewrite next_word_rd by (apply Hw || exact Hn).
  rewrite (proj2 (Nat.eqb_neq _ _) Hmod).
  destruct (Nat.ltb_spec 6 Nk) as [HN |]; [| reflexivity].
  now rewrite (proj2 (Nat.eqb_neq _ _) (Hmod4 HN)).
Qed.
End Expansion.

(** One write of a key-schedule pass: all index conditions are linear. *)
Ltac ks_plain := apply expanded_plain; try lia.

(** Name the index just after the last write of the goal's array. *)
Ltac ks_index n := match goal with |- expanded _ _ ?m _ => replace m with (S n) by lia end.

Section ExpansionLoops.
Context (subrot subword : Z -> Z) (rc : list Z) (kw : list Z).
Context (Hsubrot : forall x, is_u32 x -> subrot x = SubWord (RotWord x)).
Context (Hsubword : forall x, is_u32 x -> subword x = SubWord x).
Context (Hrc : forall i, (i < 10)%nat -> rd rc i = Rcon (S i)).

Lemma ks128_pass_ok i w : (i < 10)%nat ->
  expanded 4 kw (4 * i + 4) w -> expanded 4 kw (4 * i + 8) (ks128_pass subrot rc (4 * i) i w).
Proof.
  intros Hi Hw. unfold ks128_pass. cbv zeta.
  ks_index (4 * i + 7)%nat. ks_plain. ks_index (4 * i + 6)%nat. ks_plain.
  ks_index (4 * i + 5)%nat. ks_plain. ks_index (4 * i + 4)%nat.
  apply expanded_rot; auto; lia.
Qed.

Lemma ks128_loop_ok fuel i w : (i + fuel = 10)%nat -> (0 < fuel)%nat ->
  expanded 4 kw (4 * i + 4) w -> expanded 4 kw 44 (ks128_loop subrot rc fuel (4 * i) i w).
Proof.
  revert i w. induction fuel as [|fuel IH]; intros i w Hi Hpos Hw; [lia |].
  cbn [ks128_loop]. apply ks128_pass_ok in Hw; [| lia].
  destruct (Nat.eqb_spec (S i) 10) as [He | Hne].
  - now replace (4 * i + 8)%nat with 44%nat in Hw by lia.
  - replace (4 * i + 4)%nat with (4 * S i)%nat by lia. apply IH; [lia | lia |].
    now replace (4 * S i + 4)%nat with (4 * i + 8)%nat by lia.
Qed.

Lemma ks192_pass_ok i w : (i < 8)%nat ->
  expanded 6 kw (6 * i + 6) w -> expanded 6 kw (6 * i + 10) (ks192_pass subrot rc (6 * i) i w).
Proof.
  intros Hi Hw. unfold ks192_pass. cbv zeta.
  ks_index (6 * i + 9)%nat. ks_plain. ks_index (6 * i + 8)%nat. ks_plain.
  ks_index (6 * i + 7)%nat. ks_plain. ks_index (6 * i + 6)%nat.
  apply expanded_rot; auto; lia.
Qed.

Lemma ks192_rest_ok i w : (i < 7)%nat ->
  expanded 6 kw (6 * i + 10) w -> expanded 6 kw (6 * i + 12) (ks192_rest (6 * i) w).
Proof.
  intros Hi Hw. unfold ks192_rest. cbv zeta.
  ks_index (6 * i + 11)%nat. ks_plain. ks_index (6 * i + 10)%nat. ks_plain. exact Hw.
Qed.

Lemma ks192_loop_ok fuel i w : (i + fuel = 8)%nat -> (0 < fuel)%nat ->
  expanded 6 kw (6 * i + 6) w -> expanded 6 kw 52 (ks192_loop subrot rc fuel (6 * i) i w).
Proof.
  revert i w. induction fuel as [|fuel IH]; intros i w Hi Hpos Hw; [lia |].
  cbn [ks192_loop]. apply ks192_pass_ok in Hw; [| lia].
  destruct (Nat.eqb_spec (S i) 8) as [He | Hne].
  - now replace (6 * i + 10)%nat with 52%nat in Hw by lia.
  - replace (6 * i + 6)%nat with (6 * S i)%nat by lia. apply IH; [lia | lia |].
    replace (6 * S i + 6)%nat with (6 * i + 12)%nat by lia. apply ks192_rest_ok; [lia | exact Hw].
Qed.

Lemma ks256_pass_ok i w : (i < 7)%nat ->
  expanded 8 kw (8 * i + 8) w -> expanded 8 kw (8 * i + 12) (ks256_pass subrot rc (8 * i) i w).
Proof.
  intros Hi Hw. unfold ks256_pass. cbv zeta.
  ks_index (8 * i + 11)%nat. ks_plain. ks_index (8 * i + 10)%nat. ks_plain.
  ks_index (8 * i + 9)%nat. ks_plain. ks_index (8 * i + 8)%nat.
  apply expanded_rot; auto; lia.
Qed.

Lemma ks256_rest_ok i w : (i < 6)%nat ->
  expanded 8 kw (8 * i + 12) w -> expanded 8 kw (8 * i + 16) (ks256_rest subword (8 * i) w).
Proof.
  intros Hi Hw. unfold ks256_rest. cbv zeta.
  ks_index (8 * i + 15)%nat. ks_plain. ks_index (8 * i + 14)%nat. ks_plain.
  ks_index (8 * i + 13)%nat. ks_plain. ks_index (8 * i + 12)%nat.
  apply expanded_sub; auto; lia.
Qed.

Lemma ks256_loop_ok fuel i w : (i + fuel = 7)%nat -> (0 < fuel)%nat ->
  expanded 8 kw (8 * i + 8) w -> expanded 8 kw 60 (ks256_loop subrot subword rc fuel (8 * i) i w).
Proof.
  revert i w. induction fuel as [|fuel IH]; intros i w Hi Hpos Hw; [lia |].
  cbn [ks256_loop]. apply ks256_pass_ok in Hw; [| lia].
  destruct (Nat.eqb_spec (S i) 7) as [He | Hne].
  - now replace (8 * i + 12)%nat with 60%nat in Hw by lia.
  - replace (8 * i + 8)%nat with (8 * S i)%nat by lia. apply IH; [lia | lia |].
    replace (8 * S i + 8)%nat with (8 * i + 16)%nat by lia. apply ks256_rest_ok; [lia | exact Hw].
Qed.
End ExpansionLoops.

(** The array after the key bytes are loaded. *)
Lemma expanded_load_low Nk key w :
  (Nk <= 60)%nat -> are_bytes key -> length w = 60%nat ->
  expanded Nk (key_words Nk key) Nk (load_words key 0 Nk w).
Proof.
  intros HNk Hkey Hlen. pose proof (take_load_words key 0 Nk w ltac:(lia)) as Ht.
  cbn [plus take app] in Ht. rewrite key_words_GETU32 in Ht.
  unfold expanded. rewrite length_load_words, Ht, Nat.sub_diag.
  repeat split; [exact Hlen | now apply key_words_u32].
Qed.

Lemma load_words_split key n m w :
  load_words key n m (load_words key 0 n w) = load_words key 0 (n + m) w.
Proof. unfold load_words. now rewrite seq_app, fold_left_app. Qed.

(** The number of key words for a key size in bits. *)
Definition Nk_of_bits (bits : Z) : nat := Z.to_nat (bits / 32).

Section ScheduleCorrect.
Context (subrot subword : Z -> Z) (rc : list Z).
Context (Hsubrot : forall x, is_u32 x -> subrot x = SubWord (RotWord x)).
Context (Hsubword : forall x, is_u32 x -> subword x = SubWord x).
Context (Hrc : forall i, (i < 10)%nat -> rd rc i = Rcon (S i)).

(** For each of the three key sizes the schedule succeeds, sets Nr = Nk + 6 rounds, and the
    array holds the FIPS 197 expansion. *)
Lemma set_encrypt_key_ok key bits k0 :
  bits = 128 \/ bits = 192 \/ bits = 256 -> are_bytes key -> length (rd_key k0) = 60%nat ->
  exists k, set_encrypt_key subrot subword rc (Some key) bits (Some k0) = (0, Some k) /\
    rounds k = Z.of_nat (Nk_of_bits bits + 6) /\ length (rd_key k) = 60%nat /\
    take (4 * (Nk_of_bits bits + 7)) (rd_key k) = KeyExpansion (Nk_of_bits bits) key /\
    Forall is_u32 (KeyExpansion (Nk_of_bits bits) key).
Proof.
  intros Hbits Hkey Hlen.
  assert (Hfin : forall Nk w, expanded Nk (key_words Nk key) (4 * (Nk + 7)) w ->
    length w = 60%nat /\ take (4 * (Nk + 7)) w = KeyExpansion Nk key /\
    Forall is_u32 (KeyExpansion Nk key)).
  { intros Nk w (Hl & Ht & HF). unfold KeyExpansion. rewrite <- Ht. auto. }
  destruct Hbits as [-> | [-> | ->]]; cbn -[ks128_loop ks192_loop ks256_loop load_words KeyExpansion take];
    eexists; (split; [reflexivity |]); (split; [reflexivity |]); apply Hfin.
  - apply (ks128_loop_ok subrot rc _ Hsubrot Hrc 10 0); [lia | lia |].
    apply expanded_load_low; [lia | assumption | assumption].
  - rewrite load_words_split.
    apply (ks192_loop_ok subrot rc _ Hsubrot Hrc 8 0); [lia | lia |].
    apply expanded_load_low; [lia | assumption | assumption].
  - rewrite load_words_split.
    apply (ks256_loop_ok subrot subword rc _ Hsubrot Hsubword Hrc 7 0); [lia | lia |].
    apply expanded_load_low; [lia | assumption | assumption].
Qed.

Lemma set_encrypt_key_bad_bits key bits k0 :
  bits <> 128 -> bits <> 192 -> bits <> 256 ->
  set_encrypt_key subrot subword rc (Some key) bits (Some k0) = (-2, Some k0).
Proof.
  intros H1 H2 H3. unfold set_encrypt_key.
  now rewrite !(proj2 (Z.eqb_neq _ _)) by assumption.
Qed.
End ScheduleCorrect.

Lemma ct_subrot_spec x : is_u32 x -> ct_subrot x = SubWord (RotWord x).
Proof. intros Hx. unfold ct_subrot. now rewrite ct_subword_spec, ct_rotword_spec. Qed.

(** ** One round *)

(** A 16-byte list as its 16 elements. *)
Ltac destruct16 s H :=
  do 16 (destruct s as [|? s]; [discriminate H |]); destruct s; [clear H | discriminate H].

Lemma xtime_u8 x : is_u8 (xtime x).
Proof. apply u8_range. Qed.
#[export] Hint Resolve xtime_u8 : bits.

Lemma xtime_alt x :
  xtime x = u8 (Z.lxor (Z.shiftl x 1) (if Z.testbit x 7 then 0x1b else 0)).
Proof.
  assert (Hb : Z.land (Z.shiftr x 7) 1 = Z.b2z (Z.testbit x 7)).
  { change 1 with (Z.ones 1). rewrite Z.land_ones by lia. change (2 ^ 1) with 2.
    rewrite <- Z.bit0_mod, Z.shiftr_spec by lia. reflexivity. }
  unfold xtime. rewrite Hb. now destruct (Z.testbit x 7).
Qed.

(** Doubling is linear. *)
Lemma xtime_lxor a b : xtime (Z.lxor a b) = Z.lxor (xtime a) (xtime b).
Proof.
  rewrite !xtime_alt, Z.lxor_spec, Z.shiftl_lxor. unfold u8.
  destruct (Z.testbit a 7), (Z.testbit b 7); cbn [xorb]; rewrite ?Z.lxor_0_r; zbits.
Qed.

Lemma gf_mul_2 x : is_u8 x -> gf_mul x 2 = xtime x.
Proof.
  intros Hx. apply (byte_forall (fun x => gf_mul x 2 =? xtime x)) in Hx;
    [now apply Z.eqb_eq in Hx | vm_compute; reflexivity].
Qed.

Lemma gf_mul_3 x : is_u8 x -> gf_mul x 3 = Z.lxor (xtime x) x.
Proof.
  intros Hx. apply (byte_forall (fun x => gf_mul x 3 =? Z.lxor (xtime x) x)) in Hx;
    [now apply Z.eqb_eq in Hx | vm_compute; reflexivity].
Qed.

Lemma ct_shift_rows_spec s : length s = 16%nat -> ct_shift_rows s = ShiftRows s.
Proof. intros H. destruct16 s H. reflexivity. Qed.

Lemma length_ShiftRows s : length (ShiftRows s) = 16%nat.
Proof. reflexivity. Qed.

Lemma length_MixColumns s : length (MixColumns s) = 16%nat.
Proof. reflexivity. Qed.

Lemma length_SubBytes s : length (SubBytes s) = length s.
Proof. apply length_map. Qed.

Lemma SubBytes_u8 s : are_bytes s -> are_bytes (SubBytes s).
Proof.
  intros H. apply List.Forall_map. eapply List.Forall_impl; [| exact H].
  intros x Hx. now apply sbox_u8.
Qed.

Lemma ShiftRows_u8 s : are_bytes s -> are_bytes (ShiftRows s).
Proof. intros H. apply List.Forall_map, List.Forall_forall. intros i _. now apply rd_is_u8. Qed.

Lemma MixColumns_u8 s : are_bytes s -> are_bytes (MixColumns s).
Proof.
  intros H. apply List.Forall_map, List.Forall_forall. intros i _. cbv beta zeta.
  rewrite gf_mul_2, gf_mul_3 by auto with bits. auto 8 with bits.
Qed.

Lemma round_key_u8 w k : are_bytes (round_key w k).
Proof. unfold round_key. repeat apply Forall_app_2; apply wbytes_u8. Qed.

Lemma length_AddRoundKey s w k : length s = 16%nat -> length (AddRoundKey s w k) = 16%nat.
Proof. intros H. unfold AddRoundKey, xor_bytes. rewrite length_zip_with, H. reflexivity. Qed.

Lemma AddRoundKey_u8 s w k : are_bytes s -> are_bytes (AddRoundKey s w k).
Proof. intros H. apply xor_bytes_u8; [exact H | apply round_key_u8]. Qed.

Lemma ct_mix_columns_spec s :
  length s = 16%nat -> are_bytes s ->
  fold_left ct_mix_column [0; 1; 2; 3]%nat s = MixColumns s.
Proof.
  intros H Hs. destruct16 s H.
  repeat match goal with H : are_bytes (_ :: _) |- _ => inversion H; subst; clear H
         | H : Forall _ (_ :: _) |- _ => inversion H; subst; clear H end.
  cbv [fold_left ct_mix_column rd wr nth insert list_insert Nat.mul Nat.add
       MixColumns map seq Nat.modulo Nat.div Nat.divmod Nat.sub fst snd].
  rewrite !gf_mul_2, !gf_mul_3 by assumption. rewrite !xtime_lxor.
  repeat match goal with |- _ :: _ = _ :: _ => apply f_equal2; [zbits |] end. reflexivity.
Qed.

(** ** The block cipher *)

Section Encrypt.
Context (rk w : list Z) (Nr : nat).
Context (Hrk : take (4 * (Nr + 1)) rk = w).

Lemma rk_word j : (j < 4 * (Nr + 1))%nat -> rd rk j = rd w j.
Proof. intros Hj. rewrite <- Hrk. now rewrite rd_take. Qed.

Lemma ct_add_round_key_spec s k : (k <= Nr)%nat ->
  ct_add_round_key rk k s = AddRoundKey s w k.
Proof.
  intros Hk. unfold ct_add_round_key, AddRoundKey, round_key.
  rewrite !PUTU32_wbytes, !rk_word, (Nat.mul_comm k 4) by lia. reflexivity.
Qed.

Lemma map_ct_sbox s : are_bytes s -> map ct_sbox s = SubBytes s.
Proof.
  intros Hs. apply map_ext_in. intros x Hx. apply ct_sbox_spec.
  unfold are_bytes in Hs. rewrite List.Forall_forall in Hs. auto.
Qed.

(** What each round keeps of the state. *)
Definition block (s : bytes) : Prop := length s = 16%nat /\ are_bytes s.

Lemma full_round_block s k : block s -> block (full_round w s k).
Proof.
  intros [Hl Hs]. split.
  - apply length_AddRoundKey, length_MixColumns.
  - apply AddRoundKey_u8, MixColumns_u8, ShiftRows_u8, SubBytes_u8, Hs.
Qed.

Lemma ct_round_full s k : block s -> (k < Nr)%nat ->
  ct_round rk (Z.of_nat Nr) s k = full_round w s k.
Proof.
  intros [Hl Hs] Hk. unfold ct_round. rewrite (proj2 (Z.ltb_lt _ _)) by lia.
  rewrite map_ct_sbox, ct_shift_rows_spec by (rewrite ?length_SubBytes; assumption).
  rewrite ct_mix_columns_spec, ct_add_round_key_spec;
    [reflexivity | lia | apply length_ShiftRows | apply ShiftRows_u8, SubBytes_u8, Hs].
Qed.

Lemma ct_round_last s : block s ->
  ct_round rk (Z.of_nat Nr) s Nr = AddRoundKey (ShiftRows (SubBytes s)) w Nr.
Proof.
  intros [Hl Hs]. unfold ct_round. rewrite Z.ltb_irrefl.
  rewrite map_ct_sbox, ct_shift_rows_spec by (rewrite ?length_SubBytes; assumption).
  apply ct_add_round_key_spec. lia.
Qed.

Lemma ct_rounds_full n s : block s -> (n < Nr)%nat ->
  fold_left (ct_round rk (Z.of_nat Nr)) (seq 1 n) s = full_rounds w n s /\
  block (full_rounds w n s).
Proof.
  intros Hs. induction n as [|n IH]; intros Hn; [now split |].
  unfold full_rounds in *. rewrite seq_S, !fold_left_app. cbn [fold_left].
  destruct IH as [-> Hb]; [lia |].
  split; [apply ct_round_full; [exact Hb | lia] | now apply full_round_block].
Qed.

Lemma initial_state input : block input ->
  PUTU32 (Z.lxor (GETU32 input 0) (rd rk 0)) ++ PUTU32 (Z.lxor (GETU32 input 4) (rd rk 1)) ++
  PUTU32 (Z.lxor (GETU32 input 8) (rd rk 2)) ++ PUTU32 (Z.lxor (GETU32 input 12) (rd rk 3))
  = AddRoundKey input w 0.
Proof.
  intros [Hl Hs]. rewrite !PUTU32_wbytes, !wbytes_lxor, !GETU32_word.
  rewrite !wbytes_word by auto with bits. rewrite !rk_word by lia.
  unfold AddRoundKey, round_key. destruct16 input Hl. reflexivity.
Qed.

Lemma AddRoundKey_block s k : block s -> block (AddRoundKey s w k).
Proof. intros [Hl Hs]. split; [now apply length_AddRoundKey | now apply AddRoundKey_u8]. Qed.

Lemma ct_encrypt_Cipher input : block input -> (0 < Nr)%nat ->
  qudo_aes_ct_encrypt input (mk_aes_key rk (Z.of_nat Nr)) = Cipher Nr w input.
Proof.
  intros Hin HNr. unfold qudo_aes_ct_encrypt, Cipher. cbn [rd_key rounds].
  rewrite initial_state by exact Hin. rewrite Nat2Z.id.
  replace (seq 1 Nr) with (seq 1 (Nr - 1) ++ [Nr])
    by (replace Nr with (S (Nr - 1)) at 3 by lia; rewrite seq_S; do 2 f_equal; lia).
  rewrite fold_left_app. cbn [fold_left].
  destruct (ct_rounds_full (Nr - 1) (AddRoundKey input w 0)) as [-> Hb];
    [now apply AddRoundKey_block | lia |].
  now apply ct_round_last.
Qed.
End Encrypt.

(** ** Implementations of AES behind the dispatcher

    [qudo_fips_aes.c] calls one of two implementations through the same two entry points.
    [AesImpl] is that pair, and [AesImplOk] what the callers (the DRBG) rely on. *)

Class AesImpl := {
  aes_set_encrypt_key : option bytes -> Z -> option qudo_aes_key_t -> Z * option qudo_aes_key_t;
  aes_encrypt : bytes -> qudo_aes_key_t -> bytes
}.

Definition valid_bits (bits : Z) : Prop := bits = 128 \/ bits = 192 \/ bits = 256.

Class AesImplOk (I : AesImpl) : Prop := {
  aes_impl_ok : forall key bits k0,
    valid_bits bits -> are_bytes key -> Z.of_nat (length key) * 8 = bits ->
    length (rd_key k0) = 60%nat ->
    exists k, aes_set_encrypt_key (Some key) bits (Some k0) = (0, Some k) /\
      length (rd_key k) = 60%nat /\
      forall input, block input -> aes_encrypt input k = AES (Nk_of_bits bits) key input
}.

(** The portable implementation. *)
Definition AesCt : AesImpl := {|
  aes_set_encrypt_key := qudo_aes_ct_set_encrypt_key;
  aes_encrypt := qudo_aes_ct_encrypt
|}.

Lemma Nk_pos bits : valid_bits bits -> (4 <= Nk_of_bits bits)%nat.
Proof. intros [-> | [-> | ->]]; vm_compute; lia. Qed.

#[export] Instance AesCtOk : AesImplOk AesCt.
Proof.
  constructor. intros key bits k0 Hbits Hkey _ Hlen.
  destruct (set_encrypt_key_ok ct_subrot ct_subword rcon ct_subrot_spec
              (fun x _ => ct_subword_spec x) rcon_spec key bits k0 Hbits Hkey Hlen)
    as (k & Hset & Hr & Hl & Htake & _).
  exists k. split; [exact Hset |]. split; [exact Hl |]. intros input Hin.
  destruct k as [rk nr]. cbn [rd_key rounds] in *. subst nr.
  apply ct_encrypt_Cipher; [| exact Hin | lia].
  now replace (Nk_of_bits bits + 6 + 1)%nat with (Nk_of_bits bits + 7)%nat by lia.
Qed.

(** ** The dispatcher *)
Section Dispatch.
(** [QUDO_AES_HAS_NI_COMPILE], the CPUID answer, and the two implementations. *)
Context (has_ni_compile detect_aesni : bool) (ni ct : AesImpl).

Definition qudo_aes_init_dispatch (g : Z) : Z :=
  if negb (g =? 0) then g
  else if has_ni_compile && detect_aesni then 1 else 2.

Definition qudo_aes_set_encrypt_key (g : Z) (key : option bytes) (bits : Z)
    (ctx : option qudo_aes_key_t) : Z * option qudo_aes_key_t * Z :=
  match key, ctx with
  | None, _ | _, None => (-1, ctx, g)
  | Some _, Some _ =>
      if negb (bits =? 128) && negb (bits =? 192) && negb (bits =? 256) then (-2, ctx, g)
      else
        let ctx := Some zero_aes_key in
        let g := qudo_aes_init_dispatch g in
        if has_ni_compile && (g =? 1)
        then (@aes_set_encrypt_key ni key bits ctx, g)
        else (@aes_set_encrypt_key ct key bits ctx, g)
  end.

Definition qudo_aes_encrypt (g : Z) (input : bytes) (key : qudo_aes_key_t) : bytes * Z :=
  let g := qudo_aes_init_dispatch g in
  if has_ni_compile && (g =? 1) then (@aes_encrypt ni input key, g)
  else (@aes_encrypt ct input key, g).
End Dispatch.

(** ** Properties *)

(** C10. The constant-time implementation computes the FIPS 197 cipher: for each of the three
    key sizes the key schedule succeeds on a 60-word key structure, whatever it held before, and
    encrypting any block with the resulting schedule gives the standard's output.  The S-box scan,
    the key-schedule loops, ShiftRows, MixColumns and the round loop are all covered. *)
Theorem aes_ct_fips197 (key : bytes) (bits : Z) (k0 : qudo_aes_key_t) (input : bytes)
  (Hbits : valid_bits bits) (Hkey : are_bytes key) (Hlen : Z.of_nat (length key) * 8 = bits)
  (Hk0 : length (rd_key k0) = 60%nat) (Hin : block input) :
  exists k, qudo_aes_ct_set_encrypt_key (Some key) bits (Some k0) = (0, Some k) /\
            rounds k = bits / 32 + 6 /\
            take (4 * (Nk_of_bits bits + 7)) (rd_key k) = KeyExpansion (Nk_of_bits bits) key /\
            qudo_aes_ct_encrypt input k = AES (Nk_of_bits bits) key input.
Proof.
  destruct (set_encrypt_key_ok ct_subrot ct_subword rcon ct_subrot_spec
              (fun x _ => ct_subword_spec x) rcon_spec key bits k0 Hbits Hkey Hk0)
    as (k & Hset & Hr & _ & Htake & _).
  exists k. split; [exact Hset |]. split; [| split; [exact Htake |]].
  - rewrite Hr. destruct Hbits as [-> | [-> | ->]]; reflexivity.
  - destruct (@aes_impl_ok AesCt AesCtOk key bits k0 Hbits Hkey Hlen Hk0) as (k' & Hset' & _ & Henc).
    change (qudo_aes_ct_set_encrypt_key (Some key) bits (Some k0) = (0, Some k')) in Hset'.
    unfold qudo_aes_ct_set_encrypt_key in Hset'. rewrite Hset in Hset'.
    injection Hset' as <-. exact (Henc input Hin).
Qed.

(** The FIPS 197 Appendix C.3 example. *)
Definition fips197_c3_key : bytes := map Z.of_nat (seq 0 32).
Definition fips197_c3_pt : bytes := map (fun i => Z.of_nat i * 17) (seq 0 16).
Definition fips197_c3_ct : bytes :=
  [0x8e; 0xa2; 0xb7; 0xca; 0x51; 0x67; 0x45; 0xbf; 0xea; 0xfc; 0x49; 0x90; 0x4b; 0x49; 0x60; 0x89].

Lemma aes_ct_fips197_witness :
  exists k, qudo_aes_ct_set_encrypt_key (Some fips197_c3_key) 256 (Some zero_aes_key) = (0, Some k) /\
            rounds k = 14 /\ take 60 (rd_key k) = KeyExpansion 8 fips197_c3_key /\
            qudo_aes_ct_encrypt fips197_c3_pt k = AES 8 fips197_c3_key fips197_c3_pt.
Proof.
  apply (aes_ct_fips197 fips197_c3_key 256 zero_aes_key fips197_c3_pt).
  - right; right; reflexivity.
  - apply is_u8_dec_list. vm_compute. reflexivity.
  - vm_compute. reflexivity.
  - vm_compute. reflexivity.
  - split; [vm_compute; reflexivity | apply is_u8_dec_list; vm_compute; reflexivity].
Defined.

(** The standard's published ciphertext. *)
Example aes_fips197_kat : AES 8 fips197_c3_key fips197_c3_pt = fips197_c3_ct.
Proof. vm_compute. reflexivity. Qed.

(** The dispatcher is transparent: from any value of [g_aes_dispatch], with any pair of
    correct implementations and whatever the CPU answers, keying a context and then encrypting
    gives the FIPS 197 output, and the choice made at keying time is the one used by (and not
    changed by) every later encryption. *)
Theorem aes_dispatch_transparent (has_ni detect : bool) (ni ct : AesImpl)
  (Hni : AesImplOk ni) (Hct : AesImplOk ct)
  (g bits : Z) (key : bytes) (k0 : qudo_aes_key_t) (input : bytes)
  (Hbits : valid_bits bits) (Hkey : are_bytes key) (Hlen : Z.of_nat (length key) * 8 = bits)
  (Hin : block input) :
  exists k g', qudo_aes_set_encrypt_key has_ni detect ni ct g (Some key) bits (Some k0)
                 = ((0, Some k), g') /\
               qudo_aes_init_dispatch has_ni detect g' = g' /\ g' <> 0 /\
               qudo_aes_encrypt has_ni detect ni ct g' input k
                 = (AES (Nk_of_bits bits) key input, g').
Proof.
  set (g' := qudo_aes_init_dispatch has_ni detect g).
  assert (Hg0 : g' <> 0).
  { subst g'. unfold qudo_aes_init_dispatch. destruct (Z.eqb_spec g 0); cbn; [| assumption].
    destruct (has_ni && detect); lia. }
  assert (Hid : qudo_aes_init_dispatch has_ni detect g' = g').
  { unfold qudo_aes_init_dispatch. now rewrite (proj2 (Z.eqb_neq g' 0) Hg0). }
  assert (Hb : negb (bits =? 128) && negb (bits =? 192) && negb (bits =? 256) = false)
    by (destruct Hbits as [-> | [-> | ->]]; reflexivity).
  unfold qudo_aes_set_encrypt_key, qudo_aes_encrypt. rewrite Hb. fold g'.
  destruct (has_ni && (g' =? 1)) eqn:Hsel.
  - destruct (@aes_impl_ok ni Hni key bits zero_aes_key Hbits Hkey Hlen eq_refl) as (k & -> & _ & He).
    exists k, g'. rewrite Hid, Hsel, He by exact Hin. auto.
  - destruct (@aes_impl_ok ct Hct key bits zero_aes_key Hbits Hkey Hlen eq_refl) as (k & -> & _ & He).
    exists k, g'. rewrite Hid, Hsel, He by exact Hin. auto.
Qed.

Lemma aes_dispatch_transparent_witness :
  exists k g', qudo_aes_set_encrypt_key true false AesCt AesCt 0 (Some fips197_c3_key) 256
                 (Some zero_aes_key) = ((0, Some k), g') /\
               qudo_aes_init_dispatch true false g' = g' /\ g' <> 0 /\
               qudo_aes_encrypt true false AesCt AesCt g' fips197_c3_pt k
                 = (AES 8 fips197_c3_key fips197_c3_pt, g').
Proof.
  apply (aes_dispatch_transparent true false AesCt AesCt AesCtOk AesCtOk 0 256).
  - right; right; reflexivity.
  - apply is_u8_dec_list. vm_compute. reflexivity.
  - vm_compute. reflexivity.
  - split; [vm_compute; reflexivity | apply is_u8_dec_list; vm_compute; reflexivity].
Defined.
