(* ===== verification/Fips180.v ===== *)
(** * FIPS 180-4 reference SHA-256

    The hash as Sections 4 to 6 of the standard define it: functions, constants, padding,
    message schedule and compression, on big-endian words.  [Sha256] shows the streaming
    code computes it. *)

From stdpp Require Import base list numbers.
From Stdlib Require Import ZArith Lia.
From S2P Require Import Prelude.

#[local] Open Scope Z_scope.

(** ** Functions (4.1.2) *)

Definition add32 (x y : Z) : Z := u32 (x + y).
Definition ROTR (n x : Z) : Z := Z.lor (Z.shiftr x n) (u32 (Z.shiftl x (32 - n))).
Definition SHR (n x : Z) : Z := Z.shiftr x n.

(** [Z.ldiff z x] is (not x) and z. *)
Definition Ch (x y z : Z) : Z := Z.lxor (Z.land x y) (Z.ldiff z x).
Definition Maj (x y z : Z) : Z := Z.lxor (Z.lxor (Z.land x y) (Z.land x z)) (Z.land y z).
Definition Sigma0 (x : Z) : Z := Z.lxor (Z.lxor (ROTR 2 x) (ROTR 13 x)) (ROTR 22 x).
Definition Sigma1 (x : Z) : Z := Z.lxor (Z.lxor (ROTR 6 x) (ROTR 11 x)) (ROTR 25 x).
Definition sigma0 (x : Z) : Z := Z.lxor (Z.lxor (ROTR 7 x) (ROTR 18 x)) (SHR 3 x).
Definition sigma1 (x : Z) : Z := Z.lxor (Z.lxor (ROTR 17 x) (ROTR 19 x)) (SHR 10 x).

(** ** Constants (4.2.2, 5.3.3) *)

(** The constants are the first 32 bits of the fractional parts of the cube roots (for [K]) and of the square
    roots (for [H]) of the first primes: with [r] the integer root of [p * 2 ^ (32 k)], the [k]-th root of [p]
    is [r / 2 ^ 32], so the bits are the low word of [r]. *)
Definition is_prime (n : Z) : bool :=
  forallb (fun d => negb (n mod Z.of_nat d =? 0)) (seq 2 (Z.to_nat n - 2)).

Definition primes (n : nat) : list Z := take n (List.filter is_prime (map Z.of_nat (seq 2 310))).

(** The largest [r < 2 ^ bits] extending [acc] with [r ^ k <= n], found bit by bit. *)
Fixpoint root_bits (bits : nat) (k n acc : Z) : Z :=
  match bits with
  | O => acc
  | S b => let r := acc + 2 ^ Z.of_nat b in root_bits b k n (if r ^ k <=? n then r else acc)
  end.

Definition frac_root (k p : Z) : Z := u32 (root_bits 37 k (p * 2 ^ (32 * k)) 0).

Definition K256 : list Z := Eval vm_compute in map (frac_root 3) (primes 64).

Definition H256 : list Z := Eval vm_compute in map (frac_root 2) (primes 8).

(** ** Compression (6.2.2) *)

Definition next_W (W : list Z) : Z :=
  let t := length W in
  u32 (sigma1 (rd W (t - 2)) + rd W (t - 7) + sigma0 (rd W (t - 15)) + rd W (t - 16)).

(** The message schedule: [n] words after the 16 words of the block. *)
Fixpoint schedule (n : nat) (M : list Z) : list Z :=
  match n with
  | O => M
  | S n' => let W := schedule n' M in W ++ [next_W W]
  end.

Definition st8 : Type := Z * Z * Z * Z * Z * Z * Z * Z.

Definition round (s : st8) (W K : Z) : st8 :=
  let '(a, b, c, d, e, f, g, h) := s in
  let T1 := u32 (h + Sigma1 e + Ch e f g + K + W) in
  let T2 := u32 (Sigma0 a + Maj a b c) in
  (u32 (T1 + T2), a, b, c, u32 (d + T1), e, f, g).

Definition rounds_from (W : list Z) (t n : nat) (s : st8) : st8 :=
  fold_left (fun s t => round s (rd W t) (rd K256 t)) (seq t n) s.

Definition to_st8 (H : list Z) : st8 :=
  (rd H 0, rd H 1, rd H 2, rd H 3, rd H 4, rd H 5, rd H 6, rd H 7).

Definition of_st8 (s : st8) : list Z :=
  let '(a, b, c, d, e, f, g, h) := s in [a; b; c; d; e; f; g; h].

Definition compress (H M : list Z) : list Z :=
  zip_with add32 (of_st8 (rounds_from (schedule 48 M) 0 64 (to_st8 H))) H.

(** ** Bytes and blocks *)

Definition be_words (n : nat) (l : bytes) : list Z :=
  map (fun i => word (rd l (4 * i)) (rd l (4 * i + 1)) (rd l (4 * i + 2)) (rd l (4 * i + 3))) (seq 0 n).

Definition words_be (ws : list Z) : bytes := concat (map wbytes ws).

(** Compression on the 32-byte chaining value and the 64-byte block. *)
Definition compress_bytes (h blk : bytes) : bytes :=
  words_be (compress (be_words 8 h) (be_words 16 blk)).

(** The first [n] blocks of [m]. *)
Fixpoint hash_blocks (n : nat) (h m : bytes) : bytes :=
  match n with
  | O => h
  | S n' => hash_blocks n' (compress_bytes h (take 64 m)) (drop 64 m)
  end.

(** Padding (5.1.1): a 1 bit, zeros, the 64-bit length in bits. *)
Definition pad (m : bytes) : bytes :=
  m ++ [0x80] ++ zeros ((119 - length m mod 64) mod 64) ++ Z_to_be 8 (8 * Z.of_nat (length m)).

Definition SHA256 (m : bytes) : bytes :=
  hash_blocks (length (pad m) / 64) (words_be H256) (pad m).

(** ** Facts *)

Lemma length_words_be ws : length (words_be ws) = (4 * length ws)%nat.
Proof. unfold words_be. induction ws as [|w ws IH]; [reflexivity |]. cbn -[Nat.mul]. rewrite IH. lia. Qed.

Lemma length_of_st8 s : length (of_st8 s) = 8%nat.
Proof. now destruct s as [[[[[[[a b] c] d] e] f] g] h]. Qed.

Lemma length_compress_bytes h blk : length (compress_bytes h blk) = 32%nat.
Proof.
  unfold compress_bytes, compress. rewrite length_words_be, length_zip_with, length_of_st8. reflexivity.
Qed.

Lemma length_hash_blocks n h m : length h = 32%nat -> length (hash_blocks n h m) = 32%nat.
Proof.
  revert h m. induction n as [|n IH]; intros h m Hh; [exact Hh |].
  cbn [hash_blocks]. apply IH, length_compress_bytes.
Qed.

Lemma hash_blocks_add a b h m :
  hash_blocks (a + b) h m = hash_blocks b (hash_blocks a h m) (drop (64 * a) m).
Proof.
  revert h m. induction a as [|a IH]; intros h m; [reflexivity |].
  cbn [plus hash_blocks]. rewrite IH, drop_drop. do 2 f_equal. lia.
Qed.

(** Blocks past the [n]-th do not matter. *)
Lemma hash_blocks_app n h m x :
  (64 * n <= length m)%nat -> hash_blocks n h (m ++ x) = hash_blocks n h m.
Proof.
  revert h m. induction n as [|n IH]; intros h m Hlen; [reflexivity |].
  cbn [hash_blocks]. rewrite take_app_le, drop_app_le by lia. apply IH.
  rewrite length_drop. lia.
Qed.

Lemma length_pad m : (length (pad m) mod 64 = 0)%nat.
Proof.
  unfold pad, zeros. rewrite !length_app, length_replicate, length_Z_to_be. cbn [length].
  pose proof (Nat.mod_upper_bound (length m) 64 ltac:(lia)).
  pose proof (Nat.div_mod_eq (length m) 64) as Hd.
  destruct (Nat.le_gt_cases (length m mod 64) 55) as [Hle | Hgt].
  - replace ((119 - length m mod 64) mod 64)%nat with (55 - length m mod 64)%nat.
    + rewrite Hd at 1. replace (64 * (length m / 64) + length m mod 64 + (1 + (55 - length m mod 64 + 8)))%nat
        with ((length m / 64 + 1) * 64)%nat by lia. apply Nat.Div0.mod_mul.
    + replace (119 - length m mod 64)%nat with (55 - length m mod 64 + 1 * 64)%nat by lia.
      rewrite Nat.Div0.mod_add. symmetry. apply Nat.mod_small. lia.
  - rewrite (Nat.mod_small (119 - _)) by lia.
    rewrite Hd at 1. replace (64 * (length m / 64) + length m mod 64 + (1 + (119 - length m mod 64 + 8)))%nat
      with ((length m / 64 + 2) * 64)%nat by lia. apply Nat.Div0.mod_mul.
Qed.
