(* ===== verification/Sha256.v ===== *)
(** * SHA-256, streaming implementation

    Model of [qudo-slhdsa/slhdsa-native/sha2_256.c] (the portable compression function, the
    context and its update and finalisation), which the module's HMAC and self-tests use.
    The context's [uint32_t s[32]] is accessed both as words and as bytes; the model keeps it
    as its 128 bytes of memory on a little-endian host, words being loaded and stored through
    [ld32] and [st32]. *)

From stdpp Require Import base list numbers.
From Stdlib Require Import ZArith Lia ZifyNat Btauto.
From S2P Require Import Prelude Fips180.

#[local] Open Scope Z_scope.

(** ** The compression function *)

Definition ror32 (x n : Z) : Z := Z.lor (Z.shiftr x n) (u32 (Z.shiftl x (32 - n))).

Definition rev8_be32 (x : Z) : Z :=
  Z.lor (Z.lor (Z.lor (Z.shiftr (Z.land x 0xff000000) 24) (Z.shiftr (Z.land x 0x00ff0000) 8))
               (u32 (Z.shiftl (Z.land x 0x0000ff00) 8)))
        (u32 (Z.shiftl (Z.land x 0x000000ff) 24)).

(** A [uint32_t] at word index [k] of little-endian memory. *)
Definition ld32 (s : bytes) (k : nat) : Z :=
  word (rd s (4 * k + 3)) (rd s (4 * k + 2)) (rd s (4 * k + 1)) (rd s (4 * k)).
Definition st32 (s : bytes) (k : nat) (v : Z) : bytes := blit s (4 * k) (rev (wbytes v)).

(** The new values of [d] and [h]. *)
Definition STEP_SHA256_R (a b c d e f g h mi ki : Z) : Z * Z :=
  let h := u32 (h + (u32 (u32 (u32 (Z.lxor g (Z.land e (Z.lxor f g)) + mi) + ki)
                          + Z.lxor (Z.lxor (ror32 e 6) (ror32 e 11)) (ror32 e 25)))) in
  let d := u32 (d + h) in
  let h := u32 (h + u32 (Z.lor (Z.land (Z.lor a c) b) (Z.land c a)
                         + Z.lxor (Z.lxor (ror32 a 2) (ror32 a 13)) (ror32 a 22))) in
  (d, h).

(** The message-schedule step on the sixteen variables [m0 .. mf], kept as an array. *)
Definition STEP_SHA256_K (m : list Z) (x0 x1 x9 xe : nat) : list Z :=
  wr m x0 (u32 (rd m x0 +
    u32 (u32 (rd m x9 + Z.lxor (Z.lxor (ror32 (rd m x1) 7) (ror32 (rd m x1) 18)) (Z.shiftr (rd m x1) 3))
         + Z.lxor (Z.lxor (ror32 (rd m xe) 17) (ror32 (rd m xe) 19)) (Z.shiftr (rd m xe) 10)))).

Definition ck : list Z :=
  [ 0x428A2F98; 0x71374491; 0xB5C0FBCF; 0xE9B5DBA5; 0x3956C25B; 0x59F111F1;
    0x923F82A4; 0xAB1C5ED5; 0xD807AA98; 0x12835B01; 0x243185BE; 0x550C7DC3;
    0x72BE5D74; 0x80DEB1FE; 0x9BDC06A7; 0xC19BF174; 0xE49B69C1; 0xEFBE4786;
    0x0FC19DC6; 0x240CA1CC; 0x2DE92C6F; 0x4A7484AA; 0x5CB0A9DC; 0x76F988DA;
    0x983E5152; 0xA831C66D; 0xB00327C8; 0xBF597FC7; 0xC6E00BF3; 0xD5A79147;
    0x06CA6351; 0x14292967; 0x27B70A85; 0x2E1B2138; 0x4D2C6DFC; 0x53380D13;
    0x650A7354; 0x766A0ABB; 0x81C2C92E; 0x92722C85; 0xA2BFE8A1; 0xA81A664B;
    0xC24B8B70; 0xC76C51A3; 0xD192E819; 0xD6990624; 0xF40E3585; 0x106AA070;
    0x19A4C116; 0x1E376C08; 0x2748774C; 0x34B0BCB5; 0x391C0CB3; 0x4ED8AA4A;
    0x5B9CCA4F; 0x682E6FF3; 0x748F82EE; 0x78A5636F; 0x84C87814; 0x8CC70208;
    0x90BEFFFA; 0xA4506CEB; 0xBEF9A3F7; 0xC67178F2 ].

(** Sixteen rounds with the constants from index [kp]. *)
Definition rounds16 (kp : nat) (m : list Z) (s : st8) : st8 :=
  let '(a, b, c, d, e, f, g, h) := s in
  let '(d, h) := STEP_SHA256_R a b c d e f g h (rd m 0) (rd ck kp) in
  let '(c, g) := STEP_SHA256_R h a b c d e f g (rd m 1) (rd ck (kp + 1)) in
  let '(b, f) := STEP_SHA256_R g h a b c d e f (rd m 2) (rd ck (kp + 2)) in
  let '(a, e) := STEP_SHA256_R f g h a b c d e (rd m 3) (rd ck (kp + 3)) in
  let '(h, d) := STEP_SHA256_R e f g h a b c d (rd m 4) (rd ck (kp + 4)) in
  let '(g, c) := STEP_SHA256_R d e f g h a b c (rd m 5) (rd ck (kp + 5)) in
  let '(f, b) := STEP_SHA256_R c d e f g h a b (rd m 6) (rd ck (kp + 6)) in
  let '(e, a) := STEP_SHA256_R b c d e f g h a (rd m 7) (rd ck (kp + 7)) in
  let '(d, h) := STEP_SHA256_R a b c d e f g h (rd m 8) (rd ck (kp + 8)) in
  let '(c, g) := STEP_SHA256_R h a b c d e f g (rd m 9) (rd ck (kp + 9)) in
  let '(b, f) := STEP_SHA256_R g h a b c d e f (rd m 10) (rd ck (kp + 10)) in
  let '(a, e) := STEP_SHA256_R f g h a b c d e (rd m 11) (rd ck (kp + 11)) in
  let '(h, d) := STEP_SHA256_R e f g h a b c d (rd m 12) (rd ck (kp + 12)) in
  let '(g, c) := STEP_SHA256_R d e f g h a b c (rd m 13) (rd ck (kp + 13)) in
  let '(f, b) := STEP_SHA256_R c d e f g h a b (rd m 14) (rd ck (kp + 14)) in
  let '(e, a) := STEP_SHA256_R b c d e f g h a (rd m 15) (rd ck (kp + 15)) in
  (a, b, c, d, e, f, g, h).

Definition schedule16 (m : list Z) : list Z :=
  let m := STEP_SHA256_K m 0 1 9 14 in
  let m := STEP_SHA256_K m 1 2 10 15 in
  let m := STEP_SHA256_K m 2 3 11 0 in
  let m := STEP_SHA256_K m 3 4 12 1 in
  let m := STEP_SHA256_K m 4 5 13 2 in
  let m := STEP_SHA256_K m 5 6 14 3 in
  let m := STEP_SHA256_K m 6 7 15 4 in
  let m := STEP_SHA256_K m 7 8 0 5 in
  let m := STEP_SHA256_K m 8 9 1 6 in
  let m := STEP_SHA256_K m 9 10 2 7 in
  let m := STEP_SHA256_K m 10 11 3 8 in
  let m := STEP_SHA256_K m 11 12 4 9 in
  let m := STEP_SHA256_K m 12 13 5 10 in
  let m := STEP_SHA256_K m 13 14 6 11 in
  let m := STEP_SHA256_K m 14 15 7 12 in
  let m := STEP_SHA256_K m 15 0 8 13 in
  m.

(** The [while (1)] loop, left when [kp] is at the last sixteen constants. *)
Fixpoint compress_loop (fuel kp : nat) (m : list Z) (s : st8) : st8 :=
  match fuel with
  | O => s
  | S fuel =>
      let s := rounds16 kp m s in
      if Nat.eqb kp (64 - 16) then s else compress_loop fuel (kp + 16) (schedule16 m) s
  end.

Definition sha2_256_compress_c (v : bytes) : bytes :=
  (* a = sp[0] = rev8_be32(sp[0]); ... *)
  let v := fold_left (fun v i => st32 v i (rev8_be32 (ld32 v i))) (seq 0 8) v in
  let s := (ld32 v 0, ld32 v 1, ld32 v 2, ld32 v 3, ld32 v 4, ld32 v 5, ld32 v 6, ld32 v 7) in
  let m := map (fun i => rev8_be32 (ld32 v (8 + i))) (seq 0 16) in
  let s := of_st8 (compress_loop 4 0 m s) in
  (* sp[0] = rev8_be32(sp[0] + a); ... *)
  fold_left (fun v i => st32 v i (rev8_be32 (u32 (ld32 v i + rd s i)))) (seq 0 8) v.

(** On builds without [SLH_HAS_SHA_NI] the dispatcher is the portable function. *)
Definition sha2_256_compress (v : bytes) : bytes := sha2_256_compress_c v.

(** ** The context *)

(** [sha2_256_t]: chaining value and block buffer in [s], bytes buffered [i], total [len]. *)
Record sha2_256_t := mk_sha { sha_s : bytes; sha_i : nat; sha_len : Z }.

Definition sha2_256_init_h0 (sha : sha2_256_t) (h0 : bytes) : sha2_256_t :=
  mk_sha (blit (sha_s sha) 0 h0) 0 0.

Definition sha2_256_h0 : bytes :=
  [ 0x6a; 0x09; 0xe6; 0x67; 0xbb; 0x67; 0xae; 0x85; 0x3c; 0x6e; 0xf3;
    0x72; 0xa5; 0x4f; 0xf5; 0x3a; 0x51; 0x0e; 0x52; 0x7f; 0x9b; 0x05;
    0x68; 0x8c; 0x1f; 0x83; 0xd9; 0xab; 0x5b; 0xe0; 0xcd; 0x19 ].

Definition sha2_256_init (sha : sha2_256_t) : sha2_256_t := sha2_256_init_h0 sha sha2_256_h0.

Definition sha2_224_h0 : bytes :=
  [ 0xc1; 0x05; 0x9e; 0xd8; 0x36; 0x7c; 0xd5; 0x07; 0x30; 0x70; 0xdd;
    0x17; 0xf7; 0x0e; 0x59; 0x39; 0xff; 0xc0; 0x0b; 0x31; 0x68; 0x58;
    0x15; 0x11; 0x64; 0xf9; 0x8f; 0xa7; 0xbe; 0xfa; 0x4f; 0xa4 ].

Definition sha2_224_init (sha : sha2_256_t) : sha2_256_t := sha2_256_init_h0 sha sha2_224_h0.

(** Only the chaining value and the buffered bytes are copied. *)
Definition sha2_256_copy (dst src : sha2_256_t) : sha2_256_t :=
  mk_sha (blit (sha_s dst) 0 (take (32 + sha_i src) (sha_s src))) (sha_i src) (sha_len src).

(** The byte buffer [mp] starts at byte 32 of [s]. *)
Definition mp : nat := 32.

(** [while (m_sz >= 64)]; the result is the memory and what is left of the input. *)
Fixpoint update_blocks (fuel : nat) (s m : bytes) : bytes * bytes :=
  match fuel with
  | O => (s, m)
  | S fuel =>
      if Nat.leb 64 (length m)
      then update_blocks fuel (sha2_256_compress (blit s mp (take 64 m))) (drop 64 m)
      else (s, m)
  end.

Definition sha2_256_update (sha : sha2_256_t) (m : bytes) : sha2_256_t :=
  let len := u64 (sha_len sha + Z.of_nat (length m)) in
  let l := (64 - sha_i sha)%nat in
  if Nat.ltb (length m) l then
    mk_sha (blit (sha_s sha) (mp + sha_i sha) m) (sha_i sha + length m) len
  else
    let '(s, m) :=
      if Nat.ltb 0 (sha_i sha)
      then (sha2_256_compress (blit (sha_s sha) (mp + sha_i sha) (take l m)), drop l m)
      else (sha_s sha, m) in
    let '(s, m) := update_blocks (length m) s m in
    mk_sha (blit s mp m) (length m) len.

(** [while (x > 0) { mp[--i] = x & 0xFF; x >>= 8; }]; eight passes clear a 64-bit [x]. *)
Fixpoint put_length (fuel i : nat) (x : Z) (s : bytes) : bytes :=
  match fuel with
  | O => s
  | S fuel =>
      if 0 <? x
      then put_length fuel (i - 1) (Z.shiftr x 8) (wr s (mp + (i - 1)) (Z.land x 0xff))
      else s
  end.

Definition sha2_256_final_pad (sha : sha2_256_t) : sha2_256_t :=
  let s := wr (sha_s sha) (mp + sha_i sha) 0x80 in
  let i := S (sha_i sha) in
  let '(s, i) :=
    if Nat.ltb 56 i then (sha2_256_compress (blit s (mp + i) (zeros (64 - i))), 0%nat) else (s, i) in
  let s := blit s (mp + i) (zeros (64 - i)) in
  let x := u64 (Z.shiftl (sha_len sha) 3) in
  mk_sha (put_length 8 64 x s) (sha_i sha) (sha_len sha).

Definition sha2_256_final_len (sha : sha2_256_t) (h_sz : nat) : bytes * sha2_256_t :=
  let sha := sha2_256_final_pad sha in
  let s := sha2_256_compress (sha_s sha) in
  (take h_sz s, mk_sha s (sha_i sha) (sha_len sha)).

Definition sha2_256_final (sha : sha2_256_t) : bytes * sha2_256_t := sha2_256_final_len sha 32.

(** The memory of an uninitialised context on the stack is arbitrary: [junk]. *)
Definition sha2_256 (junk : bytes) (m : bytes) : bytes :=
  let sha := sha2_256_init (mk_sha junk 0 0) in
  let sha := sha2_256_update sha m in
  fst (sha2_256_final sha).

Definition sha2_224 (junk : bytes) (m : bytes) : bytes :=
  let sha := sha2_224_init (mk_sha junk 0 0) in
  let sha := sha2_256_update sha m in
  fst (sha2_256_final_len sha 28).

(** ** Rounds *)

Lemma u32_add_l x y : u32 (u32 x + y) = u32 (x + y).
Proof. rewrite !u32_mod. apply Z.add_mod_idemp_l. lia. Qed.

Lemma u32_add_r x y : u32 (x + u32 y) = u32 (x + y).
Proof. rewrite !u32_mod. apply Z.add_mod_idemp_r. lia. Qed.

Lemma u32_add_ll x y z : u32 (u32 x + y + z) = u32 (x + y + z).
Proof. rewrite <- !Z.add_assoc. apply u32_add_l. Qed.

Lemma u32_add_lr x y z : u32 (y + u32 x + z) = u32 (y + x + z).
Proof. rewrite !(Z.add_comm y). apply u32_add_ll. Qed.

(** Sums are reduced once, at the end. *)
Ltac u32_norm :=
  repeat first [rewrite u32_add_l | rewrite u32_add_r | rewrite u32_add_ll | rewrite u32_add_lr].

(** The code's forms of the choice and majority functions. *)
Lemma Ch_code e f g : Z.lxor g (Z.land e (Z.lxor f g)) = Ch e f g.
Proof. unfold Ch. zbits. Qed.

Lemma Maj_code a b c : Z.lor (Z.land (Z.lor a c) b) (Z.land c a) = Maj a b c.
Proof. unfold Maj. zbits. Qed.

(** One step is a FIPS 180-4 round with the registers renamed instead of shifted. *)
Lemma round_STEP a b c d e f g h W K :
  round (a, b, c, d, e, f, g, h) W K =
  let '(d', h') := STEP_SHA256_R a b c d e f g h W K in (h', a, b, c, d', e, f, g).
Proof.
  unfold round, STEP_SHA256_R. rewrite Ch_code, Maj_code.
  change (Z.lxor (Z.lxor (ror32 e 6) (ror32 e 11)) (ror32 e 25)) with (Sigma1 e).
  change (Z.lxor (Z.lxor (ror32 a 2) (ror32 a 13)) (ror32 a 22)) with (Sigma0 a).
  rewrite (u32_add_l (Ch e f g + W) K), (u32_add_l (Ch e f g + W + K) (Sigma1 e)).
  rewrite (u32_add_r h). u32_norm.
  repeat match goal with |- (_, _) = (_, _) => apply f_equal2 end; try reflexivity; f_equal; ring.
Qed.

Lemma ck_K256 : ck = K256.
Proof. reflexivity. Qed.

Lemma rounds16_spec W kp m s :
  (forall j, (j < 16)%nat -> rd m j = rd W (kp + j)) ->
  rounds16 kp m s = rounds_from W kp 16 s.
Proof.
  intros HW. unfold rounds16, rounds_from. rewrite ck_K256.
  rewrite !HW by lia. rewrite Nat.add_0_r.
  replace (seq kp 16) with
    [kp; kp + 1; kp + 2; kp + 3; kp + 4; kp + 5; kp + 6; kp + 7; kp + 8; kp + 9; kp + 10;
     kp + 11; kp + 12; kp + 13; kp + 14; kp + 15]%nat
    by (cbn [seq]; do 16 (apply (f_equal2 cons); [lia |]); reflexivity).
  destruct s as [[[[[[[a b] c] d] e] f] g] h]. cbn [fold_left].
  do 16 (rewrite round_STEP; destruct (STEP_SHA256_R _ _ _ _ _ _ _ _ _ _) as [? ?]).
  reflexivity.
Qed.

(** ** The message schedule as a circular buffer *)

Lemma length_schedule n M : length (schedule n M) = (n + length M)%nat.
Proof. induction n as [|n IH]; [reflexivity |]. cbn [schedule]. rewrite length_app, IH. cbn. lia. Qed.

(** The sixteen variables hold the last sixteen words, word [k] in slot [k mod 16]. *)
Definition window (W m : list Z) : Prop :=
  length m = 16%nat /\ (16 <= length W)%nat /\
  forall k, (length W - 16 <= k < length W)%nat -> rd m (k mod 16) = rd W k.

Lemma STEP_K_window W m x0 x1 x9 xe :
  window W m ->
  x0 = (length W mod 16)%nat -> x1 = ((length W + 1) mod 16)%nat ->
  x9 = ((length W + 9) mod 16)%nat -> xe = ((length W + 14) mod 16)%nat ->
  window (W ++ [next_W W]) (STEP_SHA256_K m x0 x1 x9 xe).
Proof.
  intros (Hm & HW & Hwin) -> -> -> ->.
  assert (Hget : forall o, (o < 16)%nat -> rd m ((length W + o) mod 16) = rd W (length W + o - 16)).
  { intros o Ho. rewrite <- Hwin by lia. f_equal.
    replace (length W + o)%nat with (length W + o - 16 + 1 * 16)%nat at 1 by lia.
    apply Nat.Div0.mod_add. }
  assert (Hval : rd (STEP_SHA256_K m (length W mod 16) ((length W + 1) mod 16)
                       ((length W + 9) mod 16) ((length W + 14) mod 16)) (length W mod 16) = next_W W).
  { unfold STEP_SHA256_K. rewrite rd_wr_eq by (rewrite Hm; apply Nat.mod_upper_bound; lia).
    pose proof (Hget 0%nat ltac:(lia)) as H0. rewrite Nat.add_0_r in H0. rewrite H0, !Hget by lia.
    unfold next_W. u32_norm.
    replace (length W + 14 - 16)%nat with (length W - 2)%nat by lia.
    replace (length W + 9 - 16)%nat with (length W - 7)%nat by lia.
    replace (length W + 1 - 16)%nat with (length W - 15)%nat by lia.
    change (Z.lxor (Z.lxor (ror32 ?x 7) (ror32 ?x 18)) (Z.shiftr ?x 3)) with (sigma0 x).
    change (Z.lxor (Z.lxor (ror32 ?x 17) (ror32 ?x 19)) (Z.shiftr ?x 10)) with (sigma1 x).
    f_equal. ring. }
  unfold window. rewrite length_app. cbn [length]. split; [| split].
  - unfold STEP_SHA256_K. now rewrite length_wr.
  - lia.
  - intros k Hk. destruct (Nat.eq_dec k (length W)) as [-> | Hne].
    + rewrite Hval, rd_app_r, Nat.sub_diag by lia. reflexivity.
    + rewrite rd_app_l by lia. unfold STEP_SHA256_K. rewrite rd_wr_ne; [apply Hwin; lia |].
      intros Heq. clear - Heq Hk Hne HW. lia.
Qed.

Lemma STEP_K_schedule W n m :
  (length W mod 16 = 0)%nat -> (n < 16)%nat -> window (schedule n W) m ->
  window (schedule (S n) W)
    (STEP_SHA256_K m n ((n + 1) mod 16) ((n + 9) mod 16) ((n + 14) mod 16)).
Proof.
  intros H0 Hn Hw. apply STEP_K_window; [exact Hw | ..]; rewrite length_schedule;
    clear - H0 Hn; lia.
Qed.

Lemma schedule16_window W m :
  (length W mod 16 = 0)%nat -> window W m -> window (schedule 16 W) (schedule16 m).
Proof.
  intros H0 Hw. unfold schedule16. cbv zeta.
  apply (STEP_K_schedule W 15); [exact H0 | lia |].
  apply (STEP_K_schedule W 14); [exact H0 | lia |].
  apply (STEP_K_schedule W 13); [exact H0 | lia |].
  apply (STEP_K_schedule W 12); [exact H0 | lia |].
  apply (STEP_K_schedule W 11); [exact H0 | lia |].
  apply (STEP_K_schedule W 10); [exact H0 | lia |].
  apply (STEP_K_schedule W 9); [exact H0 | lia |].
  apply (STEP_K_schedule W 8); [exact H0 | lia |].
  apply (STEP_K_schedule W 7); [exact H0 | lia |].
  apply (STEP_K_schedule W 6); [exact H0 | lia |].
  apply (STEP_K_schedule W 5); [exact H0 | lia |].
  apply (STEP_K_schedule W 4); [exact H0 | lia |].
  apply (STEP_K_schedule W 3); [exact H0 | lia |].
  apply (STEP_K_schedule W 2); [exact H0 | lia |].
  apply (STEP_K_schedule W 1); [exact H0 | lia |].
  apply (STEP_K_schedule W 0); [exact H0 | lia |]. exact Hw.
Qed.

Lemma schedule_add a b M : schedule (a + b) M = schedule a (schedule b M).
Proof. induction a as [|a IH]; [reflexivity |]. cbn [plus schedule]. now rewrite IH. Qed.

(** Later words never change earlier ones. *)
Lemma rd_schedule n M k : (k < length M)%nat -> rd (schedule n M) k = rd M k.
Proof.
  induction n as [|n IH]; intros Hk; [reflexivity |]. cbn [schedule].
  rewrite rd_app_l by (rewrite length_schedule; lia). auto.
Qed.

Lemma rounds_from_add W t a b s :
  rounds_from W t (a + b) s = rounds_from W (t + a) b (rounds_from W t a s).
Proof. unfold rounds_from. now rewrite seq_app, fold_left_app. Qed.

(** The loop from pass [p]: its window is the schedule so far, its rounds the remaining ones. *)
Lemma compress_loop_spec M fuel p m s :
  length M = 16%nat -> (p + fuel = 4)%nat -> (0 < fuel)%nat ->
  window (schedule (16 * p) M) m ->
  compress_loop fuel (16 * p) m s = rounds_from (schedule 48 M) (16 * p) (64 - 16 * p) s.
Proof.
  intros HM. revert p m s. induction fuel as [|fuel IH]; intros p m s Hp Hpos Hw; [lia |].
  cbn [compress_loop]. rewrite (rounds16_spec (schedule 48 M)).
  - destruct (Nat.eqb_spec (16 * p) (64 - 16)) as [He | Hne].
    + now replace (64 - 16 * p)%nat with 16%nat by lia.
    + replace (16 * p + 16)%nat with (16 * S p)%nat by lia. rewrite IH by
        (lia || (replace (16 * S p)%nat with (16 + 16 * p)%nat by lia; rewrite schedule_add;
                 apply schedule16_window; [rewrite length_schedule; lia | exact Hw])).
      replace (64 - 16 * p)%nat with (16 + (64 - 16 * S p))%nat by lia.
      rewrite rounds_from_add. do 2 f_equal. lia.
  - intros j Hj. destruct Hw as (_ & _ & Hw). rewrite length_schedule, HM in Hw.
    specialize (Hw (16 * p + j)%nat ltac:(lia)).
    replace ((16 * p + j) mod 16)%nat with j in Hw by lia. rewrite Hw.
    replace 48%nat with ((48 - 16 * p) + 16 * p)%nat at 1 by lia.
    rewrite schedule_add. symmetry. apply rd_schedule. rewrite length_schedule. lia.
Qed.

Lemma compress_loop_compress M s : length M = 16%nat ->
  compress_loop 4 0 M s = rounds_from (schedule 48 M) 0 64 s.
Proof.
  intros HM. apply (compress_loop_spec M 4 0); [exact HM | lia | lia |].
  change (schedule (16 * 0) M) with M. split; [exact HM | split; [lia |]].
  intros k Hk. now rewrite Nat.mod_small by lia.
Qed.

(** ** Compression on the context's memory *)

Lemma shiftl_u8_small x k : is_u8 x -> 0 <= k <= 24 -> is_u32 (Z.shiftl x k).
Proof.
  intros Hx Hk. unfold is_u8, is_u32 in *. rewrite Z.shiftl_mul_pow2 by lia.
  assert (0 < 2 ^ k <= 2 ^ 24) by (split; [apply Z.pow_pos_nonneg | apply Z.pow_le_mono_r]; lia).
  change (2 ^ 32) with (256 * 2 ^ 24). nia.
Qed.

(** Byte reversal, on any value. *)
Lemma rev8_word x :
  rev8_be32 x = word (u8 x) (u8 (Z.shiftr x 8)) (u8 (Z.shiftr x 16)) (u8 (Z.shiftr x 24)).
Proof.
  unfold rev8_be32.
  change 0xff000000 with (Z.shiftl 0xff 24). change 0x00ff0000 with (Z.shiftl 0xff 16).
  change 0x0000ff00 with (Z.shiftl 0xff 8).
  rewrite !land_field by lia. change (Z.land x 255) with (u8 x).
  rewrite !Z.shiftr_shiftl_l by lia. rewrite Z.shiftl_shiftl by lia.
  change (24 - 24) with 0. change (16 - 8) with 8. change (8 + 8) with 16.
  rewrite Z.shiftl_0_r, !u32_id by (apply shiftl_u8_small; auto with bits || lia).
  rewrite <- word_lor by auto with bits.
  set (a := Z.shiftl (u8 x) 24). set (d := u8 (Z.shiftr x 24)).
  apply Z.bits_inj'. intros i Hi. rewrite !Z.lor_spec. btauto.
Qed.

Lemma rev8_u32 x : is_u32 (rev8_be32 x).
Proof. rewrite rev8_word. apply word_u32; auto with bits. Qed.

Lemma wbytes_rev8 x : wbytes (rev8_be32 x) = rev (wbytes x).
Proof. rewrite rev8_word, wbytes_word by auto with bits. reflexivity. Qed.

Lemma ld32_u32 s k : are_bytes s -> is_u32 (ld32 s k).
Proof. intros H. unfold ld32. apply word_u32; auto with bits. Qed.

Lemma rev8_of_word a b c d : is_u8 a -> is_u8 b -> is_u8 c -> is_u8 d ->
  rev8_be32 (word a b c d) = word d c b a.
Proof.
  intros Ha Hb Hc Hd. rewrite rev8_word.
  pose proof (wbytes_word a b c d Ha Hb Hc Hd) as Hw. unfold wbytes in Hw.
  now injection Hw as -> -> -> ->.
Qed.

Lemma rev8_ld32 s k : are_bytes s ->
  rev8_be32 (ld32 s k) = word (rd s (4 * k)) (rd s (4 * k + 1)) (rd s (4 * k + 2)) (rd s (4 * k + 3)).
Proof. intros H. unfold ld32. apply rev8_of_word; auto with bits. Qed.

(** The words already stored, little-endian. *)
Definition le_mem (n : nat) (f : nat -> Z) : bytes := concat (map (fun i => rev (wbytes (f i))) (seq 0 n)).

Lemma le_mem_S n f : le_mem (S n) f = le_mem n f ++ rev (wbytes (f n)).
Proof. unfold le_mem. rewrite seq_S, map_app, concat_app. cbn [map concat plus]. now rewrite app_nil_r. Qed.

Lemma length_le_mem n f : length (le_mem n f) = (4 * n)%nat.
Proof. induction n as [|n IH]; [reflexivity |]. rewrite le_mem_S, length_app, IH. cbn. lia. Qed.

Lemma ld32_le_mem n f r i : (i < n)%nat -> is_u32 (f i) -> ld32 (le_mem n f ++ r) i = f i.
Proof.
  intros Hi Hf. induction n as [|n IH]; [lia |]. rewrite le_mem_S.
  destruct (Nat.eq_dec i n) as [-> | Hne].
  - unfold ld32. rewrite <- !app_assoc, !(rd_app_r (le_mem n f)) by (rewrite length_le_mem; lia).
    rewrite length_le_mem. replace (4 * n + 3 - 4 * n)%nat with 3%nat by lia.
    replace (4 * n + 2 - 4 * n)%nat with 2%nat by lia. replace (4 * n + 1 - 4 * n)%nat with 1%nat by lia.
    replace (4 * n - 4 * n)%nat with 0%nat by lia. cbn [rev app wbytes rd nth].
    symmetry. now apply wbytes_expand.
  - rewrite <- IH by lia. unfold ld32. rewrite <- app_assoc.
    now rewrite !(rd_app_l (le_mem n f)) by (rewrite length_le_mem; lia).
Qed.

(** A loop that rewrites the words [0 .. n-1] one after the other, each from its old value. *)
Lemma fold_st32 (f : nat -> Z -> Z) n v : (4 * n <= length v)%nat ->
  fold_left (fun v i => st32 v i (f i (ld32 v i))) (seq 0 n) v =
  le_mem n (fun i => f i (ld32 v i)) ++ drop (4 * n) v.
Proof.
  induction n as [|n IH]; intros Hn; [reflexivity |].
  rewrite seq_S, fold_left_app, IH by lia. cbn [plus fold_left].
  set (P := le_mem n (fun i => f i (ld32 v i))).
  assert (HP : length P = (4 * n)%nat) by apply length_le_mem.
  assert (Hld : ld32 (P ++ drop (4 * n) v) n = ld32 v n).
  { unfold ld32. rewrite !rd_app_r, HP, !rd_drop by (rewrite HP; lia).
    do 2 (f_equal; try (f_equal; lia)). }
  rewrite Hld, le_mem_S. fold P. unfold st32, blit. rewrite length_rev.
  change (length (wbytes _)) with 4%nat.
  rewrite take_app_length' by lia. rewrite drop_app_ge, HP, drop_drop by (rewrite HP; lia).
  rewrite <- app_assoc. do 3 f_equal. lia.
Qed.

Lemma le_mem_rev8 n f g : (forall i, (i < n)%nat -> g i = rev8_be32 (f i)) ->
  le_mem n g = words_be (map f (seq 0 n)).
Proof.
  intros H. unfold le_mem, words_be. rewrite map_map. f_equal. apply map_ext_in.
  intros i Hi. apply in_seq in Hi. rewrite H, wbytes_rev8, rev_involutive by lia. reflexivity.
Qed.

Lemma zip_with_seq (f : Z -> Z -> Z) l1 l2 n : length l1 = n -> length l2 = n ->
  zip_with f l1 l2 = map (fun i => f (rd l1 i) (rd l2 i)) (seq 0 n).
Proof.
  revert l2 n. induction l1 as [|x l1 IH]; intros [|y l2] [|n] H1 H2; try discriminate; [reflexivity |].
  cbn [zip_with seq map]. f_equal. rewrite <- seq_shift, map_map.
  apply IH; [now injection H1 | now injection H2].
Qed.

(** The compression function on the context's memory: the chaining value is replaced by the
    FIPS 180-4 compression of the block, the buffer is left as it was. *)
Lemma sha2_256_compress_spec v :
  length v = 128%nat -> are_bytes v ->
  sha2_256_compress v = compress_bytes (take 32 v) (sub v 32 64) ++ drop 32 v.
Proof.
  intros Hlen Hb. unfold sha2_256_compress, sha2_256_compress_c.
  rewrite (fold_st32 (fun i x => rev8_be32 x)) by lia.
  change (4 * 8)%nat with 32%nat. cbv zeta.
  set (hw := fun i => rev8_be32 (ld32 v i)).
  assert (Hhw : forall i, is_u32 (hw i)) by (intros; apply rev8_u32).
  set (v1 := le_mem 8 hw ++ drop 32 v).
  assert (Hld : forall i, (i < 8)%nat -> ld32 v1 i = hw i)
    by (intros i Hi; apply ld32_le_mem; auto).
  assert (HH : map hw (seq 0 8) = be_words 8 (take 32 v)).
  { unfold be_words. apply map_ext_in. intros i Hi. apply in_seq in Hi. subst hw. cbv beta.
    rewrite rev8_ld32 by exact Hb. now rewrite !rd_take by lia. }
  assert (HM : map (fun i => rev8_be32 (ld32 v1 (8 + i))) (seq 0 16) = be_words 16 (sub v 32 64)).
  { unfold be_words. apply map_ext_in. intros i Hi. apply in_seq in Hi.
    assert (Hv1 : ld32 v1 (8 + i) = ld32 v (8 + i)).
    { unfold ld32, v1. rewrite !rd_app_r, length_le_mem, !rd_drop by (rewrite length_le_mem; lia).
      do 2 (f_equal; try (f_equal; lia)). }
    rewrite Hv1, rev8_ld32, !rd_sub by (exact Hb || lia).
    f_equal; f_equal; lia. }
  rewrite HM, !Hld by lia.
  rewrite compress_loop_compress by (unfold be_words; now rewrite length_map).
  change (hw 0%nat, hw 1%nat, hw 2%nat, hw 3%nat, hw 4%nat, hw 5%nat, hw 6%nat, hw 7%nat)
    with (to_st8 (map hw (seq 0 8))).
  set (s := rounds_from _ 0 64 _).
  rewrite (fold_st32 (fun i x => rev8_be32 (u32 (x + rd (of_st8 s) i))))
    by (subst v1; rewrite length_app, length_le_mem, length_drop; lia).
  f_equal.
  unfold compress_bytes, compress. rewrite <- HH. fold s.
  rewrite (zip_with_seq add32 _ _ 8) by (apply length_of_st8 || now rewrite length_map).
  apply le_mem_rev8. intros i Hi. rewrite Hld, rd_map_seq by exact Hi.
  unfold add32. now rewrite Z.add_comm.
Qed.

Lemma words_be_bytes ws : are_bytes (words_be ws).
Proof.
  induction ws as [|w ws IH]; [constructor |]. unfold words_be. cbn [map concat].
  apply Forall_app_2; [apply wbytes_u8 | exact IH].
Qed.

Lemma compress_bytes_bytes h b : are_bytes (compress_bytes h b).
Proof. apply words_be_bytes. Qed.

#[global] Opaque compress_bytes sha2_256_compress.

(** ** Memory lemmas for the buffer *)

(** ** The context represents the message hashed so far *)

Section Streaming.
Context (h0 : bytes) (Hh0 : length h0 = 32%nat).

(** Memory whose chaining value is the hash of the [k] whole blocks of [m]. *)
Definition aligned (s : bytes) (k : nat) (m : bytes) : Prop :=
  length s = 128%nat /\ are_bytes s /\ length m = (64 * k)%nat /\
  take 32 s = hash_blocks k h0 m.

Definition sha_rep (c : sha2_256_t) (m : bytes) : Prop :=
  exists k m1 tail, m = m1 ++ tail /\ (length tail < 64)%nat /\ are_bytes tail /\
    aligned (sha_s c) k m1 /\ sha_i c = length tail /\
    sub (sha_s c) mp (length tail) = tail /\ sha_len c = u64 (Z.of_nat (length m)).

Lemma sha_rep_init s : length s = 128%nat -> are_bytes s -> are_bytes h0 ->
  sha_rep (sha2_256_init_h0 (mk_sha s 0 0) h0) [].
Proof.
  intros Hs Hb Hbh. exists 0%nat, [], []. cbn [app length sha2_256_init_h0 sha_s sha_i sha_len].
  repeat split; try constructor; try lia.
  - rewrite length_blit by lia. exact Hs.
  - now apply blit_bytes.
  - cbn [hash_blocks]. unfold blit. rewrite take_0. cbn [app].
    rewrite <- Hh0. apply take_app_length.
Qed.

(** Filling the buffer and compressing advances by one block. *)
Lemma aligned_compress s k m o d :
  aligned s k m -> are_bytes d -> (o + length d = 64)%nat -> (mp + o <= 96)%nat ->
  aligned (sha2_256_compress (blit s (mp + o) d)) (S k) (m ++ sub s mp o ++ d).
Proof.
  intros (Hl & Hb & Hm & Hh) Hd Ho Hmp. unfold mp in *.
  assert (Hlb : length (blit s (32 + o) d) = 128%nat) by (rewrite length_blit; lia).
  assert (Hbb : are_bytes (blit s (32 + o) d)) by now apply blit_bytes.
  rewrite sha2_256_compress_spec by assumption.
  rewrite take_blit_le, (sub_blit s (32 + o) d 32 64) by lia.
  replace (32 + o - 32)%nat with o by lia.
  assert (Hblk : length (sub s 32 o ++ d) = 64%nat) by (rewrite length_app, length_sub; lia).
  repeat split.
  - rewrite length_app, length_compress_bytes, length_drop. lia.
  - apply Forall_app_2; [apply compress_bytes_bytes | now apply Forall_drop].
  - rewrite length_app, Hblk. lia.
  - rewrite take_app_length' by (now rewrite length_compress_bytes).
    replace (S k) with (k + 1)%nat by lia. rewrite hash_blocks_add, hash_blocks_app by lia.
    rewrite <- Hh, <- Hm, drop_app_length. cbn [hash_blocks].
    now rewrite (take_ge (sub s 32 o ++ d)) by lia.
Qed.

Lemma update_blocks_spec fuel s k m d :
  aligned s k m -> are_bytes d -> (length d <= fuel)%nat ->
  exists s' k' m' d', update_blocks fuel s d = (s', d') /\ aligned s' k' m' /\
    (length d' < 64)%nat /\ are_bytes d' /\ m ++ d = m' ++ d'.
Proof.
  revert s k m d. induction fuel as [|fuel IH]; intros s k m d Ha Hd Hlen.
  { exists s, k, m, d. repeat split; try assumption || apply Ha. lia. }
  cbn [update_blocks]. destruct (Nat.leb_spec 64 (length d)) as [Hge | Hlt].
  - assert (Ht : length (take 64 d) = 64%nat) by (rewrite length_take; lia).
    pose proof (aligned_compress s k m 0 (take 64 d) Ha (Forall_take _ _ _ Hd) ltac:(lia)
                  ltac:(unfold mp; lia)) as Ha'.
    rewrite Nat.add_0_r in Ha'. change (sub s mp 0) with (@nil Z) in Ha'. cbn [app] in Ha'.
    destruct (IH _ _ _ (drop 64 d) Ha' (Forall_drop _ _ _ Hd)) as (s' & k' & m' & d' & He & H1 & H2 & H3 & H4).
    { rewrite length_drop. lia. }
    exists s', k', m', d'. repeat split; try assumption || apply H1.
    rewrite <- H4, <- app_assoc. now rewrite take_drop.
  - exists s, k, m, d. repeat split; try assumption || apply Ha.
Qed.

Lemma u64_len a d : u64 (u64 (Z.of_nat a) + Z.of_nat d) = u64 (Z.of_nat (a + d)).
Proof. rewrite !u64_mod, Nat2Z.inj_add. apply Z.add_mod_idemp_l. lia. Qed.

(** The buffer as it is after the loop, with a new tail copied to its start. *)
Lemma sha_rep_tail s k m d len :
  aligned s k m -> (length d < 64)%nat -> are_bytes d -> len = u64 (Z.of_nat (length (m ++ d))) ->
  sha_rep (mk_sha (blit s mp d) (length d) len) (m ++ d).
Proof.
  intros (Hl & Hb & Hm & Hh) Hd Hbd ->. exists k, m, d. cbn [sha_s sha_i sha_len]. unfold mp.
  repeat split; try assumption.
  - rewrite length_blit; lia.
  - now apply blit_bytes.
  - rewrite take_blit_le by lia. exact Hh.
  - rewrite (sub_blit s 32 d 32) by lia. rewrite Nat.sub_diag. reflexivity.
Qed.

Lemma sha_rep_update c m d :
  sha_rep c m -> are_bytes d -> sha_rep (sha2_256_update c d) (m ++ d).
Proof.
  intros (k & m1 & tail & -> & Ht & Hbt & Ha & Hi & Hsub & Hlen) Hd.
  unfold sha2_256_update. rewrite Hi, Hlen, u64_len.
  destruct (Nat.ltb_spec (length d) (64 - length tail)) as [Hlt | Hge].
  - destruct Ha as (Hl & Hb & Hm & Hh).
    exists k, m1, (tail ++ d). cbn [sha_s sha_i sha_len]. unfold mp in *.
    rewrite app_assoc, length_app. repeat split; try assumption; try lia.
    + now apply Forall_app_2.
    + rewrite length_blit; lia.
    + now apply blit_bytes.
    + rewrite take_blit_le by lia. exact Hh.
    + rewrite (sub_blit (sha_s c) (32 + length tail) d 32) by lia.
      replace (32 + length tail - 32)%nat with (length tail) by lia. now rewrite Hsub.
    + now rewrite (length_app (m1 ++ tail)).
  - assert (Hmid : exists s k' m' d', aligned s k' m' /\ are_bytes d' /\ m' ++ d' = (m1 ++ tail) ++ d /\
        (if Nat.ltb 0 (length tail)
         then (sha2_256_compress (blit (sha_s c) (mp + length tail) (take (64 - length tail) d)),
               drop (64 - length tail) d)
         else (sha_s c, d)) = (s, d')).
    { destruct (Nat.ltb_spec 0 (length tail)) as [Hpos | H0].
      - eexists _, (S k), _, _. split; [| split; [| split; [| reflexivity]]].
        + apply aligned_compress; [exact Ha | now apply Forall_take | rewrite length_take; lia |].
          unfold mp. lia.
        + now apply Forall_drop.
        + rewrite Hsub, <- !app_assoc. now rewrite take_drop.
      - destruct tail; [| cbn in H0; lia].
        exists (sha_s c), k, m1, d. rewrite app_nil_r. auto. }
    destruct Hmid as (s & k' & m' & d' & Ha' & Hd' & Heq & ->).
    destruct (update_blocks_spec (length d') s k' m' d' Ha' Hd' (le_n _))
      as (s2 & k2 & m2 & d2 & -> & Ha2 & Hd2 & Hbd2 & Heq2).
    rewrite <- Heq, Heq2. apply sha_rep_tail with (k := k2); try assumption.
    rewrite <- Heq2, Heq, (length_app (m1 ++ tail)). reflexivity.
Qed.
End Streaming.

(** ** Finalisation *)

(** The length bytes are written over zeros, from the last one backwards. *)
Lemma put_length_spec n i x A B :
  length A = (mp + i - n)%nat -> (n <= i)%nat -> 0 <= x < 256 ^ Z.of_nat n ->
  put_length n i x (A ++ zeros n ++ B) = A ++ Z_to_be n x ++ B.
Proof.
  revert i x B. induction n as [|n IH]; intros i x B HA Hn Hx; [reflexivity |].
  cbn [put_length]. destruct (Z.ltb_spec 0 x) as [Hpos | Hz].
  - unfold zeros. rewrite replicate_S_end, <- app_assoc. cbn [app Z_to_be].
    replace (wr (A ++ replicate n 0 ++ 0 :: B) (mp + (i - 1)) (Z.land x 255))
      with (A ++ zeros n ++ x mod 256 :: B).
    + rewrite Z.shiftr_div_pow2 by lia. change (2 ^ 8) with 256.
      rewrite IH; [now rewrite <- app_assoc | lia | lia |].
      rewrite Nat2Z.inj_succ, Z.pow_succ_r in Hx by lia.
      split; [apply Z.div_pos; lia | apply Z.div_lt_upper_bound; lia].
    + rewrite (app_assoc A (replicate n 0) (0 :: B)). replace (mp + (i - 1))%nat with (length (A ++ replicate n 0)).
      * rewrite wr_app_mid, <- app_assoc. fold (u8 x). now rewrite u8_mod.
      * rewrite length_app, length_replicate. lia.
  - replace x with 0 by lia. now rewrite Z_to_be_0.
Qed.

Section Finalise.
Context (h0 : bytes) (Hh0 : length h0 = 32%nat).

(** The memory as chaining value, buffered tail, and the bytes after it. *)
Lemma sha_rep_split c m : sha_rep h0 c m ->
  exists k m1 tail X, m = m1 ++ tail /\ length m1 = (64 * k)%nat /\ (length tail < 64)%nat /\
    are_bytes tail /\ are_bytes X /\ sha_i c = length tail /\
    sha_s c = hash_blocks k h0 m1 ++ tail ++ X /\ length X = (96 - length tail)%nat /\
    are_bytes (hash_blocks k h0 m1) /\
    sha_len c = u64 (Z.of_nat (length m)).
Proof.
  intros (k & m1 & tail & -> & Ht & Hbt & (Hl & Hb & Hm & Hh) & Hi & Hsub & Hlen).
  exists k, m1, tail, (drop (32 + length tail) (sha_s c)).
  repeat split; try assumption.
  - now apply Forall_drop.
  - rewrite <- Hh, <- Hsub at 1. unfold sub, mp. rewrite <- drop_drop, take_drop. symmetry. apply take_drop.
  - rewrite length_drop. lia.
  - rewrite <- Hh. now apply Forall_take.
Qed.

(** Compressing memory that is a chaining value, a full block and the unused words. *)
Lemma compress_block H blk X :
  length H = 32%nat -> length blk = 64%nat -> length X = 32%nat ->
  are_bytes H -> are_bytes blk -> are_bytes X ->
  sha2_256_compress (H ++ blk ++ X) = compress_bytes H blk ++ blk ++ X.
Proof.
  intros HH Hblk HX Hb1 Hb2 Hb3.
  rewrite sha2_256_compress_spec;
    [| rewrite !length_app; lia | repeat apply Forall_app_2; assumption].
  unfold sub. rewrite take_app_length', drop_app_length' by lia.
  now rewrite (take_app_length' blk) by lia.
Qed.

(** The last block: cleared after [T], the length in its last eight bytes. *)
Lemma last_block H T X L :
  length H = 32%nat -> (length T <= 56)%nat -> 0 <= L < 2 ^ 64 ->
  put_length 8 64 L (blit (H ++ T ++ X) (mp + length T) (zeros (64 - length T)))
  = H ++ (T ++ zeros (56 - length T) ++ Z_to_be 8 L) ++ drop (64 - length T) X.
Proof.
  intros HH HT HL. rewrite app_assoc, blit_app by (rewrite length_app, HH; reflexivity).
  rewrite length_zeros.
  replace (zeros (64 - length T)) with (zeros (56 - length T) ++ zeros 8)
    by (unfold zeros; rewrite <- replicate_add; f_equal; lia).
  rewrite <- (app_assoc (zeros _)), (app_assoc (H ++ T)), put_length_spec.
  - now rewrite <- !app_assoc.
  - rewrite !length_app, length_zeros, HH. unfold mp. lia.
  - lia.
  - exact HL.
Qed.

Lemma pad_app m1 tail k : length m1 = (64 * k)%nat -> (length tail < 64)%nat ->
  pad (m1 ++ tail) = m1 ++ tail ++ [0x80] ++ zeros ((119 - length tail) mod 64)
                     ++ Z_to_be 8 (8 * Z.of_nat (length (m1 ++ tail))).
Proof.
  intros Hm Ht. unfold pad. rewrite <- app_assoc. do 4 f_equal.
  rewrite length_app, Hm. f_equal. replace ((64 * k + length tail) mod 64)%nat with (length tail) by lia.
  reflexivity.
Qed.

Lemma hash_last m1 k B : length m1 = (64 * k)%nat -> length B = 64%nat ->
  hash_blocks (length (m1 ++ B) / 64) h0 (m1 ++ B) = compress_bytes (hash_blocks k h0 m1) B.
Proof.
  intros Hm HB. rewrite length_app, HB, Hm.
  replace ((64 * k + 64) / 64)%nat with (k + 1)%nat by lia.
  rewrite hash_blocks_add, hash_blocks_app by lia. rewrite <- Hm, drop_app_length.
  cbn [hash_blocks]. now rewrite (take_ge B) by lia.
Qed.

(** Finalisation from memory that holds chaining value, tail and leftovers. *)
Lemma final_memory H tail X L (s0 := wr (H ++ tail ++ X) (mp + length tail) 0x80)
    (s1 := if Nat.ltb 56 (S (length tail))
           then (sha2_256_compress (blit s0 (mp + S (length tail)) (zeros (64 - S (length tail)))), 0%nat)
           else (s0, S (length tail)))
    (s2 := put_length 8 64 L (blit (fst s1) (mp + snd s1) (zeros (64 - snd s1)))) :
  length H = 32%nat -> are_bytes H -> (length tail < 64)%nat -> are_bytes tail ->
  length X = (96 - length tail)%nat -> are_bytes X -> 0 <= L < 2 ^ 64 ->
  exists H' B X', s2 = H' ++ B ++ X' /\ length H' = 32%nat /\ length B = 64%nat /\ length X' = 32%nat /\
    are_bytes H' /\ are_bytes B /\ are_bytes X' /\
    (forall m1 k, length m1 = (64 * k)%nat -> H = hash_blocks k h0 m1 ->
       exists k' m2, length m2 = (64 * k')%nat /\ H' = hash_blocks k' h0 m2 /\
         m1 ++ tail ++ [0x80] ++ zeros ((119 - length tail) mod 64) ++ Z_to_be 8 L = m2 ++ B).
Proof.
  intros HH HbH Ht Hbt HX HbX HL.
  destruct X as [|x X]; [cbn in HX; lia |]. cbn [length] in HX. apply Forall_cons_1 in HbX as [_ HbX].
  set (T := tail ++ [0x80]).
  assert (HT : length T = S (length tail)) by (subst T; rewrite length_app; cbn; lia).
  assert (HbT : are_bytes T) by (apply Forall_app_2; [exact Hbt | repeat constructor; lia]).
  assert (Hs0 : s0 = H ++ T ++ X).
  { subst s0 T. rewrite app_assoc. replace (mp + length tail)%nat with (length (H ++ tail))
      by (rewrite length_app, HH; reflexivity).
    rewrite wr_app_mid. now rewrite <- !app_assoc. }
  subst s2 s1. rewrite Hs0, <- HT. destruct (Nat.ltb_spec 56 (length T)) as [Htwo | Hone]; cbn [fst snd].
  - set (B1 := T ++ zeros (64 - length T)).
    assert (HB1 : length B1 = 64%nat) by (subst B1; unfold zeros; rewrite length_app, length_replicate; lia).
    assert (HbB1 : are_bytes B1) by (apply Forall_app_2; [assumption | apply zeros_bytes]).
    rewrite app_assoc, blit_app by (rewrite length_app, HH; reflexivity).
    unfold zeros at 2. rewrite length_replicate, <- app_assoc, (app_assoc T). fold B1.
    rewrite compress_block by (assumption || (rewrite length_drop; lia) || now apply Forall_drop).
    change (B1 ++ drop (64 - length T) X) with ([] ++ B1 ++ drop (64 - length T) X).
    rewrite (last_block _ []) by (apply length_compress_bytes || (cbn; lia) || exact HL).
    cbn [app length]. change (64 - 0)%nat with 64%nat. rewrite (drop_app_length' B1) by (now rewrite HB1).
    eexists _, _, _. split; [reflexivity |].
    split_and!.
    + apply length_compress_bytes.
    + rewrite length_app, length_zeros, length_Z_to_be. reflexivity.
    + rewrite length_drop. lia.
    + apply compress_bytes_bytes.
    + apply Forall_app_2; [apply zeros_bytes | apply Z_to_be_bytes].
    + now apply Forall_drop.
    + intros m1 k Hm ->. exists (k + 1)%nat, (m1 ++ B1). split; [rewrite length_app; lia |]. split.
      * rewrite <- (hash_last m1 k B1) by assumption. f_equal. rewrite length_app. lia.
      * subst B1 T. rewrite <- !app_assoc. do 3 f_equal. unfold zeros.
        rewrite (app_assoc (replicate _ _)), <- replicate_add. do 2 f_equal.
        change (56 - 0)%nat with 56%nat. lia.
  - rewrite last_block by (assumption || lia).
    eexists _, _, _. split; [reflexivity |].
    split_and!; try assumption.
    + rewrite !length_app, length_zeros, length_Z_to_be. lia.
    + rewrite length_drop. lia.
    + apply Forall_app_2; [assumption |].
      apply Forall_app_2; [apply zeros_bytes | apply Z_to_be_bytes].
    + now apply Forall_drop.
    + intros m1 k Hm ->. exists k, m1. repeat split; [assumption |].
      subst T. rewrite <- !app_assoc. do 4 f_equal. f_equal. lia.
Qed.

(** Finalisation compresses the padded message. *)
Lemma sha_final_spec c m n :
  sha_rep h0 c m -> Z.of_nat (length m) < 2 ^ 61 -> (n <= 32)%nat ->
  fst (sha2_256_final_len c n) = take n (hash_blocks (length (pad m) / 64) h0 (pad m)).
Proof.
  intros Hrep Hmax Hn.
  destruct (sha_rep_split c m Hrep) as (k & m1 & tail & X & -> & Hm1 & Ht & Hbt & HbX & Hi & Hs & HX & HbH & Hlen).
  assert (Hx : u64 (Z.shiftl (sha_len c) 3) = 8 * Z.of_nat (length (m1 ++ tail))).
  { rewrite Hlen, Z.shiftl_mul_pow2, !u64_mod by lia. change (2 ^ 3) with 8.
    rewrite (Z.mod_small (Z.of_nat _)), Z.mod_small by lia. lia. }
  destruct (final_memory (hash_blocks k h0 m1) tail X (8 * Z.of_nat (length (m1 ++ tail))))
    as (H' & B & X' & Hs2 & HH' & HB & HX' & Hb1 & Hb2 & Hb3 & Hpad);
    [now apply length_hash_blocks | assumption .. | lia |].
  destruct (Hpad m1 k Hm1 eq_refl) as (k' & m2 & Hm2 & HH2 & Heq).
  rewrite (pad_app m1 tail k) by assumption. rewrite Heq, (hash_last m2 k') by assumption. rewrite <- HH2.
  unfold sha2_256_final_len, sha2_256_final_pad. rewrite Hx, Hi, Hs.
  destruct (if Nat.ltb _ _ then _ else _) as [s i] eqn:Hif in Hs2 |- *.
  cbn [fst snd sha_s] in Hs2 |- *. rewrite Hs2, compress_block by assumption.
  apply take_app_le. rewrite length_compress_bytes. exact Hn.
Qed.
End Finalise.

(** ** Theorems *)

Lemma sha2_256_h0_spec : sha2_256_h0 = words_be H256.
Proof. vm_compute. reflexivity. Qed.

Lemma sha2_256_h0_bytes : are_bytes sha2_256_h0.
Proof. unfold sha2_256_h0. repeat constructor; lia. Qed.

(** The context represents message [m] hashed from the SHA-256 initial value. *)
Definition sha256_rep (c : sha2_256_t) (m : bytes) : Prop := sha_rep sha2_256_h0 c m.

(** A context whose memory is 128 bytes, as C allocates it. *)
Definition sha_ctx (c : sha2_256_t) : Prop := length (sha_s c) = 128%nat /\ are_bytes (sha_s c).

Lemma sha256_init_rep c : sha_ctx c -> sha256_rep (sha2_256_init c) [].
Proof. intros [Hl Hb]. apply (sha_rep_init sha2_256_h0 eq_refl (sha_s c)); auto using sha2_256_h0_bytes. Qed.

Lemma sha256_update_rep c m d : sha256_rep c m -> are_bytes d -> sha256_rep (sha2_256_update c d) (m ++ d).
Proof. exact (sha_rep_update sha2_256_h0 eq_refl c m d). Qed.

Lemma sha256_updates_rep c m ds :
  sha256_rep c m -> Forall are_bytes ds -> sha256_rep (fold_left sha2_256_update ds c) (m ++ concat ds).
Proof.
  intros Hr Hds. revert c m Hr. induction Hds as [|d ds Hd Hds IH]; intros c m Hr.
  - cbn. now rewrite app_nil_r.
  - cbn [fold_left concat]. rewrite app_assoc. apply IH. now apply sha256_update_rep.
Qed.

Lemma length_SHA256 m : length (SHA256 m) = 32%nat.
Proof. apply length_hash_blocks. reflexivity. Qed.

Lemma SHA256_bytes m : are_bytes (SHA256 m).
Proof.
  unfold SHA256. rewrite <- sha2_256_h0_spec. generalize (pad m) as p, (length (pad m) / 64)%nat as n.
  intros p n. revert p. generalize sha2_256_h0 sha2_256_h0_bytes.
  induction n as [|n IH]; intros h Hh p; [exact Hh |]. cbn [hash_blocks]. apply IH, compress_bytes_bytes.
Qed.

Lemma sha256_final_rep c m : sha256_rep c m -> Z.of_nat (length m) < 2 ^ 61 ->
  fst (sha2_256_final c) = SHA256 m.
Proof.
  intros Hr Hm. unfold sha2_256_final. rewrite (sha_final_spec sha2_256_h0 eq_refl c m) by (assumption || lia).
  rewrite sha2_256_h0_spec. fold (SHA256 m). apply take_ge. now rewrite length_SHA256.
Qed.

(** Finalisation leaves well-formed memory behind, which [init] may reuse. *)
Lemma sha256_rep_ctx c m : sha256_rep c m -> sha_ctx c.
Proof. intros (k & m1 & t & _ & _ & _ & (Hl & Hb & _) & _). now split. Qed.

(** Copying a context, then feeding each copy its own data, hashes both messages. *)
Lemma sha256_copy_rep dst src m : sha_ctx dst -> sha256_rep src m -> sha256_rep (sha2_256_copy dst src) m.
Proof.
  intros [Hl Hb] (k & m1 & tail & -> & Ht & Hbt & (Hsl & Hsb & Hm & Hh) & Hi & Hsub & Hlen).
  exists k, m1, tail. unfold sha2_256_copy. cbn [sha_s sha_i sha_len]. rewrite Hi.
  assert (Hp : length (take (32 + length tail) (sha_s src)) = (32 + length tail)%nat)
    by (rewrite length_take; lia).
  assert (Hpre : take (32 + length tail) (blit (sha_s dst) 0 (take (32 + length tail) (sha_s src)))
                 = take (32 + length tail) (sha_s src)).
  { unfold blit. rewrite take_0. cbn [app]. rewrite <- Hp at 1. apply take_app_length. }
  split_and!; try assumption || reflexivity.
  - split_and!; try assumption.
    + rewrite length_blit; lia.
    + apply blit_bytes; [assumption | now apply Forall_take].
    + rewrite <- Hh. apply (f_equal (take 32)) in Hpre. rewrite !take_take in Hpre.
      now replace (32 `min` (32 + length tail))%nat with 32%nat in Hpre by lia.
  - etransitivity; [| exact Hsub]. unfold sub, mp. rewrite !take_drop_commute.
    now rewrite Hpre.
Qed.

(** C11. Streaming SHA-256: on any memory, [sha2_256_init], any sequence of
    [sha2_256_update] calls of any sizes and [sha2_256_final] produce the FIPS 180-4 hash of
    the concatenated input, for inputs below the 2^61-byte limit of the 64-bit bit counter. *)
Theorem sha256_streaming (c : sha2_256_t) (ds : list bytes) :
  sha_ctx c -> Forall are_bytes ds -> Z.of_nat (length (concat ds)) < 2 ^ 61 ->
  fst (sha2_256_final (fold_left sha2_256_update ds (sha2_256_init c))) = SHA256 (concat ds).
Proof.
  intros Hc Hds Hlen. apply sha256_final_rep; [| exact Hlen].
  apply (sha256_updates_rep _ []); [now apply sha256_init_rep | exact Hds].
Qed.

Lemma zeros_ctx : sha_ctx (mk_sha (zeros 128) 0 0).
Proof. split; [reflexivity | apply zeros_bytes]. Qed.

Lemma sha256_streaming_witness :
  fst (sha2_256_final (fold_left sha2_256_update [[0x61]; []; [0x62; 0x63]]
                         (sha2_256_init (mk_sha (zeros 128) 0 0))))
  = [ 0xba; 0x78; 0x16; 0xbf; 0x8f; 0x01; 0xcf; 0xea; 0x41; 0x41; 0x40; 0xde; 0x5d; 0xae; 0x22; 0x23;
      0xb0; 0x03; 0x61; 0xa3; 0x96; 0x17; 0x7a; 0x9c; 0xb4; 0x10; 0xff; 0x61; 0xf2; 0x00; 0x15; 0xad ].
Proof.
  rewrite (sha256_streaming (mk_sha (zeros 128) 0 0) [[0x61]; []; [0x62; 0x63]]).
  - vm_compute. reflexivity.
  - exact zeros_ctx.
  - repeat constructor; lia.
  - cbn. lia.
Defined.

(** The one-shot function. *)
Lemma sha2_256_spec junk m :
  length junk = 128%nat -> are_bytes junk -> are_bytes m -> Z.of_nat (length m) < 2 ^ 61 ->
  sha2_256 junk m = SHA256 m.
Proof.
  intros Hj Hbj Hm Hlen. unfold sha2_256. apply sha256_final_rep; [| exact Hlen].
  apply (sha256_update_rep _ []); [| exact Hm]. now apply sha256_init_rep.
Qed.
