(* ===== verification/Hmac.v ===== *)
(** * HMAC-SHA-256

    Model of [src/fips/qudo_fips_hmac.c]: the three-context streaming HMAC that the integrity
    check and the self-tests use, with FIPS 198-1 as its specification. *)

From stdpp Require Import base list numbers.
From Stdlib Require Import ZArith Lia.
From S2P Require Import Prelude Fips180 Sha256.

#[local] Open Scope Z_scope.

(** ** Specification: FIPS 198-1 *)

Definition hmac_K0 (K : bytes) : bytes :=
  if Nat.ltb 64 (length K) then SHA256 K ++ zeros 32 else K ++ zeros (64 - length K).

Definition HMAC_SHA256 (K m : bytes) : bytes :=
  SHA256 (map (Z.lxor 0x5c) (hmac_K0 K) ++ SHA256 (map (Z.lxor 0x36) (hmac_K0 K) ++ m)).

(** ** The code *)

Definition QUDO_FIPS_HMAC_SHA256_BLOCK_SIZE : nat := 64.
Definition QUDO_FIPS_HMAC_SHA256_DIGEST_SIZE : nat := 32.

Record qudo_fips_hmac_ctx_t := mk_hmac {
  i_ctx : sha2_256_t; o_ctx : sha2_256_t; md_ctx : sha2_256_t;
  block_size : nat; digest_size : nat; initialized : bool }.

(** Uninitialised stack memory of [qudo_fips_hmac_init]: the arrays [keytmp] and [pad]
    and the context inside [sha2_256]. *)
Record hmac_stack := mk_hmac_stack { stk_keytmp : bytes; stk_pad : bytes; stk_sha : bytes }.

(** [for (i = 0; i < n; i++) pad[i] = c ^ keytmp[i];] *)
Fixpoint pad_loop (n i : nat) (c : Z) (keytmp pad : bytes) : bytes :=
  match n with
  | O => pad
  | S n => pad_loop n (S i) c keytmp (wr pad i (Z.lxor c (rd keytmp i)))
  end.

Definition qudo_fips_hmac_init (stk : hmac_stack) (ctx : qudo_fips_hmac_ctx_t) (key : option bytes)
  : qudo_fips_hmac_ctx_t :=
  match key with
  | None => mk_hmac (i_ctx ctx) (o_ctx ctx) (md_ctx ctx) (block_size ctx) (digest_size ctx) false
  | Some key =>
      let bs := QUDO_FIPS_HMAC_SHA256_BLOCK_SIZE in
      let ds := QUDO_FIPS_HMAC_SHA256_DIGEST_SIZE in
      let '(keytmp, keytmp_length) :=
        if Nat.ltb bs (length key)
        then (blit (stk_keytmp stk) 0 (sha2_256 (stk_sha stk) key), ds)
        else (blit (stk_keytmp stk) 0 key, length key) in
      let keytmp :=
        if Nat.eqb keytmp_length bs then keytmp
        else blit keytmp keytmp_length (zeros (bs - keytmp_length)) in
      let pad := pad_loop bs 0 0x36 keytmp (stk_pad stk) in
      let i_ctx := sha2_256_update (sha2_256_init (i_ctx ctx)) (take bs pad) in
      let pad := pad_loop bs 0 0x5c keytmp pad in
      let o_ctx := sha2_256_update (sha2_256_init (o_ctx ctx)) (take bs pad) in
      mk_hmac i_ctx o_ctx i_ctx bs ds true
  end.

Definition qudo_fips_hmac_update (ctx : qudo_fips_hmac_ctx_t) (data : bytes) : qudo_fips_hmac_ctx_t :=
  if negb (initialized ctx) then ctx
  else mk_hmac (i_ctx ctx) (o_ctx ctx) (sha2_256_update (md_ctx ctx) data)
               (block_size ctx) (digest_size ctx) (initialized ctx).

(** [qudo_secure_clear(ctx, sizeof( *ctx))]. *)
Definition hmac_ctx_cleared : qudo_fips_hmac_ctx_t :=
  mk_hmac (mk_sha (zeros 128) 0 0) (mk_sha (zeros 128) 0 0) (mk_sha (zeros 128) 0 0) 0 0 false.

(** [out] is the caller's buffer: written only when the context is initialised. *)
Definition qudo_fips_hmac_final (ctx : qudo_fips_hmac_ctx_t) (out : bytes) : qudo_fips_hmac_ctx_t * bytes :=
  if negb (initialized ctx) then (ctx, out)
  else
    let '(buf, _) := sha2_256_final (md_ctx ctx) in
    let md := o_ctx ctx in
    let md := sha2_256_update md (take (digest_size ctx) buf) in
    let '(res, _) := sha2_256_final md in
    (hmac_ctx_cleared, blit out 0 res).

Definition qudo_fips_hmac_sha256 (stk : hmac_stack) (ctx0 : qudo_fips_hmac_ctx_t)
    (key : option bytes) (data out : bytes) : bytes :=
  let ctx := qudo_fips_hmac_init stk ctx0 key in
  let ctx := qudo_fips_hmac_update ctx data in
  snd (qudo_fips_hmac_final ctx out).

(** ** Correctness *)

Definition hmac_mem (ctx : qudo_fips_hmac_ctx_t) : Prop :=
  sha_ctx (i_ctx ctx) /\ sha_ctx (o_ctx ctx).

Definition stack_ok (stk : hmac_stack) : Prop :=
  length (stk_keytmp stk) = 144%nat /\ length (stk_pad stk) = 144%nat /\
  length (stk_sha stk) = 128%nat /\ are_bytes (stk_sha stk).

Lemma pad_loop_spec n i c k p :
  (i + n <= length k)%nat -> (i + n <= length p)%nat ->
  take i p = map (Z.lxor c) (take i k) ->
  take (i + n) (pad_loop n i c k p) = map (Z.lxor c) (take (i + n) k) /\
  length (pad_loop n i c k p) = length p.
Proof.
  revert i p. induction n as [|n IH]; intros i p Hk Hp Hpre; cbn [pad_loop].
  - now rewrite Nat.add_0_r.
  - replace (i + S n)%nat with (S i + n)%nat by lia.
    destruct (IH (S i) (wr p i (Z.lxor c (rd k i)))) as [H1 H2]; rewrite ?length_wr in *; try lia.
    + rewrite take_S_wr by lia. rewrite (take_S_r k i (rd k i)) by (apply rd_in_range; lia).
      rewrite map_app, Hpre. reflexivity.
    + split; [exact H1 | exact H2].
Qed.

Lemma length_hmac_K0 K : length (hmac_K0 K) = 64%nat.
Proof.
  unfold hmac_K0. destruct (Nat.ltb_spec 64 (length K)); rewrite length_app, length_zeros, ?length_SHA256; lia.
Qed.

Lemma hmac_K0_bytes K : are_bytes K -> are_bytes (hmac_K0 K).
Proof.
  intros HK. unfold hmac_K0.
  destruct (Nat.ltb_spec 64 (length K)); apply Forall_app_2;
    first [apply zeros_bytes | apply SHA256_bytes | exact HK].
Qed.

(** The key buffer after hashing or copying and zero filling holds [K0]. *)
Lemma keytmp_spec kt K (n := length K) :
  (n <= 64)%nat -> length kt = 144%nat ->
  take 64 (if Nat.eqb n 64 then blit kt 0 K else blit (blit kt 0 K) n (zeros (64 - n)))
  = K ++ zeros (64 - n).
Proof.
  intros Hn Hk. subst n. change (blit kt 0 K) with (K ++ drop (length K) kt).
  destruct (Nat.eqb_spec (length K) 64) as [He | Hne].
  - rewrite He. change (64 - 64)%nat with 0%nat. cbn [zeros replicate]. rewrite app_nil_r.
    rewrite take_app_le by lia. apply take_ge. lia.
  - rewrite (blit_app K) by reflexivity. rewrite app_assoc.
    apply take_app_length'. rewrite length_app, length_zeros. lia.
Qed.

Lemma keytmp_length kt K : (length K <= 64)%nat -> length kt = 144%nat ->
  length (if Nat.eqb (length K) 64 then blit kt 0 K else blit (blit kt 0 K) (length K) (zeros (64 - length K)))
  = 144%nat.
Proof.
  intros HK Hk. destruct (Nat.eqb _ _); rewrite !length_blit; rewrite ?length_zeros, ?length_blit; lia.
Qed.

Lemma map_lxor_bytes c l : is_u8 c -> are_bytes l -> are_bytes (map (Z.lxor c) l).
Proof. intros Hc Hl. induction Hl; cbn [map]; constructor; auto with bits. Qed.

(** A context in use: keyed with [K] and fed [m]. *)
Record hmac_rep (ctx : qudo_fips_hmac_ctx_t) (K m : bytes) : Prop := {
  hr_init : initialized ctx = true;
  hr_ds : digest_size ctx = 32%nat;
  hr_md : sha256_rep (md_ctx ctx) (map (Z.lxor 0x36) (hmac_K0 K) ++ m);
  hr_o : sha256_rep (o_ctx ctx) (map (Z.lxor 0x5c) (hmac_K0 K)) }.

Lemma hmac_init_rep stk ctx K :
  stack_ok stk -> hmac_mem ctx -> are_bytes K -> Z.of_nat (length K) < 2 ^ 61 ->
  hmac_rep (qudo_fips_hmac_init stk ctx (Some K)) K [].
Proof.
  intros (Hkt & Hpd & Hsl & Hsb) [Hi Ho] HK Hlen. unfold qudo_fips_hmac_init.
  unfold QUDO_FIPS_HMAC_SHA256_BLOCK_SIZE, QUDO_FIPS_HMAC_SHA256_DIGEST_SIZE.
  rewrite sha2_256_spec by assumption.
  set (K1 := if Nat.ltb 64 (length K) then SHA256 K else K).
  assert (HK1 : (length K1 <= 64)%nat)
    by (subst K1; destruct (Nat.ltb_spec 64 (length K)); rewrite ?length_SHA256; lia).
  assert (HK0 : K1 ++ zeros (64 - length K1) = hmac_K0 K).
  { subst K1. unfold hmac_K0. destruct (Nat.ltb _ _); [now rewrite length_SHA256 | reflexivity]. }
  replace (if Nat.ltb 64 (length K) then (blit (stk_keytmp stk) 0 (SHA256 K), 32%nat)
           else (blit (stk_keytmp stk) 0 K, length K)) with (blit (stk_keytmp stk) 0 K1, length K1)
    by (subst K1; destruct (Nat.ltb _ _); [now rewrite length_SHA256 | reflexivity]).
  pose proof (keytmp_spec (stk_keytmp stk) K1 HK1 Hkt) as Hk.
  pose proof (keytmp_length (stk_keytmp stk) K1 HK1 Hkt) as Hkl. cbv beta zeta in Hk |- *.
  set (kt := if Nat.eqb _ _ then _ else _) in *. rewrite HK0 in Hk.
  destruct (pad_loop_spec 64 0 0x36 kt (stk_pad stk)) as [Hp1 Hl1]; [lia .. | reflexivity |].
  destruct (pad_loop_spec 64 0 0x5c kt (pad_loop 64 0 0x36 kt (stk_pad stk))) as [Hp2 _]; [lia .. | reflexivity |].
  cbn [plus] in Hp1, Hp2. rewrite Hp1, Hp2, Hk.
  constructor; cbn [initialized digest_size md_ctx o_ctx]; try reflexivity; rewrite ?app_nil_r;
    apply (sha256_update_rep _ []); try (now apply sha256_init_rep);
    apply map_lxor_bytes; try (unfold is_u8; lia); now apply hmac_K0_bytes.
Qed.

Lemma hmac_update_rep ctx K m d : hmac_rep ctx K m -> are_bytes d ->
  hmac_rep (qudo_fips_hmac_update ctx d) K (m ++ d).
Proof.
  intros [Hi Hd Hm Ho] Hb. unfold qudo_fips_hmac_update. rewrite Hi. cbn [negb].
  constructor; try assumption; cbn [md_ctx initialized]; [reflexivity |].
  rewrite app_assoc. now apply sha256_update_rep.
Qed.

Lemma hmac_updates_rep ctx K m ds : hmac_rep ctx K m -> Forall are_bytes ds ->
  hmac_rep (fold_left qudo_fips_hmac_update ds ctx) K (m ++ concat ds).
Proof.
  intros Hr Hds. revert ctx m Hr. induction Hds as [|d ds Hd Hds IH]; intros ctx m Hr.
  - cbn. now rewrite app_nil_r.
  - cbn [fold_left concat]. rewrite app_assoc. apply IH. now apply hmac_update_rep.
Qed.

Lemma hmac_final_rep ctx K m out : hmac_rep ctx K m -> Z.of_nat (length m) < 2 ^ 60 ->
  qudo_fips_hmac_final ctx out = (hmac_ctx_cleared, blit out 0 (HMAC_SHA256 K m)).
Proof.
  intros [Hi Hd Hm Ho] Hlen. unfold qudo_fips_hmac_final. rewrite Hi. cbn [negb].
  pose proof (length_hmac_K0 K) as HK.
  pose proof (sha256_final_rep _ _ Hm) as Hf.
  destruct (sha2_256_final (md_ctx ctx)) as [buf c1]. cbn [fst] in Hf.
  rewrite Hf by (rewrite length_app, length_map, HK; lia).
  rewrite Hd, take_ge by (now rewrite length_SHA256).
  pose proof (sha256_final_rep _ _ (sha256_update_rep _ _ _ Ho (SHA256_bytes (map (Z.lxor 0x36) (hmac_K0 K) ++ m)))) as Hf2.
  destruct (sha2_256_final (sha2_256_update _ _)) as [res c2]. cbn [fst] in Hf2.
  rewrite Hf2 by (rewrite length_app, length_map, HK, length_SHA256; lia). reflexivity.
Qed.

Lemma hmac_run stk ctx K ds out :
  stack_ok stk -> hmac_mem ctx -> are_bytes K -> Z.of_nat (length K) < 2 ^ 61 ->
  Forall are_bytes ds -> Z.of_nat (length (concat ds)) < 2 ^ 60 ->
  qudo_fips_hmac_final (fold_left qudo_fips_hmac_update ds (qudo_fips_hmac_init stk ctx (Some K))) out
  = (hmac_ctx_cleared, blit out 0 (HMAC_SHA256 K (concat ds))).
Proof.
  intros Hs Hc HK Hk Hds Hlen. apply hmac_final_rep; [| exact Hlen].
  apply (hmac_updates_rep _ K []); [now apply hmac_init_rep | exact Hds].
Qed.

(** One call, into a buffer of the digest's size. *)
Lemma hmac_sha256_run stk ctx K d out :
  stack_ok stk -> hmac_mem ctx -> are_bytes K -> Z.of_nat (length K) < 2 ^ 61 ->
  are_bytes d -> Z.of_nat (length d) < 2 ^ 60 -> length out = 32%nat ->
  qudo_fips_hmac_sha256 stk ctx (Some K) d out = HMAC_SHA256 K d.
Proof.
  intros Hs Hc HK Hk Hd Hlen Ho. unfold qudo_fips_hmac_sha256.
  change (qudo_fips_hmac_update ?c d) with (fold_left qudo_fips_hmac_update [d] c).
  rewrite hmac_run; cbn [concat]; rewrite ?app_nil_r; try assumption; [| now repeat constructor].
  cbn [snd]. unfold blit. rewrite take_0, drop_ge, app_nil_r; [reflexivity |].
  unfold HMAC_SHA256. rewrite length_SHA256. lia.
Qed.

(** C30. Streaming HMAC: initialising with any key (longer than a block or not), feeding the
    data in any pieces and finalising writes HMAC-SHA-256 (FIPS 198-1) of the concatenated data
    to the start of the caller's buffer, and leaves the whole context zeroed. *)
Theorem hmac_streaming stk ctx K ds out :
  stack_ok stk -> hmac_mem ctx -> are_bytes K -> Z.of_nat (length K) < 2 ^ 61 ->
  Forall are_bytes ds -> Z.of_nat (length (concat ds)) < 2 ^ 60 ->
  qudo_fips_hmac_final (fold_left qudo_fips_hmac_update ds (qudo_fips_hmac_init stk ctx (Some K))) out
  = (hmac_ctx_cleared, blit out 0 (HMAC_SHA256 K (concat ds))).
Proof.
  exact (hmac_run stk ctx K ds out).
Qed.

Definition zero_hmac_stack : hmac_stack := mk_hmac_stack (zeros 144) (zeros 144) (zeros 128).

Lemma zero_hmac_stack_ok : stack_ok zero_hmac_stack.
Proof. repeat split; try reflexivity. apply zeros_bytes. Qed.

Lemma hmac_cleared_mem : hmac_mem hmac_ctx_cleared.
Proof. split; exact zeros_ctx. Qed.

(** RFC 4231 test case 2, in two pieces. *)
Lemma hmac_streaming_witness :
  snd (qudo_fips_hmac_final
         (fold_left qudo_fips_hmac_update
            [[0x77; 0x68; 0x61; 0x74; 0x20; 0x64; 0x6f; 0x20; 0x79; 0x61; 0x20]; 
             [0x77; 0x61; 0x6e; 0x74; 0x20; 0x66; 0x6f; 0x72; 0x20; 0x6e; 0x6f; 0x74; 0x68; 0x69; 0x6e; 0x67; 0x3f]]
            (qudo_fips_hmac_init zero_hmac_stack hmac_ctx_cleared (Some [0x4a; 0x65; 0x66; 0x65])))
         (zeros 32))
  = [0x5b; 0xdc; 0xc1; 0x46; 0xbf; 0x60; 0x75; 0x4e; 0x6a; 0x04; 0x24; 0x26; 0x08; 0x95; 0x75; 0xc7;
     0x5a; 0x00; 0x3f; 0x08; 0x9d; 0x27; 0x39; 0x83; 0x9d; 0xec; 0x58; 0xb9; 0x64; 0xec; 0x38; 0x43].
Proof.
  rewrite hmac_streaming.
  - vm_compute. reflexivity.
  - exact zero_hmac_stack_ok.
  - exact hmac_cleared_mem.
  - repeat constructor; lia.
  - cbn. lia.
  - repeat constructor; lia.
  - cbn. lia.
Defined.

Lemma hmac_inert c ds out : initialized c = false ->
  fold_left qudo_fips_hmac_update ds c = c /\ qudo_fips_hmac_final c out = (c, out).
Proof.
  intros Hi. split.
  - induction ds as [|d ds IH]; [reflexivity |]. cbn [fold_left].
    unfold qudo_fips_hmac_update at 2. rewrite Hi. exact IH.
  - unfold qudo_fips_hmac_final. now rewrite Hi.
Qed.

(** A context that is not keyed is inert: after [init] with a NULL key, and after any
    [final], every later sequence of updates followed by [final] leaves the context and the
    caller's output buffer as they were, so a finished MAC cannot be extended or recomputed. *)
Theorem hmac_unkeyed_inert stk ctx ds out out' :
  let c1 := qudo_fips_hmac_init stk ctx None in
  let c2 := fst (qudo_fips_hmac_final ctx out) in
  qudo_fips_hmac_final (fold_left qudo_fips_hmac_update ds c1) out' = (c1, out') /\
  qudo_fips_hmac_final (fold_left qudo_fips_hmac_update ds c2) out' = (c2, out').
Proof.
  intros c1 c2. split.
  - destruct (hmac_inert c1 ds out' eq_refl) as [-> ->]. reflexivity.
  - assert (Hi : initialized c2 = false).
    { subst c2. unfold qudo_fips_hmac_final. destruct (initialized ctx) eqn:E; cbn [negb]; [| exact E].
      destruct (sha2_256_final _), (sha2_256_final _). reflexivity. }
    destruct (hmac_inert c2 ds out' Hi) as [-> ->]. reflexivity.
Qed.
