(* ===== verification/CtrDrbg.v ===== *)
(** * CTR_DRBG with AES

    Model of [src/fips/qudo_fips_ctrdrbg.c] over any correct AES implementation (the dispatcher
    with either back end is one), with CTR_DRBG of SP 800-90A Rev. 1 (Section 10.2.1, without a
    derivation function) as the specification and a refinement between the two. *)

From stdpp Require Import base list numbers.
From Stdlib Require Import ZArith Lia ZifyNat.
From S2P Require Import Prelude Fips197 Aes.

#[local] Open Scope Z_scope.

(** ** Specification: SP 800-90A CTR_DRBG *)
Module SP800_90A.
(** [blocklen] = 16 bytes, [ctr_len] = 128 bits; the key length fixes the seed length. *)
Record state := mk_state { Key : bytes; V : Z }.

Definition seedlen (keylen : nat) : nat := (keylen + 16)%nat.

Definition Block_Encrypt (key : bytes) (v : Z) : bytes :=
  AES (length key / 4) key (Z_to_be 16 v).

(** Blocks [V + 1 .. V + n] encrypted, in order. *)
Definition ctr_stream (key : bytes) (v : Z) (n : nat) : bytes :=
  concat (map (fun i => Block_Encrypt key (v + Z.of_nat i)) (seq 1 n)).

(** CTR_DRBG_Update (10.2.1.2). *)
Definition Update (provided : bytes) (s : state) : state :=
  let keylen := length (Key s) in
  let temp := take (seedlen keylen) (ctr_stream (Key s) (V s) ((seedlen keylen + 15) / 16)) in
  let temp := xor_bytes temp provided in
  mk_state (take keylen temp) (be_to_Z (drop keylen temp)).

Definition Instantiate (keylen : nat) (entropy : bytes) : state :=
  Update entropy (mk_state (zeros keylen) 0).

Definition Reseed (entropy : bytes) (s : state) : state := Update entropy s.

(** CTR_DRBG_Generate (10.2.1.5.1); absent additional input counts as zeros. *)
Definition Generate (n : nat) (adin : option bytes) (s : state) : bytes * state :=
  let sl := seedlen (length (Key s)) in
  let '(s, adin) :=
    match adin with
    | Some a => let a := a ++ zeros (sl - length a) in (Update a s, a)
    | None => (s, zeros sl)
    end in
  let blocks := ((n + 15) / 16)%nat in
  let out := take n (ctr_stream (Key s) (V s) blocks) in
  (out, Update adin (mk_state (Key s) ((V s + Z.of_nat blocks) mod 2 ^ 128))).
End SP800_90A.

(** ** The code *)

Definition QUDO_CTRDRBG_MAX_SEEDLEN : nat := 48.
Definition QUDO_CTRDRBG_MAX_KEYLEN : nat := 32.
Definition QUDO_CTRDRBG_BLOCKLEN : nat := 16.
Definition QUDO_CTRDRBG_MAX_REQUEST : nat := Z.to_nat 65536.

Record qudo_ctrdrbg_ctx_t := mk_drbg {
  db_aes : qudo_aes_key_t; db_V : bytes; db_K : bytes;
  db_keylen : nat; db_seedlen : nat; db_initialized : bool }.

(** [do { --n; c += p[n]; p[n] = (uint8_t)c; c >>= 8; } while (n);] *)
Fixpoint inc_loop (n : nat) (c : Z) (p : bytes) : bytes :=
  match n with
  | O => p
  | S n' =>
      let c := u32 (c + rd p n') in
      inc_loop n' (Z.shiftr c 8) (wr p n' (u8 c))
  end.

Definition inc_128 (ctx : qudo_ctrdrbg_ctx_t) : qudo_ctrdrbg_ctx_t :=
  mk_drbg (db_aes ctx) (inc_loop 16 1 (db_V ctx)) (db_K ctx)
          (db_keylen ctx) (db_seedlen ctx) (db_initialized ctx).

(** [for (i = 0; i < n; i++) dst[i] ^= in[i + off];] *)
Definition xor_loop (n : nat) (dst src : bytes) (off : nat) : bytes :=
  fold_left (fun d i => wr d i (Z.lxor (rd d i) (rd src (i + off)))) (seq 0 n) dst.

Definition ctr_XOR (ctx : qudo_ctrdrbg_ctx_t) (inp : option bytes) (inlen : nat) : qudo_ctrdrbg_ctx_t :=
  match inp with
  | None => ctx
  | Some inp =>
      if Nat.eqb inlen 0 then ctx
      else
        let n := if Nat.ltb inlen (db_keylen ctx) then inlen else db_keylen ctx in
        let K := xor_loop n (db_K ctx) inp 0 in
        if Nat.leb inlen (db_keylen ctx) then
          mk_drbg (db_aes ctx) (db_V ctx) K (db_keylen ctx) (db_seedlen ctx) (db_initialized ctx)
        else
          let n := (inlen - db_keylen ctx)%nat in
          let n := if Nat.ltb QUDO_CTRDRBG_BLOCKLEN n then QUDO_CTRDRBG_BLOCKLEN else n in
          let V := xor_loop n (db_V ctx) inp (db_keylen ctx) in
          mk_drbg (db_aes ctx) V K (db_keylen ctx) (db_seedlen ctx) (db_initialized ctx)
  end.

Section Code.
Context (I : AesImpl).

(** [qudo_aes_set_encrypt_key(K, bits, &ctx->aes)] with its return value dropped; the key
    schedule reads the first [bits / 8] bytes of [K]. *)
Definition rekey (ctx : qudo_ctrdrbg_ctx_t) : qudo_ctrdrbg_ctx_t :=
  let aes := default (db_aes ctx)
    (snd (aes_set_encrypt_key (Some (take (db_keylen ctx) (db_K ctx)))
                              (Z.of_nat (db_keylen ctx) * 8) (Some (db_aes ctx)))) in
  mk_drbg aes (db_V ctx) (db_K ctx) (db_keylen ctx) (db_seedlen ctx) (db_initialized ctx).

(** [V_tmp] and [out] are 48-byte stack arrays; only what is written to them is read. *)
Definition ctr_update (ctx : qudo_ctrdrbg_ctx_t) (provided : option bytes) (plen : nat) : qudo_ctrdrbg_ctx_t :=
  let V_tmp := db_V ctx in
  let ctx := inc_128 ctx in
  let V_tmp := V_tmp ++ db_V ctx in
  let '(ctx, V_tmp, len) :=
    if Nat.eqb (db_keylen ctx) 16 then (ctx, V_tmp, 32%nat)
    else let ctx := inc_128 ctx in (ctx, V_tmp ++ db_V ctx, 48%nat) in
  let out := aes_encrypt (sub V_tmp 0 16) (db_aes ctx) ++ aes_encrypt (sub V_tmp 16 16) (db_aes ctx) in
  let out := if Nat.eqb len 48 then out ++ aes_encrypt (sub V_tmp 32 16) (db_aes ctx) else out in
  let K := blit (db_K ctx) 0 (sub out 0 (db_keylen ctx)) in
  let V := sub out (db_keylen ctx) QUDO_CTRDRBG_BLOCKLEN in
  let ctx := mk_drbg (db_aes ctx) V K (db_keylen ctx) (db_seedlen ctx) (db_initialized ctx) in
  rekey (ctr_XOR ctx provided plen).

Definition qudo_ctrdrbg_init (ctx : option qudo_ctrdrbg_ctx_t) (keylen : nat) (seed : option bytes)
    (seedlen : nat) : Z * option qudo_ctrdrbg_ctx_t :=
  match seed, ctx with
  | None, _ | _, None => (-1, ctx)
  | Some seed, Some c =>
      if negb (Nat.eqb keylen 16) && negb (Nat.eqb keylen 24) && negb (Nat.eqb keylen 32) then (-1, ctx)
      else if negb (Nat.eqb seedlen (keylen + QUDO_CTRDRBG_BLOCKLEN)) then (-1, ctx)
      else
        let c := mk_drbg (db_aes c) (zeros QUDO_CTRDRBG_BLOCKLEN) (zeros QUDO_CTRDRBG_MAX_KEYLEN)
                         keylen seedlen (db_initialized c) in
        let c := rekey c in
        let c := inc_128 c in
        let c := ctr_update c (Some seed) seedlen in
        (0, Some (mk_drbg (db_aes c) (db_V c) (db_K c) (db_keylen c) (db_seedlen c) true))
  end.

(** [while (off < out_len)]: every pass advances [off], so [out_len] passes are enough. *)
Fixpoint gen_loop (fuel off out_len : nat) (ctx : qudo_ctrdrbg_ctx_t) (out : bytes)
  : qudo_ctrdrbg_ctx_t * bytes :=
  match fuel with
  | O => (ctx, out)
  | S fuel =>
      if Nat.ltb off out_len then
        let ctx := inc_128 ctx in
        let blk := aes_encrypt (db_V ctx) (db_aes ctx) in
        let chunk := (out_len - off)%nat in
        let chunk := if Nat.ltb QUDO_CTRDRBG_BLOCKLEN chunk then QUDO_CTRDRBG_BLOCKLEN else chunk in
        gen_loop fuel (off + chunk) out_len ctx (blit out off (take chunk blk))
      else (ctx, out)
  end.

(** The additional-input part of [generate]: refused when longer than the seed, otherwise
    zero-padded in [add_buf] and used for a first update; the second component is
    [adin_ptr] with [adin_len]. *)
Definition generate_adin (c : qudo_ctrdrbg_ctx_t) (additional : option bytes) (additional_len : nat)
  : option (qudo_ctrdrbg_ctx_t * option (bytes * nat)) :=
  match additional with
  | None => Some (c, None)
  | Some a =>
      if Nat.eqb additional_len 0 then Some (c, None)
      else if Nat.ltb (db_seedlen c) additional_len then None
      else
        let add_buf := blit (zeros QUDO_CTRDRBG_MAX_SEEDLEN) 0 (take additional_len a) in
        Some (ctr_update (inc_128 c) (Some add_buf) (db_seedlen c), Some (add_buf, db_seedlen c))
  end.

Definition qudo_ctrdrbg_generate (ctx : option qudo_ctrdrbg_ctx_t) (out : option bytes) (out_len : nat)
    (additional : option bytes) (additional_len : nat)
  : Z * option qudo_ctrdrbg_ctx_t * option bytes :=
  match ctx with
  | None => (-1, ctx, out)
  | Some c =>
      if negb (db_initialized c) || Nat.ltb QUDO_CTRDRBG_MAX_REQUEST out_len then (-1, ctx, out)
      else if match out with None => Nat.ltb 0 out_len | Some _ => false end then (-1, ctx, out)
      else
        match generate_adin c additional additional_len with
        | None => (-1, ctx, out)
        | Some (c, adin) =>
          let finish c :=
            ctr_update (inc_128 c) (option_map fst adin) (match adin with Some (_, n) => n | None => 0%nat end) in
          match out with
          | Some o =>
              if Nat.eqb out_len 0 then (0, Some (finish c), out)
              else let '(c, o) := gen_loop out_len 0 out_len c o in (0, Some (finish c), Some o)
          | None => (0, Some (finish c), out)
          end
        end
  end.

Definition qudo_ctrdrbg_reseed (ctx : option qudo_ctrdrbg_ctx_t) (seed : option bytes) (seedlen : nat)
  : Z * option qudo_ctrdrbg_ctx_t :=
  match ctx, seed with
  | None, _ | _, None => (-1, ctx)
  | Some c, Some seed =>
      if negb (db_initialized c) then (-1, ctx)
      else if negb (Nat.eqb seedlen (db_seedlen c)) then (-1, ctx)
      else (0, Some (ctr_update (inc_128 c) (Some seed) seedlen))
  end.
End Code.

Definition drbg_cleared : qudo_ctrdrbg_ctx_t :=
  mk_drbg zero_aes_key (zeros 16) (zeros 32) 0 0 false.

Definition qudo_ctrdrbg_free (ctx : option qudo_ctrdrbg_ctx_t) : option qudo_ctrdrbg_ctx_t :=
  match ctx with Some _ => Some drbg_cleared | None => None end.

(** ** Counter and buffer lemmas *)

Lemma inc_loop_spec n c v B : 0 <= c <= 2 ^ 24 ->
  inc_loop n c (Z_to_be n v ++ B) = Z_to_be n (v + c) ++ B.
Proof.
  revert c v B. induction n as [|n IH]; intros c v B Hc; [reflexivity |].
  cbn [inc_loop Z_to_be]. rewrite <- !app_assoc. cbn [app].
  pose proof (Z.mod_pos_bound v 256 ltac:(lia)) as Hm.
  assert (Hrd : rd (Z_to_be n (v / 256) ++ v mod 256 :: B) n = v mod 256).
  { rewrite rd_app_r by (rewrite length_Z_to_be; lia). now rewrite length_Z_to_be, Nat.sub_diag. }
  rewrite Hrd, (u32_id (c + _)) by (unfold is_u32; lia).
  pose proof (wr_app_mid (Z_to_be n (v / 256)) (v mod 256) B) as Hw. rewrite length_Z_to_be in Hw. rewrite Hw.
  rewrite Z.shiftr_div_pow2, u8_mod by lia. change (2 ^ 8) with 256.
  rewrite IH by (split; [apply Z.div_pos | apply Z.div_le_upper_bound]; lia).
  assert (Hv : v + c = v / 256 * 256 + (c + v mod 256)) by (pose proof (Z.div_mod v 256); lia).
  f_equal; [f_equal | f_equal].
  - rewrite Hv, Z.div_add_l by lia. reflexivity.
  - rewrite Hv, (Z.add_comm (v / 256 * 256)), Z.mod_add by lia. reflexivity.
Qed.

Lemma length_inc_loop n c p : length (inc_loop n c p) = length p.
Proof.
  revert c p. induction n as [|n IH]; intros c p; [reflexivity |]. cbn [inc_loop]. rewrite IH. apply length_wr.
Qed.

(** Conversion should not run the counter loop. *)
#[global] Opaque inc_loop.

Lemma xor_loop_S n dst src off :
  xor_loop (S n) dst src off
  = let d := xor_loop n dst src off in wr d n (Z.lxor (rd d n) (rd src (n + off))).
Proof. unfold xor_loop. now rewrite seq_S, fold_left_app. Qed.

Lemma xor_loop_spec n dst src off :
  (n <= length dst)%nat -> (n + off <= length src)%nat ->
  xor_loop n dst src off = xor_bytes (take n dst) (sub src off n) ++ drop n dst.
Proof.
  intros Hd Hs. induction n as [|n IH]; [reflexivity |].
  rewrite xor_loop_S. cbv zeta. rewrite IH by lia.
  set (P := xor_bytes (take n dst) (sub src off n)).
  assert (HP : length P = n).
  { subst P. unfold xor_bytes. rewrite length_zip_with, length_take, length_sub by lia. lia. }
  rewrite (drop_S dst (rd dst n) n) by (apply rd_in_range; lia).
  rewrite rd_app_r, HP, Nat.sub_diag by lia. cbn [rd nth].
  pose proof (wr_app_mid P (rd dst n) (drop (S n) dst)) as Hw. rewrite HP in Hw. rewrite Hw.
  rewrite (take_S_r dst n (rd dst n)) by (apply rd_in_range; lia).
  unfold sub. rewrite (take_S_r _ n (rd src (n + off))).
  - unfold xor_bytes. rewrite zip_with_app by (rewrite !length_take, length_drop; lia).
    cbn [zip_with]. now rewrite <- app_assoc.
  - rewrite lookup_drop, Nat.add_comm. apply rd_in_range. lia.
Qed.

(** ** AES blocks *)

Lemma AES_block Nk key input : block input -> block (AES Nk key input).
Proof.
  intros Hin. unfold AES, Cipher.
  assert (Hb : forall n s, block s -> block (full_rounds (KeyExpansion Nk key) n s)).
  { intros n s Hs. unfold full_rounds. revert s Hs. generalize (seq 1 n).
    intros l. induction l as [|k l IH]; intros s Hs; [exact Hs |]. cbn [fold_left].
    apply IH. now apply full_round_block. }
  destruct (Hb (Nk + 6 - 1)%nat (AddRoundKey input (KeyExpansion Nk key) 0)) as [Hl Hs].
  { now apply AddRoundKey_block. }
  apply AddRoundKey_block. split; [apply length_ShiftRows | apply ShiftRows_u8, SubBytes_u8, Hs].
Qed.

Lemma be16_block v : block (Z_to_be 16 v).
Proof. split; [apply length_Z_to_be | apply Z_to_be_bytes]. Qed.

#[global] Opaque AES.

(** ** Refinement *)

Section Refinement.
Context (I : AesImpl) (HI : AesImplOk I).

(** The context holds the specification's [Key] and [V] and the matching key schedule. *)
Record keyed (c : qudo_ctrdrbg_ctx_t) (s : SP800_90A.state) : Prop := {
  k_len : db_keylen c = 16%nat \/ db_keylen c = 24%nat \/ db_keylen c = 32%nat;
  k_seed : db_seedlen c = (db_keylen c + 16)%nat;
  k_K : length (db_K c) = 32%nat;
  k_Key : take (db_keylen c) (db_K c) = SP800_90A.Key s;
  k_bytes : are_bytes (SP800_90A.Key s);
  k_V : db_V c = Z_to_be 16 (SP800_90A.V s);
  k_rk : length (rd_key (db_aes c)) = 60%nat;
  k_enc : forall input, block input ->
    aes_encrypt input (db_aes c) = AES (db_keylen c / 4) (SP800_90A.Key s) input }.

Lemma keyed_length c s : keyed c s -> length (SP800_90A.Key s) = db_keylen c.
Proof. intros [Hl _ HK <- _ _ _ _]. rewrite length_take. lia. Qed.

Lemma keyed_block c s v : keyed c s ->
  aes_encrypt (Z_to_be 16 v) (db_aes c) = SP800_90A.Block_Encrypt (SP800_90A.Key s) v.
Proof.
  intros Hk. rewrite (k_enc c s Hk) by apply be16_block.
  unfold SP800_90A.Block_Encrypt. now rewrite (keyed_length c s Hk).
Qed.

Lemma inc_128_keyed c K v : keyed c (SP800_90A.mk_state K v) ->
  keyed (inc_128 c) (SP800_90A.mk_state K (v + 1)).
Proof.
  intros [Hl Hs HK HKey Hb HV Hr He]. constructor; try assumption. cbn [SP800_90A.V inc_128 db_V] in HV |- *.
  rewrite HV. rewrite <- (app_nil_r (Z_to_be 16 v)), inc_loop_spec by lia. apply app_nil_r.
Qed.

(** Any schedule left by the AES key setup is right for the key that was given. *)
Lemma rekey_keyed c K v :
  db_keylen c = 16%nat \/ db_keylen c = 24%nat \/ db_keylen c = 32%nat ->
  db_seedlen c = (db_keylen c + 16)%nat -> length (db_K c) = 32%nat ->
  take (db_keylen c) (db_K c) = K -> are_bytes K -> db_V c = Z_to_be 16 v ->
  length (rd_key (db_aes c)) = 60%nat ->
  keyed (rekey I c) (SP800_90A.mk_state K v).
Proof.
  intros Hl Hs HK HKey Hb HV Hr. unfold rekey. rewrite HKey.
  assert (Hv : valid_bits (Z.of_nat (db_keylen c) * 8))
    by (destruct Hl as [-> | [-> | ->]]; [left | right; left | right; right]; reflexivity).
  assert (HKl : Z.of_nat (length K) * 8 = Z.of_nat (db_keylen c) * 8)
    by (rewrite <- HKey, length_take, HK; lia).
  destruct (aes_impl_ok K _ (db_aes c) Hv Hb HKl Hr) as (k & Hset & Hk & He).
  unfold bytes in Hset. rewrite Hset. constructor; cbn [db_keylen db_seedlen db_K db_V db_aes snd default SP800_90A.Key SP800_90A.V]; try assumption.
  intros input Hin. rewrite He by exact Hin.
  destruct Hl as [-> | [-> | ->]]; reflexivity.
Qed.

Lemma length_stream K v n : length (SP800_90A.ctr_stream K v n) = (16 * n)%nat.
Proof.
  unfold SP800_90A.ctr_stream. replace (16 * n)%nat with (16 * length (seq 1 n))%nat by (now rewrite length_seq).
  generalize (seq 1 n) as l.
  intros l. induction l as [|i l IH]; [reflexivity |]. cbn [map concat length]. rewrite length_app, IH.
  unfold SP800_90A.Block_Encrypt. rewrite (proj1 (AES_block _ _ _ (be16_block _))). lia.
Qed.

Lemma stream_bytes K v n : are_bytes (SP800_90A.ctr_stream K v n).
Proof.
  unfold SP800_90A.ctr_stream. generalize (seq 1 n) as l.
  intros l. induction l as [|i l IH]; [constructor |]. cbn [map concat]. apply Forall_app_2; [| exact IH].
  apply (AES_block _ _ _ (be16_block _)).
Qed.

Lemma stream_S K v n :
  SP800_90A.ctr_stream K v (S n) = SP800_90A.Block_Encrypt K (v + 1) ++ SP800_90A.ctr_stream K (v + 1) n.
Proof.
  unfold SP800_90A.ctr_stream. cbn [seq map concat]. f_equal.
  rewrite <- seq_shift, map_map. f_equal. apply map_ext. intros i. f_equal. lia.
Qed.

(** The bytes produced by [ctr_update] before the XOR. *)
Definition update_out (c : qudo_ctrdrbg_ctx_t) : bytes :=
  let V1 := db_V c in let V2 := db_V (inc_128 c) in let V3 := db_V (inc_128 (inc_128 c)) in
  aes_encrypt V1 (db_aes c) ++ aes_encrypt V2 (db_aes c) ++
  (if Nat.eqb (db_keylen c) 16 then [] else aes_encrypt V3 (db_aes c)).

Lemma update_out_stream c K v : keyed c (SP800_90A.mk_state K (v + 1)) ->
  update_out c = SP800_90A.ctr_stream K v ((SP800_90A.seedlen (length K) + 15) / 16).
Proof.
  intros Hk. unfold update_out.
  pose proof (inc_128_keyed _ _ _ Hk) as Hk2. pose proof (inc_128_keyed _ _ _ Hk2) as Hk3.
  rewrite (k_V _ _ Hk), (k_V _ _ Hk2), (k_V _ _ Hk3). cbn [SP800_90A.V].
  rewrite !(keyed_block c _ _ Hk). cbn [SP800_90A.Key].
  pose proof (keyed_length _ _ Hk) as HK. cbn [SP800_90A.Key] in HK. rewrite HK.
  unfold SP800_90A.seedlen. destruct (k_len _ _ Hk) as [-> | [-> | ->]]; cbn [Nat.eqb].
  - change ((16 + 16 + 15) / 16)%nat with 2%nat. now rewrite !stream_S.
  - change ((24 + 16 + 15) / 16)%nat with 3%nat. rewrite !stream_S. cbn. now rewrite app_nil_r.
  - change ((32 + 16 + 15) / 16)%nat with 3%nat. rewrite !stream_S. cbn. now rewrite app_nil_r.
Qed.

(** The increment touches the counter alone. *)
Lemma inc_128_frame c :
  db_aes (inc_128 c) = db_aes c /\ db_K (inc_128 c) = db_K c /\ db_keylen (inc_128 c) = db_keylen c /\
  db_seedlen (inc_128 c) = db_seedlen c /\ db_initialized (inc_128 c) = db_initialized c /\
  length (db_V (inc_128 c)) = length (db_V c).
Proof. repeat split. apply length_inc_loop. Qed.

Lemma ctr_update_out c provided plen : length (db_V c) = 16%nat ->
  ctr_update I c provided plen
  = (let out := update_out c in
     let V := sub out (db_keylen c) 16 in
     rekey I (ctr_XOR (mk_drbg (db_aes c) V (blit (db_K c) 0 (take (db_keylen c) out))
                               (db_keylen c) (db_seedlen c) (db_initialized c)) provided plen)).
Proof.
  intros HV. unfold ctr_update, update_out.
  pose proof (inc_128_frame c) as (Ha1 & HK1 & Hk1 & Hs1 & Hi1 & Hl1).
  pose proof (inc_128_frame (inc_128 c)) as (Ha2 & HK2 & Hk2 & Hs2 & Hi2 & Hl2).
  generalize dependent (inc_128 (inc_128 c)). generalize dependent (inc_128 c).
  intros c1 Ha1 HK1 Hk1 Hs1 Hi1 Hl1 c2 Ha2 HK2 Hk2 Hs2 Hi2 Hl2.
  rewrite Hk1. cbv zeta. destruct (Nat.eqb (db_keylen c) 16); cbn [Nat.eqb].
  - replace (sub (db_V c ++ db_V c1) 0 16) with (db_V c) by (symmetry; now apply (sub_app_mid [] (db_V c))).
    replace (sub (db_V c ++ db_V c1) 16 16) with (db_V c1)
      by (symmetry; rewrite <- (app_nil_r (db_V c1)) at 1; apply sub_app_mid; lia).
    rewrite app_nil_r, Ha1, HK1, Hk1, Hs1, Hi1. reflexivity.
  - rewrite <- (app_assoc (db_V c)).
    replace (sub (db_V c ++ db_V c1 ++ db_V c2) 0 16) with (db_V c) by (symmetry; now apply (sub_app_mid [] (db_V c))).
    replace (sub (db_V c ++ db_V c1 ++ db_V c2) 16 16) with (db_V c1) by (symmetry; apply sub_app_mid; lia).
    replace (sub (db_V c ++ db_V c1 ++ db_V c2) 32 16) with (db_V c2)
      by (symmetry; rewrite app_assoc, <- (app_nil_r (db_V c2)) at 1; apply sub_app_mid; rewrite ?length_app; lia).
    rewrite <- app_assoc, Ha2, HK2, Hk2, Hs2, Hi2, Ha1, HK1, Hk1, Hs1, Hi1. reflexivity.
Qed.

Lemma length_update_out c K v : keyed c (SP800_90A.mk_state K (v + 1)) ->
  (db_keylen c + 16 <= length (update_out c))%nat.
Proof.
  intros Hk. rewrite (update_out_stream c K v Hk), length_stream.
  pose proof (keyed_length _ _ Hk) as HK. cbn [SP800_90A.Key] in HK. rewrite HK.
  unfold SP800_90A.seedlen. lia.
Qed.

(** The data XORed in: none, which counts as zeros, or the first [seedlen] bytes of a buffer. *)
Definition provided_as (p : option bytes) (plen sl : nat) (q : bytes) : Prop :=
  length q = sl /\
  (p = None /\ q = zeros sl \/ exists b, p = Some b /\ plen = sl /\ q = take sl b).

Lemma ctr_XOR_pieces c p plen q (kl := db_keylen c) :
  (0 < kl <= 32)%nat -> db_seedlen c = (kl + 16)%nat -> length (db_K c) = 32%nat ->
  length (db_V c) = 16%nat -> provided_as p plen (db_seedlen c) q ->
  exists K', ctr_XOR c p plen = mk_drbg (db_aes c) (xor_bytes (db_V c) (drop kl q)) K'
                                  kl (db_seedlen c) (db_initialized c) /\
    length K' = 32%nat /\ take kl K' = xor_bytes (take kl (db_K c)) (take kl q).
Proof.
  intros Hkl Hsl HK HV [Hql [[-> ->] | (b & -> & -> & ->)]]; subst kl.
  - exists (db_K c). unfold zeros. rewrite drop_replicate, take_replicate, Nat.min_l by lia.
    fold (zeros (db_keylen c)) (zeros (db_seedlen c - db_keylen c)).
    rewrite !xor_bytes_zeros by (rewrite ?length_take; lia). now destruct c.
  - rewrite length_take in Hql. set (kl := db_keylen c) in *.
    exists (xor_loop kl (db_K c) b 0). rewrite (xor_loop_spec kl) by lia.
    assert (Hxk : length (xor_bytes (take kl (db_K c)) (sub b 0 kl)) = kl)
      by (rewrite length_xor_bytes; rewrite ?length_sub, ?length_take; lia).
    split_and!.
    + unfold ctr_XOR. fold kl.
      rewrite (proj2 (Nat.eqb_neq (db_seedlen c) 0)) by lia.
      rewrite (proj2 (Nat.ltb_ge (db_seedlen c) kl)) by lia.
      rewrite (proj2 (Nat.leb_gt (db_seedlen c) kl)) by lia.
      replace (db_seedlen c - kl)%nat with 16%nat by lia. cbn [Nat.ltb Nat.leb QUDO_CTRDRBG_BLOCKLEN].
      rewrite !xor_loop_spec by lia.
      rewrite (take_ge (db_V c)), (drop_ge (db_V c)), app_nil_r by lia.
      f_equal. f_equal. unfold sub. rewrite skipn_firstn_comm. f_equal. lia.
    + rewrite length_app, length_drop, Hxk. lia.
    + rewrite take_app_length' by lia. f_equal. unfold sub. rewrite drop_0, take_take. f_equal. lia.
Qed.

(** [ctr_update] on a context whose counter is one ahead of the specification's [V] (the code
    increments before calling it) is CTR_DRBG_Update. *)
Lemma ctr_update_keyed c K v p plen q :
  keyed c (SP800_90A.mk_state K (v + 1)) -> are_bytes q -> provided_as p plen (db_seedlen c) q ->
  keyed (ctr_update I c p plen) (SP800_90A.Update q (SP800_90A.mk_state K v)).
Proof.
  intros Hk Hq Hp. pose proof (proj1 Hp) as Hql. rewrite ctr_update_out
    by (rewrite (k_V _ _ Hk); apply length_Z_to_be).
  pose proof (length_update_out c K v Hk) as Hlen. pose proof (keyed_length _ _ Hk) as HKl.
  pose proof (k_len _ _ Hk) as Hkl. pose proof (k_seed _ _ Hk) as Hsl. pose proof (k_K _ _ Hk) as HK32.
  assert (Hob : are_bytes (update_out c)) by (rewrite (update_out_stream c K v Hk); apply stream_bytes).
  unfold SP800_90A.Update. cbn [SP800_90A.Key SP800_90A.V] in HKl |- *.
  rewrite <- (update_out_stream c K v Hk), HKl.
  rewrite xor_bytes_take, xor_bytes_drop. unfold SP800_90A.seedlen.
  rewrite take_take, skipn_firstn_comm, Nat.min_l, Nat.add_comm, Nat.add_sub by lia.
  set (out := update_out c) in *. cbv zeta. fold (sub out (db_keylen c) 16). set (kl := db_keylen c) in *.
  assert (Hlt : length (take kl out) = kl) by (rewrite length_take; lia).
  destruct (ctr_XOR_pieces (mk_drbg (db_aes c) (sub out kl 16) (blit (db_K c) 0 (take kl out))
                              kl (db_seedlen c) (db_initialized c)) p plen q)
    as (K' & -> & HK' & HtK'); cbn [db_keylen db_seedlen db_K db_V]; try assumption; try lia.
  { rewrite length_blit; lia. }
  { rewrite length_sub; lia. }
  change (blit (db_K c) 0 (take kl out)) with (take kl out ++ drop (length (take kl out)) (db_K c)) in HtK'.
  cbn [db_K db_keylen] in HtK'. rewrite (take_app_length' (take kl out)) in HtK' by lia.
  apply rekey_keyed; cbn [db_keylen db_seedlen db_K db_V db_aes]; try assumption.
  - apply xor_bytes_u8; now apply Forall_take.
  - assert (Hxl : length (xor_bytes (sub out kl 16) (drop kl q)) = 16%nat)
      by (rewrite length_xor_bytes; rewrite ?length_drop, ?length_sub; lia).
    rewrite <- Hxl at 2. symmetry. apply Z_to_be_be_to_Z, xor_bytes_u8; [| now apply Forall_drop].
    apply Forall_take. now apply Forall_drop.
  - apply (k_rk _ _ Hk).
Qed.

Lemma inc_128_init c : db_initialized (inc_128 c) = db_initialized c.
Proof. reflexivity. Qed.

Lemma ctr_XOR_init c p n : db_initialized (ctr_XOR c p n) = db_initialized c.
Proof. unfold ctr_XOR. destruct p; [| reflexivity]. repeat case_match; reflexivity. Qed.

Lemma ctr_update_init c p n : db_initialized (ctr_update I c p n) = db_initialized c.
Proof.
  unfold ctr_update. destruct (Nat.eqb _ _); cbn [rekey db_initialized]; now rewrite ctr_XOR_init.
Qed.

(** A context in use. *)
Definition drbg_rep (c : qudo_ctrdrbg_ctx_t) (s : SP800_90A.state) : Prop :=
  keyed c s /\ db_initialized c = true.

(** One update step of the code: increment, then [ctr_update]. *)
Lemma update_rep c s p plen q :
  drbg_rep c s -> are_bytes q -> provided_as p plen (db_seedlen c) q ->
  drbg_rep (ctr_update I (inc_128 c) p plen) (SP800_90A.Update q s).
Proof.
  intros [Hk Hi] Hq Hp. destruct s as [K v]. split; [| now rewrite ctr_update_init].
  apply ctr_update_keyed; [now apply inc_128_keyed | exact Hq | exact Hp].
Qed.

Lemma length_Block K v : length (SP800_90A.Block_Encrypt K v) = 16%nat.
Proof. apply (AES_block _ _ _ (be16_block _)). Qed.

(** The generate loop fills the buffer from [off] with the key stream. *)
Lemma gen_loop_spec K out_len fuel off c v o n :
  keyed c (SP800_90A.mk_state K v) -> (out_len <= length o)%nat -> (off <= out_len)%nat ->
  (out_len - off <= fuel)%nat -> n = ((out_len - off + 15) / 16)%nat ->
  exists c', gen_loop I fuel off out_len c o
      = (c', take off o ++ take (out_len - off) (SP800_90A.ctr_stream K v n) ++ drop out_len o) /\
    keyed c' (SP800_90A.mk_state K (v + Z.of_nat n)) /\ db_initialized c' = db_initialized c.
Proof.
  revert off c v o n. induction fuel as [|fuel IH]; intros off c v o n Hk Ho Hoff Hf Hn.
  all: cbn [gen_loop].
  { assert (off = out_len) by lia. subst off n. rewrite Nat.sub_diag.
    exists c. rewrite take_0. cbn [app]. rewrite take_drop, Z.add_0_r. auto. }
  destruct (Nat.ltb_spec off out_len) as [Hlt | Hge]; cycle 1.
  { assert (off = out_len) by lia. subst off n. rewrite Nat.sub_diag.
    exists c. rewrite take_0. cbn [app]. rewrite take_drop, Z.add_0_r. auto. }
  pose proof (inc_128_keyed _ _ _ Hk) as Hk1.
  rewrite (k_V _ _ Hk1). cbn [SP800_90A.V]. rewrite (keyed_block _ _ _ Hk1). cbn [SP800_90A.Key].
  set (B := SP800_90A.Block_Encrypt K (v + 1)). pose proof (length_Block K (v + 1)) as HB. fold B in HB.
  set (chunk := if Nat.ltb QUDO_CTRDRBG_BLOCKLEN (out_len - off) then QUDO_CTRDRBG_BLOCKLEN else (out_len - off)%nat).
  assert (Hc : chunk = Nat.min 16 (out_len - off)).
  { subst chunk. unfold QUDO_CTRDRBG_BLOCKLEN. destruct (Nat.ltb_spec 16 (out_len - off)); lia. }
  clearbody chunk. assert (Htc : length (take chunk B) = chunk) by (rewrite length_take; lia).
  destruct (IH (off + chunk)%nat (inc_128 c) (v + 1) (blit o off (take chunk B)) (n - 1)%nat)
    as (c' & -> & Hk' & Hi'); [exact Hk1 | rewrite length_blit; lia | lia | lia | lia |].
  exists c'. split_and!; [| replace (v + Z.of_nat n) with (v + 1 + Z.of_nat (n - 1)) by lia; exact Hk' | exact Hi'].
  f_equal. replace n with (S (n - 1)) at 2 by lia. rewrite stream_S. fold B.
  assert (Hpre : take (off + chunk) (blit o off (take chunk B)) = take off o ++ take chunk B).
  { unfold blit. rewrite app_assoc. apply take_app_length'. rewrite length_app, length_take. lia. }
  assert (Hpost : drop out_len (blit o off (take chunk B)) = drop out_len o).
  { unfold blit. rewrite app_assoc, drop_app_ge by (rewrite length_app, length_take; lia).
    rewrite drop_drop. f_equal. rewrite length_app, Htc, length_take. lia. }
  rewrite Hpre, Hpost, <- app_assoc. f_equal. rewrite app_assoc. f_equal.
  rewrite take_app, HB. f_equal; [| f_equal; lia].
  destruct (Nat.le_ge_cases 16 (out_len - off)).
  - rewrite !take_ge; lia || reflexivity.
  - f_equal. lia.
Qed.

Lemma Update_mod q K v : SP800_90A.Update q (SP800_90A.mk_state K (v mod 2 ^ 128))
  = SP800_90A.Update q (SP800_90A.mk_state K v).
Proof.
  unfold SP800_90A.Update. cbn [SP800_90A.Key SP800_90A.V].
  enough (H : forall n, SP800_90A.ctr_stream K (v mod 2 ^ 128) n = SP800_90A.ctr_stream K v n) by now rewrite H.
  intros n. unfold SP800_90A.ctr_stream. f_equal. apply map_ext. intros i.
  unfold SP800_90A.Block_Encrypt. f_equal.
  rewrite <- (Z_to_be_mod 16 (_ + _)), <- (Z_to_be_mod 16 (v + _)).
  change (256 ^ Z.of_nat 16) with (2 ^ 128). now rewrite Z.add_mod_idemp_l by lia.
Qed.

(** Instantiation, whatever the context held before. *)
Lemma init_rep c keylen seed :
  keylen = 16%nat \/ keylen = 24%nat \/ keylen = 32%nat ->
  are_bytes seed -> length seed = (keylen + 16)%nat -> length (rd_key (db_aes c)) = 60%nat ->
  exists c', qudo_ctrdrbg_init I (Some c) keylen (Some seed) (length seed) = (0, Some c') /\
    drbg_rep c' (SP800_90A.Instantiate keylen seed) /\ db_seedlen c' = (keylen + 16)%nat.
Proof.
  intros Hkl Hb Hlen Hrk. unfold qudo_ctrdrbg_init.
  replace (negb (Nat.eqb keylen 16) && negb (Nat.eqb keylen 24) && negb (Nat.eqb keylen 32)) with false
    by (destruct Hkl as [-> | [-> | ->]]; reflexivity).
  rewrite Hlen, Nat.eqb_refl. cbn [negb].
  eexists. split; [reflexivity |].
  set (c0 := mk_drbg (db_aes c) (zeros QUDO_CTRDRBG_BLOCKLEN) _ _ _ _).
  assert (Hk : keyed (rekey I c0) (SP800_90A.mk_state (zeros keylen) 0)).
  { apply rekey_keyed; subst c0; cbn [db_keylen db_seedlen db_K db_V db_aes]; try assumption; try reflexivity.
    - unfold zeros, QUDO_CTRDRBG_MAX_KEYLEN. rewrite take_replicate. f_equal. lia.
    - apply zeros_bytes. }
  assert (Hu : keyed (ctr_update I (inc_128 (rekey I c0)) (Some seed) (keylen + 16))
                 (SP800_90A.Instantiate keylen seed)).
  { apply ctr_update_keyed; [now apply inc_128_keyed | exact Hb |].
    split; [exact Hlen |]. right. exists seed. repeat split. symmetry. apply take_ge. cbn. lia. }
  split; [split; [destruct Hu; constructor; assumption | reflexivity] |].
  cbn [db_seedlen]. rewrite (k_seed _ _ Hu), <- (keyed_length _ _ Hu).
  cbn [SP800_90A.Instantiate SP800_90A.Update SP800_90A.Key].
  rewrite length_take, length_xor_bytes; rewrite length_take, length_stream, length_zeros;
    unfold SP800_90A.seedlen; lia.
Qed.

Lemma reseed_rep c s seed :
  drbg_rep c s -> are_bytes seed -> length seed = db_seedlen c ->
  exists c', qudo_ctrdrbg_reseed I (Some c) (Some seed) (length seed) = (0, Some c') /\
    drbg_rep c' (SP800_90A.Reseed seed s).
Proof.
  intros Hr Hb Hlen. unfold qudo_ctrdrbg_reseed. rewrite (proj2 Hr), Hlen, Nat.eqb_refl. cbn [negb].
  eexists. split; [reflexivity |]. apply update_rep; [exact Hr | exact Hb |].
  split; [exact Hlen |]. right. exists seed. repeat split. symmetry. apply take_ge. lia.
Qed.

(** Empty additional input is the specification's Null. *)
Definition nonempty (a : option bytes) : option bytes :=
  match a with Some [] => None | _ => a end.

Definition adin_bytes (a : option bytes) : bytes := match a with Some x => x | None => [] end.
Definition alen (a : option bytes) : nat := length (adin_bytes a).

Lemma update_seedlen q s : length q = (length (SP800_90A.Key s) + 16)%nat ->
  length (SP800_90A.Key (SP800_90A.Update q s)) = length (SP800_90A.Key s).
Proof.
  intros Hq. cbn [SP800_90A.Update SP800_90A.Key]. rewrite length_take, length_xor_bytes;
    rewrite length_take, length_stream; unfold SP800_90A.seedlen; lia.
Qed.

Lemma rep_seedlen c s : drbg_rep c s -> db_seedlen c = (length (SP800_90A.Key s) + 16)%nat.
Proof. intros [Hk _]. now rewrite (k_seed _ _ Hk), (keyed_length _ _ Hk). Qed.

(** Additional input as the specification pads it, and the state after its update. *)
Definition adin_pad (a : option bytes) (sl : nat) : bytes :=
  match nonempty a with Some x => x ++ zeros (sl - length x) | None => zeros sl end.
Definition adin_state (a : option bytes) (sl : nat) (s : SP800_90A.state) : SP800_90A.state :=
  match nonempty a with Some _ => SP800_90A.Update (adin_pad a sl) s | None => s end.

Lemma Generate_unfold n a s (sl := (length (SP800_90A.Key s) + 16)%nat) (s1 := adin_state a sl s) :
  SP800_90A.Generate n (nonempty a) s
  = (take n (SP800_90A.ctr_stream (SP800_90A.Key s1) (SP800_90A.V s1) ((n + 15) / 16)),
     SP800_90A.Update (adin_pad a sl) (SP800_90A.mk_state (SP800_90A.Key s1)
       (SP800_90A.V s1 + Z.of_nat ((n + 15) / 16)))).
Proof.
  subst s1 sl. unfold SP800_90A.Generate, adin_state. rewrite <- Update_mod.
  unfold SP800_90A.seedlen, adin_pad. destruct (nonempty a); reflexivity.
Qed.

Lemma adin_pad_bytes a sl : are_bytes (adin_bytes a) -> are_bytes (adin_pad a sl).
Proof.
  intros Hb. unfold adin_pad. destruct a as [[|x a]|]; cbn [nonempty]; try apply zeros_bytes.
  apply Forall_app_2; [exact Hb | apply zeros_bytes].
Qed.

Lemma generate_adin_rep c s a :
  drbg_rep c s -> are_bytes (adin_bytes a) -> (alen a <= db_seedlen c)%nat ->
  exists c1 adbuf, generate_adin I c a (alen a) = Some (c1, adbuf) /\
    drbg_rep c1 (adin_state a (db_seedlen c) s) /\ db_seedlen c1 = db_seedlen c /\
    provided_as (option_map fst adbuf) (match adbuf with Some (_, m) => m | None => 0%nat end)
      (db_seedlen c) (adin_pad a (db_seedlen c)).
Proof.
  intros Hr Hb Ha. pose proof (adin_pad_bytes a (db_seedlen c) Hb) as Hq.
  assert (Hsl : (db_seedlen c <= 48)%nat)
    by (destruct Hr as [Hk _]; pose proof (k_len _ _ Hk); rewrite (k_seed _ _ Hk); lia).
  unfold generate_adin, adin_state, adin_pad in *. unfold alen in *.
  destruct a as [[|x a]|]; cbn [nonempty adin_bytes length Nat.eqb] in *.
  - eexists c, None. split_and!; try reflexivity || exact Hr. split; [apply length_zeros | left; now split].
  - rewrite (proj2 (Nat.ltb_ge _ (S (length a)))) by exact Ha.
    rewrite (take_ge (x :: a)) by (cbn [length]; lia).
    set (q := (x :: a) ++ zeros (db_seedlen c - S (length a))) in *.
    assert (Hql : length q = db_seedlen c) by (subst q; rewrite length_app, length_zeros; cbn [length]; lia).
    assert (Hp : provided_as (Some (blit (zeros QUDO_CTRDRBG_MAX_SEEDLEN) 0 (x :: a))) (db_seedlen c) (db_seedlen c) q).
    { split; [exact Hql |]. right. eexists. repeat split. subst q.
      change (blit (zeros QUDO_CTRDRBG_MAX_SEEDLEN) 0 (x :: a)) with ((x :: a) ++ drop (length (x :: a)) (zeros 48)).
      rewrite take_app, (take_ge (x :: a)) by (cbn [length]; lia). f_equal. unfold zeros.
      rewrite drop_replicate, take_replicate, Nat.min_l; cbn [length]; (reflexivity || lia). }
    pose proof (update_rep _ _ _ _ _ Hr Hq Hp) as Hr1.
    eexists _, _. split_and!; [reflexivity | exact Hr1 | | exact Hp].
    rewrite (rep_seedlen _ _ Hr1), (rep_seedlen c s Hr). f_equal. apply update_seedlen.
    rewrite Hql. now apply rep_seedlen.
  - eexists c, None. split_and!; try reflexivity || exact Hr. split; [apply length_zeros | left; now split].
Qed.

Lemma generate_rep c s (o : bytes) n a :
  drbg_rep c s -> (n <= QUDO_CTRDRBG_MAX_REQUEST)%nat -> (n <= length o)%nat ->
  are_bytes (adin_bytes a) -> (alen a <= db_seedlen c)%nat ->
  exists c', qudo_ctrdrbg_generate I (Some c) (Some o) n a (alen a)
      = (0, Some c', Some (fst (SP800_90A.Generate n (nonempty a) s) ++ drop n o)) /\
    drbg_rep c' (snd (SP800_90A.Generate n (nonempty a) s)).
Proof.
  intros Hr Hn Ho Hb Ha. unfold qudo_ctrdrbg_generate. rewrite (proj2 Hr). cbn [negb orb].
  rewrite (proj2 (Nat.ltb_ge _ n)) by exact Hn.
  rewrite Generate_unfold, <- (rep_seedlen c s Hr). cbn [fst snd].
  destruct (generate_adin_rep c s a Hr Hb Ha) as (c1 & adbuf & -> & [Hk1 Hi1] & Hs1 & Hp).
  pose proof (adin_pad_bytes a (db_seedlen c) Hb) as Hq.
  destruct (adin_state a (db_seedlen c) s) as [K v]. cbn [SP800_90A.Key SP800_90A.V].
  destruct (gen_loop_spec K n n 0 c1 v o ((n + 15) / 16) Hk1) as (c2 & Hloop & Hk2 & Hi2); try lia.
  rewrite Nat.sub_0_r, take_0 in Hloop. cbn [app] in Hloop.
  destruct (Nat.eqb_spec n 0) as [-> | Hne].
  - eexists. split; [reflexivity |].
    apply update_rep; [split; [| exact Hi1] | exact Hq | now rewrite Hs1].
    change (Z.of_nat ((0 + 15) / 16)) with 0. now rewrite Z.add_0_r.
  - rewrite Hloop. eexists. split; [reflexivity |].
    apply update_rep; [split; [exact Hk2 | now rewrite Hi2] | exact Hq |].
    assert (Heq : db_seedlen c2 = db_seedlen c1)
      by (rewrite (k_seed _ _ Hk2), (k_seed _ _ Hk1), <- (keyed_length _ _ Hk2), <- (keyed_length _ _ Hk1);
          reflexivity).
    now rewrite Heq, Hs1.
Qed.
End Refinement.

(** ** Sequences of calls *)

Inductive drbg_op := DoReseed (seed : bytes) | DoGenerate (n : nat) (adin : option bytes).

(** A call within the documented limits. *)
Definition op_ok (sl : nat) (op : drbg_op) : Prop :=
  match op with
  | DoReseed seed => are_bytes seed /\ length seed = sl
  | DoGenerate n a => (n <= QUDO_CTRDRBG_MAX_REQUEST)%nat /\ are_bytes (adin_bytes a) /\ (alen a <= sl)%nat
  end.

(** The code's return codes and outputs over a sequence of calls (each with a fresh buffer). *)
Fixpoint code_run (I : AesImpl) (c : option qudo_ctrdrbg_ctx_t) (ops : list drbg_op) : list (Z * bytes) :=
  match ops with
  | [] => []
  | DoReseed seed :: ops =>
      let '(rc, c) := qudo_ctrdrbg_reseed I c (Some seed) (length seed) in
      (rc, []) :: code_run I c ops
  | DoGenerate n a :: ops =>
      let '(rc, c, o) := qudo_ctrdrbg_generate I c (Some (zeros n)) n a (alen a) in
      (rc, default [] o) :: code_run I c ops
  end.

Fixpoint spec_run (s : SP800_90A.state) (ops : list drbg_op) : list bytes :=
  match ops with
  | [] => []
  | DoReseed seed :: ops => [] :: spec_run (SP800_90A.Reseed seed s) ops
  | DoGenerate n a :: ops =>
      let '(o, s) := SP800_90A.Generate n (nonempty a) s in o :: spec_run s ops
  end.

Lemma adin_pad_length a sl : (alen a <= sl)%nat -> length (adin_pad a sl) = sl.
Proof.
  unfold adin_pad, alen. destruct a as [[|x a]|]; cbn [nonempty adin_bytes length]; intros H;
    rewrite ?length_app, length_zeros; cbn [length]; lia.
Qed.

Lemma op_keeps_seedlen s op (sl := (length (SP800_90A.Key s) + 16)%nat) : op_ok sl op ->
  length (SP800_90A.Key match op with
                        | DoReseed seed => SP800_90A.Reseed seed s
                        | DoGenerate n a => snd (SP800_90A.Generate n (nonempty a) s)
                        end) = length (SP800_90A.Key s).
Proof.
  destruct op as [seed | n a]; intros Hop.
  - destruct Hop as [_ Hop]. now apply update_seedlen.
  - rewrite Generate_unfold. cbn [snd]. destruct Hop as (_ & _ & Ha).
    pose proof (adin_pad_length a sl Ha) as Hl. fold sl.
    assert (H1 : length (SP800_90A.Key (adin_state a sl s)) = length (SP800_90A.Key s)).
    { unfold adin_state. destruct (nonempty a); [now apply update_seedlen | reflexivity]. }
    rewrite update_seedlen; cbn [SP800_90A.Key]; now rewrite H1.
Qed.

Lemma code_run_rep I (HI : AesImplOk I) c s ops :
  drbg_rep I c s -> Forall (op_ok (db_seedlen c)) ops ->
  code_run I (Some c) ops = map (fun o => (0, o)) (spec_run s ops).
Proof.
  intros Hr Hops. rewrite (rep_seedlen I c s Hr) in Hops.
  revert c s Hr Hops. induction ops as [|op ops IH]; intros c s Hr Hops; [reflexivity |].
  apply Forall_cons_1 in Hops as [Hop Hops]. pose proof (op_keeps_seedlen s op Hop) as Hsl.
  rewrite <- Hsl in Hops. rewrite <- (rep_seedlen I c s Hr) in Hop.
  destruct op as [seed | n a]; cbn [code_run spec_run].
  - destruct Hop as [Hb Hlen].
    destruct (reseed_rep I HI c s seed Hr Hb Hlen) as (c' & -> & Hr').
    cbn [map]. f_equal. now apply IH.
  - destruct Hop as (Hn & Hb & Ha).
    destruct (generate_rep I HI c s (zeros n) n a Hr Hn ltac:(rewrite length_zeros; lia) Hb Ha) as (c' & Hg & Hr').
    rewrite Hg.
    destruct (SP800_90A.Generate n (nonempty a) s) as [o s']. cbn [fst snd map default] in *.
    rewrite drop_ge, app_nil_r by (rewrite length_zeros; lia). f_equal. now apply IH.
Qed.

(** C2. CTR_DRBG refinement: with any correct AES, instantiating a context (whatever it held)
    from a seed of the right length and then making any sequence of reseed and generate calls
    within the limits, every call returns 0 and every generated output is the one SP 800-90A's
    CTR_DRBG produces for the same inputs. *)
Theorem ctrdrbg_refines_sp800_90a (I : AesImpl) (HI : AesImplOk I)
  (c : qudo_ctrdrbg_ctx_t) (keylen : nat) (seed : bytes) (ops : list drbg_op)
  (Hkl : keylen = 16%nat \/ keylen = 24%nat \/ keylen = 32%nat)
  (Hb : are_bytes seed) (Hlen : length seed = (keylen + 16)%nat)
  (Hrk : length (rd_key (db_aes c)) = 60%nat) (Hops : Forall (op_ok (keylen + 16)) ops) :
  exists c', qudo_ctrdrbg_init I (Some c) keylen (Some seed) (length seed) = (0, Some c') /\
    code_run I (Some c') ops = map (fun o => (0, o)) (spec_run (SP800_90A.Instantiate keylen seed) ops).
Proof.
  destruct (init_rep I HI c keylen seed Hkl Hb Hlen Hrk) as (c' & Hi & Hr & Hsl).
  exists c'. split; [exact Hi |]. apply code_run_rep; [exact HI | exact Hr |]. now rewrite Hsl.
Qed.

Lemma ctrdrbg_refines_sp800_90a_witness :
  exists c', qudo_ctrdrbg_init AesCt (Some drbg_cleared) 32 (Some (map Z.of_nat (seq 0 48))) 48 = (0, Some c') /\
    code_run AesCt (Some c') [DoGenerate 20 None; DoReseed (zeros 48); DoGenerate 3 (Some [1; 2])]
    = map (fun o => (0, o)) (spec_run (SP800_90A.Instantiate 32 (map Z.of_nat (seq 0 48)))
                               [DoGenerate 20 None; DoReseed (zeros 48); DoGenerate 3 (Some [1; 2])]).
Proof.
  apply (ctrdrbg_refines_sp800_90a AesCt AesCtOk drbg_cleared 32 (map Z.of_nat (seq 0 48))
           [DoGenerate 20 None; DoReseed (zeros 48); DoGenerate 3 (Some [1; 2])]).
  - right; right; reflexivity.
  - apply is_u8_dec_list. vm_compute. reflexivity.
  - reflexivity.
  - reflexivity.
  - assert (Hmax : (20 <= QUDO_CTRDRBG_MAX_REQUEST)%nat) by (unfold QUDO_CTRDRBG_MAX_REQUEST; lia).
    repeat (apply List.Forall_cons || apply List.Forall_nil); cbn [op_ok adin_bytes alen length];
      repeat match goal with |- _ /\ _ => split end;
      first [apply is_u8_dec_list; reflexivity | reflexivity | lia].
Defined.

Lemma generate_refusals I c out a n al :
  let '(rc, c', out') := qudo_ctrdrbg_generate I (Some c) out n a al in
  (rc = -1 <-> db_initialized c = false \/ (QUDO_CTRDRBG_MAX_REQUEST < n)%nat \/
               (out = None /\ (0 < n)%nat) \/ (a <> None /\ (al > db_seedlen c)%nat)) /\
  (rc = 0 \/ rc = -1 /\ c' = Some c /\ out' = out).
Proof.
  unfold qudo_ctrdrbg_generate. generalize QUDO_CTRDRBG_MAX_REQUEST as M. intros M.
  destruct (db_initialized c) eqn:Hi; cbn [negb orb]; [| tauto].
  destruct (Nat.ltb_spec M n) as [Hn | Hn]; [tauto |].
  destruct (match out with None => Nat.ltb 0 n | Some _ => false end) eqn:Ho.
  { destruct out; [discriminate |]. apply Nat.ltb_lt in Ho. tauto. }
  assert (Ho' : ~ (out = None /\ (0 < n)%nat)).
  { intros [-> H0]. apply Nat.ltb_ge in Ho. lia. }
  destruct (generate_adin I c a al) as [[c1 ad]|] eqn:Ha.
  - assert (Ha' : ~ (a <> None /\ (al > db_seedlen c)%nat)).
    { intros [Hne Hgt]. destruct a as [a|]; [| congruence]. unfold generate_adin in Ha.
      destruct (Nat.eqb_spec al 0); [lia |].
      destruct (Nat.ltb_spec (db_seedlen c) al); [discriminate | lia]. }
    assert (Hlt : ~ (M < n)%nat) by lia.
    assert (Hleaf : forall (c' : option qudo_ctrdrbg_ctx_t) (out' : option bytes),
      (0 = -1 <-> true = false \/ (M < n)%nat \/ (out = None /\ (0 < n)%nat) \/
                  (a <> None /\ (al > db_seedlen c)%nat)) /\
      (0 = 0 \/ 0 = -1 /\ c' = Some c /\ out' = out)).
    { intros c' out'. split; [| now left]. split; [discriminate |]. intuition congruence. }
    destruct out as [o|]; [destruct (Nat.eqb n 0) |]; try apply Hleaf.
    destruct (gen_loop I n 0 n c1 o) as [c2 o2]. apply Hleaf.
  - split; [| tauto]. split; [| tauto]. intros _. right; right; right.
    unfold generate_adin in Ha. destruct a as [a|]; [| discriminate]. split; [discriminate |].
    destruct (Nat.eqb_spec al 0); [discriminate |].
    destruct (Nat.ltb_spec (db_seedlen c) al); [lia | discriminate].
Qed.

Lemma reseed_refusals I c seed sl :
  let '(rc, c') := qudo_ctrdrbg_reseed I (Some c) (Some seed) sl in
  (rc = -1 <-> db_initialized c = false \/ sl <> db_seedlen c) /\
  (rc = 0 \/ rc = -1 /\ c' = Some c).
Proof.
  unfold qudo_ctrdrbg_reseed. destruct (db_initialized c) eqn:Hi; cbn [negb]; [| tauto].
  destruct (Nat.eqb_spec sl (db_seedlen c)) as [-> | Hne]; cbn [negb]; [| tauto].
  split; [| now left]. split; [discriminate | intuition congruence].
Qed.

(** What the DRBG refuses: [generate] fails exactly on an uninitialised context, a request
    above 65,536 bytes, a NULL buffer with a non-zero length, or additional input longer than the
    seed; [reseed] exactly on an uninitialised context or a seed of the wrong length; and a
    refused call changes neither the context nor the output buffer. *)
Theorem ctrdrbg_refusals (I : AesImpl) (c : qudo_ctrdrbg_ctx_t) (out a : option bytes) (n al : nat)
    (seed : bytes) (sl : nat) :
  (let '(rc, c', out') := qudo_ctrdrbg_generate I (Some c) out n a al in
   (rc = -1 <-> db_initialized c = false \/ (QUDO_CTRDRBG_MAX_REQUEST < n)%nat \/
                (out = None /\ (0 < n)%nat) \/ (a <> None /\ (al > db_seedlen c)%nat)) /\
   (rc = 0 \/ rc = -1 /\ c' = Some c /\ out' = out)) /\
  (let '(rc, c') := qudo_ctrdrbg_reseed I (Some c) (Some seed) sl in
   (rc = -1 <-> db_initialized c = false \/ sl <> db_seedlen c) /\
   (rc = 0 \/ rc = -1 /\ c' = Some c)).
Proof. split; [apply generate_refusals | apply reseed_refusals]. Qed.

(** Freeing zeroises: every byte of the context (key, counter, key schedule, flags) is zero
    afterwards, and until it is instantiated again every generate and reseed call is refused
    without writing to the caller's buffer. *)
Theorem ctrdrbg_free_inert (I : AesImpl) (c : qudo_ctrdrbg_ctx_t) (ops : list drbg_op) :
  qudo_ctrdrbg_free (Some c) = Some drbg_cleared /\
  code_run I (qudo_ctrdrbg_free (Some c)) ops
  = map (fun op => (-1, match op with DoGenerate n _ => zeros n | DoReseed _ => [] end)) ops.
Proof.
  split; [reflexivity |]. cbn [qudo_ctrdrbg_free].
  induction ops as [|[seed | n a] ops IH]; [reflexivity | |]; cbn [code_run map]; cbn; now rewrite IH.
Qed.

(** ** The dispatcher as the DRBG's AES *)

(** Both entry points of [qudo_fips_aes.c] from a given value of [g_aes_dispatch]; the choice is
    a function of that value and of the CPU, so later calls repeat it. *)
Definition AesDispatched (has_ni detect : bool) (ni ct : AesImpl) (g : Z) : AesImpl := {|
  aes_set_encrypt_key := fun key bits ctx => fst (qudo_aes_set_encrypt_key has_ni detect ni ct g key bits ctx);
  aes_encrypt := fun input key => fst (qudo_aes_encrypt has_ni detect ni ct g input key)
|}.

#[export] Instance AesDispatchedOk has_ni detect ni ct g :
  AesImplOk ni -> AesImplOk ct -> AesImplOk (AesDispatched has_ni detect ni ct g).
Proof.
  intros Hni Hct. constructor. intros key bits k0 Hbits Hkey Hlen Hk0.
  cbn [AesDispatched aes_set_encrypt_key aes_encrypt].
  unfold qudo_aes_set_encrypt_key, qudo_aes_encrypt.
  replace (negb (bits =? 128) && negb (bits =? 192) && negb (bits =? 256)) with false
    by (destruct Hbits as [-> | [-> | ->]]; reflexivity).
  destruct (has_ni && (qudo_aes_init_dispatch has_ni detect g =? 1)); cbn [fst];
    apply (aes_impl_ok key bits zero_aes_key); assumption || reflexivity.
Qed.
