(* ===== verification/World.v ===== *)
(** * The module's static state and the platform it runs on

    The files under [qudo-pqc-lib/src] keep their state in static variables.  [World] is all of
    them, a record per C file; an operation is a state-passing function in the monad [M], whose
    result is [None] when the thread blocks for ever or a lock is misused.  [Env] is the
    platform (entropy, allocation, the application's callbacks); [qudo_pqc_platform.c] (locks,
    once, allocation, constant-time comparison) is modelled here. *)

From stdpp Require Import base list numbers strings.
From Stdlib Require Import ZArith Lia.
From S2P Require Import Prelude Aes Hmac CtrDrbg.

#[local] Open Scope Z_scope.

(** ** Data *)

(** A [QUDO_RWLOCK *]: NULL, or a lock with its holders (all the calling thread). *)
Inductive lock_state := Unlocked | ReadLocked (n : nat) | WriteLocked.
Definition QUDO_RWLOCK : Type := option lock_state.

#[export] Instance lock_state_eq_dec : EqDecision lock_state.
Proof. solve_decision. Defined.

(** Calls into the application: the audit callback, the error callback, the self-test event
    callback. *)
Inductive event :=
| EvAudit (severity code : Z) (component detail : string)
| EvError (code : Z) (msg : string)
| EvSelfTest (phase : Z) (type desc : string) (result : Z).

#[export] Instance event_eq_dec : EqDecision event.
Proof. solve_decision. Defined.

(** What [qudo_pqc_init.c] keeps. *)
Record core_t := mk_core {
  g_module_state : Z;
  g_self_test_lock : QUDO_RWLOCK;
  g_self_test_once : bool;
  g_conditional_error_check : Z;
  g_self_test_cb : option Z;
  g_self_test_cb_arg : Z;
  g_error_cb : option Z;
  g_error_cb_arg : Z;
  g_error_reason : option string;
  g_config_set : Z;
  g_stored_module_path : string;
  g_stored_module_mac : string;
  g_stored_used_cnf : Z;
  g_cast_status : list Z }.

(** What [qudo_pqc_audit.c] keeps, apart from the counters. *)
Record audit_t := mk_audit {
  g_audit_cb : option Z;
  g_audit_cb_arg : Z;
  g_audit_lock : QUDO_RWLOCK;
  g_audit_lock_once : bool }.

(** Counters of reports and the calls made to the application's callbacks, newest first. *)
Record log_t := mk_log {
  g_audit_count : list Z;
  g_error_report_count : Z;
  trace : list event }.

(** What [fips/qudo_fips_rand.c] keeps. *)
Record rand_t := mk_rand {
  g_fips_drbg : qudo_ctrdrbg_ctx_t;
  g_fips_rand_ready : Z;
  g_fips_rand_gen_count : Z;
  g_startup_tested : Z;
  g_rct_a : Z;
  g_rct_b : Z;
  g_apt_a : Z;
  g_apt_b : Z;
  g_apt_i : Z;
  g_health_failed : Z;
  g_fips_rand_lock : QUDO_RWLOCK;
  g_fips_rand_lock_once : bool;
  g_host_rand_provider : option Z }.

(** What [qudo_pqc_post.c] keeps. *)
Record post_t := mk_post {
  g_post_drbg_kat_passed : Z;
  g_post_integrity_passed : Z }.

(** How often the platform has been asked: entropy reads, allocations, host random requests. *)
Record env_t := mk_env {
  n_entropy : nat;
  n_alloc : nat;
  n_host : nat }.

(** Initialisation states of the algorithm wrappers ([mlkem_wrapper.c], [mldsa_wrapper.c],
    [slhdsa_wrapper.c]). *)
Record alg_t := mk_alg {
  g_mlkem_init_state : Z;
  g_mldsa_init_state : Z;
  g_slhdsa_init_state : Z }.

(** All static state of the module. *)
Record World := mk_world {
  w_core : core_t;
  w_audit : audit_t;
  w_log : log_t;
  w_rand : rand_t;
  w_post : post_t;
  g_min_security_level : Z;
  w_env : env_t;
  w_alg : alg_t }.

(** Functional updates, one per variable. *)
Definition set_g_module_state (v : Z) (r : core_t) : core_t :=
  mk_core v (g_self_test_lock r) (g_self_test_once r) (g_conditional_error_check r) (g_self_test_cb r) (g_self_test_cb_arg r) (g_error_cb r) (g_error_cb_arg r) (g_error_reason r) (g_config_set r) (g_stored_module_path r) (g_stored_module_mac r) (g_stored_used_cnf r) (g_cast_status r).
Definition set_g_self_test_lock (v : QUDO_RWLOCK) (r : core_t) : core_t :=
  mk_core (g_module_state r) v (g_self_test_once r) (g_conditional_error_check r) (g_self_test_cb r) (g_self_test_cb_arg r) (g_error_cb r) (g_error_cb_arg r) (g_error_reason r) (g_config_set r) (g_stored_module_path r) (g_stored_module_mac r) (g_stored_used_cnf r) (g_cast_status r).
Definition set_g_self_test_once (v : bool) (r : core_t) : core_t :=
  mk_core (g_module_state r) (g_self_test_lock r) v (g_conditional_error_check r) (g_self_test_cb r) (g_self_test_cb_arg r) (g_error_cb r) (g_error_cb_arg r) (g_error_reason r) (g_config_set r) (g_stored_module_path r) (g_stored_module_mac r) (g_stored_used_cnf r) (g_cast_status r).
Definition set_g_conditional_error_check (v : Z) (r : core_t) : core_t :=
  mk_core (g_module_state r) (g_self_test_lock r) (g_self_test_once r) v (g_self_test_cb r) (g_self_test_cb_arg r) (g_error_cb r) (g_error_cb_arg r) (g_error_reason r) (g_config_set r) (g_stored_module_path r) (g_stored_module_mac r) (g_stored_used_cnf r) (g_cast_status r).
Definition set_g_self_test_cb (v : option Z) (r : core_t) : core_t :=
  mk_core (g_module_state r) (g_self_test_lock r) (g_self_test_once r) (g_conditional_error_check r) v (g_self_test_cb_arg r) (g_error_cb r) (g_error_cb_arg r) (g_error_reason r) (g_config_set r) (g_stored_module_path r) (g_stored_module_mac r) (g_stored_used_cnf r) (g_cast_status r).
Definition set_g_self_test_cb_arg (v : Z) (r : core_t) : core_t :=
  mk_core (g_module_state r) (g_self_test_lock r) (g_self_test_once r) (g_conditional_error_check r) (g_self_test_cb r) v (g_error_cb r) (g_error_cb_arg r) (g_error_reason r) (g_config_set r) (g_stored_module_path r) (g_stored_module_mac r) (g_stored_used_cnf r) (g_cast_status r).
Definition set_g_error_cb (v : option Z) (r : core_t) : core_t :=
  mk_core (g_module_state r) (g_self_test_lock r) (g_self_test_once r) (g_conditional_error_check r) (g_self_test_cb r) (g_self_test_cb_arg r) v (g_error_cb_arg r) (g_error_reason r) (g_config_set r) (g_stored_module_path r) (g_stored_module_mac r) (g_stored_used_cnf r) (g_cast_status r).
Definition set_g_error_cb_arg (v : Z) (r : core_t) : core_t :=
  mk_core (g_module_state r) (g_self_test_lock r) (g_self_test_once r) (g_conditional_error_check r) (g_self_test_cb r) (g_self_test_cb_arg r) (g_error_cb r) v (g_error_reason r) (g_config_set r) (g_stored_module_path r) (g_stored_module_mac r) (g_stored_used_cnf r) (g_cast_status r).
Definition set_g_error_reason (v : option string) (r : core_t) : core_t :=
  mk_core (g_module_state r) (g_self_test_lock r) (g_self_test_once r) (g_conditional_error_check r) (g_self_test_cb r) (g_self_test_cb_arg r) (g_error_cb r) (g_error_cb_arg r) v (g_config_set r) (g_stored_module_path r) (g_stored_module_mac r) (g_stored_used_cnf r) (g_cast_status r).
Definition set_g_config_set (v : Z) (r : core_t) : core_t :=
  mk_core (g_module_state r) (g_self_test_lock r) (g_self_test_once r) (g_conditional_error_check r) (g_self_test_cb r) (g_self_test_cb_arg r) (g_error_cb r) (g_error_cb_arg r) (g_error_reason r) v (g_stored_module_path r) (g_stored_module_mac r) (g_stored_used_cnf r) (g_cast_status r).
Definition set_g_stored_module_path (v : string) (r : core_t) : core_t :=
  mk_core (g_module_state r) (g_self_test_lock r) (g_self_test_once r) (g_conditional_error_check r) (g_self_test_cb r) (g_self_test_cb_arg r) (g_error_cb r) (g_error_cb_arg r) (g_error_reason r) (g_config_set r) v (g_stored_module_mac r) (g_stored_used_cnf r) (g_cast_status r).
Definition set_g_stored_module_mac (v : string) (r : core_t) : core_t :=
  mk_core (g_module_state r) (g_self_test_lock r) (g_self_test_once r) (g_conditional_error_check r) (g_self_test_cb r) (g_self_test_cb_arg r) (g_error_cb r) (g_error_cb_arg r) (g_error_reason r) (g_config_set r) (g_stored_module_path r) v (g_stored_used_cnf r) (g_cast_status r).
Definition set_g_stored_used_cnf (v : Z) (r : core_t) : core_t :=
  mk_core (g_module_state r) (g_self_test_lock r) (g_self_test_once r) (g_conditional_error_check r) (g_self_test_cb r) (g_self_test_cb_arg r) (g_error_cb r) (g_error_cb_arg r) (g_error_reason r) (g_config_set r) (g_stored_module_path r) (g_stored_module_mac r) v (g_cast_status r).
Definition set_g_cast_status (v : list Z) (r : core_t) : core_t :=
  mk_core (g_module_state r) (g_self_test_lock r) (g_self_test_once r) (g_conditional_error_check r) (g_self_test_cb r) (g_self_test_cb_arg r) (g_error_cb r) (g_error_cb_arg r) (g_error_reason r) (g_config_set r) (g_stored_module_path r) (g_stored_module_mac r) (g_stored_used_cnf r) v.

Definition set_g_audit_cb (v : option Z) (r : audit_t) : audit_t :=
  mk_audit v (g_audit_cb_arg r) (g_audit_lock r) (g_audit_lock_once r).
Definition set_g_audit_cb_arg (v : Z) (r : audit_t) : audit_t :=
  mk_audit (g_audit_cb r) v (g_audit_lock r) (g_audit_lock_once r).
Definition set_g_audit_lock (v : QUDO_RWLOCK) (r : audit_t) : audit_t :=
  mk_audit (g_audit_cb r) (g_audit_cb_arg r) v (g_audit_lock_once r).
Definition set_g_audit_lock_once (v : bool) (r : audit_t) : audit_t :=
  mk_audit (g_audit_cb r) (g_audit_cb_arg r) (g_audit_lock r) v.

Definition set_g_audit_count (v : list Z) (r : log_t) : log_t :=
  mk_log v (g_error_report_count r) (trace r).
Definition set_g_error_report_count (v : Z) (r : log_t) : log_t :=
  mk_log (g_audit_count r) v (trace r).
Definition set_trace (v : list event) (r : log_t) : log_t :=
  mk_log (g_audit_count r) (g_error_report_count r) v.

Definition set_g_fips_drbg (v : qudo_ctrdrbg_ctx_t) (r : rand_t) : rand_t :=
  mk_rand v (g_fips_rand_ready r) (g_fips_rand_gen_count r) (g_startup_tested r) (g_rct_a r) (g_rct_b r) (g_apt_a r) (g_apt_b r) (g_apt_i r) (g_health_failed r) (g_fips_rand_lock r) (g_fips_rand_lock_once r) (g_host_rand_provider r).
Definition set_g_fips_rand_ready (v : Z) (r : rand_t) : rand_t :=
  mk_rand (g_fips_drbg r) v (g_fips_rand_gen_count r) (g_startup_tested r) (g_rct_a r) (g_rct_b r) (g_apt_a r) (g_apt_b r) (g_apt_i r) (g_health_failed r) (g_fips_rand_lock r) (g_fips_rand_lock_once r) (g_host_rand_provider r).
Definition set_g_fips_rand_gen_count (v : Z) (r : rand_t) : rand_t :=
  mk_rand (g_fips_drbg r) (g_fips_rand_ready r) v (g_startup_tested r) (g_rct_a r) (g_rct_b r) (g_apt_a r) (g_apt_b r) (g_apt_i r) (g_health_failed r) (g_fips_rand_lock r) (g_fips_rand_lock_once r) (g_host_rand_provider r).
Definition set_g_startup_tested (v : Z) (r : rand_t) : rand_t :=
  mk_rand (g_fips_drbg r) (g_fips_rand_ready r) (g_fips_rand_gen_count r) v (g_rct_a r) (g_rct_b r) (g_apt_a r) (g_apt_b r) (g_apt_i r) (g_health_failed r) (g_fips_rand_lock r) (g_fips_rand_lock_once r) (g_host_rand_provider r).
Definition set_g_rct_a (v : Z) (r : rand_t) : rand_t :=
  mk_rand (g_fips_drbg r) (g_fips_rand_ready r) (g_fips_rand_gen_count r) (g_startup_tested r) v (g_rct_b r) (g_apt_a r) (g_apt_b r) (g_apt_i r) (g_health_failed r) (g_fips_rand_lock r) (g_fips_rand_lock_once r) (g_host_rand_provider r).
Definition set_g_rct_b (v : Z) (r : rand_t) : rand_t :=
  mk_rand (g_fips_drbg r) (g_fips_rand_ready r) (g_fips_rand_gen_count r) (g_startup_tested r) (g_rct_a r) v (g_apt_a r) (g_apt_b r) (g_apt_i r) (g_health_failed r) (g_fips_rand_lock r) (g_fips_rand_lock_once r) (g_host_rand_provider r).
Definition set_g_apt_a (v : Z) (r : rand_t) : rand_t :=
  mk_rand (g_fips_drbg r) (g_fips_rand_ready r) (g_fips_rand_gen_count r) (g_startup_tested r) (g_rct_a r) (g_rct_b r) v (g_apt_b r) (g_apt_i r) (g_health_failed r) (g_fips_rand_lock r) (g_fips_rand_lock_once r) (g_host_rand_provider r).
Definition set_g_apt_b (v : Z) (r : rand_t) : rand_t :=
  mk_rand (g_fips_drbg r) (g_fips_rand_ready r) (g_fips_rand_gen_count r) (g_startup_tested r) (g_rct_a r) (g_rct_b r) (g_apt_a r) v (g_apt_i r) (g_health_failed r) (g_fips_rand_lock r) (g_fips_rand_lock_once r) (g_host_rand_provider r).
Definition set_g_apt_i (v : Z) (r : rand_t) : rand_t :=
  mk_rand (g_fips_drbg r) (g_fips_rand_ready r) (g_fips_rand_gen_count r) (g_startup_tested r) (g_rct_a r) (g_rct_b r) (g_apt_a r) (g_apt_b r) v (g_health_failed r) (g_fips_rand_lock r) (g_fips_rand_lock_once r) (g_host_rand_provider r).
Definition set_g_health_failed (v : Z) (r : rand_t) : rand_t :=
  mk_rand (g_fips_drbg r) (g_fips_rand_ready r) (g_fips_rand_gen_count r) (g_startup_tested r) (g_rct_a r) (g_rct_b r) (g_apt_a r) (g_apt_b r) (g_apt_i r) v (g_fips_rand_lock r) (g_fips_rand_lock_once r) (g_host_rand_provider r).
Definition set_g_fips_rand_lock (v : QUDO_RWLOCK) (r : rand_t) : rand_t :=
  mk_rand (g_fips_drbg r) (g_fips_rand_ready r) (g_fips_rand_gen_count r) (g_startup_tested r) (g_rct_a r) (g_rct_b r) (g_apt_a r) (g_apt_b r) (g_apt_i r) (g_health_failed r) v (g_fips_rand_lock_once r) (g_host_rand_provider r).
Definition set_g_fips_rand_lock_once (v : bool) (r : rand_t) : rand_t :=
  mk_rand (g_fips_drbg r) (g_fips_rand_ready r) (g_fips_rand_gen_count r) (g_startup_tested r) (g_rct_a r) (g_rct_b r) (g_apt_a r) (g_apt_b r) (g_apt_i r) (g_health_failed r) (g_fips_rand_lock r) v (g_host_rand_provider r).
Definition set_g_host_rand_provider (v : option Z) (r : rand_t) : rand_t :=
  mk_rand (g_fips_drbg r) (g_fips_rand_ready r) (g_fips_rand_gen_count r) (g_startup_tested r) (g_rct_a r) (g_rct_b r) (g_apt_a r) (g_apt_b r) (g_apt_i r) (g_health_failed r) (g_fips_rand_lock r) (g_fips_rand_lock_once r) v.

Definition set_g_post_drbg_kat_passed (v : Z) (r : post_t) : post_t :=
  mk_post v (g_post_integrity_passed r).
Definition set_g_post_integrity_passed (v : Z) (r : post_t) : post_t :=
  mk_post (g_post_drbg_kat_passed r) v.

Definition set_n_entropy (v : nat) (r : env_t) : env_t :=
  mk_env v (n_alloc r) (n_host r).
Definition set_n_alloc (v : nat) (r : env_t) : env_t :=
  mk_env (n_entropy r) v (n_host r).
Definition set_n_host (v : nat) (r : env_t) : env_t :=
  mk_env (n_entropy r) (n_alloc r) v.

Definition set_w_core (v : core_t) (r : World) : World :=
  mk_world v (w_audit r) (w_log r) (w_rand r) (w_post r) (g_min_security_level r) (w_env r) (w_alg r).
Definition set_w_audit (v : audit_t) (r : World) : World :=
  mk_world (w_core r) v (w_log r) (w_rand r) (w_post r) (g_min_security_level r) (w_env r) (w_alg r).
Definition set_w_log (v : log_t) (r : World) : World :=
  mk_world (w_core r) (w_audit r) v (w_rand r) (w_post r) (g_min_security_level r) (w_env r) (w_alg r).
Definition set_w_rand (v : rand_t) (r : World) : World :=
  mk_world (w_core r) (w_audit r) (w_log r) v (w_post r) (g_min_security_level r) (w_env r) (w_alg r).
Definition set_w_post (v : post_t) (r : World) : World :=
  mk_world (w_core r) (w_audit r) (w_log r) (w_rand r) v (g_min_security_level r) (w_env r) (w_alg r).
Definition set_g_min_security_level (v : Z) (r : World) : World :=
  mk_world (w_core r) (w_audit r) (w_log r) (w_rand r) (w_post r) v (w_env r) (w_alg r).
Definition set_w_env (v : env_t) (r : World) : World :=
  mk_world (w_core r) (w_audit r) (w_log r) (w_rand r) (w_post r) (g_min_security_level r) v (w_alg r).

Definition set_w_alg (v : alg_t) (r : World) : World :=
  mk_world (w_core r) (w_audit r) (w_log r) (w_rand r) (w_post r) (g_min_security_level r) (w_env r) v.

Definition set_g_mlkem_init_state (v : Z) (r : alg_t) : alg_t := mk_alg v (g_mldsa_init_state r) (g_slhdsa_init_state r).
Definition set_g_mldsa_init_state (v : Z) (r : alg_t) : alg_t := mk_alg (g_mlkem_init_state r) v (g_slhdsa_init_state r).
Definition set_g_slhdsa_init_state (v : Z) (r : alg_t) : alg_t := mk_alg (g_mlkem_init_state r) (g_mldsa_init_state r) v.

(** Updates lifted to the whole state. *)
Definition on_core (f : core_t -> core_t) (w : World) : World := set_w_core (f (w_core w)) w.
Definition on_audit (f : audit_t -> audit_t) (w : World) : World := set_w_audit (f (w_audit w)) w.
Definition on_log (f : log_t -> log_t) (w : World) : World := set_w_log (f (w_log w)) w.
Definition on_rand (f : rand_t -> rand_t) (w : World) : World := set_w_rand (f (w_rand w)) w.
Definition on_post (f : post_t -> post_t) (w : World) : World := set_w_post (f (w_post w)) w.
Definition on_alg (f : alg_t -> alg_t) (w : World) : World := set_w_alg (f (w_alg w)) w.
Definition on_env (f : env_t -> env_t) (w : World) : World := set_w_env (f (w_env w)) w.

(** ** The monad *)

Definition M (A : Type) : Type := World -> option (A * World).

#[export] Instance M_ret : MRet M := fun A a w => Some (a, w).
#[export] Instance M_bind : MBind M := fun A B k m w =>
  match m w with Some (a, w') => k a w' | None => None end.

Definition gets {A} (f : World -> A) : M A := fun w => Some (f w, w).
Definition modify (f : World -> World) : M unit := fun w => Some (tt, f w).
Definition blocked {A} : M A := fun _ => None.

(** [p != NULL]. *)
Definition not_null {A} (p : option A) : bool := match p with Some _ => true | None => false end.

(** [when b m]: [if (b) m;]. *)
Definition when (b : bool) (m : M unit) : M unit := if b then m else mret tt.

(** The weakest precondition: [m] finishes, in a state satisfying [Q]. *)
Definition wp {A} (m : M A) (Q : A -> World -> Prop) (w : World) : Prop :=
  match m w with Some (a, w') => Q a w' | None => False end.

Lemma wp_ret {A} (a : A) Q w : Q a w -> wp (mret a) Q w.
Proof. exact id. Qed.

Lemma wp_bind {A B} (m : M A) (k : A -> M B) Q w :
  wp m (fun a w' => wp (k a) Q w') w -> wp (mbind k m) Q w.
Proof. unfold wp, mbind, M_bind. destruct (m w) as [[a w']|]; auto. Qed.

Lemma wp_gets {A} (f : World -> A) Q w : Q (f w) w -> wp (gets f) Q w.
Proof. exact id. Qed.

Lemma wp_modify f Q w : Q tt (f w) -> wp (modify f) Q w.
Proof. exact id. Qed.

Lemma wp_when b m Q w : (b = true -> wp m Q w) -> (b = false -> Q tt w) -> wp (when b m) Q w.
Proof. destruct b; cbn; auto. Qed.

Lemma wp_mono {A} (m : M A) (Q Q' : A -> World -> Prop) w :
  (forall a w', Q a w' -> Q' a w') -> wp m Q w -> wp m Q' w.
Proof. unfold wp. destruct (m w) as [[a w']|]; auto. Qed.

(** A run that is known gives the precondition of any property of its result. *)
Lemma wp_eq {A} (m : M A) Q w a w' : m w = Some (a, w') -> Q a w' -> wp m Q w.
Proof. intros H HQ. unfold wp. now rewrite H. Qed.

Lemma wp_run {A} (m : M A) Q w : wp m Q w -> exists a w', m w = Some (a, w') /\ Q a w'.
Proof. unfold wp. destruct (m w) as [[a w']|]; [eauto | intros []]. Qed.

(** [wp_step] opens one monadic construct of the goal. *)
Ltac wp_step :=
  match goal with
  | |- wp (mret _) _ _ => apply wp_ret
  | |- wp (mbind _ _) _ _ => apply wp_bind
  | |- wp (gets _) _ _ => apply wp_gets
  | |- wp (modify _) _ _ => apply wp_modify
  | |- wp (when _ _) _ _ => apply wp_when; intros ?
  | |- wp (if ?b then _ else _) _ _ => destruct b eqn:?
  | |- wp (match ?x with _ => _ end) _ _ => destruct x eqn:?
  end.

#[global] Arguments rd : simpl never.
#[global] Arguments wr : simpl never.
#[global] Arguments u32 : simpl never.

(** ** The platform *)

(** What the module asks of its platform.  Answers may depend on how many requests came before:
    the counters of [env_t] and the trace of callbacks are passed in. *)
Class Env := {
  env_getentropy : nat -> nat -> option bytes;      (* request number, length *)
  env_host_rand : Z -> nat -> nat -> option bytes;  (* provider, request number, length *)
  env_malloc_ok : nat -> bool;                      (* allocation number *)
  env_rwlock_init_ok : nat -> bool;                 (* allocation number of the lock *)
  env_once_ok : bool;                               (* pthread_once's verdict *)
  env_st_cb : list event -> Z -> Z -> Z -> string -> string -> Z -> bytes -> bytes;
                                                    (* history, callback, argument, phase, ...: the buffer left *)
  env_stack : hmac_stack;                           (* uninitialised stack memory of the HMAC code *)
  env_hmac_ctx : qudo_fips_hmac_ctx_t }.

(** What the platform guarantees. *)
Class EnvOk (E : Env) : Prop := {
  env_getentropy_ok : forall k n b, env_getentropy k n = Some b -> length b = n /\ are_bytes b;
  env_host_rand_ok : forall p k n b, env_host_rand p k n = Some b -> length b = n /\ are_bytes b;
  env_st_cb_ok : forall h cb arg ph ty de res d, are_bytes d ->
    length (env_st_cb h cb arg ph ty de res d) = length d /\
    are_bytes (env_st_cb h cb arg ph ty de res d);
  env_stack_ok : stack_ok env_stack;
  env_hmac_ctx_ok : hmac_mem env_hmac_ctx }.

(** Build-time configuration. *)
Class BuildConfig := {
  QUDO_FIPS_MODULE : bool;
  QUDO_PQC_DISABLE_EMBEDDED_HMAC : bool;
  QUDO_PQC_USE_HOST_DRBG : bool }.

(** *** Locks *)

(** A static lock variable. *)
Record lockvar := mk_lockvar {
  lk_get : World -> QUDO_RWLOCK;
  lk_set : QUDO_RWLOCK -> World -> World }.

Definition self_test_lock : lockvar :=
  mk_lockvar (fun w => g_self_test_lock (w_core w)) (fun v => on_core (set_g_self_test_lock v)).
Definition audit_lock : lockvar :=
  mk_lockvar (fun w => g_audit_lock (w_audit w)) (fun v => on_audit (set_g_audit_lock v)).
Definition fips_rand_lock : lockvar :=
  mk_lockvar (fun w => g_fips_rand_lock (w_rand w)) (fun v => on_rand (set_g_fips_rand_lock v)).

Section Platform.
Context {E : Env}.

Definition qudo_malloc (size : nat) : M bool :=
  if Nat.eqb size 0 then mret false
  else
    n ← gets (fun w => n_alloc (w_env w));
    _ ← modify (on_env (set_n_alloc (S n)));
    mret (env_malloc_ok n).

(** [calloc] of the lock, then its initialisation; the result is the new pointer. *)
Definition qudo_rwlock_new : M QUDO_RWLOCK :=
  n ← gets (fun w => n_alloc (w_env w));
  _ ← modify (on_env (set_n_alloc (S n)));
  mret (if env_malloc_ok n then if env_rwlock_init_ok n then Some Unlocked else None else None).

(** A thread that asks for a lock it cannot have waits for ever: no other thread runs here. *)
Definition qudo_rwlock_rdlock (l : lockvar) : M Z :=
  s ← gets (lk_get l);
  match s with
  | None => mret 0
  | Some Unlocked => _ ← modify (lk_set l (Some (ReadLocked 1))); mret 1
  | Some (ReadLocked n) => _ ← modify (lk_set l (Some (ReadLocked (S n)))); mret 1
  | Some WriteLocked => blocked
  end.

Definition qudo_rwlock_wrlock (l : lockvar) : M Z :=
  s ← gets (lk_get l);
  match s with
  | None => mret 0
  | Some Unlocked => _ ← modify (lk_set l (Some WriteLocked)); mret 1
  | Some _ => blocked
  end.

(** Releasing a lock that is not held is undefined. *)
Definition qudo_rwlock_unlock (l : lockvar) : M unit :=
  s ← gets (lk_get l);
  match s with
  | None => mret tt
  | Some Unlocked => blocked
  | Some (ReadLocked (S (S n))) => modify (lk_set l (Some (ReadLocked (S n))))
  | Some _ => modify (lk_set l (Some Unlocked))
  end.

Definition qudo_rwlock_rdunlock (l : lockvar) : M unit := qudo_rwlock_unlock l.

(** [qudo_rwlock_free(lock); lock = NULL;]: destroying a held lock is undefined. *)
Definition qudo_rwlock_free (l : lockvar) : M unit :=
  s ← gets (lk_get l);
  match s with
  | None | Some Unlocked => modify (lk_set l None)
  | Some _ => blocked
  end.

(** [qudo_once(&once, init_fn)] on a flag read by [done] and set by [mark]. *)
Definition qudo_once (done : World -> bool) (mark : World -> World) (init_fn : M unit) : M Z :=
  if negb env_once_ok then mret 0
  else
    d ← gets done;
    if d : bool then mret 1
    else _ ← modify mark; _ ← init_fn; mret 1.
End Platform.

(** [run_step]: compute the goal's run as far as the state is known. *)
Ltac run_step :=
  unfold qudo_rwlock_rdunlock, qudo_rwlock_rdlock, qudo_rwlock_wrlock, qudo_rwlock_unlock,
    qudo_rwlock_free, mbind, M_bind, mret, M_ret, gets, modify, when, blocked,
    on_core, on_audit, on_log, on_rand, on_post, on_env, on_alg; cbn.

(** *** Constant-time comparison *)

(** [diff |= pa[i] ^ pb[i]] over [len] bytes. *)
Definition memcmp_loop (a b : bytes) (len : nat) : Z :=
  fold_left (fun diff i => Z.lor diff (Z.lxor (rd a i) (rd b i))) (seq 0 len) 0.

Definition qudo_memcmp_ct (a b : bytes) (len : nat) : Z :=
  if memcmp_loop a b len =? 0 then 0 else 1.

Lemma memcmp_loop_0 a b len :
  memcmp_loop a b len = 0 <-> (forall i, (i < len)%nat -> rd a i = rd b i).
Proof.
  unfold memcmp_loop. induction len as [|len IH]; [cbn; split; [lia | reflexivity] |].
  rewrite seq_S, fold_left_app. cbn [fold_left plus].
  rewrite Z.lor_eq_0_iff, IH, Z.lxor_eq_0_iff. split.
  - intros [H1 H2] i Hi. destruct (Nat.eq_dec i len) as [-> | Hne]; [exact H2 | apply H1; lia].
  - intros H. split; [intros i Hi; apply H; lia | apply H; lia].
Qed.

Lemma memcmp_ct_0 a b len : (len <= length a)%nat -> (len <= length b)%nat ->
  qudo_memcmp_ct a b len = 0 <-> take len a = take len b.
Proof.
  intros Ha Hb. unfold qudo_memcmp_ct.
  assert (Hiff : memcmp_loop a b len = 0 <-> take len a = take len b).
  { rewrite memcmp_loop_0. split.
    - intros H. apply rd_ext; rewrite !length_take; [lia |]. intros i Hi.
      rewrite !rd_take by lia. apply H. lia.
    - intros H i Hi. rewrite <- (rd_take a len), <- (rd_take b len) by exact Hi. now rewrite H. }
  rewrite <- Hiff. destruct (Z.eqb_spec (memcmp_loop a b len) 0); split; intros; congruence || lia.
Qed.

(** ** Lock discipline *)

Definition lock_free (l : QUDO_RWLOCK) : Prop := l = None \/ l = Some Unlocked.

(** What every public entry point starts and ends with. *)
Definition locks_free (w : World) : Prop :=
  lock_free (g_self_test_lock (w_core w)) /\ lock_free (g_audit_lock (w_audit w)) /\
  lock_free (g_fips_rand_lock (w_rand w)).

(** A platform that never fails: entropy from a counter, no callbacks that interfere. *)
Definition plain_env : Env := {|
  env_getentropy k n := Some (map (fun i => Z.of_nat ((7 * k + i) mod 256)) (seq 0 n));
  env_host_rand _ _ _ := None;
  env_malloc_ok _ := true;
  env_rwlock_init_ok _ := true;
  env_once_ok := true;
  env_st_cb _ _ _ _ _ _ _ d := d;
  env_stack := zero_hmac_stack;
  env_hmac_ctx := hmac_ctx_cleared |}.

Lemma plain_env_ok : EnvOk plain_env.
Proof.
  constructor.
  - intros k n b [= <-]. split; [now rewrite length_map, length_seq |].
    apply Forall_forall. intros x Hx. apply list_elem_of_In, in_map_iff in Hx as (i & <- & _).
    unfold is_u8. pose proof (Nat.mod_upper_bound (7 * k + i) 256). lia.
  - discriminate.
  - intros h cb arg ph ty de res d Hd. now split.
  - exact zero_hmac_stack_ok.
  - exact hmac_cleared_mem.
Qed.
