(* ===== verification/AuditLog.v ===== *)
(** * Error codes and the audit log

    Model of [include/qudo_pqc_err.h] and [src/qudo_pqc_audit.c]: the callback registration
    under its lock, the per-severity rate limit, and the error-message table. *)

From stdpp Require Import base list numbers strings relations.
From Stdlib Require Import ZArith Lia.
From S2P Require Import Prelude World.

#[local] Open Scope Z_scope.

(** ** Codes *)

Definition QUDO_SEV_INFO : Z := 0.
Definition QUDO_SEV_WARN : Z := 1.
Definition QUDO_SEV_ERROR : Z := 2.
Definition QUDO_SEV_FATAL : Z := 3.

Definition QUDO_ERR_NONE : Z := 0x0000.
Definition QUDO_ERR_STATE_INVALID : Z := 0x0100.
Definition QUDO_ERR_MODULE_NOT_RUNNING : Z := 0x0101.
Definition QUDO_ERR_MODULE_ERROR_STATE : Z := 0x0102.
Definition QUDO_ERR_INIT_LOCK_FAIL : Z := 0x0103.
Definition QUDO_ERR_INIT_ONCE_FAIL : Z := 0x0104.
Definition QUDO_ERR_POST_INTEGRITY_FAIL : Z := 0x0200.
Definition QUDO_ERR_POST_KAT_FAIL : Z := 0x0201.
Definition QUDO_ERR_POST_KEYGEN_KAT_FAIL : Z := 0x0202.
Definition QUDO_ERR_POST_KEM_KAT_FAIL : Z := 0x0203.
Definition QUDO_ERR_POST_SIG_KAT_FAIL : Z := 0x0204.
Definition QUDO_ERR_INTEGRITY_HMAC_FAIL : Z := 0x0205.
Definition QUDO_ERR_INTEGRITY_MISMATCH : Z := 0x0206.
Definition QUDO_ERR_INTEGRITY_NO_CONFIG : Z := 0x0207.
Definition QUDO_ERR_PCT_KEYGEN_FAIL : Z := 0x0300.
Definition QUDO_ERR_PCT_IMPORT_FAIL : Z := 0x0301.
Definition QUDO_ERR_PCT_ENCAPS_FAIL : Z := 0x0302.
Definition QUDO_ERR_PCT_SIGN_FAIL : Z := 0x0303.
Definition QUDO_ERR_CAST_NOT_RUN : Z := 0x0400.
Definition QUDO_ERR_CAST_FAIL : Z := 0x0401.
Definition QUDO_ERR_CAST_KEYGEN_FAIL : Z := 0x0402.
Definition QUDO_ERR_DRBG_NOT_SEEDED : Z := 0x0500.
Definition QUDO_ERR_DRBG_SEED_FAIL : Z := 0x0501.
Definition QUDO_ERR_DRBG_HEALTH_FAIL : Z := 0x0502.
Definition QUDO_ERR_DRBG_RESEED_FAIL : Z := 0x0503.
Definition QUDO_ERR_DRBG_GENERATE_FAIL : Z := 0x0504.
Definition QUDO_ERR_KEY_INVALID : Z := 0x0600.
Definition QUDO_ERR_KEY_SIZE_MISMATCH : Z := 0x0601.
Definition QUDO_ERR_KEY_ZEROIZE_FAIL : Z := 0x0602.
Definition QUDO_ERR_ALLOC : Z := 0x0F00.
Definition QUDO_ERR_PARAM_INVALID : Z := 0x0F01.
Definition QUDO_ERR_PARAM_NULL : Z := 0x0F02.
Definition QUDO_ERR_NOT_SUPPORTED : Z := 0x0F03.
Definition QUDO_ERR_INTERNAL : Z := 0x0FFF.

Definition QUDO_AUDIT_COMP_STATE : string := "STATE".
Definition QUDO_AUDIT_COMP_POST : string := "POST".
Definition QUDO_AUDIT_COMP_INTEGRITY : string := "INTEGRITY".
Definition QUDO_AUDIT_COMP_PCT : string := "PCT".
Definition QUDO_AUDIT_COMP_CAST : string := "CAST".
Definition QUDO_AUDIT_COMP_DRBG : string := "DRBG".
Definition QUDO_AUDIT_COMP_INDICATOR : string := "INDICATOR".

Definition QUDO_AUDIT_RATE_LIMIT : Z := 100.

(** ** Operations *)

Section Audit.
Context {E : Env}.

Definition do_audit_lock_init : M unit :=
  l ← qudo_rwlock_new; modify (on_audit (set_g_audit_lock l)).

Definition qudo_audit_cleanup : M unit :=
  l ← gets (fun w => g_audit_lock (w_audit w));
  _ ← (if not_null l then qudo_rwlock_free audit_lock else mret tt);
  _ ← modify (on_audit (set_g_audit_lock_once false));
  _ ← modify (on_audit (set_g_audit_cb None));
  modify (on_audit (set_g_audit_cb_arg 0)).

Definition qudo_audit_set_callback (cb : option Z) (cb_arg : Z) : M unit :=
  _ ← qudo_once (fun w => g_audit_lock_once (w_audit w)) (on_audit (set_g_audit_lock_once true))
        do_audit_lock_init;
  l ← gets (fun w => g_audit_lock (w_audit w));
  _ ← (if not_null l then _ ← qudo_rwlock_wrlock audit_lock; mret tt else mret tt);
  _ ← modify (on_audit (set_g_audit_cb cb));
  _ ← modify (on_audit (set_g_audit_cb_arg cb_arg));
  if not_null l then qudo_rwlock_unlock audit_lock else mret tt.

Definition qudo_audit_log (severity code : Z) (component detail : string) : M unit :=
  if QUDO_SEV_FATAL <? u32 severity then mret tt
  else
    l ← gets (fun w => g_audit_lock (w_audit w));
    cb ← (if not_null l then
            _ ← qudo_rwlock_rdlock audit_lock;
            cb ← gets (fun w => g_audit_cb (w_audit w));
            _ ← qudo_rwlock_rdunlock audit_lock;
            mret cb
          else gets (fun w => g_audit_cb (w_audit w)));
    match cb : option Z with
    | None => mret tt
    | Some _ =>
        let i := Z.to_nat (u32 severity) in
        count ← gets (fun w => rd (g_audit_count (w_log w)) i);
        if QUDO_AUDIT_RATE_LIMIT <=? count then mret tt
        else
          _ ← modify (on_log (fun l => set_g_audit_count (wr (g_audit_count l) i (u32 (count + 1))) l));
          modify (on_log (fun l => set_trace (EvAudit severity code component detail :: trace l) l))
    end.
End Audit.

(** ** Error messages *)

Definition qudo_err_table : list (Z * string) :=
  [ (QUDO_ERR_NONE, "No error");
    (QUDO_ERR_STATE_INVALID, "Invalid module state for operation");
    (QUDO_ERR_MODULE_NOT_RUNNING, "Module not in RUNNING state");
    (QUDO_ERR_MODULE_ERROR_STATE, "Module in ERROR state");
    (QUDO_ERR_INIT_LOCK_FAIL, "Failed to acquire initialization lock");
    (QUDO_ERR_INIT_ONCE_FAIL, "Once-initialization failed");
    (QUDO_ERR_POST_INTEGRITY_FAIL, "Module integrity verification failed");
    (QUDO_ERR_POST_KAT_FAIL, "Power-on self-test KAT failed");
    (QUDO_ERR_POST_KEYGEN_KAT_FAIL, "POST keygen KAT failed");
    (QUDO_ERR_POST_KEM_KAT_FAIL, "POST KEM KAT failed");
    (QUDO_ERR_POST_SIG_KAT_FAIL, "POST signature KAT failed");
    (QUDO_ERR_INTEGRITY_HMAC_FAIL, "HMAC integrity self-test failed");
    (QUDO_ERR_INTEGRITY_MISMATCH, "Module HMAC does not match expected value");
    (QUDO_ERR_INTEGRITY_NO_CONFIG, "No integrity configuration or embedded HMAC");
    (QUDO_ERR_PCT_KEYGEN_FAIL, "Pairwise consistency test failed (keygen)");
    (QUDO_ERR_PCT_IMPORT_FAIL, "Pairwise consistency test failed (import)");
    (QUDO_ERR_PCT_ENCAPS_FAIL, "PCT encapsulation/decapsulation mismatch");
    (QUDO_ERR_PCT_SIGN_FAIL, "PCT sign/verify mismatch");
    (QUDO_ERR_CAST_NOT_RUN, "Conditional self-test not yet executed");
    (QUDO_ERR_CAST_FAIL, "Conditional algorithm self-test failed");
    (QUDO_ERR_CAST_KEYGEN_FAIL, "CAST temporary key generation failed");
    (QUDO_ERR_DRBG_NOT_SEEDED, "DRBG not initialized/seeded");
    (QUDO_ERR_DRBG_SEED_FAIL, "DRBG seeding from platform entropy failed");
    (QUDO_ERR_DRBG_HEALTH_FAIL, "DRBG health test failed (SP 800-90B)");
    (QUDO_ERR_DRBG_RESEED_FAIL, "DRBG reseed failed");
    (QUDO_ERR_DRBG_GENERATE_FAIL, "DRBG generate failed");
    (QUDO_ERR_KEY_INVALID, "Invalid key material");
    (QUDO_ERR_KEY_SIZE_MISMATCH, "Key size does not match algorithm parameters");
    (QUDO_ERR_KEY_ZEROIZE_FAIL, "Key zeroization verification failed");
    (QUDO_ERR_ALLOC, "Memory allocation failed");
    (QUDO_ERR_PARAM_INVALID, "Invalid parameter value");
    (QUDO_ERR_PARAM_NULL, "NULL parameter");
    (QUDO_ERR_NOT_SUPPORTED, "Operation not supported");
    (QUDO_ERR_INTERNAL, "Internal error") ].

(** The loop over the table. *)
Fixpoint err_lookup (t : list (Z * string)) (err : Z) : string :=
  match t with
  | [] => "Unknown error"
  | (code, msg) :: t => if code =? err then msg else err_lookup t err
  end.

Definition qudo_err_string (err : Z) : string := err_lookup qudo_err_table err.

(** ** What one call does to the log *)

(** The log after [qudo_audit_log], as a function of the state before. *)
Definition audit_logged (severity code : Z) (component detail : string) (w : World) : log_t :=
  let l := w_log w in
  let i := Z.to_nat (u32 severity) in
  if QUDO_SEV_FATAL <? u32 severity then l
  else match g_audit_cb (w_audit w) with
       | None => l
       | Some _ =>
           if QUDO_AUDIT_RATE_LIMIT <=? rd (g_audit_count l) i then l
           else mk_log (wr (g_audit_count l) i (u32 (rd (g_audit_count l) i + 1)))
                  (g_error_report_count l) (EvAudit severity code component detail :: trace l)
       end.

Lemma audit_log_run {E : Env} sev code comp det w :
  lock_free (g_audit_lock (w_audit w)) ->
  qudo_audit_log sev code comp det w = Some (tt, set_w_log (audit_logged sev code comp det w) w).
Proof.
  intros Hl. destruct w as [c [cb arg lk once] [cnt rc tr] r p m e]. cbn in Hl.
  unfold qudo_audit_log, audit_logged. cbn [w_audit w_log g_audit_cb].
  destruct (QUDO_SEV_FATAL <? u32 sev); [reflexivity |].
  destruct Hl as [-> | ->]; destruct cb as [cb|]; run_step; try reflexivity;
    destruct (QUDO_AUDIT_RATE_LIMIT <=? rd cnt (Z.to_nat (u32 sev))); reflexivity.
Qed.

(** ** How the log grows *)

(** One step: an audit record within its limit; a report of the error state, counted, with the call to the error
    callback (code 1) if there is one; another call to the error callback or one to the self-test callback. *)
Inductive log_step : log_t -> log_t -> Prop :=
| log_audit l sev code comp det :
    0 <= sev <= 3 -> rd (g_audit_count l) (Z.to_nat sev) < QUDO_AUDIT_RATE_LIMIT ->
    forall l', l' = mk_log (wr (g_audit_count l) (Z.to_nat sev) (u32 (rd (g_audit_count l) (Z.to_nat sev) + 1)))
                  (g_error_report_count l) (EvAudit sev code comp det :: trace l) -> log_step l l'
| log_report l (told : option string) : g_error_report_count l < 10 ->
    log_step l (mk_log (g_audit_count l) (u32 (g_error_report_count l + 1))
                  (match told with Some msg => EvError 1 msg :: trace l | None => trace l end))
| log_error l code msg : code <> 1 -> log_step l (mk_log (g_audit_count l) (g_error_report_count l) (EvError code msg :: trace l))
| log_selftest l ph ty de res :
    log_step l (mk_log (g_audit_count l) (g_error_report_count l) (EvSelfTest ph ty de res :: trace l)).

Definition log_ext : log_t -> log_t -> Prop := rtc log_step.

Lemma audit_logged_ext sev code comp det w :
  0 <= sev <= 3 -> log_ext (w_log w) (audit_logged sev code comp det w).
Proof.
  intros Hs. unfold audit_logged. rewrite u32_id by (unfold is_u32; lia).
  destruct (QUDO_SEV_FATAL <? sev); [apply rtc_refl |].
  destruct (g_audit_cb (w_audit w)); [| apply rtc_refl].
  destruct (Z.leb_spec QUDO_AUDIT_RATE_LIMIT (rd (g_audit_count (w_log w)) (Z.to_nat sev))); [apply rtc_refl |].
  apply rtc_once. eapply log_audit; eauto.
Qed.

(** Audit events of one severity. *)
Definition is_audit (sev : Z) (e : event) : bool :=
  match e with EvAudit s _ _ _ => s =? sev | _ => false end.

Definition audit_events (sev : Z) (t : list event) : nat := length (List.filter (is_audit sev) t).

(** Reports of the error state to the application: calls to its error callback with code 1. *)
Definition is_report (e : event) : bool := match e with EvError c _ => c =? 1 | _ => false end.

Definition report_events (t : list event) : nat := length (List.filter is_report t).

(** The audit counters count exactly the records delivered, the report counter covers the reports, and all stay within their limits. *)
Record log_inv (l : log_t) : Prop := {
  li_len : length (g_audit_count l) = 4%nat;
  li_count : forall sev, 0 <= sev <= 3 ->
    rd (g_audit_count l) (Z.to_nat sev) = Z.of_nat (audit_events sev (trace l)) /\
    rd (g_audit_count l) (Z.to_nat sev) <= QUDO_AUDIT_RATE_LIMIT;
  li_report : Z.of_nat (report_events (trace l)) <= g_error_report_count l <= 10 }.

Lemma log_step_inv l l' : log_step l l' -> log_inv l -> log_inv l'.
Proof.
  intros Hs [Hlen Hc Hr]. unfold report_events in Hr.
  destruct Hs as [l sev code comp det Hsev Hlt l' -> | l told Hlt | l code msg Hcode | l ph ty de res].
  - constructor; cbn [g_audit_count g_error_report_count trace]; [now rewrite length_wr | | exact Hr].
    intros s Hs. destruct (Hc s Hs) as [He Hm]. unfold audit_events in *. cbn [List.filter is_audit].
    destruct (Z.eqb_spec sev s) as [-> | Hne].
    + rewrite rd_wr_eq by lia. rewrite u32_id by (unfold is_u32, QUDO_AUDIT_RATE_LIMIT in *; lia).
      cbn [length]. unfold QUDO_AUDIT_RATE_LIMIT in *. lia.
    + rewrite rd_wr_ne by lia. now split.
  - constructor; cbn [g_audit_count g_error_report_count trace]; [exact Hlen | |].
    + destruct told; exact Hc.
    + rewrite u32_id by (unfold is_u32; lia). destruct told; unfold report_events; cbn [List.filter is_report Z.eqb Pos.eqb length]; lia.
  - constructor; [exact Hlen | exact Hc |]. unfold report_events. cbn [trace List.filter is_report]. rewrite (proj2 (Z.eqb_neq _ _) Hcode). exact Hr.
  - constructor; [exact Hlen | exact Hc | exact Hr].
Qed.

Lemma log_ext_inv l l' : log_ext l l' -> log_inv l -> log_inv l'.
Proof. induction 1; eauto using log_step_inv. Qed.

(** ** Messages *)

(** The message table is complete and unambiguous: every error code of the header has exactly
    one entry, in the header's order, so [qudo_err_string] returns the entry of the code it is
    given and ["Unknown error"] for exactly the values that are not error codes. *)
Theorem err_string_exact (err : Z) :
  (forall msg, In (err, msg) qudo_err_table -> qudo_err_string err = msg) /\
  (~ In err (map fst qudo_err_table) -> qudo_err_string err = "Unknown error"%string) /\
  NoDup (map fst qudo_err_table) /\ ~ In "Unknown error"%string (map snd qudo_err_table).
Proof.
  assert (Hnd : NoDup (map fst qudo_err_table)) by (apply (bool_decide_eq_true_1 _); vm_compute; reflexivity).
  split; [| split; [| split; [exact Hnd |]]].
  - intros msg Hin. unfold qudo_err_string. revert Hnd Hin. generalize qudo_err_table as t.
    induction t as [|[c m] t IH]; intros Hnd Hin; [destruct Hin |]. cbn [err_lookup map] in *.
    apply NoDup_cons in Hnd as [Hni Hnd]. destruct Hin as [[= -> ->] | Hin].
    + now rewrite Z.eqb_refl.
    + destruct (Z.eqb_spec c err) as [-> | Hne]; [| now apply IH].
      exfalso. apply Hni. apply list_elem_of_In. now apply (in_map fst) in Hin.
  - intros Hni. unfold qudo_err_string. revert Hni. generalize qudo_err_table as t.
    induction t as [|[c m] t IH]; intros Hni; [reflexivity |]. cbn [err_lookup map fst] in *.
    destruct (Z.eqb_spec c err) as [-> | Hne]; [exfalso; apply Hni; now left |].
    apply IH. intros Hin. apply Hni. now right.
  - intros Hin. cbn in Hin. repeat destruct Hin as [Hin | Hin]; discriminate || assumption.
Qed.
