(* ===== verification/State.v ===== *)
(** * Module state

    The part of [src/qudo_pqc_init.c] that holds the module state and is called from everywhere:
    state queries, error reporting, entering the error state, the approved-algorithm list, the
    conditional self-test table, and the self-test event helpers of [src/qudo_pqc_selftest.h]. *)

From stdpp Require Import base list numbers strings relations.
From Stdlib Require Import ZArith Lia Ascii.
From S2P Require Import Prelude CtrDrbg World AuditLog.

#[local] Open Scope Z_scope.

Definition QUDO_PQC_STATE_INIT : Z := 0.
Definition QUDO_PQC_STATE_SELFTEST : Z := 1.
Definition QUDO_PQC_STATE_RUNNING : Z := 2.
Definition QUDO_PQC_STATE_ERROR : Z := 3.

Definition QUDO_ST_TYPE_MODULE_INTEGRITY : string := "Module_Integrity".
Definition QUDO_ST_TYPE_KAT_INTEGRITY : string := "KAT_Integrity".
Definition QUDO_ST_TYPE_KAT_ASYM_KEYGEN : string := "KAT_AsymmetricKeyGeneration".
Definition QUDO_ST_TYPE_KAT_KEM : string := "KAT_KEM".
Definition QUDO_ST_TYPE_KAT_SIGNATURE : string := "KAT_Signature".
Definition QUDO_ST_TYPE_PCT : string := "PCT".
Definition QUDO_ST_TYPE_PCT_IMPORT : string := "Import_PCT".
Definition QUDO_ST_TYPE_DRBG_HEALTH : string := "DRBG_Health".
Definition QUDO_ST_TYPE_KAT_DRBG : string := "KAT_DRBG".
Definition QUDO_ST_TYPE_KAT_DIGEST : string := "KAT_Digest".
Definition QUDO_ST_TYPE_KAT_MAC : string := "KAT_MAC".

Definition QUDO_ST_PHASE_BEGIN : Z := 0.
Definition QUDO_ST_PHASE_CORRUPT : Z := 1.
Definition QUDO_ST_PHASE_END : Z := 2.

Definition QUDO_ERROR_REPORT_LIMIT : Z := 10.

Definition QUDO_CAST_COUNT : Z := 12.
Definition QUDO_CAST_STATE_INIT : Z := 0.
Definition QUDO_CAST_STATE_PROCESSING : Z := 1.
Definition QUDO_CAST_STATE_SUCCESS : Z := 2.
Definition QUDO_CAST_STATE_FAILURE : Z := 3.

(** [strcasecmp(a, b) == 0] in the C locale. *)
Definition tolower (c : ascii) : ascii :=
  let n := N_of_ascii c in
  if (65 <=? n)%N && (n <=? 90)%N then ascii_of_N (n + 32) else c.
Fixpoint lower (s : string) : string :=
  match s with EmptyString => EmptyString | String c s => String (tolower c) (lower s) end.
Definition strcasecmp_eq (a b : string) : bool := String.eqb (lower a) (lower b).

Definition approved : list string :=
  [ "ML-KEM-512"; "ML-KEM-768"; "ML-KEM-1024"; "ML-DSA-44"; "ML-DSA-65"; "ML-DSA-87";
    "HashML-DSA-44"; "HashML-DSA-65"; "HashML-DSA-87"; "SLH-DSA-SHA2-128s"; "SLH-DSA-SHA2-128f";
    "SLH-DSA-SHA2-192s"; "SLH-DSA-SHA2-192f"; "SLH-DSA-SHA2-256s"; "SLH-DSA-SHA2-256f";
    "SLH-DSA-SHAKE-128s"; "SLH-DSA-SHAKE-128f"; "SLH-DSA-SHAKE-192s"; "SLH-DSA-SHAKE-192f";
    "SLH-DSA-SHAKE-256s"; "SLH-DSA-SHAKE-256f" ]%string.

Definition qudo_pqc_is_fips_approved (algorithm_name : option string) : Z :=
  match algorithm_name with
  | None => 0
  | Some n => if existsb (strcasecmp_eq n) approved then 1 else 0
  end.

(** [qudo_st_ctx_t], without the callback's own event pointer. *)
Record qudo_st_ctx_t := mk_st { st_cb : option Z; st_cb_arg : Z; current_type : string; current_desc : string }.

Section State.
Context {E : Env} {B : BuildConfig}.

Definition get_state : M Z := gets (fun w => g_module_state (w_core w)).
Definition set_state (s : Z) : M unit := modify (on_core (set_g_module_state s)).

(** Constructor run when the library is loaded. *)
Definition qudo_dep_init : M unit := set_state QUDO_PQC_STATE_SELFTEST.

(** The call of an application's error callback. *)
Definition call_error_cb (cb : option Z) (code : Z) (msg : string) : M unit :=
  when (not_null cb) (modify (on_log (fun l => set_trace (EvError code msg :: trace l) l))).

(** [snprintf(msg, 128, ...)] keeps 127 characters. *)
Definition error_report_msg (reason : option string) : string :=
  match reason with
  | Some r => String.substring 0 127 ("Module in error state (cause: " ++ r ++ ")")
  | None => "Module in error state (cause unspecified)"
  end%string.

Definition report_error_state : M unit :=
  count ← gets (fun w => g_error_report_count (w_log w));
  when (count <? QUDO_ERROR_REPORT_LIMIT)
    (_ ← modify (on_log (fun l => set_g_error_report_count (u32 (count + 1)) l));
     l ← gets (fun w => g_self_test_lock (w_core w));
     r ← (if not_null l then
            _ ← qudo_rwlock_rdlock self_test_lock;
            cb ← gets (fun w => g_error_cb (w_core w));
            reason ← gets (fun w => g_error_reason (w_core w));
            _ ← qudo_rwlock_rdunlock self_test_lock;
            mret (cb, reason)
          else mret (None, None));
     let '(cb, reason) := r in
     let msg := error_report_msg reason in
     _ ← call_error_cb cb 1 msg;
     qudo_audit_log QUDO_SEV_ERROR QUDO_ERR_MODULE_ERROR_STATE QUDO_AUDIT_COMP_STATE msg).

Definition qudo_pqc_is_running : M bool :=
  state ← get_state;
  _ ← when (state =? QUDO_PQC_STATE_ERROR) report_error_state;
  mret (state =? QUDO_PQC_STATE_RUNNING).

Definition qudo_pqc_is_running_or_selftest : M bool :=
  state ← get_state;
  _ ← when (state =? QUDO_PQC_STATE_ERROR) report_error_state;
  mret ((state =? QUDO_PQC_STATE_RUNNING) || (state =? QUDO_PQC_STATE_SELFTEST)).

Definition qudo_pqc_is_self_testing : M bool :=
  state ← get_state; mret (state =? QUDO_PQC_STATE_SELFTEST).

Definition qudo_pqc_get_state : M Z := get_state.

Definition qudo_pqc_is_fips : Z := if QUDO_FIPS_MODULE then 1 else 0.

Definition qudo_pqc_get_cast_status (cast_id : Z) : M Z :=
  if (cast_id <? 0) || (QUDO_CAST_COUNT <=? cast_id) then mret (-1)
  else gets (fun w => rd (g_cast_status (w_core w)) (Z.to_nat cast_id)).

Definition qudo_pqc_set_cast_status (cast_id status : Z) : M unit :=
  when ((0 <=? cast_id) && (cast_id <? QUDO_CAST_COUNT))
    (modify (on_core (fun c => set_g_cast_status (wr (g_cast_status c) (Z.to_nat cast_id) status) c))).

(** Lock-free: may run while the self-test thread holds the lock. *)
Definition qudo_pqc_set_error_state (type : option string) : M unit :=
  let cond_test := match type with Some t => String.eqb t QUDO_ST_TYPE_PCT | None => false end in
  let import_pct := match type with Some t => String.eqb t QUDO_ST_TYPE_PCT_IMPORT | None => false end in
  cb ← gets (fun w => g_error_cb (w_core w));
  check ← gets (fun w => g_conditional_error_check (w_core w));
  if import_pct then
    _ ← call_error_cb cb 2 "Import PCT error (transient)";
    qudo_audit_log QUDO_SEV_WARN QUDO_ERR_PCT_IMPORT_FAIL QUDO_AUDIT_COMP_PCT
      "Import PCT failed (transient, no state change)"
  else if negb cond_test || negb (check =? 0) then
    _ ← set_state QUDO_PQC_STATE_ERROR;
    _ ← modify (on_core (set_g_error_reason type));
    _ ← call_error_cb cb 3 "Module entering error state";
    qudo_audit_log QUDO_SEV_FATAL QUDO_ERR_MODULE_ERROR_STATE QUDO_AUDIT_COMP_STATE
      "Module entering ERROR state (fatal)"
  else
    _ ← call_error_cb cb 4 "Conditional error (warning only)";
    qudo_audit_log QUDO_SEV_WARN QUDO_ERR_PCT_KEYGEN_FAIL QUDO_AUDIT_COMP_PCT
      "Conditional PCT error (warning, check disabled)".

Definition qudo_pqc_get_st_ctx : M qudo_st_ctx_t :=
  l ← gets (fun w => g_self_test_lock (w_core w));
  if not_null l then
    _ ← qudo_rwlock_rdlock self_test_lock;
    cb ← gets (fun w => g_self_test_cb (w_core w));
    arg ← gets (fun w => g_self_test_cb_arg (w_core w));
    _ ← qudo_rwlock_rdunlock self_test_lock;
    mret (mk_st cb arg "" "")
  else mret (mk_st None 0 "" "").

(** *** Self-test events *)

Definition call_st_cb (st : qudo_st_ctx_t) (phase : Z) (result : Z) : M unit :=
  when (not_null (st_cb st))
    (modify (on_log (fun l => set_trace (EvSelfTest phase (current_type st) (current_desc st) result :: trace l) l))).

Definition qudo_st_begin (st : qudo_st_ctx_t) (type desc : string) : M qudo_st_ctx_t :=
  let st := mk_st (st_cb st) (st_cb_arg st) type desc in
  _ ← call_st_cb st QUDO_ST_PHASE_BEGIN 0;
  mret st.

(** The callback may overwrite the buffer it is shown. *)
Definition qudo_st_corrupt (st : qudo_st_ctx_t) (data : bytes) : M bytes :=
  match st_cb st with
  | None => mret data
  | Some cb =>
      t ← gets (fun w => trace (w_log w));
      _ ← call_st_cb st QUDO_ST_PHASE_CORRUPT 0;
      mret (env_st_cb t cb (st_cb_arg st) QUDO_ST_PHASE_CORRUPT (current_type st) (current_desc st) 0 data)
  end.

Definition qudo_st_end (st : qudo_st_ctx_t) (result : Z) : M unit :=
  call_st_cb st QUDO_ST_PHASE_END result.
End State.

(** ** Operations that only write the log *)

(** [m] returns [a] and changes nothing but the log. *)
Definition logs {A} (m : M A) (w : World) (a : A) : Prop :=
  exists l, m w = Some (a, set_w_log l w) /\ log_ext (w_log w) l.

Lemma set_w_log_id w : set_w_log (w_log w) w = w.
Proof. now destruct w. Qed.

Lemma logs_ret {A} (a : A) w : logs (mret a) w a.
Proof. exists (w_log w). rewrite set_w_log_id. split; [reflexivity | apply rtc_refl]. Qed.

(** Reading leaves the state as it is. *)
Lemma logs_gets {A C} (f : World -> A) (k : A -> M C) w c : logs (k (f w)) w c -> logs (mbind k (gets f)) w c.
Proof. exact id. Qed.

Lemma logs_bind {A C} (m : M A) (k : A -> M C) w a c :
  logs m w a -> (forall l, log_ext (w_log w) l -> logs (k a) (set_w_log l w) c) -> logs (mbind k m) w c.
Proof.
  intros (l & Hm & Hl) Hk. destruct (Hk l Hl) as (l' & Hk' & Hl'). exists l'. split.
  - unfold mbind, M_bind. now rewrite Hm, Hk'.
  - etransitivity; [exact Hl | exact Hl'].
Qed.

Lemma logs_when (b : bool) m w : (b = true -> logs m w tt) -> logs (when b m) w tt.
Proof. intros H. destruct b; [now apply H | apply logs_ret]. Qed.

Lemma logs_wp {A} (m : M A) w a Q :
  logs m w a -> (forall l, log_ext (w_log w) l -> Q a (set_w_log l w)) -> wp m Q w.
Proof. intros (l & Hm & Hl) HQ. eapply wp_eq; eauto. Qed.

Lemma logs_step f w : (forall w, log_step (w_log w) (f (w_log w))) -> logs (modify (on_log f)) w tt.
Proof. intros H. exists (f (w_log w)). split; [reflexivity | apply rtc_once, H]. Qed.

Section Facts.
Context {E : Env} {B : BuildConfig}.

Lemma logs_audit sev code comp det w : 0 <= sev <= 3 -> lock_free (g_audit_lock (w_audit w)) ->
  logs (qudo_audit_log sev code comp det) w tt.
Proof.
  intros Hs Hl. eexists. split; [now apply audit_log_run | now apply audit_logged_ext].
Qed.

Lemma logs_error_cb cb code msg w : code <> 1 -> logs (call_error_cb cb code msg) w tt.
Proof. intros Hc. apply logs_when. intros _. apply logs_step. intros v. now apply log_error. Qed.

Lemma logs_st_cb st ph res w : logs (call_st_cb st ph res) w tt.
Proof. apply logs_when. intros _. apply logs_step. intros v. apply log_selftest. Qed.

Lemma logs_st_begin st ty de w :
  logs (qudo_st_begin st ty de) w (mk_st (st_cb st) (st_cb_arg st) ty de).
Proof. eapply logs_bind; [apply logs_st_cb | intros; apply logs_ret]. Qed.

Lemma logs_st_end st res w : logs (qudo_st_end st res) w tt.
Proof. apply logs_st_cb. Qed.

Lemma logs_st_corrupt {HE : EnvOk E} st d w : are_bytes d ->
  exists d', logs (qudo_st_corrupt st d) w d' /\ length d' = length d /\ are_bytes d' /\
    (st_cb st = None -> d' = d).
Proof.
  intros Hd. unfold qudo_st_corrupt. destruct (st_cb st) as [cb|].
  - eexists. split; [| split; [| split; [| discriminate]]].
    + apply logs_gets. eapply logs_bind; [apply logs_st_cb | intros; apply logs_ret].
    + now apply env_st_cb_ok.
    + now apply env_st_cb_ok.
  - exists d. split; [apply logs_ret | auto].
Qed.

(** Reporting needs the self-test lock, so it must not be write-held by the caller. *)
Lemma logs_report w : lock_free (g_self_test_lock (w_core w)) -> lock_free (g_audit_lock (w_audit w)) ->
  logs report_error_state w tt.
Proof.
  intros Hs Ha. unfold report_error_state. apply logs_gets. apply logs_when. intros Hlt. apply Z.ltb_lt in Hlt.
  set (cr := if not_null (g_self_test_lock (w_core w)) then (g_error_cb (w_core w), g_error_reason (w_core w)) else (None, None)).
  set (l := mk_log (g_audit_count (w_log w)) (u32 (g_error_report_count (w_log w) + 1))
              (if not_null (fst cr) then EvError 1 (error_report_msg (snd cr)) :: trace (w_log w) else trace (w_log w))).
  assert (Hl : log_ext (w_log w) l).
  { apply rtc_once. subst l. destruct (fst cr); cbn [not_null]; [exact (log_report _ (Some _) Hlt) | exact (log_report _ None Hlt)]. }
  destruct (logs_audit QUDO_SEV_ERROR QUDO_ERR_MODULE_ERROR_STATE QUDO_AUDIT_COMP_STATE (error_report_msg (snd cr)) (set_w_log l w)) as (l' & Hr & Hl');
    [unfold QUDO_SEV_ERROR; lia | exact Ha |].
  exists l'. split; [| etransitivity; [exact Hl | exact Hl']]. etransitivity; [| exact Hr]. subst l cr.
  destruct w as [[ms lk on ce sc sa ec ea er cs sp sm su ca] a [cnt n t] r p m e]. cbn in Hs.
  destruct Hs as [-> | ->]; destruct ec; reflexivity.
Qed.

Lemma logs_is_running w :
  (g_module_state (w_core w) = QUDO_PQC_STATE_ERROR -> lock_free (g_self_test_lock (w_core w))) ->
  lock_free (g_audit_lock (w_audit w)) ->
  logs qudo_pqc_is_running w (g_module_state (w_core w) =? QUDO_PQC_STATE_RUNNING).
Proof.
  intros Hs Ha. apply logs_gets. eapply logs_bind; [| intros; apply logs_ret].
  apply logs_when. intros He. apply Z.eqb_eq in He. apply logs_report; auto.
Qed.

Lemma logs_gate w :
  (g_module_state (w_core w) = QUDO_PQC_STATE_ERROR -> lock_free (g_self_test_lock (w_core w))) ->
  lock_free (g_audit_lock (w_audit w)) ->
  logs qudo_pqc_is_running_or_selftest w
    ((g_module_state (w_core w) =? QUDO_PQC_STATE_RUNNING) || (g_module_state (w_core w) =? QUDO_PQC_STATE_SELFTEST)).
Proof.
  intros Hs Ha. apply logs_gets. eapply logs_bind; [| intros; apply logs_ret].
  apply logs_when. intros He. apply Z.eqb_eq in He. apply logs_report; auto.
Qed.

(** The effect of [qudo_pqc_set_error_state] on the state of [qudo_pqc_init.c]: an import failure
    and a conditional failure with the check disabled leave it, anything else latches ERROR. *)
Definition enter_error (type : option string) (c : core_t) : core_t :=
  if bool_decide (type = Some QUDO_ST_TYPE_PCT_IMPORT) then c
  else if bool_decide (type = Some QUDO_ST_TYPE_PCT) && (g_conditional_error_check c =? 0) then c
  else set_g_error_reason type (set_g_module_state QUDO_PQC_STATE_ERROR c).

Lemma eqb_bool_decide (t : option string) (s : string) :
  match t with Some t => String.eqb t s | None => false end = bool_decide (t = Some s).
Proof.
  destruct t as [t|]; [| reflexivity]. destruct (String.eqb_spec t s) as [-> | Hne]; symmetry.
  - now apply bool_decide_eq_true_2.
  - apply bool_decide_eq_false_2. congruence.
Qed.

Lemma set_error_run type w : lock_free (g_audit_lock (w_audit w)) ->
  exists l, qudo_pqc_set_error_state type w = Some (tt, set_w_log l (on_core (enter_error type) w)) /\
    log_ext (w_log w) l.
Proof.
  intros Ha. unfold qudo_pqc_set_error_state, enter_error. rewrite !eqb_bool_decide.
  assert (Hcb : forall cb code msg sev ac comp det v, code <> 1 -> 0 <= sev <= 3 -> lock_free (g_audit_lock (w_audit v)) ->
    logs (_ ← call_error_cb cb code msg; qudo_audit_log sev ac comp det) v tt).
  { intros cb code msg sev ac comp det v Hcode Hs Hv. eapply logs_bind; [now apply logs_error_cb |].
    intros l Hl. now apply logs_audit. }
  destruct (bool_decide (type = Some QUDO_ST_TYPE_PCT_IMPORT)).
  { destruct (Hcb (g_error_cb (w_core w)) 2 "Import PCT error (transient)"%string QUDO_SEV_WARN QUDO_ERR_PCT_IMPORT_FAIL QUDO_AUDIT_COMP_PCT
      "Import PCT failed (transient, no state change)"%string w) as (l & Hr & Hl); [discriminate | unfold QUDO_SEV_WARN; lia | exact Ha |].
    exists l. split; [| exact Hl]. etransitivity; [exact Hr | now destruct w]. }
  destruct (bool_decide (type = Some QUDO_ST_TYPE_PCT) && (g_conditional_error_check (w_core w) =? 0)) eqn:Hc.
  - destruct (Hcb (g_error_cb (w_core w)) 4 "Conditional error (warning only)"%string QUDO_SEV_WARN QUDO_ERR_PCT_KEYGEN_FAIL
      QUDO_AUDIT_COMP_PCT "Conditional PCT error (warning, check disabled)"%string w) as (l & Hr & Hl);
      [discriminate | unfold QUDO_SEV_WARN; lia | exact Ha |].
    exists l. split; [| exact Hl]. etransitivity; [| etransitivity; [exact Hr |]].
    2:{ unfold on_core. cbv beta. rewrite Hc. now destruct w. }
    apply andb_true_iff in Hc as [-> Hc]. cbn [negb orb]. unfold mbind at 1 2, M_bind at 1 2, gets. now rewrite Hc.
  - set (v := on_core (fun c => set_g_error_reason type (set_g_module_state QUDO_PQC_STATE_ERROR c)) w).
    destruct (Hcb (g_error_cb (w_core w)) 3 "Module entering error state"%string QUDO_SEV_FATAL QUDO_ERR_MODULE_ERROR_STATE
      QUDO_AUDIT_COMP_STATE "Module entering ERROR state (fatal)"%string v) as (l & Hr & Hl);
      [discriminate | unfold QUDO_SEV_FATAL; lia | exact Ha |].
    exists l. split; [| exact Hl]. etransitivity; [| etransitivity; [exact Hr |]].
    2:{ subst v. unfold on_core. cbv beta. now rewrite Hc. }
    unfold mbind at 1 2, M_bind at 1 2, gets.
    replace (negb (bool_decide (type = Some QUDO_ST_TYPE_PCT)) || negb (g_conditional_error_check (w_core w) =? 0)) with true
      by (destruct (bool_decide (type = Some QUDO_ST_TYPE_PCT)), (g_conditional_error_check (w_core w) =? 0); reflexivity || discriminate).
    reflexivity.
Qed.

Lemma get_st_ctx_run w : lock_free (g_self_test_lock (w_core w)) -> exists st, qudo_pqc_get_st_ctx w = Some (st, w).
Proof.
  intros [Hl | Hl]; destruct w as [[ms lk on ce sc sa ec ea er cs sp sm su ca] a l r p m e]; cbn in Hl; subst lk;
    eexists; unfold qudo_pqc_get_st_ctx; run_step; reflexivity.
Qed.
End Facts.

(** ** The loaded image *)

(** The static variables before the library's constructor runs. *)
Definition static_world : World :=
  mk_world
    (mk_core QUDO_PQC_STATE_INIT None false 1 None 0 None 0 None 0 "" "" 0 (zeros (Z.to_nat QUDO_CAST_COUNT)))
    (mk_audit None 0 None false)
    (mk_log (zeros 4) 0 [])
    (mk_rand drbg_cleared 0 0 0 0 0 0 0 0 0 None false None)
    (mk_post 0 0) 1 (mk_env 0 0 0) (mk_alg 0 0 0).
