(* ===== verification/Rand.v ===== *)
(** * The module's random bit generator

    Model of [src/fips/qudo_fips_rand.c]: entropy from the platform, the SP 800-90B continuous
    health tests (repetition count and adaptive proportion), the start-up test, seeding,
    generation with the reseed interval, and clean-up.  The entropy source is the [getentropy]
    branch of [raw_platform_entropy]. *)

From stdpp Require Import base list numbers strings relations.
From Stdlib Require Import ZArith Lia ZifyNat.
From S2P Require Import Prelude Aes CtrDrbg World AuditLog State.

#[local] Open Scope Z_scope.

Definition RESEED_INTERVAL : Z := 2 ^ 20.
Definition FIPS_RAND_KEYLEN : nat := 32.
Definition FIPS_RAND_SEEDLEN : nat := 48.
Definition FIPS_ENTROPY_H : nat := 8.
Definition rct_critical : list Z := [41; 21; 11; 8; 6; 5; 5; 4; 4].
Definition FIPS_APT_WINDOW : Z := 512.
Definition apt_critical : list Z := [410; 311; 177; 103; 62; 39; 25; 18; 13].
Definition FIPS_ENTROPY_STARTUP_SAMPLES : nat := 1024.

(** ** Health tests *)

(** The variables of the two tests. *)
Record health := mk_health { h_rct_a : Z; h_rct_b : Z; h_apt_a : Z; h_apt_b : Z; h_apt_i : Z }.

Definition rct_test (h : health) (next : Z) : bool * health :=
  if negb (h_rct_b h =? 0) && (next =? h_rct_a h) then
    let b := u32 (h_rct_b h + 1) in
    (negb (rd rct_critical FIPS_ENTROPY_H <=? b), mk_health (h_rct_a h) b (h_apt_a h) (h_apt_b h) (h_apt_i h))
  else (true, mk_health next 1 (h_apt_a h) (h_apt_b h) (h_apt_i h)).

Definition apt_test (h : health) (next : Z) : bool * health :=
  if negb (h_apt_b h =? 0) then
    let same := next =? h_apt_a h in
    let b := if same then u32 (h_apt_b h + 1) else h_apt_b h in
    if same && (rd apt_critical FIPS_ENTROPY_H <=? b)
    then (false, mk_health (h_rct_a h) (h_rct_b h) (h_apt_a h) 0 (h_apt_i h))
    else
      let i := u32 (h_apt_i h + 1) in
      (true, mk_health (h_rct_a h) (h_rct_b h) (h_apt_a h) (if FIPS_APT_WINDOW <=? i then 0 else b) i)
  else (true, mk_health (h_rct_a h) (h_rct_b h) next 1 1).

(** [for] loop with early return; [!rct_test(b) || !apt_test(b)] short-circuits. *)
Fixpoint health_loop (h : health) (buf : bytes) : bool * health :=
  match buf with
  | [] => (true, h)
  | b :: buf =>
      let '(ok, h) := rct_test h b in
      if ok then
        let '(ok, h) := apt_test h b in
        if ok then health_loop h buf else (false, h)
      else (false, h)
  end.

Definition get_health (r : rand_t) : health :=
  mk_health (g_rct_a r) (g_rct_b r) (g_apt_a r) (g_apt_b r) (g_apt_i r).
Definition put_health (h : health) (r : rand_t) : rand_t :=
  set_g_rct_a (h_rct_a h) (set_g_rct_b (h_rct_b h)
    (set_g_apt_a (h_apt_a h) (set_g_apt_b (h_apt_b h) (set_g_apt_i (h_apt_i h) r)))).

Section Rand.
Context {E : Env} {B : BuildConfig} (I : AesImpl).

(** [qudo_pqc_set_rand_provider], of builds with a host DRBG. *)
Definition qudo_pqc_set_rand_provider (fn : option Z) : M unit :=
  modify (on_rand (set_g_host_rand_provider fn)).

Definition do_fips_rand_lock_init : M unit :=
  l ← qudo_rwlock_new; modify (on_rand (set_g_fips_rand_lock l)).

(** [getentropy] in chunks of at most 256 bytes; [None] is the return value -1. *)
Fixpoint raw_loop (fuel len : nat) (acc : bytes) : M (option bytes) :=
  match fuel with
  | O => mret (Some acc)
  | S fuel =>
      if Nat.ltb 0 len then
        let chunk := if Nat.ltb len 256 then len else 256%nat in
        n ← gets (fun w => n_entropy (w_env w));
        _ ← modify (on_env (set_n_entropy (S n)));
        match env_getentropy n chunk with
        | None => mret None
        | Some b => raw_loop fuel (len - chunk) (acc ++ b)
        end
      else mret (Some acc)
  end.

Definition raw_platform_entropy (len : nat) : M (option bytes) := raw_loop len len [].

Definition qudo_fips_rand_init (entropy : option bytes) (entropy_len : nat) : M Z :=
  match entropy with
  | None => mret (-1)
  | Some entropy =>
      if Nat.ltb entropy_len FIPS_RAND_SEEDLEN then mret (-1)
      else
        ok ← qudo_once (fun w => g_fips_rand_lock_once (w_rand w)) (on_rand (set_g_fips_rand_lock_once true))
               do_fips_rand_lock_init;
        if ok =? 0 then mret (-1)
        else
          l ← gets (fun w => g_fips_rand_lock (w_rand w));
          if negb (not_null l) then mret (-1)
          else
            ok ← qudo_rwlock_wrlock fips_rand_lock;
            if ok =? 0 then mret (-1)
            else
              c ← gets (fun w => g_fips_drbg (w_rand w));
              let '(rc, c') := qudo_ctrdrbg_init I (Some c) FIPS_RAND_KEYLEN
                                 (Some (take FIPS_RAND_SEEDLEN entropy)) FIPS_RAND_SEEDLEN in
              _ ← modify (on_rand (set_g_fips_drbg (default c c')));
              if negb (rc =? 0) then
                _ ← qudo_rwlock_unlock fips_rand_lock; mret (-1)
              else
                _ ← modify (on_rand (set_g_fips_rand_gen_count 0));
                _ ← modify (on_rand (set_g_fips_rand_ready 1));
                _ ← qudo_rwlock_unlock fips_rand_lock;
                mret 0
  end.

Definition continuous_health_test (buf : bytes) : M bool :=
  h ← gets (fun w => get_health (w_rand w));
  let '(ok, h) := health_loop h buf in
  _ ← modify (on_rand (put_health h));
  mret ok.

Definition entropy_health_fail (msg : string) : M unit :=
  _ ← modify (on_rand (set_g_health_failed 1));
  _ ← qudo_audit_log QUDO_SEV_FATAL QUDO_ERR_DRBG_HEALTH_FAIL QUDO_AUDIT_COMP_DRBG msg;
  qudo_pqc_set_error_state (Some QUDO_ST_TYPE_DRBG_HEALTH).

(** [while (remaining > 0)] with a 64-byte buffer. *)
Fixpoint startup_loop (fuel remaining : nat) : M Z :=
  match fuel with
  | O => mret 0
  | S fuel =>
      if Nat.ltb 0 remaining then
        let chunk := if Nat.ltb remaining 64 then remaining else 64%nat in
        b ← raw_platform_entropy chunk;
        match b with
        | None => _ ← entropy_health_fail "Startup entropy read failed"; mret (-1)
        | Some b =>
            ok ← continuous_health_test b;
            if negb ok then
              _ ← entropy_health_fail "Startup entropy health test failed (RCT or APT)"; mret (-1)
            else startup_loop fuel (remaining - chunk)
        end
      else mret 0
  end.

Definition startup_health_test : M Z :=
  startup_loop FIPS_ENTROPY_STARTUP_SAMPLES FIPS_ENTROPY_STARTUP_SAMPLES.

(** [None] is the return value -1. *)
Definition platform_entropy (len : nat) : M (option bytes) :=
  failed ← gets (fun w => g_health_failed (w_rand w));
  if negb (failed =? 0) then mret None
  else
    tested ← gets (fun w => g_startup_tested (w_rand w));
    rc ← (if tested =? 0 then
            rc ← startup_health_test;
            if negb (rc =? 0) then mret (-1)
            else _ ← modify (on_rand (set_g_startup_tested 1)); mret 0
          else mret 0);
    if negb (rc =? 0) then mret None
    else
      b ← raw_platform_entropy len;
      match b with
      | None => mret None
      | Some b =>
          ok ← continuous_health_test b;
          if negb ok then
            _ ← entropy_health_fail "Raw entropy health test failed (RCT or APT)"; mret None
          else mret (Some b)
      end.

(** The reseed at the head of the generate loop: 0, or the error with which to leave the loop
    (the lock is released on the error paths, as in the code). *)
Definition reseed_if_due : M Z :=
  count ← gets (fun w => u32 (g_fips_rand_gen_count (w_rand w) + 1));
  _ ← modify (on_rand (set_g_fips_rand_gen_count count));
  if RESEED_INTERVAL <=? count then
    fresh ← platform_entropy FIPS_RAND_SEEDLEN;
    match fresh with
    | None => _ ← qudo_rwlock_unlock fips_rand_lock; mret (-1)
    | Some fresh =>
        c ← gets (fun w => g_fips_drbg (w_rand w));
        let '(rc, c') := qudo_ctrdrbg_reseed I (Some c) (Some fresh) FIPS_RAND_SEEDLEN in
        _ ← modify (on_rand (set_g_fips_drbg (default c c')));
        if negb (rc =? 0) then
          _ ← qudo_rwlock_unlock fips_rand_lock;
          _ ← qudo_pqc_set_error_state (Some QUDO_ST_TYPE_DRBG_HEALTH);
          mret (-1)
        else
          _ ← modify (on_rand (set_g_fips_rand_gen_count 0));
          mret 0
    end
  else mret 0.

(** [while (out_len > 0)]: every pass advances by at least one byte. *)
Fixpoint rand_loop (fuel off out_len : nat) (out : bytes) : M (Z * bytes) :=
  match fuel with
  | O => mret (0, out)
  | S fuel =>
      if Nat.ltb 0 out_len then
        let chunk := if Nat.ltb QUDO_CTRDRBG_MAX_REQUEST out_len then QUDO_CTRDRBG_MAX_REQUEST else out_len in
        rc ← reseed_if_due;
        if negb (rc =? 0) then mret (-1, out)
        else
          c ← gets (fun w => g_fips_drbg (w_rand w));
          let '(rc, c', o) := qudo_ctrdrbg_generate I (Some c) (Some (sub out off chunk)) chunk None 0 in
          _ ← modify (on_rand (set_g_fips_drbg (default c c')));
          let out := blit out off (default [] o) in
          if negb (rc =? 0) then
            _ ← qudo_rwlock_unlock fips_rand_lock; mret (-1, out)
          else rand_loop fuel (off + chunk) (out_len - chunk) out
      else
        _ ← qudo_rwlock_unlock fips_rand_lock;
        mret (0, out)
  end.

(** Return value and the caller's buffer afterwards. *)
Definition qudo_fips_rand_bytes (out : option bytes) (out_len : nat) : M (Z * option bytes) :=
  ok ← qudo_pqc_is_running_or_selftest;
  if negb ok then mret (-1, out)
  else
    host ← gets (fun w => if QUDO_PQC_USE_HOST_DRBG then g_host_rand_provider (w_rand w) else None);
    match host : option Z with
    | Some p =>
        match out with
        | None => mret (-1, out)
        | Some o =>
            if Nat.eqb out_len 0 then mret (0, out)
            else
              n ← gets (fun w => n_host (w_env w));
              _ ← modify (on_env (set_n_host (S n)));
              match env_host_rand p n out_len with
              | Some b => mret (0, Some (blit o 0 b))
              | None => mret (-1, out)
              end
        end
    | None =>
        ready ← gets (fun w => g_fips_rand_ready (w_rand w));
        match out with
        | None => mret (-1, out)
        | Some o =>
            if ready =? 0 then mret (-1, out)
            else if Nat.eqb out_len 0 then mret (0, out)
            else
              failed ← gets (fun w => g_health_failed (w_rand w));
              if negb (failed =? 0) then mret (-1, out)
              else
                ok ← qudo_rwlock_wrlock fips_rand_lock;
                if ok =? 0 then mret (-1, out)
                else
                  r ← rand_loop (S out_len) 0 out_len o;
                  mret (fst r, Some (snd r))
        end
    end.

Definition qudo_fips_rand_reseed (entropy : option bytes) (entropy_len : nat) : M Z :=
  ok ← qudo_pqc_is_running_or_selftest;
  if negb ok then mret (-1)
  else
    ready ← gets (fun w => g_fips_rand_ready (w_rand w));
    match entropy with
    | None => mret (-1)
    | Some entropy =>
        if ready =? 0 then mret (-1)
        else if Nat.ltb entropy_len FIPS_RAND_SEEDLEN then mret (-1)
        else
          ok ← qudo_rwlock_wrlock fips_rand_lock;
          if ok =? 0 then mret (-1)
          else
            c ← gets (fun w => g_fips_drbg (w_rand w));
            let '(rc, c') := qudo_ctrdrbg_reseed I (Some c) (Some (take FIPS_RAND_SEEDLEN entropy)) FIPS_RAND_SEEDLEN in
            _ ← modify (on_rand (set_g_fips_drbg (default c c')));
            if negb (rc =? 0) then
              _ ← qudo_rwlock_unlock fips_rand_lock;
              _ ← qudo_pqc_set_error_state (Some QUDO_ST_TYPE_DRBG_HEALTH);
              mret (-1)
            else
              _ ← modify (on_rand (set_g_fips_rand_gen_count 0));
              _ ← qudo_rwlock_unlock fips_rand_lock;
              mret 0
    end.

Definition qudo_fips_rand_cleanup : M unit :=
  ready ← gets (fun w => g_fips_rand_ready (w_rand w));
  when (negb (ready =? 0))
    (l ← gets (fun w => g_fips_rand_lock (w_rand w));
     _ ← (if not_null l then _ ← qudo_rwlock_wrlock fips_rand_lock; mret tt else mret tt);
     _ ← modify (on_rand (fun r =>
           set_g_startup_tested 0 (set_g_health_failed 0 (put_health (mk_health 0 0 0 0 0)
             (set_g_fips_rand_gen_count 0
               (set_g_fips_drbg (default (g_fips_drbg r) (qudo_ctrdrbg_free (Some (g_fips_drbg r))))
                 (set_g_fips_rand_ready 0 r)))))));
     if not_null l then qudo_rwlock_unlock fips_rand_lock else mret tt).

Definition qudo_fips_rand_dep_cleanup : M unit :=
  l ← gets (fun w => g_fips_rand_lock (w_rand w));
  _ ← (if not_null l then qudo_rwlock_free fips_rand_lock else mret tt);
  modify (on_rand (set_g_fips_rand_lock_once false)).

Definition qudo_fips_rand_seed_from_platform : M Z :=
  e ← platform_entropy FIPS_RAND_SEEDLEN;
  match e with
  | None => mret (-1)
  | Some e => qudo_fips_rand_init (Some e) FIPS_RAND_SEEDLEN
  end.

Definition qudo_fips_rand_is_ready : M Z := gets (fun w => g_fips_rand_ready (w_rand w)).
End Rand.

(** ** The health tests against SP 800-90B *)

(** Length of the run of equal samples that ends a stream. *)
Fixpoint run_rev (s : list Z) : nat :=
  match s with
  | [] => 0
  | x :: t => match t with
              | y :: _ => if x =? y then S (run_rev t) else 1
              | [] => 1
              end
  end.
Definition ending_run (s : list Z) : nat := run_rev (rev s).

(** The adaptive proportion test's window that holds the last sample of a stream, and how often
    that window's first sample occurs in it. *)
Definition window (s : list Z) : list Z := drop (512 * ((length s - 1) / 512)) s.
Definition head_count (s : list Z) : nat :=
  match window s with [] => 0 | x :: t => count_occ Z.eq_dec (x :: t) x end.

(** SP 800-90B 4.4.1 and 4.4.2 with the cutoffs for 8 bits of entropy per byte. *)
Definition healthy (s : list Z) : Prop :=
  forall p q, s = p ++ q -> p <> [] -> (ending_run p < 4)%nat /\ (head_count p < 13)%nat.

Definition fresh_health : health := mk_health 0 0 0 0 0.

(** The tests' variables after the stream [s]. *)
Record health_rep (h : health) (s : list Z) : Prop := {
  hp_rct_b : h_rct_b h = Z.of_nat (ending_run s);
  hp_rct_a : s <> [] -> h_rct_a h = List.last s 0;
  hp_apt_0 : (length s mod 512 = 0)%nat -> h_apt_b h = 0;
  hp_apt : (length s mod 512 <> 0)%nat ->
    h_apt_b h = Z.of_nat (head_count s) /\ h_apt_a h = rd (window s) 0 /\ h_apt_i h = Z.of_nat (length s mod 512) }.

Lemma ending_run_snoc s x :
  ending_run (s ++ [x]) = if bool_decide (s <> [] /\ List.last s 0 = x) then S (ending_run s) else 1%nat.
Proof.
  unfold ending_run. rewrite rev_app_distr. cbn [rev app run_rev].
  destruct s as [|y s _] using rev_ind; [reflexivity |].
  rewrite rev_app_distr. cbn [rev app]. rewrite last_last.
  destruct (Z.eqb_spec x y) as [-> | Hne].
  - rewrite bool_decide_eq_true_2; [reflexivity |]. split; [now destruct s | reflexivity].
  - rewrite bool_decide_eq_false_2; [reflexivity |]. intros [_ He]. congruence.
Qed.

Lemma window_snoc s x : window (s ++ [x]) = if bool_decide (length s mod 512 = 0)%nat then [x] else window s ++ [x].
Proof.
  unfold window. rewrite length_app. cbn [length]. rewrite Nat.add_sub.
  case_bool_decide as H.
  - rewrite drop_app_ge by lia. replace (512 * (length s / 512) - length s)%nat with 0%nat by lia. reflexivity.
  - rewrite drop_app_le by lia. do 2 f_equal. lia.
Qed.

Lemma window_nil s : (length s mod 512 <> 0)%nat -> exists y t, window s = y :: t.
Proof.
  intros H. unfold window. destruct (drop _ s) as [|y t] eqn:Hd; [| eauto].
  apply (f_equal length) in Hd. rewrite length_drop in Hd. cbn [length] in Hd. lia.
Qed.

Lemma head_count_snoc s x :
  head_count (s ++ [x])
  = if bool_decide (length s mod 512 = 0)%nat then 1%nat
    else (head_count s + (if (rd (window s) 0 =? x)%Z then 1 else 0))%nat.
Proof.
  unfold head_count. rewrite window_snoc. case_bool_decide as H.
  - cbn. destruct (Z.eq_dec x x); [reflexivity | congruence].
  - destruct (window_nil s H) as (y & t & ->). cbn [app]. change (rd (y :: t) 0) with y.
    change (y :: t ++ [x]) with ((y :: t) ++ [x]). rewrite count_occ_app. f_equal.
    cbn [count_occ]. destruct (Z.eq_dec x y) as [-> | Hne]; [now rewrite Z.eqb_refl |].
    now rewrite (proj2 (Z.eqb_neq y x)) by congruence.
Qed.

Lemma count_bound s : (head_count s <= length s)%nat.
Proof.
  unfold head_count, window. destruct (drop _ s) as [|y t] eqn:Hd; [lia |].
  pose proof (count_occ_bound Z.eq_dec y (y :: t)) as Hb.
  apply (f_equal length) in Hd. rewrite length_drop in Hd. cbn [length] in *. lia.
Qed.

(** One sample: each test passes exactly when the extended stream stays within its cutoff. *)
Lemma rct_step h s x : health_rep h s -> (ending_run s < 4)%nat ->
  fst (rct_test h x) = bool_decide (ending_run (s ++ [x]) < 4)%nat /\
  h_rct_b (snd (rct_test h x)) = Z.of_nat (ending_run (s ++ [x])) /\
  h_rct_a (snd (rct_test h x)) = x /\
  h_apt_a (snd (rct_test h x)) = h_apt_a h /\ h_apt_b (snd (rct_test h x)) = h_apt_b h /\
  h_apt_i (snd (rct_test h x)) = h_apt_i h.
Proof.
  intros [Hb Ha _ _] Hlt. rewrite ending_run_snoc. unfold rct_test.
  assert (Hpos : (h_rct_b h =? 0) = bool_decide (s = [])).
  { rewrite Hb. destruct s as [|y s _] using rev_ind; [reflexivity |].
    rewrite bool_decide_eq_false_2 by (now destruct s). apply Z.eqb_neq.
    rewrite ending_run_snoc. case_bool_decide; lia. }
  rewrite Hpos. clear Hpos. destruct (decide (s = [])) as [-> | Hne].
  { rewrite bool_decide_eq_true_2 by reflexivity. cbn. repeat split; reflexivity. }
  rewrite (bool_decide_eq_false_2 (s = [])) by exact Hne. cbn [negb andb]. rewrite (Ha Hne).
  destruct (Z.eqb_spec x (List.last s 0)) as [He | Hn].
  - rewrite (bool_decide_eq_true_2 (s <> [] /\ List.last s 0 = x)) by (split; [exact Hne | symmetry; exact He]). cbn [fst snd h_rct_b h_rct_a h_apt_a h_apt_b h_apt_i].
    rewrite Hb, u32_id by (unfold is_u32; lia). change (rd rct_critical FIPS_ENTROPY_H) with 4.
    repeat split; try lia; try congruence.
    destruct (Z.leb_spec 4 (Z.of_nat (ending_run s) + 1)); case_bool_decide; reflexivity || lia.
  - rewrite (bool_decide_eq_false_2 (s <> [] /\ List.last s 0 = x)) by (intros [_ He]; congruence).
    repeat split; reflexivity.
Qed.

Lemma apt_step h s x : health_rep h s -> (head_count s < 13)%nat ->
  fst (apt_test h x) = bool_decide (head_count (s ++ [x]) < 13)%nat /\
  ((head_count (s ++ [x]) < 13)%nat ->
   h_rct_a (snd (apt_test h x)) = h_rct_a h /\ h_rct_b (snd (apt_test h x)) = h_rct_b h /\
   (((length s + 1) mod 512 = 0)%nat -> h_apt_b (snd (apt_test h x)) = 0) /\
   (((length s + 1) mod 512 <> 0)%nat ->
     h_apt_b (snd (apt_test h x)) = Z.of_nat (head_count (s ++ [x])) /\
     h_apt_a (snd (apt_test h x)) = rd (window (s ++ [x])) 0 /\
     h_apt_i (snd (apt_test h x)) = Z.of_nat ((length s + 1) mod 512))).
Proof.
  intros [_ _ H0 H1] Hlt. rewrite head_count_snoc, window_snoc. unfold apt_test.
  destruct (decide (length s mod 512 = 0)%nat) as [Hz | Hnz].
  - rewrite (bool_decide_eq_true_2 (length s mod 512 = 0)%nat) by exact Hz.
    rewrite (H0 Hz). cbn [Z.eqb negb].
    split; [reflexivity |]. intros _. cbn [snd h_rct_a h_rct_b h_apt_a h_apt_b h_apt_i].
    replace ((length s + 1) mod 512)%nat with 1%nat by lia. repeat split; lia || reflexivity.
  - rewrite (bool_decide_eq_false_2 (length s mod 512 = 0)%nat) by exact Hnz.
    destruct (H1 Hnz) as (Hb & Ha & Hi). destruct (window_nil s Hnz) as (y & t & Hw).
    assert (Hpos : (0 < head_count s)%nat).
    { unfold head_count. rewrite Hw. cbn. destruct (Z.eq_dec y y); [lia | congruence]. }
    rewrite Hb, Ha, Hi, Hw. change (rd (y :: t) 0) with y. change (rd ((y :: t) ++ [x]) 0) with y.
    rewrite (proj2 (Z.eqb_neq (Z.of_nat (head_count s)) 0)) by lia. cbn [negb].
    change (rd apt_critical FIPS_ENTROPY_H) with 13. unfold FIPS_APT_WINDOW.
    rewrite !(u32_id (Z.of_nat _ + 1)) by (unfold is_u32; lia).
    rewrite (Z.eqb_sym x y). destruct (Z.eqb_spec y x) as [He | Hne]; cbn [andb].
    + destruct (Z.leb_spec 13 (Z.of_nat (head_count s) + 1)); cbn [fst snd].
      * rewrite bool_decide_eq_false_2 by lia. split; [reflexivity | lia].
      * rewrite bool_decide_eq_true_2 by lia. split; [reflexivity |]. intros _.
        cbn [h_rct_a h_rct_b h_apt_a h_apt_b h_apt_i].
        destruct (Z.leb_spec 512 (Z.of_nat (length s mod 512) + 1)); repeat split; lia.
    + cbn [fst snd]. rewrite bool_decide_eq_true_2 by lia. split; [reflexivity |]. intros _.
      cbn [h_rct_a h_rct_b h_apt_a h_apt_b h_apt_i].
      destruct (Z.leb_spec 512 (Z.of_nat (length s mod 512) + 1)); repeat split; lia.
Qed.

Lemma healthy_nil : healthy [].
Proof. intros p q H Hp. symmetry in H. apply app_eq_nil in H as [-> _]. congruence. Qed.

Lemma healthy_app_l s t : healthy (s ++ t) -> healthy s.
Proof. intros H p q -> Hp. apply (H p (q ++ t)); [now rewrite app_assoc | exact Hp]. Qed.

Lemma healthy_bounds s : healthy s -> (ending_run s < 4)%nat /\ (head_count s < 13)%nat.
Proof.
  intros H. destruct (decide (s = [])) as [-> | Hne]; [cbn; lia |].
  apply (H s []); [now rewrite app_nil_r | exact Hne].
Qed.

Lemma healthy_snoc s x : healthy s -> (ending_run (s ++ [x]) < 4)%nat -> (head_count (s ++ [x]) < 13)%nat ->
  healthy (s ++ [x]).
Proof.
  intros H Hr Hc p q Heq Hp. destruct q as [|y q _] using rev_ind.
  - rewrite app_nil_r in Heq. subst p. auto.
  - rewrite app_assoc in Heq. apply app_inj_tail in Heq as [Heq _]. now apply (H p q).
Qed.

Lemma fresh_rep : health_rep fresh_health [].
Proof. constructor; cbn; try reflexivity; congruence. Qed.

(** A sample that passes both tests extends the stream; one that fails makes it unhealthy. *)
Lemma health_step h s x : health_rep h s -> healthy s ->
  let '(ok1, h1) := rct_test h x in
  if ok1 then
    let '(ok2, h2) := apt_test h1 x in
    if ok2 then healthy (s ++ [x]) /\ health_rep h2 (s ++ [x]) else ~ healthy (s ++ [x])
  else ~ healthy (s ++ [x]).
Proof.
  intros Hr Hs. destruct (healthy_bounds s Hs) as [Hb1 Hb2].
  destruct (rct_step h s x Hr Hb1) as (Hok & Hb & Ha & Haa & Hab & Hai).
  destruct (rct_test h x) as [ok1 h1]. cbn [fst snd] in *. subst ok1.
  case_bool_decide as Hrun; [| intros H; now apply healthy_bounds in H as [H _]].
  assert (Hr1 : health_rep (mk_health (h_rct_a h) (h_rct_b h) (h_apt_a h1) (h_apt_b h1) (h_apt_i h1)) s).
  { destruct Hr as [R1 R2 R3 R4]. constructor; cbn [h_rct_a h_rct_b h_apt_a h_apt_b h_apt_i];
      rewrite ?Haa, ?Hab, ?Hai; assumption. }
  destruct (apt_step _ s x Hr1 Hb2) as [Hok2 Hrest].
  assert (Heq : fst (apt_test h1 x) = fst (apt_test (mk_health (h_rct_a h) (h_rct_b h) (h_apt_a h1) (h_apt_b h1) (h_apt_i h1)) x)
    /\ h_apt_b (snd (apt_test h1 x)) = h_apt_b (snd (apt_test (mk_health (h_rct_a h) (h_rct_b h) (h_apt_a h1) (h_apt_b h1) (h_apt_i h1)) x))
    /\ h_apt_a (snd (apt_test h1 x)) = h_apt_a (snd (apt_test (mk_health (h_rct_a h) (h_rct_b h) (h_apt_a h1) (h_apt_b h1) (h_apt_i h1)) x))
    /\ h_apt_i (snd (apt_test h1 x)) = h_apt_i (snd (apt_test (mk_health (h_rct_a h) (h_rct_b h) (h_apt_a h1) (h_apt_b h1) (h_apt_i h1)) x))
    /\ h_rct_a (snd (apt_test h1 x)) = h_rct_a h1 /\ h_rct_b (snd (apt_test h1 x)) = h_rct_b h1).
  { unfold apt_test. cbn [h_apt_b h_apt_a h_apt_i]. destruct (negb (h_apt_b h1 =? 0)); [| now cbn].
    destruct ((x =? h_apt_a h1) && _); now cbn. }
  destruct Heq as (E1 & E2 & E3 & E4 & E5 & E6).
  destruct (apt_test h1 x) as [ok2 h2]. cbn [fst snd] in *. rewrite E1, Hok2.
  case_bool_decide as Hcnt; [| intros H; now apply healthy_bounds in H as [_ H]].
  split; [now apply healthy_snoc |]. destruct (Hrest Hcnt) as (_ & _ & R1 & R2).
  constructor; rewrite ?length_app; cbn [length].
  - now rewrite E6.
  - intros _. rewrite E5, last_last. exact Ha.
  - intros H. rewrite E2. now apply R1.
  - intros H. rewrite E2, E3, E4. now apply R2.
Qed.

Lemma health_loop_rep h s t : health_rep h s -> healthy s ->
  if fst (health_loop h t) then healthy (s ++ t) /\ health_rep (snd (health_loop h t)) (s ++ t)
  else ~ healthy (s ++ t).
Proof.
  revert h s. induction t as [|x t IH]; intros h s Hr Hs; [cbn; now rewrite app_nil_r |].
  pose proof (health_step h s x Hr Hs) as Hstep. cbn [health_loop].
  destruct (rct_test h x) as [[|] h1]; cbn [fst].
  - destruct (apt_test h1 x) as [[|] h2]; cbn [fst].
    + destruct Hstep as [Hs' Hr']. specialize (IH h2 (s ++ [x]) Hr' Hs').
      rewrite <- app_assoc in IH. exact IH.
    + intros H. apply Hstep. apply (healthy_app_l _ t). now rewrite <- app_assoc.
  - intros H. apply Hstep. apply (healthy_app_l _ t). now rewrite <- app_assoc.
Qed.

(** Successive buffers, the tests' state carried along. *)
Fixpoint health_run (h : health) (bufs : list bytes) : bool :=
  match bufs with
  | [] => true
  | b :: bufs => let '(ok, h) := health_loop h b in if ok then health_run h bufs else false
  end.

Lemma health_run_rep bufs h s : health_rep h s -> healthy s ->
  health_run h bufs = true <-> healthy (s ++ concat bufs).
Proof.
  revert h s. induction bufs as [|b bufs IH]; intros h s Hr Hs.
  - cbn. rewrite app_nil_r. split; auto.
  - pose proof (health_loop_rep h s b Hr Hs) as Hl. cbn [health_run concat]. rewrite app_assoc.
    destruct (health_loop h b) as [[|] h']; cbn [fst snd] in Hl.
    + destruct Hl as [Hs' Hr']. now apply IH.
    + split; [discriminate |]. intros H. exfalso. apply Hl. now apply healthy_app_l in H.
Qed.

(** C26. The health tests are those of SP 800-90B: run over any sequence of entropy buffers, with
    their state carried from one buffer to the next, they accept exactly when no prefix of the
    concatenated stream ends in a run of four equal bytes and no 512-sample window holds its first
    byte thirteen times. *)
Theorem health_tests_exact (bufs : list bytes) :
  health_run fresh_health bufs = true <-> healthy (concat bufs).
Proof. apply (health_run_rep bufs fresh_health []); [apply fresh_rep | apply healthy_nil]. Qed.
