(* ===== verification/RandService.v ===== *)
(** * The random bit generator as the rest of the module sees it

    What an operation called inside the module may change ([evolves]), lock discipline and
    functional behaviour of the generator of [Rand], and its promises: refinement of SP 800-90A
    with reseeding, refusals, clean-up, and the latched health failure. *)

From stdpp Require Import base list numbers strings relations.
From Stdlib Require Import ZArith Lia ZifyNat.
From S2P Require Import Prelude Aes CtrDrbg World AuditLog State Rand.

#[local] Open Scope Z_scope.

(** ** What operations may change

    [evolves] is what every operation called inside the module may do to the state: move the
    module state to ERROR, note the reason, update the conditional self-test table, write the log,
    use the generator, pass further self-tests.  Everything else (callbacks, configuration, the
    self-test and audit locks) it leaves alone; the generator's lock is tracked separately. *)

Section Evolution.
Context (I : AesImpl).

Record rand_wf (r : rand_t) : Prop := {
  rw_rk : length (rd_key (db_aes (g_fips_drbg r))) = 60%nat;
  rw_ready : g_fips_rand_ready r <> 0 ->
    db_seedlen (g_fips_drbg r) = FIPS_RAND_SEEDLEN /\ exists s, drbg_rep I (g_fips_drbg r) s }.

Record evolves (w w' : World) : Prop := {
  ev_core : exists s r cs,
    w_core w' = set_g_cast_status cs (set_g_error_reason r (set_g_module_state s (w_core w))) /\
    (s = g_module_state (w_core w) \/ s = QUDO_PQC_STATE_ERROR) /\
    length cs = length (g_cast_status (w_core w));
  ev_audit : w_audit w' = w_audit w;
  ev_log : log_ext (w_log w) (w_log w');
  ev_rand : rand_wf (w_rand w) -> rand_wf (w_rand w');
  ev_kat : g_post_drbg_kat_passed (w_post w) = 1 -> g_post_drbg_kat_passed (w_post w') = 1;
  ev_int : g_post_integrity_passed (w_post w) = 1 -> g_post_integrity_passed (w_post w') = 1;
  ev_min : g_min_security_level w' = g_min_security_level w;
  ev_latch : g_health_failed (w_rand w) <> 0 -> g_health_failed (w_rand w') <> 0 }.

Lemma core_id c : c = set_g_cast_status (g_cast_status c) (set_g_error_reason (g_error_reason c)
                        (set_g_module_state (g_module_state c) c)).
Proof. now destruct c. Qed.

#[export] Instance evolves_refl : Reflexive evolves.
Proof.
  intros w. constructor; auto; [| apply rtc_refl].
  exists (g_module_state (w_core w)), (g_error_reason (w_core w)), (g_cast_status (w_core w)).
  split; [apply core_id | auto].
Qed.

#[export] Instance evolves_trans : Transitive evolves.
Proof.
  intros w1 w2 w3 [(s1 & r1 & c1 & Hc1 & Hs1 & Hl1) A1 L1 R1 P1 Q1 M1 F1]
                  [(s2 & r2 & c2 & Hc2 & Hs2 & Hl2) A2 L2 R2 P2 Q2 M2 F2].
  constructor; auto; try congruence.
  - exists s2, r2, c2. rewrite Hc1 in Hc2, Hs2, Hl2. split; [exact Hc2 |].
    cbn in Hs2, Hl2. split; [| congruence]. destruct Hs2 as [-> | ->]; auto.
  - etransitivity; eassumption.
Qed.

(** The parts of the state the caller may rely on. *)
Lemma evolves_state w w' : evolves w w' ->
  g_module_state (w_core w') = g_module_state (w_core w) \/ g_module_state (w_core w') = QUDO_PQC_STATE_ERROR.
Proof. intros [(s & r & cs & -> & Hs & _) _ _ _ _ _ _ _]. exact Hs. Qed.

Lemma evolves_lock w w' : evolves w w' -> g_self_test_lock (w_core w') = g_self_test_lock (w_core w).
Proof. intros [(s & r & cs & -> & _) _ _ _ _ _ _ _]. reflexivity. Qed.

Lemma evolves_log w l : log_ext (w_log w) l -> evolves w (set_w_log l w).
Proof.
  intros Hl. constructor; auto.
  exists (g_module_state (w_core w)), (g_error_reason (w_core w)), (g_cast_status (w_core w)).
  split; [apply core_id | auto].
Qed.

Lemma evolves_error t w : evolves w (on_core (enter_error t) w).
Proof.
  constructor; auto; [| apply rtc_refl]. cbn [on_core w_core set_w_core]. unfold enter_error.
  repeat case_match; (eexists _, _, _; split; [rewrite core_id at 1; reflexivity | cbn; auto]).
Qed.

(** Only the generator's state changes. *)
Lemma evolves_rand f w :
  (g_health_failed (w_rand w) <> 0 -> g_health_failed (f (w_rand w)) <> 0) ->
  (rand_wf (w_rand w) -> rand_wf (f (w_rand w))) -> evolves w (on_rand f w).
Proof.
  intros Hf Hw. constructor; auto; [| apply rtc_refl].
  exists (g_module_state (w_core w)), (g_error_reason (w_core w)), (g_cast_status (w_core w)).
  split; [apply core_id | auto].
Qed.

Lemma evolves_env f w : evolves w (on_env f w).
Proof.
  constructor; auto; [| apply rtc_refl].
  exists (g_module_state (w_core w)), (g_error_reason (w_core w)), (g_cast_status (w_core w)).
  split; [apply core_id | auto].
Qed.

(** *** Entropy collection *)

(** Collecting entropy does not touch the DRBG, its readiness, its counter or its lock. *)
Record collects (w w' : World) : Prop := {
  co_ev : evolves w w';
  co_drbg : g_fips_drbg (w_rand w') = g_fips_drbg (w_rand w);
  co_ready : g_fips_rand_ready (w_rand w') = g_fips_rand_ready (w_rand w);
  co_count : g_fips_rand_gen_count (w_rand w') = g_fips_rand_gen_count (w_rand w);
  co_lock : g_fips_rand_lock (w_rand w') = g_fips_rand_lock (w_rand w);
  co_once : g_fips_rand_lock_once (w_rand w') = g_fips_rand_lock_once (w_rand w);
  co_post : w_post w' = w_post w }.

#[export] Instance collects_refl : Reflexive collects.
Proof. intros w. now constructor. Qed.

#[export] Instance collects_trans : Transitive collects.
Proof. intros w1 w2 w3 [] []. constructor; try congruence. etransitivity; eassumption. Qed.

Lemma collects_env f w : collects w (on_env f w).
Proof. constructor; try reflexivity. apply evolves_env. Qed.

Lemma collects_log w l : log_ext (w_log w) l -> collects w (set_w_log l w).
Proof. intros H. constructor; try reflexivity. now apply evolves_log. Qed.

Lemma collects_error t w : collects w (on_core (enter_error t) w).
Proof. constructor; try reflexivity. apply evolves_error. Qed.

Lemma collects_health h w : collects w (on_rand (put_health h) w).
Proof.
  constructor; try reflexivity. apply evolves_rand; [auto |]. intros [H1 H2]. now constructor.
Qed.

Lemma collects_flag f w :
  (f = set_g_health_failed 1 \/ f = set_g_startup_tested 1) -> collects w (on_rand f w).
Proof.
  intros [-> | ->]; (constructor; try reflexivity; apply evolves_rand; [try discriminate; auto | intros [H1 H2]; now constructor]).
Qed.

Context {E : Env} {HE : EnvOk E} {B : BuildConfig}.

Lemma raw_loop_wp fuel len acc w : (len <= fuel)%nat -> are_bytes acc ->
  wp (raw_loop fuel len acc) (fun r w' => collects w w' /\ w_core w' = w_core w /\
        forall b, r = Some b -> length b = (length acc + len)%nat /\ are_bytes b) w.
Proof.
  revert len acc w. induction fuel as [|fuel IH]; intros len acc w Hf Ha; cbn [raw_loop].
  - apply wp_ret. split; [reflexivity |]. split; [reflexivity |]. intros b [= <-]. split; [lia | exact Ha].
  - destruct (Nat.ltb_spec 0 len) as [Hpos | Hz].
    + set (chunk := if Nat.ltb len 256 then len else 256%nat).
      assert (Hch : (0 < chunk <= len)%nat) by (subst chunk; destruct (Nat.ltb_spec len 256); lia).
      wp_step. wp_step. wp_step. wp_step.
      destruct (env_getentropy (n_entropy (w_env w)) chunk) as [b|] eqn:Hb.
      * destruct (env_getentropy_ok _ _ _ Hb) as [Hbl Hbb].
        eapply wp_mono; [| apply IH; [lia | now apply Forall_app_2]].
        cbv beta. intros r w' (Hc & Hau & Hr). split; [| split].
        -- etransitivity; [apply collects_env | exact Hc].
        -- exact Hau.
        -- intros b' Hb'. destruct (Hr b' Hb') as [Hl' Hbb']. rewrite length_app, Hbl in Hl'.
           split; [lia | exact Hbb'].
      * apply wp_ret. split; [apply collects_env |]. split; [reflexivity | discriminate].
    + apply wp_ret. split; [reflexivity |]. split; [reflexivity |]. intros b [= <-]. split; [lia | exact Ha].
Qed.

Lemma health_test_wp b w :
  wp (continuous_health_test b) (fun _ w' => collects w w' /\ w_core w' = w_core w) w.
Proof.
  unfold continuous_health_test. wp_step. wp_step. destruct (health_loop _ b) as [ok h].
  wp_step. wp_step. wp_step. split; [apply collects_health | reflexivity].
Qed.

Lemma health_fail_wp msg w : lock_free (g_audit_lock (w_audit w)) ->
  wp (entropy_health_fail msg)
     (fun _ w' => collects w w' /\ g_health_failed (w_rand w') = 1 /\
                  g_module_state (w_core w') = QUDO_PQC_STATE_ERROR) w.
Proof.
  intros Ha. unfold entropy_health_fail. wp_step. wp_step.
  set (w1 := on_rand (set_g_health_failed 1) w).
  wp_step. eapply logs_wp; [apply logs_audit; [unfold QUDO_SEV_FATAL; lia | exact Ha] |].
  intros l Hl. destruct (set_error_run (Some QUDO_ST_TYPE_DRBG_HEALTH) (set_w_log l w1) Ha) as (l' & Hr & Hl').
  eapply wp_eq; [exact Hr |]. split; [| split; reflexivity].
  transitivity w1; [apply collects_flag; now left |].
  transitivity (set_w_log l w1); [now apply collects_log |].
  transitivity (on_core (enter_error (Some QUDO_ST_TYPE_DRBG_HEALTH)) (set_w_log l w1)); [apply collects_error |].
  now apply collects_log.
Qed.

Lemma collects_audit w w' : collects w w' -> w_audit w' = w_audit w.
Proof. intros [[] _ _ _ _ _ _]. assumption. Qed.

Lemma startup_loop_wp fuel n w : lock_free (g_audit_lock (w_audit w)) ->
  wp (startup_loop fuel n) (fun rc w' => collects w w' /\ (rc = 0 -> w_core w' = w_core w)) w.
Proof.
  revert n w. induction fuel as [|fuel IH]; intros n w Ha; cbn [startup_loop]; [wp_step; split; reflexivity |].
  destruct (Nat.ltb 0 n); [| wp_step; split; reflexivity].
  wp_step. eapply wp_mono; [| apply raw_loop_wp; [lia | constructor]].
  cbv beta. intros r w1 (Hc1 & Hk1 & _). rewrite <- (collects_audit w w1 Hc1) in Ha. destruct r as [b|].
  - wp_step. eapply wp_mono; [| apply health_test_wp]. cbv beta. intros ok w2 [Hc2 Hk2].
    assert (Hc : collects w w2) by (etransitivity; eassumption).
    rewrite <- (collects_audit w1 w2 Hc2) in Ha. destruct ok; cbn [negb].
    + eapply wp_mono; [| now apply IH]. cbv beta. intros rc w3 [Hc3 Hk3]. split; [etransitivity; eassumption |].
      intros Hrc. rewrite (Hk3 Hrc). congruence.
    + wp_step. eapply wp_mono; [| now apply health_fail_wp]. cbv beta. intros _ w3 (Hc3 & _). wp_step.
      split; [etransitivity; eassumption | lia].
  - wp_step. eapply wp_mono; [| now apply health_fail_wp]. cbv beta. intros _ w3 (Hc3 & _). wp_step.
    split; [etransitivity; eassumption | lia].
Qed.

(** Entropy that is delivered leaves the module's state alone. *)
Definition entropy_post (w : World) (len : nat) (r : option bytes) (w' : World) : Prop :=
  collects w w' /\ forall b, r = Some b -> length b = len /\ are_bytes b /\ w_core w' = w_core w.

Lemma platform_entropy_wp len w : lock_free (g_audit_lock (w_audit w)) ->
  wp (platform_entropy len) (entropy_post w len) w.
Proof.
  intros Ha. unfold platform_entropy, entropy_post. wp_step. wp_step. wp_step; [wp_step; split; [reflexivity | discriminate] |].
  wp_step. wp_step.
  enough (Hrest : forall w1, collects w w1 -> w_core w1 = w_core w ->
    wp (b ← raw_platform_entropy len;
        match b with
        | None => mret None
        | Some b => ok ← continuous_health_test b;
                    if negb ok then _ ← entropy_health_fail "Raw entropy health test failed (RCT or APT)"; mret None
                    else mret (Some b)
        end) (entropy_post w len) w1).
  { unfold entropy_post in Hrest. wp_step. destruct (g_startup_tested (w_rand w) =? 0).
    - wp_step. eapply wp_mono; [| now apply startup_loop_wp]. cbv beta. intros rc w1 [Hc Hk].
      destruct (Z.eqb_spec rc 0) as [-> | Hne]; cbn [negb].
      + wp_step. wp_step. wp_step. change (negb (0 =? 0)) with false. cbv iota.
        apply Hrest; [| now apply Hk]. etransitivity; [exact Hc |]. apply collects_flag. now right.
      + wp_step. change (negb (-1 =? 0)) with true. cbv iota. wp_step. split; [exact Hc | discriminate].
    - wp_step. change (negb (0 =? 0)) with false. cbv iota. apply Hrest; reflexivity. }
  intros w1 Hc1 Hk1. wp_step. eapply wp_mono; [| apply raw_loop_wp; [lia | constructor]].
  cbv beta. intros r w2 (Hc2 & Hk2 & Hr). destruct r as [b|]; [| wp_step; split; [etransitivity; eassumption | discriminate]].
  wp_step. eapply wp_mono; [| apply health_test_wp]. cbv beta. intros ok w3 [Hc3 Hk3].
  assert (Hc : collects w w3) by (etransitivity; [exact Hc1 | etransitivity; eassumption]).
  destruct ok; cbn [negb].
  - wp_step. split; [exact Hc |]. intros b' [= <-]. destruct (Hr b eq_refl) as [Hb1 Hb2].
    split; [exact Hb1 |]. split; [exact Hb2 | congruence].
  - wp_step. rewrite <- (collects_audit w w3 Hc) in Ha.
    eapply wp_mono; [| now apply health_fail_wp]. cbv beta. intros _ w4 (Hc4 & _). wp_step.
    split; [etransitivity; eassumption | discriminate].
Qed.

(** *** Lock brackets *)

Lemma wrlock_rand w Q : g_fips_rand_lock (w_rand w) = Some Unlocked ->
  Q 1 (on_rand (set_g_fips_rand_lock (Some WriteLocked)) w) -> wp (qudo_rwlock_wrlock fips_rand_lock) Q w.
Proof. intros Hl HQ. unfold wp, qudo_rwlock_wrlock. run_step. now rewrite Hl. Qed.

Lemma unlock_rand w Q : g_fips_rand_lock (w_rand w) = Some WriteLocked ->
  Q tt (on_rand (set_g_fips_rand_lock (Some Unlocked)) w) -> wp (qudo_rwlock_unlock fips_rand_lock) Q w.
Proof. intros Hl HQ. unfold wp, qudo_rwlock_unlock. run_step. now rewrite Hl. Qed.

Lemma wrlock_rand_null w Q : g_fips_rand_lock (w_rand w) = None ->
  Q 0 w -> wp (qudo_rwlock_wrlock fips_rand_lock) Q w.
Proof. intros Hl HQ. unfold wp, qudo_rwlock_wrlock. run_step. now rewrite Hl. Qed.

Lemma rand_wf_frame r r' : g_fips_drbg r' = g_fips_drbg r -> g_fips_rand_ready r' = g_fips_rand_ready r ->
  rand_wf r -> rand_wf r'.
Proof. intros Hd Hr [H1 H2]. constructor; [now rewrite Hd | rewrite Hd, Hr; exact H2]. Qed.

(** *** Seeding *)

Context {HI : AesImplOk I}.

Lemma rand_init_wp entropy n w :
  lock_free (g_fips_rand_lock (w_rand w)) -> are_bytes entropy -> length entropy = n ->
  wp (qudo_fips_rand_init I (Some entropy) n)
     (fun rc w' => (rand_wf (w_rand w) -> evolves w w') /\ lock_free (g_fips_rand_lock (w_rand w')) /\
        w_core w' = w_core w /\ w_post w' = w_post w /\
        (rand_wf (w_rand w) -> rc = 0 ->
           g_fips_rand_ready (w_rand w') = 1 /\ g_fips_rand_gen_count (w_rand w') = 0 /\
           drbg_rep I (g_fips_drbg (w_rand w')) (SP800_90A.Instantiate 32 (take 48 entropy)))) w.
Proof.
  intros Hl Hb Hn. unfold qudo_fips_rand_init.
  destruct (Nat.ltb_spec n FIPS_RAND_SEEDLEN) as [Hlt | Hge].
  { wp_step. split_and!; try reflexivity; try assumption. lia. }
  match goal with |- wp _ ?P _ => set (Post := P) end.
  (* once: the lock exists or is created *)
  wp_step. unfold qudo_once. destruct env_once_ok; cbn [negb]; cycle 1.
  { wp_step. change (0 =? 0) with true. cbv iota. wp_step. subst Post. cbv beta. split_and!; try reflexivity; try assumption. lia. }
  enough (Hmain : forall w1, evolves w w1 -> w_core w1 = w_core w -> w_post w1 = w_post w ->
      g_fips_drbg (w_rand w1) = g_fips_drbg (w_rand w) -> lock_free (g_fips_rand_lock (w_rand w1)) ->
      wp (l ← gets (fun w => g_fips_rand_lock (w_rand w));
          if negb (not_null l) then mret (-1)
          else
            ok ← qudo_rwlock_wrlock fips_rand_lock;
            if ok =? 0 then mret (-1)
            else
              c ← gets (fun w => g_fips_drbg (w_rand w));
              let '(rc, c') := qudo_ctrdrbg_init I (Some c) FIPS_RAND_KEYLEN
                                 (Some (take FIPS_RAND_SEEDLEN entropy)) FIPS_RAND_SEEDLEN in
              _ ← modify (on_rand (set_g_fips_drbg (default c c')));
              if negb (rc =? 0) then
                _ ← qudo_rwlock_unlock fips_rand_lock; mret (-1)
              else
                _ ← modify (on_rand (set_g_fips_rand_gen_count 0));
                _ ← modify (on_rand (set_g_fips_rand_ready 1));
                _ ← qudo_rwlock_unlock fips_rand_lock;
                mret 0) Post w1).
  { wp_step. wp_step. destruct (g_fips_rand_lock_once (w_rand w)).
    - wp_step. change (1 =? 0) with false. cbv iota. apply Hmain; reflexivity || assumption.
    - unfold do_fips_rand_lock_init, qudo_rwlock_new. do 10 wp_step. change (1 =? 0) with false. cbv iota.
      apply Hmain; try reflexivity; try (destruct (env_malloc_ok _); [destruct (env_rwlock_init_ok _) |];
        [right | left | left]; reflexivity).
      etransitivity; [| apply evolves_rand; [auto |]; apply rand_wf_frame; reflexivity].
      etransitivity; [| apply evolves_env].
      apply evolves_rand; [auto |]; apply rand_wf_frame; reflexivity. }
  clear Hl. intros w1 He Hc Hp Hd [Hl | Hl]; wp_step; wp_step; rewrite Hl; cbn [not_null negb].
  { wp_step. subst Post. cbv beta. split_and!; auto; [now left | lia]. }
  wp_step. apply wrlock_rand; [exact Hl |]. change (1 =? 0) with false. cbv iota. wp_step. wp_step.
  cbn [on_rand w_rand set_w_rand g_fips_drbg set_g_fips_rand_lock].
  set (c := g_fips_drbg (w_rand w1)).
  destruct (qudo_ctrdrbg_init I (Some c) FIPS_RAND_KEYLEN (Some (take FIPS_RAND_SEEDLEN entropy)) FIPS_RAND_SEEDLEN)
    as [rc c'] eqn:Hi.
  assert (Hinit : rand_wf (w_rand w) -> rc = 0 /\ exists c1, c' = Some c1 /\
            drbg_rep I c1 (SP800_90A.Instantiate 32 (take 48 entropy)) /\ db_seedlen c1 = 48%nat).
  { intros [Hrk _]. rewrite <- Hd in Hrk. destruct (init_rep I HI c 32 (take 48 entropy)) as (c1 & Hc1 & Hr1 & Hs1).
    - right; right; reflexivity.
    - now apply Forall_take.
    - rewrite length_take. unfold FIPS_RAND_SEEDLEN in Hge. lia.
    - exact Hrk.
    - rewrite length_take in Hc1. replace (48 `min` length entropy)%nat with 48%nat in Hc1 by (unfold FIPS_RAND_SEEDLEN in Hge; lia).
      pose proof (eq_trans (eq_sym Hi) Hc1) as Heq. injection Heq as -> ->.
      split; [reflexivity |]. exists c1. auto. }
  wp_step. wp_step. destruct (Z.eqb_spec rc 0) as [-> | Hne]; cbn [negb].
  - do 4 wp_step. wp_step. apply unlock_rand; [reflexivity |]. wp_step.
    subst Post. cbv beta. split; [| split; [| split; [exact Hc | split; [exact Hp |]]]].
    + intros Hw. etransitivity; [exact He |].
      match goal with |- evolves w1 ?x => change x with (on_rand (fun r => set_g_fips_rand_lock (Some Unlocked)
        (set_g_fips_rand_ready 1 (set_g_fips_rand_gen_count 0 (set_g_fips_drbg (default c c')
          (set_g_fips_rand_lock (Some WriteLocked) r))))) w1) end.
      apply evolves_rand; [auto |]. intros _. destruct (Hinit Hw) as (_ & c1 & -> & Hr1 & Hs1).
      constructor; cbn; [apply (k_rk _ _ _ (proj1 Hr1)) |]. intros _. split; [exact Hs1 | eauto].
    + now right.
    + intros Hw _. destruct (Hinit Hw) as (_ & c1 & -> & Hr1 & Hs1). cbn. auto.
  - wp_step. apply unlock_rand; [reflexivity |]. wp_step. subst Post. cbv beta.
    split; [| split; [| split; [exact Hc | split; [exact Hp |]]]]; [| | lia].
    + intros Hw. exfalso. apply Hne. now apply Hinit.
    + now right.
Qed.

(** *** Generation *)

(** What [qudo_fips_rand_bytes] promises: the request is served in pieces of at most 65536 bytes,
    each an SP 800-90A Generate, preceded, when the interval is over, by a Reseed with the 48 bytes that the
    platform's source delivers there and then.  [served w s n b w' s'] takes the generator from state [s] to
    [s'] and the module from [w] to [w'], delivering the [n] bytes [b]: but for what reading the platform's source does,
    only the DRBG's context and its counter change. *)
Definition piece (n : nat) : nat := if Nat.ltb QUDO_CTRDRBG_MAX_REQUEST n then QUDO_CTRDRBG_MAX_REQUEST else n.

(** The counter goes up by one, in 32 bits. *)
Definition next_count (w : World) : Z := u32 (g_fips_rand_gen_count (w_rand w) + 1).
Definition counted (w : World) : World := on_rand (set_g_fips_rand_gen_count (next_count w)) w.

Inductive served : World -> SP800_90A.state -> nat -> bytes -> World -> SP800_90A.state -> Prop :=
| served_done w s : served w s 0 [] w s
| served_piece w s n b s1 c bs w' s' :
    (0 < n)%nat -> next_count w < RESEED_INTERVAL -> SP800_90A.Generate (piece n) None s = (b, s1) -> drbg_rep I c s1 ->
    served (on_rand (set_g_fips_drbg c) (counted w)) s1 (n - piece n) bs w' s' -> served w s n (b ++ bs) w' s'
| served_reseed w s n fresh w1 b s1 c bs w' s' :
    (0 < n)%nat -> RESEED_INTERVAL <= next_count w -> platform_entropy FIPS_RAND_SEEDLEN (counted w) = Some (Some fresh, w1) ->
    SP800_90A.Generate (piece n) None (SP800_90A.Reseed fresh s) = (b, s1) -> drbg_rep I c s1 ->
    served (on_rand (fun r => set_g_fips_drbg c (set_g_fips_rand_gen_count 0 r)) w1) s1 (n - piece n) bs w' s' ->
    served w s n (b ++ bs) w' s'.

Lemma piece_bounds n : (0 < n)%nat -> (0 < piece n <= n)%nat /\ (piece n <= QUDO_CTRDRBG_MAX_REQUEST)%nat.
Proof. intros H. unfold piece, QUDO_CTRDRBG_MAX_REQUEST. destruct (Nat.ltb_spec (Z.to_nat 65536) n); lia. Qed.

(** The first piece of a request is the first piece of every part of it that is whole pieces. *)
Lemma piece_prefix n m : (0 < n)%nat -> (m <= n - piece n)%nat -> piece (piece n + m) = piece n.
Proof.
  intros H. unfold piece. generalize QUDO_CTRDRBG_MAX_REQUEST as k. intros k.
  destruct (Nat.ltb_spec k n) as [H1 | H1]; intros Hm; [destruct (Nat.ltb_spec k (k + m)) | destruct (Nat.ltb_spec k (n + m))]; lia.
Qed.

(** The generator seeded, in state [s]. *)
Record seeded (w : World) (s : SP800_90A.state) : Prop := {
  se_rep : drbg_rep I (g_fips_drbg (w_rand w)) s;
  se_len : db_seedlen (g_fips_drbg (w_rand w)) = FIPS_RAND_SEEDLEN }.

Lemma seeded_key w s : seeded w s -> length (SP800_90A.Key s) = 32%nat.
Proof. intros [Hr Hl]. rewrite (rep_seedlen I _ _ Hr) in Hl. unfold FIPS_RAND_SEEDLEN in Hl. lia. Qed.

Lemma seeded_frame w w' s : g_fips_drbg (w_rand w') = g_fips_drbg (w_rand w) -> seeded w s -> seeded w' s.
Proof. intros H []. constructor; rewrite H; assumption. Qed.

Lemma rand_wf_rep r c s : drbg_rep I c s -> db_seedlen c = FIPS_RAND_SEEDLEN -> rand_wf (set_g_fips_drbg c r).
Proof. intros Hr Hl. constructor; cbn; [apply (k_rk _ _ _ (proj1 Hr)) | eauto]. Qed.

Lemma evolves_count n w : evolves w (on_rand (set_g_fips_rand_gen_count n) w).
Proof. apply evolves_rand; [auto |]. apply rand_wf_frame; reflexivity. Qed.

Lemma evolves_rand_lock l w : evolves w (on_rand (set_g_fips_rand_lock l) w).
Proof. apply evolves_rand; [auto |]. apply rand_wf_frame; reflexivity. Qed.

(** Storing a DRBG context that stands for [s]. *)
Lemma store_drbg w c s : drbg_rep I c s -> length (SP800_90A.Key s) = 32%nat ->
  let w' := on_rand (set_g_fips_drbg c) w in evolves w w' /\ seeded w' s.
Proof.
  intros Hr Hk. assert (Hl : db_seedlen c = FIPS_RAND_SEEDLEN) by (rewrite (rep_seedlen I _ _ Hr), Hk; reflexivity).
  split; [apply evolves_rand; [auto | intros _; now apply (rand_wf_rep _ c s)] | now constructor].
Qed.

Lemma reseed_key s fresh : length (SP800_90A.Key s) = 32%nat -> length fresh = FIPS_RAND_SEEDLEN ->
  length (SP800_90A.Key (SP800_90A.Reseed fresh s)) = 32%nat.
Proof. intros Hk Hf. unfold SP800_90A.Reseed. rewrite update_seedlen; [exact Hk |]. rewrite Hf, Hk. reflexivity. Qed.

Lemma generate_key s n b s1 : length (SP800_90A.Key s) = 32%nat -> (0 < n)%nat -> SP800_90A.Generate (piece n) None s = (b, s1) ->
  length b = piece n /\ length (SP800_90A.Key s1) = 32%nat.
Proof.
  intros Hk Hn HG. destruct (piece_bounds n Hn) as [_ Hp]. split.
  - pose proof (Generate_unfold (piece n) None s) as Hu. cbn [nonempty] in Hu. rewrite HG in Hu. apply (f_equal fst) in Hu. cbn [fst] in Hu.
    rewrite Hu, length_take, length_stream. lia.
  - pose proof (op_keeps_seedlen s (DoGenerate (piece n) None)) as H. cbn [nonempty] in H. rewrite HG in H. cbn [snd] in H.
    rewrite H; [exact Hk |]. split; [exact Hp |]. split; [constructor | cbn; lia].
Qed.

(** Fresh entropy, when it is delivered. *)
Lemma entropy_run w r w' : lock_free (g_audit_lock (w_audit w)) -> platform_entropy FIPS_RAND_SEEDLEN w = Some (r, w') ->
  entropy_post w FIPS_RAND_SEEDLEN r w'.
Proof. intros Ha Hr. pose proof (platform_entropy_wp FIPS_RAND_SEEDLEN w Ha) as H. unfold wp in H. now rewrite Hr in H. Qed.

(** What serving leaves of the module. *)
Record serves_ok (w w' : World) (s' : SP800_90A.state) : Prop := {
  so_ev : evolves w w';
  so_seeded : seeded w' s';
  so_lock : g_fips_rand_lock (w_rand w') = g_fips_rand_lock (w_rand w) }.

Lemma served_ok w s n b w' s' : served w s n b w' s' -> lock_free (g_audit_lock (w_audit w)) -> seeded w s ->
  serves_ok w w' s' /\ length b = n.
Proof.
  induction 1 as [w s | w s n b s1 c bs w' s' Hn Hlt HG Hr _ IH | w s n fresh w1 b s1 c bs w' s' Hn Hdue He HG Hr _ IH]; intros Ha Hs.
  - split; [now constructor | reflexivity].
  - destruct (piece_bounds n Hn) as [Hp _]. destruct (generate_key s n b s1 (seeded_key _ _ Hs) Hn HG) as [Hb Hk].
    destruct (store_drbg (counted w) c s1 Hr Hk) as [He1 Hs1]. destruct (IH Ha Hs1) as [[I1 I2 I3] Il]. split.
    + constructor; [| exact I2 | exact I3]. etransitivity; [apply evolves_count | etransitivity; [exact He1 | exact I1]].
    + rewrite length_app. lia.
  - destruct (piece_bounds n Hn) as [Hp _]. destruct (entropy_run (counted w) _ _ Ha He) as [Hco Hfr]. destruct (Hfr fresh eq_refl) as (Hfl & _ & _).
    destruct (generate_key _ n b s1 (reseed_key s fresh (seeded_key _ _ Hs) Hfl) Hn HG) as [Hb Hk].
    destruct (store_drbg (on_rand (set_g_fips_rand_gen_count 0) w1) c s1 Hr Hk) as [He1 Hs1].
    destruct IH as [[I1 I2 I3] Il]; [| exact Hs1 |].
    + change (lock_free (g_audit_lock (w_audit w1))). rewrite (collects_audit _ _ Hco). exact Ha.
    + split; [| rewrite length_app; lia]. constructor; [| exact I2 | rewrite I3; apply (co_lock _ _ Hco)].
      etransitivity; [apply evolves_count |]. etransitivity; [apply Hco |]. etransitivity; [apply (evolves_count 0) |].
      etransitivity; [exact He1 | exact I1].
Qed.

(** The reseed step: counted before the interval is over, a Reseed with the platform's bytes after. *)
Definition reseed_post (w : World) (s : SP800_90A.state) (rc : Z) (w' : World) : Prop :=
  (rc = 0 /\ next_count w < RESEED_INTERVAL /\ w' = counted w) \/
  (rc = 0 /\ RESEED_INTERVAL <= next_count w /\ exists fresh w1 c,
     platform_entropy FIPS_RAND_SEEDLEN (counted w) = Some (Some fresh, w1) /\ drbg_rep I c (SP800_90A.Reseed fresh s) /\
     w' = on_rand (set_g_fips_rand_gen_count 0) (on_rand (set_g_fips_drbg c) w1)) \/
  (rc = -1 /\ RESEED_INTERVAL <= next_count w /\ exists w1,
     platform_entropy FIPS_RAND_SEEDLEN (counted w) = Some (None, w1) /\ w' = on_rand (set_g_fips_rand_lock (Some Unlocked)) w1).

Lemma reseed_if_due_wp w s :
  g_fips_rand_lock (w_rand w) = Some WriteLocked -> lock_free (g_audit_lock (w_audit w)) -> seeded w s ->
  wp (reseed_if_due I) (reseed_post w s) w.
Proof.
  intros Hl Ha Hs. unfold reseed_if_due. do 4 wp_step. fold (next_count w). fold (counted w).
  destruct (Z.leb_spec RESEED_INTERVAL (next_count w)) as [Hdue | Hnot]; [| wp_step; left; auto].
  wp_step. destruct (wp_run _ _ _ (platform_entropy_wp FIPS_RAND_SEEDLEN (counted w) Ha)) as (fresh & w2 & Hrun & Hco & Hfresh).
  eapply wp_eq; [exact Hrun |]. cbv beta.
  assert (Hl2 : g_fips_rand_lock (w_rand w2) = Some WriteLocked) by (rewrite (co_lock _ _ Hco); exact Hl).
  destruct fresh as [fresh|].
  2:{ wp_step. apply unlock_rand; [exact Hl2 |]. wp_step. right. right. eauto. }
  destruct (Hfresh fresh eq_refl) as (Hfl & Hfb & _). wp_step. wp_step.
  assert (Hs2 : seeded w2 s) by (apply (seeded_frame w); [apply (co_drbg _ _ Hco) | exact Hs]).
  destruct (reseed_rep I HI (g_fips_drbg (w_rand w2)) s fresh (se_rep _ _ Hs2) Hfb) as (c' & Hr & Hrep).
  { now rewrite (se_len _ _ Hs2). }
  rewrite Hfl in Hr. rewrite Hr. wp_step. wp_step. cbn [Z.eqb negb default]. do 3 wp_step. right. left.
  split; [reflexivity |]. split; [exact Hdue |]. exists fresh, w2, c'. auto.
Qed.

(** One piece generated into the caller's buffer. *)
Lemma generate_piece w s off n (out : bytes) : seeded w s -> (0 < n)%nat -> (off + n <= length out)%nat ->
  let c := g_fips_drbg (w_rand w) in
  let '(b, s') := SP800_90A.Generate (piece n) None s in
  exists c', qudo_ctrdrbg_generate I (Some c) (Some (sub out off (piece n))) (piece n) None 0 = (0, Some c', Some b) /\ drbg_rep I c' s'.
Proof.
  intros Hs Hn Ho c. destruct (piece_bounds n Hn) as [Hp1 Hp2].
  destruct (generate_rep I HI c s (sub out off (piece n)) (piece n) None (se_rep _ _ Hs) Hp2) as (c' & Hg & Hr).
  - rewrite length_sub by lia. lia.
  - constructor.
  - cbn. lia.
  - cbn [nonempty] in *. destruct (SP800_90A.Generate (piece n) None s) as [b s'] eqn:HG. cbn [fst snd] in *. exists c'.
    rewrite drop_ge, app_nil_r in Hg by (rewrite length_sub; lia). now split.
Qed.

Lemma blit_step (out : bytes) off b : (off + length b <= length out)%nat ->
  blit out off b = (take off out ++ b) ++ drop (off + length b) out.
Proof. intros H. unfold blit. now rewrite <- app_assoc. Qed.

Definition rand_unlocked (w : World) : World := on_rand (set_g_fips_rand_lock (Some Unlocked)) w.
Definition rand_locked (w : World) : World := on_rand (set_g_fips_rand_lock (Some WriteLocked)) w.

(** What the generate loop leaves: everything served, or everything up to the first reseed for which the platform
    delivers no entropy; in both cases with the lock released and nothing else written. *)
Definition loop_post (w : World) (s : SP800_90A.state) (off n : nat) (out : bytes) (r : Z * bytes) (w' : World) : Prop :=
  (fst r = 0 /\ exists b w1 s', served w s n b w1 s' /\ w' = rand_unlocked w1 /\ snd r = take off out ++ b ++ drop (off + n) out) \/
  (fst r = -1 /\ exists m b w1 s1 w2, (m < n)%nat /\ served w s m b w1 s1 /\ RESEED_INTERVAL <= next_count w1 /\
     platform_entropy FIPS_RAND_SEEDLEN (counted w1) = Some (None, w2) /\ w' = rand_unlocked w2 /\
     snd r = take off out ++ b ++ drop (off + m) out).

(** A piece written at [off], then the rest after it. *)
Lemma blit_then (out b bs : bytes) off p m : length b = p -> (off + p + m <= length out)%nat ->
  take (off + p) (blit out off b) ++ bs ++ drop (off + p + m) (blit out off b) = take off out ++ (b ++ bs) ++ drop (off + (p + m)) out.
Proof.
  intros Hb Ho. rewrite blit_step by lia. rewrite take_app_length' by (rewrite length_app, length_take; lia).
  rewrite drop_app_ge by (rewrite length_app, length_take; lia). rewrite length_app, length_take, drop_drop, <- !app_assoc. do 4 f_equal. lia.
Qed.

Lemma loop_post_app w w2 s s1 off n out b r w' :
  (0 < n)%nat -> (off + n <= length out)%nat -> length b = piece n ->
  (forall m bs w1 s', (m <= n - piece n)%nat -> served w2 s1 m bs w1 s' -> served w s (piece n + m) (b ++ bs) w1 s') ->
  loop_post w2 s1 (off + piece n) (n - piece n) (blit out off b) r w' -> loop_post w s off n out r w'.
Proof.
  intros Hn Ho Hb Hserve Hr. destruct (piece_bounds n Hn) as [Hp1 Hp2].
  destruct Hr as [(Hrc & bs & w1 & s' & Hsv & Hw & Hout) | (Hrc & m & bs & w1 & s2 & w3 & Hm & Hsv & Hdue & He & Hw & Hout)].
  - left. split; [exact Hrc |]. exists (b ++ bs), w1, s'. apply Hserve in Hsv; [| lia]. replace (piece n + (n - piece n))%nat with n in Hsv by lia.
    split; [exact Hsv |]. split; [exact Hw |]. rewrite Hout, (blit_then out b bs off (piece n)) by lia. do 3 f_equal. lia.
  - right. split; [exact Hrc |]. exists (piece n + m)%nat, (b ++ bs), w1, s2, w3. split; [lia |]. split; [apply Hserve; [lia | exact Hsv] |].
    split; [exact Hdue |]. split; [exact He |]. split; [exact Hw |]. rewrite Hout. apply blit_then; [exact Hb | lia].
Qed.

Lemma rand_loop_wp fuel off n (out : bytes) w s : (n < fuel)%nat -> (off + n <= length out)%nat ->
  g_fips_rand_lock (w_rand w) = Some WriteLocked -> lock_free (g_audit_lock (w_audit w)) -> seeded w s ->
  wp (rand_loop I fuel off n out) (loop_post w s off n out) w.
Proof.
  revert off n out w s. induction fuel as [|fuel IH]; intros off n out w s Hf Ho Hl Ha Hs; [lia |].
  cbn [rand_loop]. destruct (Nat.ltb_spec 0 n) as [Hn | Hz].
  2:{ replace n with 0%nat by lia. wp_step. apply unlock_rand; [exact Hl |]. wp_step. left. split; [reflexivity |]. exists [], w, s.
      split; [apply served_done |]. split; [reflexivity |]. cbn [snd app]. now rewrite Nat.add_0_r, take_drop. }
  fold (piece n). destruct (piece_bounds n Hn) as [Hp1 Hp2].
  assert (Hgo : forall w1 s1, seeded w1 s1 -> lock_free (g_audit_lock (w_audit w1)) -> g_fips_rand_lock (w_rand w1) = Some WriteLocked ->
    (forall b s2 c m bs w' s', SP800_90A.Generate (piece n) None s1 = (b, s2) -> drbg_rep I c s2 -> (m <= n - piece n)%nat ->
       served (on_rand (set_g_fips_drbg c) w1) s2 m bs w' s' -> served w s (piece n + m) (b ++ bs) w' s') ->
    wp (c ← gets (fun w => g_fips_drbg (w_rand w));
        let '(rc, c', o) := qudo_ctrdrbg_generate I (Some c) (Some (sub out off (piece n))) (piece n) None 0 in
        _ ← modify (on_rand (set_g_fips_drbg (default c c')));
        let out := blit out off (default [] o) in
        if negb (rc =? 0) then _ ← qudo_rwlock_unlock fips_rand_lock; mret (-1, out)
        else rand_loop I fuel (off + piece n) (n - piece n) out) (loop_post w s off n out) w1).
  { intros w1 s1 Hs1 Ha1 Hl1 Hserve. wp_step. wp_step. pose proof (generate_piece w1 s1 off n out Hs1 Hn Ho) as Hg. cbv zeta in Hg.
    destruct (SP800_90A.Generate (piece n) None s1) as [b s2] eqn:HG. destruct Hg as (c' & -> & Hr).
    destruct (generate_key s1 n b s2 (seeded_key _ _ Hs1) Hn HG) as [Hb Hk].
    wp_step. wp_step. change (negb (0 =? 0)) with false. cbv iota. cbn [default].
    destruct (store_drbg w1 c' s2 Hr Hk) as [_ Hs2].
    eapply wp_mono; [| apply (IH (off + piece n)%nat (n - piece n)%nat (blit out off b) _ s2); [lia | rewrite length_blit; lia | exact Hl1 | exact Ha1 | exact Hs2]].
    cbv beta. intros r w' Hpost. eapply (loop_post_app w _ s s2 off n out b); eauto. }
  wp_step. eapply wp_mono; [| apply (reseed_if_due_wp w s); assumption]. cbv beta.
  intros rc w1 [(-> & Hlt & ->) | [(-> & Hdue & fresh & w2 & c & He & Hrep & ->) | (-> & Hdue & w2 & He & ->)]].
  - change (negb (0 =? 0)) with false. cbv iota. apply (Hgo (counted w) s); [now apply (seeded_frame w) | exact Ha | exact Hl |].
    intros b s2 c m bs w' s' HG Hr Hm Hsv. eapply served_piece; rewrite ?piece_prefix by assumption; eauto; [lia |].
    replace (piece n + m - piece n)%nat with m by lia. exact Hsv.
  - change (negb (0 =? 0)) with false. cbv iota. destruct (entropy_run (counted w) _ _ Ha He) as [Hco Hfr]. destruct (Hfr fresh eq_refl) as (Hfl & _ & _).
    apply (Hgo _ (SP800_90A.Reseed fresh s)).
    + destruct (store_drbg w2 c _ Hrep (reseed_key s fresh (seeded_key _ _ Hs) Hfl)) as [_ Hs2]. revert Hs2. now apply seeded_frame.
    + change (lock_free (g_audit_lock (w_audit w2))). rewrite (collects_audit _ _ Hco). exact Ha.
    + change (g_fips_rand_lock (w_rand w2) = Some WriteLocked). rewrite (co_lock _ _ Hco). exact Hl.
    + intros b s2 c2 m bs w' s' HG Hr Hm Hsv. eapply served_reseed; rewrite ?piece_prefix by assumption; eauto; [lia |].
      replace (piece n + m - piece n)%nat with m by lia. exact Hsv.
  - change (negb (-1 =? 0)) with true. cbv iota. wp_step. right. split; [reflexivity |]. exists 0%nat, [], w, s, w2.
    split; [exact Hn |]. split; [apply served_done |]. split; [exact Hdue |]. split; [exact He |]. split; [reflexivity |].
    cbn [snd app]. now rewrite Nat.add_0_r, take_drop.
Qed.

(** *** Entry points *)

(** A state in which the module's internal functions may be called. *)
Record callable (w : World) : Prop := {
  ca_audit : lock_free (g_audit_lock (w_audit w));
  ca_rand : lock_free (g_fips_rand_lock (w_rand w));
  ca_gate : g_module_state (w_core w) = QUDO_PQC_STATE_ERROR -> lock_free (g_self_test_lock (w_core w));
  ca_wf : rand_wf (w_rand w) }.

(** What an internal function leaves. *)
Definition well_behaved (w w' : World) : Prop := evolves w w' /\ lock_free (g_fips_rand_lock (w_rand w')).

Definition in_service (w : World) : bool :=
  (g_module_state (w_core w) =? QUDO_PQC_STATE_RUNNING) || (g_module_state (w_core w) =? QUDO_PQC_STATE_SELFTEST).

Definition host_provider (w : World) : option Z :=
  if QUDO_PQC_USE_HOST_DRBG then g_host_rand_provider (w_rand w) else None.

Lemma gate_logs w : callable w -> logs qudo_pqc_is_running_or_selftest w (in_service w).
Proof. intros [Ha _ Hg _]. now apply logs_gate. Qed.

(** In service the gate writes nothing. *)
Lemma gate_open w : in_service w = true -> qudo_pqc_is_running_or_selftest w = Some (true, w).
Proof.
  intros Hsv. unfold qudo_pqc_is_running_or_selftest, get_state, mbind, M_bind, gets, mret, M_ret. fold (in_service w). rewrite Hsv.
  unfold in_service in Hsv. destruct (Z.eqb_spec (g_module_state (w_core w)) QUDO_PQC_STATE_ERROR) as [He | _]; [| reflexivity].
  rewrite He in Hsv. discriminate.
Qed.

(** A seeded generator serves from its own state. *)
Lemma rand_bytes_serve w s (o : bytes) n : callable w -> (n <= length o)%nat ->
  in_service w = true -> host_provider w = None -> g_fips_rand_ready (w_rand w) <> 0 -> n <> 0%nat ->
  g_health_failed (w_rand w) = 0 -> g_fips_rand_lock (w_rand w) = Some Unlocked -> seeded w s ->
  wp (qudo_fips_rand_bytes I (Some o) n)
     (fun r w' => exists o', snd r = Some o' /\ loop_post (rand_locked w) s 0 n o (fst r, o') w') w.
Proof.
  intros Hca Hn Hsv Hhost Hready Hn0 Hh Hl Hs. unfold qudo_fips_rand_bytes. wp_step.
  eapply wp_eq; [now apply gate_open |]. cbn [negb]. wp_step. wp_step. fold (host_provider w). rewrite Hhost.
  wp_step. wp_step. rewrite (proj2 (Z.eqb_neq _ _) Hready), (proj2 (Nat.eqb_neq _ _) Hn0). wp_step. wp_step. rewrite Hh. cbn [Z.eqb negb].
  wp_step. apply wrlock_rand; [exact Hl |]. change (1 =? 0) with false. cbv iota. fold (rand_locked w).
  wp_step. eapply wp_mono; [| apply (rand_loop_wp (S n) 0 n o (rand_locked w) s); [lia | exact Hn | reflexivity | apply Hca |]].
  2:{ now apply (seeded_frame w). }
  cbv beta. intros r w' Hr. wp_step. exists (snd r). split; [reflexivity |]. now destruct r.
Qed.

(** Served or not, the caller's buffer keeps its length and the module is left as its callers expect. *)
Lemma loop_post_ok w s n (o : bytes) r w' : callable w -> seeded w s -> (n <= length o)%nat -> loop_post (rand_locked w) s 0 n o r w' ->
  well_behaved w w' /\ (fst r = 0 \/ fst r = -1) /\ length (snd r) = length o.
Proof.
  intros Hca Hs Hn Hp. assert (Hs1 : seeded (rand_locked w) s) by now apply (seeded_frame w).
  assert (Hend : forall w1, evolves (rand_locked w) w1 -> well_behaved w (rand_unlocked w1)).
  { intros w1 He. split; [| now right]. etransitivity; [apply (evolves_rand_lock (Some WriteLocked)) |].
    etransitivity; [exact He | apply (evolves_rand_lock (Some Unlocked))]. }
  destruct Hp as [(Hrc & b & w1 & s' & Hsv & -> & Hout) | (Hrc & m & b & w1 & s1 & w2 & Hm & Hsv & _ & He & -> & Hout)];
    destruct (served_ok _ _ _ _ _ _ Hsv (ca_audit _ Hca) Hs1) as [[Hev _ _] Hb]; rewrite Hout; cbn [app]; rewrite !length_app, length_drop, length_take.
  - split; [now apply Hend |]. split; [now left | lia].
  - split; [| split; [now right | lia]]. apply Hend. etransitivity; [exact Hev |]. etransitivity; [apply evolves_count |].
    destruct (entropy_run (counted w1) _ _ ltac:(change (lock_free (g_audit_lock (w_audit w1))); rewrite (ev_audit _ _ Hev); apply Hca) He) as [Hco _]. apply Hco.
Qed.

(** Every refusal before the generator is touched only writes the log. *)
Definition rand_refuses (w : World) (out : option bytes) (n : nat) : bool :=
  negb (in_service w) ||
  match host_provider w with
  | Some _ => negb (not_null out)
  | None => negb (not_null out) || (g_fips_rand_ready (w_rand w) =? 0) ||
            (negb (Nat.eqb n 0) && (negb (g_health_failed (w_rand w) =? 0) || negb (not_null (g_fips_rand_lock (w_rand w)))))
  end.

Lemma rand_bytes_refused w out n : callable w -> rand_refuses w out n = true ->
  logs (qudo_fips_rand_bytes I out n) w (-1, out).
Proof.
  intros Hca Hr. unfold qudo_fips_rand_bytes. eapply logs_bind; [now apply gate_logs |]. intros l Hl.
  unfold rand_refuses in Hr. destruct (in_service w); cbn [negb orb] in *; [| apply logs_ret].
  apply logs_gets. fold (host_provider (set_w_log l w)). change (host_provider (set_w_log l w)) with (host_provider w).
  destruct (host_provider w) as [p|].
  - destruct out; [discriminate | apply logs_ret].
  - apply logs_gets. cbn [w_rand set_w_log]. destruct out as [o|]; [| apply logs_ret]. cbn [not_null negb orb] in Hr.
    destruct (g_fips_rand_ready (w_rand w) =? 0); [apply logs_ret |]. cbn [orb] in Hr.
    destruct (Nat.eqb n 0); [discriminate |]. cbn [negb andb] in Hr. apply logs_gets. cbn [w_rand set_w_log].
    destruct (g_health_failed (w_rand w) =? 0); cbn [negb orb] in *; [| apply logs_ret].
    destruct (g_fips_rand_lock (w_rand w)) as [lk|] eqn:Hlk; [discriminate |].
    eapply (logs_bind _ _ _ 0); [| intros; apply logs_ret].
    exists l. split; [| apply rtc_refl]. run_step. now rewrite Hlk.
Qed.

Lemma lock_free_cases (l : QUDO_RWLOCK) : lock_free l -> not_null l = true -> l = Some Unlocked.
Proof. intros [-> | ->]; [discriminate | reflexivity]. Qed.

(** For every caller inside the module. *)
Lemma rand_bytes_wp w (o : bytes) n : callable w -> (n <= length o)%nat ->
  wp (qudo_fips_rand_bytes I (Some o) n)
     (fun r w' => well_behaved w w' /\ (fst r = 0 \/ fst r = -1) /\ exists o', snd r = Some o' /\ length o' = length o) w.
Proof.
  intros Hca Hn. destruct (rand_refuses w (Some o) n) eqn:Hr.
  { eapply logs_wp; [now apply rand_bytes_refused |]. intros l Hl.
    split; [split; [now apply evolves_log | apply Hca] |]. split; [now right | now exists o]. }
  unfold rand_refuses in Hr. apply orb_false_iff in Hr as [Hsv Hr]. apply negb_false_iff in Hsv.
  assert (Hzero : forall l, log_ext (w_log w) l -> well_behaved w (set_w_log l w))
    by (intros l Hl; split; [now apply evolves_log | apply Hca]).
  destruct (host_provider w) as [p|] eqn:Hh.
  - unfold qudo_fips_rand_bytes. wp_step. eapply logs_wp; [now apply gate_logs |]. intros l Hl.
    rewrite Hsv. cbn [negb]. wp_step. wp_step. fold (host_provider (set_w_log l w)).
    change (host_provider (set_w_log l w)) with (host_provider w). rewrite Hh.
    destruct (Nat.eqb n 0); [wp_step; split; [now apply Hzero |]; split; [now left | now exists o] |].
    do 4 wp_step.
    assert (Hwb : well_behaved w (on_env (set_n_host (S (n_host (w_env (set_w_log l w))))) (set_w_log l w))).
    { split; [| apply Hca]. etransitivity; [now apply (evolves_log w l) | apply evolves_env]. }
    destruct (env_host_rand p _ n) as [b|] eqn:Hb; wp_step.
    + split; [exact Hwb |]. split; [now left |]. eexists. split; [reflexivity |].
      apply env_host_rand_ok in Hb as [Hb _]. rewrite length_blit; lia.
    + split; [exact Hwb |]. split; [now right | now exists o].
  - cbn [not_null negb orb] in Hr. apply orb_false_iff in Hr as [Hready Hr]. apply Z.eqb_neq in Hready.
    destruct (Nat.eqb_spec n 0) as [-> | Hn0]; cbn [negb andb] in Hr.
    + unfold qudo_fips_rand_bytes. wp_step. eapply logs_wp; [now apply gate_logs |]. intros l Hl.
      rewrite Hsv. cbn [negb]. wp_step. wp_step. fold (host_provider (set_w_log l w)).
      change (host_provider (set_w_log l w)) with (host_provider w). rewrite Hh. wp_step. wp_step.
      cbn [w_rand set_w_log]. rewrite (proj2 (Z.eqb_neq _ _) Hready). cbn [Nat.eqb]. wp_step.
      split; [now apply Hzero |]. split; [now left | now exists o].
    + apply orb_false_iff in Hr as [Hf Hlk]. apply negb_false_iff in Hf, Hlk. apply Z.eqb_eq in Hf.
      destruct (rw_ready _ (ca_wf _ Hca) Hready) as [Hlen [s Hs]].
      assert (Hse : seeded w s) by now constructor.
      eapply wp_mono; [| apply (rand_bytes_serve w s o n); try assumption; apply lock_free_cases; [apply Hca | exact Hlk]].
      cbv beta. intros r w' (o' & Ho & Hp). destruct (loop_post_ok w s n o _ w' Hca Hse Hn Hp) as (H1 & H2 & H3). eauto.
Qed.

Lemma seed_from_platform_wp w : callable w ->
  wp (qudo_fips_rand_seed_from_platform I)
     (fun rc w' => well_behaved w w' /\ w_post w' = w_post w /\
        (rc = 0 -> w_core w' = w_core w /\ g_fips_rand_ready (w_rand w') = 1 /\ g_fips_rand_gen_count (w_rand w') = 0 /\
           exists e, length e = FIPS_RAND_SEEDLEN /\ are_bytes e /\
             drbg_rep I (g_fips_drbg (w_rand w')) (SP800_90A.Instantiate 32 e))) w.
Proof.
  intros Hca. unfold qudo_fips_rand_seed_from_platform. wp_step.
  eapply wp_mono; [| apply platform_entropy_wp; apply Hca]. cbv beta. intros e w1 [Hco He].
  assert (Hl1 : lock_free (g_fips_rand_lock (w_rand w1))) by (rewrite (co_lock _ _ Hco); apply Hca).
  destruct e as [e|]; [| wp_step; split; [split; [apply Hco | exact Hl1] |]; split; [apply Hco | lia]].
  destruct (He e eq_refl) as (Hlen & Hb & Hk). eapply wp_mono; [| apply rand_init_wp; eassumption].
  cbv beta. intros rc w2 (Hev & Hl & Hcore & Hpost & Hok).
  assert (Hwf : rand_wf (w_rand w1)) by (apply (ev_rand _ _ (co_ev _ _ Hco)), Hca).
  split; [split; [etransitivity; [apply Hco | now apply Hev] | exact Hl] |].
  split; [rewrite Hpost; apply Hco |]. intros Hrc. destruct (Hok Hwf Hrc) as (H1 & H2 & H3).
  split; [congruence |]. split; [exact H1 |]. split; [exact H2 |]. exists e. split; [exact Hlen |]. split; [exact Hb |].
  now rewrite take_ge in H3 by (rewrite Hlen; reflexivity).
Qed.

Lemma rand_reseed_wp w entropy n : callable w -> are_bytes entropy -> length entropy = n ->
  wp (qudo_fips_rand_reseed I (Some entropy) n) (fun rc w' => well_behaved w w' /\ (rc = 0 \/ rc = -1)) w.
Proof.
  intros Hca Hb Hn. unfold qudo_fips_rand_reseed. wp_step. eapply logs_wp; [now apply gate_logs |]. intros l Hl.
  set (w1 := set_w_log l w).
  assert (H1 : well_behaved w w1) by (split; [now apply evolves_log | apply Hca]).
  destruct (in_service w); cbn [negb]; [| wp_step; auto]. wp_step. wp_step.
  destruct (Z.eqb_spec (g_fips_rand_ready (w_rand w1)) 0) as [Hz | Hready]; [wp_step; auto |].
  destruct (Nat.ltb_spec n FIPS_RAND_SEEDLEN) as [Hlt | Hge]; [wp_step; auto |].
  destruct (ca_rand _ Hca) as [Hlk | Hlk].
  { wp_step. apply wrlock_rand_null; [exact Hlk |]. change (0 =? 0) with true. cbv iota. wp_step. auto. }
  wp_step. apply wrlock_rand; [exact Hlk |]. change (1 =? 0) with false. cbv iota. wp_step. wp_step.
  set (w2 := on_rand (set_g_fips_rand_lock (Some WriteLocked)) w1).
  destruct (rw_ready _ (ca_wf _ Hca) Hready) as [Hsl [s Hs]].
  destruct (reseed_rep I HI (g_fips_drbg (w_rand w2)) s (take FIPS_RAND_SEEDLEN entropy)) as (c' & Hr & Hrep).
  - exact Hs.
  - now apply Forall_take.
  - rewrite length_take. etransitivity; [| symmetry; exact Hsl]. lia.
  - rewrite length_take in Hr. replace (FIPS_RAND_SEEDLEN `min` length entropy)%nat with FIPS_RAND_SEEDLEN in Hr by lia.
    match goal with |- context [qudo_ctrdrbg_reseed I ?x ?y ?z] =>
      replace (qudo_ctrdrbg_reseed I x y z) with (0, Some c') by (symmetry; exact Hr) end.
    wp_step. wp_step. change (negb (0 =? 0)) with false. cbv iota.
    do 3 wp_step. apply unlock_rand; [reflexivity |]. wp_step. split; [split; [| now right] | now left].
    etransitivity; [apply H1 |]. etransitivity; [apply (evolves_rand_lock (Some WriteLocked)) |].
    etransitivity; [| apply (evolves_rand_lock (Some Unlocked))]. etransitivity; [| apply (evolves_count 0)].
    apply (store_drbg w2 c' _ Hrep). pose proof (rep_seedlen I _ _ Hs) as Hk.
    assert (Hkey : length (SP800_90A.Key s) = 32%nat).
    { pose proof (eq_trans (eq_sym Hk) Hsl) as H. unfold FIPS_RAND_SEEDLEN in H. lia. }
    unfold SP800_90A.Reseed. rewrite update_seedlen; [exact Hkey |]. rewrite Hkey, length_take.
    unfold FIPS_RAND_SEEDLEN in *. lia.
Qed.

(** Clean-up wipes the generator: nothing of the DRBG state or the health tests is left. *)
Definition wiped (r : rand_t) : rand_t :=
  mk_rand drbg_cleared 0 0 0 0 0 0 0 0 0 (g_fips_rand_lock r) (g_fips_rand_lock_once r) (g_host_rand_provider r).

Lemma rand_cleanup_run w : lock_free (g_fips_rand_lock (w_rand w)) ->
  qudo_fips_rand_cleanup w
  = Some (tt, if g_fips_rand_ready (w_rand w) =? 0 then w else on_rand wiped w).
Proof.
  intros Hl. destruct w as [c a l [d rdy cnt st ra rb aa ab ai hf lk on hp] p m e]. cbn in Hl.
  unfold qudo_fips_rand_cleanup. cbn [w_rand g_fips_rand_ready].
  unfold mbind at 1, M_bind at 1, gets at 1. cbn [w_rand g_fips_rand_ready].
  destruct (rdy =? 0); [reflexivity |]. cbn [negb]. destruct Hl as [-> | ->]; run_step; reflexivity.
Qed.

Lemma rand_dep_cleanup_run w : lock_free (g_fips_rand_lock (w_rand w)) ->
  qudo_fips_rand_dep_cleanup w
  = Some (tt, on_rand (fun r => set_g_fips_rand_lock_once false (set_g_fips_rand_lock None r)) w).
Proof.
  intros Hl. destruct w as [c a l [d rdy cnt st ra rb aa ab ai hf lk on hp] p m e]. cbn in Hl.
  destruct Hl as [-> | ->]; unfold qudo_fips_rand_dep_cleanup; run_step; reflexivity.
Qed.
End Evolution.

(** ** The generator's promises *)

(** C6. Random bits: a running (or self-testing) module with a seeded, healthy generator of its own serves any
    non-empty request into the caller's buffer.  The call finishes.  Either it returns 0: the buffer's first [n] bytes are the
    concatenation of SP 800-90A Generate outputs of at most 65536 bytes each, with a Reseed from the 48 bytes that
    the platform's entropy source delivers at that moment whenever the interval of 2^20 pieces is over, and the module is left
    exactly as [served] says: the DRBG's context and its counter have moved on, and nothing else has changed but
    what reading the platform's source changes.  Or it returns -1: the first [m] bytes were served like that, then a reseed was due, the
    platform's source delivered nothing, and the call stopped there with the rest of the buffer untouched.  In both cases the lock is free again. *)
Theorem rand_bytes_refines {E : Env} {HE : EnvOk E} {B : BuildConfig} (I : AesImpl) {HI : AesImplOk I}
  (w : World) (s : SP800_90A.state) (o : bytes) (n : nat)
  (Hca : callable I w) (Hn : (0 < n <= length o)%nat)
  (Hsv : in_service w = true) (Hhost : host_provider w = None)
  (Hready : g_fips_rand_ready (w_rand w) <> 0) (Hh : g_health_failed (w_rand w) = 0)
  (Hl : g_fips_rand_lock (w_rand w) = Some Unlocked) (Hs : seeded I w s) :
  exists rc o' w', qudo_fips_rand_bytes I (Some o) n w = Some ((rc, Some o'), w') /\
    ((rc = 0 /\ exists b w1 s', served I (rand_locked w) s n b w1 s' /\ length b = n /\
        w' = rand_unlocked w1 /\ seeded I w' s' /\ o' = b ++ drop n o) \/
     (rc = -1 /\ exists m b w1 s1 w2, (m < n)%nat /\ served I (rand_locked w) s m b w1 s1 /\ length b = m /\
        RESEED_INTERVAL <= next_count w1 /\ platform_entropy FIPS_RAND_SEEDLEN (counted w1) = Some (None, w2) /\
        w' = rand_unlocked w2 /\ o' = b ++ drop m o)).
Proof.
  destruct (wp_run _ _ _ (rand_bytes_serve I w s o n Hca (proj2 Hn) Hsv Hhost Hready ltac:(lia) Hh Hl Hs))
    as ([rc ob] & w' & Hrun & o' & Ho & Hcase).
  cbn [fst snd] in *. subst ob. exists rc, o', w'. split; [exact Hrun |].
  assert (Hs1 : seeded I (rand_locked w) s) by now apply (seeded_frame I w).
  destruct Hcase as [(Hrc & b & w1 & s' & Hsvd & Hw & Hout) | (Hrc & m & b & w1 & s1 & w2 & Hm & Hsvd & Hdue & He & Hw & Hout)];
    destruct (served_ok I _ _ _ _ _ _ Hsvd (ca_audit _ _ Hca) Hs1) as [[_ Hse _] Hb].
  - left. split; [exact Hrc |]. exists b, w1, s'. split; [exact Hsvd |]. split; [exact Hb |]. split; [exact Hw |]. split; [| exact Hout].
    rewrite Hw. now apply (seeded_frame I w1).
  - right. split; [exact Hrc |]. exists m, b, w1, s1, w2. auto 10.
Qed.

(** A seeded generator in a running module, for the examples. *)
Definition demo_config : BuildConfig := {|
  QUDO_FIPS_MODULE := true; QUDO_PQC_DISABLE_EMBEDDED_HMAC := true; QUDO_PQC_USE_HOST_DRBG := false |}.
Definition demo_entropy : bytes := map Z.of_nat (seq 0 48).
Definition demo_drbg : qudo_ctrdrbg_ctx_t :=
  default drbg_cleared (snd (qudo_ctrdrbg_init AesCt (Some drbg_cleared) 32 (Some demo_entropy) 48)).
Definition demo_world : World :=
  on_core (set_g_module_state QUDO_PQC_STATE_RUNNING)
    (on_rand (fun r => set_g_fips_drbg demo_drbg (set_g_fips_rand_ready 1 (set_g_fips_rand_lock (Some Unlocked) r)))
       static_world).

Lemma demo_rep : drbg_rep AesCt demo_drbg (SP800_90A.Instantiate 32 demo_entropy) /\
  db_seedlen demo_drbg = FIPS_RAND_SEEDLEN.
Proof.
  destruct (init_rep AesCt AesCtOk drbg_cleared 32 demo_entropy) as (c' & Hi & Hr & Hs).
  - right; right; reflexivity.
  - apply is_u8_dec_list. vm_compute. reflexivity.
  - reflexivity.
  - reflexivity.
  - unfold demo_drbg. change (length demo_entropy) with 48%nat in Hi. rewrite Hi. split; [exact Hr | exact Hs].
Qed.

Lemma demo_seeded : seeded AesCt demo_world (SP800_90A.Instantiate 32 demo_entropy).
Proof. constructor; apply demo_rep. Qed.

Lemma demo_callable : callable AesCt demo_world.
Proof.
  constructor; [now left | now right | discriminate |]. constructor.
  - apply (k_rk _ _ _ (proj1 (proj1 demo_rep))).
  - intros _. split; [apply demo_rep | eexists; apply demo_rep].
Qed.

Lemma rand_bytes_refines_witness :
  exists o' w', @qudo_fips_rand_bytes plain_env demo_config AesCt (Some (zeros 40)) 33 demo_world = Some ((0, Some o'), w') /\
    exists b w1 s', @served AesCt plain_env (rand_locked demo_world) (SP800_90A.Instantiate 32 demo_entropy) 33 b w1 s' /\
      w' = rand_unlocked w1 /\ g_fips_rand_gen_count (w_rand w') = 1 /\ o' = b ++ zeros 7.
Proof.
  destruct (@rand_bytes_refines plain_env plain_env_ok demo_config AesCt AesCtOk demo_world
              (SP800_90A.Instantiate 32 demo_entropy) (zeros 40) 33 demo_callable)
    as (rc & o' & w' & Hrun & Hcase).
  - rewrite length_zeros. lia.
  - reflexivity.
  - reflexivity.
  - discriminate.
  - reflexivity.
  - reflexivity.
  - exact demo_seeded.
  - assert (H0 : next_count (rand_locked demo_world) = 1) by reflexivity.
    assert (Hstep : forall m b w1 s1, (m <= 33)%nat ->
       @served AesCt plain_env (rand_locked demo_world) (SP800_90A.Instantiate 32 demo_entropy) m b w1 s1 ->
       g_fips_rand_gen_count (w_rand w1) = if Nat.eqb m 0 then 0 else 1).
    { intros m b w1 s1 Hm Hsv. inversion Hsv as [| ? ? ? ? ? ? ? ? ? Hp Hlt HG Hr Hrest | ? ? ? ? ? ? ? ? ? ? ? Hp Hdue]; subst.
      - reflexivity.
      - replace (m - piece m)%nat with 0%nat in Hrest by (unfold piece, QUDO_CTRDRBG_MAX_REQUEST; destruct (Nat.ltb_spec (Z.to_nat 65536) m); lia).
        rewrite (proj2 (Nat.eqb_neq m 0)) by lia. inversion Hrest; [reflexivity | lia | lia].
      - rewrite H0 in Hdue. now exfalso. }
    destruct Hcase as [(-> & b & w1 & s' & Hsv & _ & Hw & _ & Ho) | (_ & m & b & w1 & s1 & w2 & Hm & Hsv & _ & Hdue & _)].
    + exists o', w'. split; [exact Hrun |]. exists b, w1, s'. split; [exact Hsv |]. split; [exact Hw |]. split; [| exact Ho].
      rewrite Hw. exact (Hstep 33%nat b w1 s' (le_n _) Hsv).
    + exfalso. pose proof (Hstep m b w1 s1 ltac:(lia) Hsv) as Hc. unfold next_count in Hdue. rewrite Hc in Hdue.
      destruct (Nat.eqb m 0); now apply Hdue.
Defined.

(** The generator refuses rather than serve bits it should not: outside RUNNING and SELFTEST,
    unseeded, after a health failure, without its lock or without a buffer, the call returns -1, leaves the
    caller's buffer and the whole state as they were, apart from the log.  An empty request to a seeded
    generator is the exception: it succeeds even after a health failure. *)
Theorem rand_bytes_refuses {E : Env} {B : BuildConfig} (I : AesImpl) (w : World) (out : option bytes) (n : nat)
  (Hca : callable I w)
  (Hr : in_service w = false \/ out = None \/
        (host_provider w = None /\
         (g_fips_rand_ready (w_rand w) = 0 \/
          (n <> 0%nat /\ (g_health_failed (w_rand w) <> 0 \/ g_fips_rand_lock (w_rand w) = None))))) :
  exists l, qudo_fips_rand_bytes I out n w = Some ((-1, out), set_w_log l w) /\ log_ext (w_log w) l.
Proof.
  apply rand_bytes_refused; [exact Hca |]. unfold rand_refuses.
  destruct Hr as [-> | [-> | (-> & Hr)]]; [reflexivity | destruct (host_provider w); now rewrite orb_true_r |].
  apply orb_true_iff. right.
  destruct Hr as [-> | [Hn Hr]]; [now rewrite orb_true_r |]. rewrite (proj2 (Nat.eqb_neq _ _) Hn).
  destruct Hr as [Hh | ->]; [rewrite (proj2 (Z.eqb_neq _ _) Hh) |]; rewrite ?orb_true_r; reflexivity.
Qed.

Lemma rand_bytes_refuses_witness :
  exists l, @qudo_fips_rand_bytes plain_env demo_config AesCt (Some [1; 2]) 2
              (on_rand (set_g_health_failed 1) demo_world)
            = Some ((-1, Some [1; 2]), set_w_log l (on_rand (set_g_health_failed 1) demo_world)) /\
    log_ext (w_log (on_rand (set_g_health_failed 1) demo_world)) l.
Proof.
  apply (@rand_bytes_refuses plain_env demo_config AesCt).
  - destruct demo_callable. constructor; auto. apply (rand_wf_frame _ (w_rand demo_world)); auto.
  - right. right. split; [reflexivity |]. right. split; [lia |]. left. discriminate.
Defined.

(** Clean-up of a seeded generator erases the DRBG context and all health-test state, releases
    the lock, and leaves a generator that refuses every request until it is seeded again. *)
Theorem rand_cleanup_wipes {E : Env} {B : BuildConfig} (I : AesImpl) (w : World) (o : bytes) (n : nat)
  (Hca : callable I w) (Hready : g_fips_rand_ready (w_rand w) <> 0) (Hhost : host_provider w = None) :
  exists w' l, qudo_fips_rand_cleanup w = Some (tt, w') /\ w_rand w' = wiped (w_rand w) /\
    w_core w' = w_core w /\ w_log w' = w_log w /\
    qudo_fips_rand_bytes I (Some o) n w' = Some ((-1, Some o), set_w_log l w').
Proof.
  pose proof (rand_cleanup_run w (ca_rand _ _ Hca)) as Hrun.
  rewrite (proj2 (Z.eqb_neq _ _) Hready) in Hrun.
  destruct (rand_bytes_refused I (on_rand wiped w) (Some o) n) as (l & Hl & _).
  - destruct Hca as [H1 H2 H3 H4]. constructor; auto. constructor; [reflexivity |]. intros H. now contradiction H.
  - unfold rand_refuses. change (host_provider (on_rand wiped w)) with (host_provider w). rewrite Hhost.
    cbn. now rewrite orb_true_r.
  - exists (on_rand wiped w), l. auto.
Qed.

Lemma rand_cleanup_wipes_witness :
  exists w' l, qudo_fips_rand_cleanup demo_world = Some (tt, w') /\ w_rand w' = wiped (w_rand demo_world) /\
    w_core w' = w_core demo_world /\ w_log w' = w_log demo_world /\
    @qudo_fips_rand_bytes plain_env demo_config AesCt (Some [7]) 1 w' = Some ((-1, Some [7]), set_w_log l w').
Proof.
  apply (@rand_cleanup_wipes plain_env demo_config AesCt demo_world [7] 1 demo_callable); [discriminate | reflexivity].
Defined.

(** ** Unhealthy entropy *)

Section Unhealthy.
Context {E : Env}.

(** The sizes of the platform reads that one request for a seed makes: the start-up test's, if it has not
    been made yet, then the seed's own. *)
Definition seed_reads (w : World) : list nat :=
  (if g_startup_tested (w_rand w) =? 0 then replicate 16 64%nat else []) ++ [FIPS_RAND_SEEDLEN].

(** The platform answers the next reads, of those sizes, with [bs]. *)
Definition delivers (n : nat) (sizes : list nat) (bs : list bytes) : Prop :=
  (length bs <= length sizes)%nat /\
  forall i, (i < length bs)%nat -> env_getentropy (n + i) (nth i sizes 0%nat) = Some (nth i bs []).

Lemma delivers_cons n k sizes b bs : delivers n (k :: sizes) (b :: bs) -> env_getentropy n k = Some b /\ delivers (S n) sizes bs.
Proof.
  intros [Hl H]. cbn [length] in Hl. split; [specialize (H 0%nat ltac:(cbn; lia)); now rewrite Nat.add_0_r in H |].
  split; [lia |]. intros i Hi. specialize (H (S i) ltac:(cbn; lia)). cbn [nth] in H. now rewrite Nat.add_succ_r in H.
Qed.

(** The module after a failure of the health tests. *)
Record health_error (w : World) : Prop := {
  he_state : g_module_state (w_core w) = QUDO_PQC_STATE_ERROR;
  he_reason : g_error_reason (w_core w) = Some QUDO_ST_TYPE_DRBG_HEALTH;
  he_latch : g_health_failed (w_rand w) = 1 }.

Lemma health_fail_run msg w : lock_free (g_audit_lock (w_audit w)) -> exists w', entropy_health_fail msg w = Some (tt, w') /\ health_error w'.
Proof.
  intros Ha. unfold entropy_health_fail, mbind, M_bind, modify. set (w3 := on_rand (set_g_health_failed 1) w).
  rewrite (audit_log_run QUDO_SEV_FATAL QUDO_ERR_DRBG_HEALTH_FAIL QUDO_AUDIT_COMP_DRBG msg w3 Ha). set (w4 := set_w_log _ w3).
  destruct (set_error_run (Some QUDO_ST_TYPE_DRBG_HEALTH) w4 Ha) as (l' & Hr & _). rewrite Hr. eexists. split; [reflexivity |]. now constructor.
Qed.

Lemma raw_read_run k b w : (0 < k < 256)%nat -> env_getentropy (n_entropy (w_env w)) k = Some b ->
  raw_platform_entropy k w = Some (Some b, on_env (set_n_entropy (S (n_entropy (w_env w)))) w).
Proof.
  intros Hk Hb. unfold raw_platform_entropy. destruct k as [|k]; [lia |]. cbn [raw_loop].
  rewrite (proj2 (Nat.ltb_lt 0 (S k))) by lia. rewrite (proj2 (Nat.ltb_lt (S k) 256)) by lia.
  unfold mbind, M_bind, gets, modify. rewrite Hb, Nat.sub_diag. destruct k; reflexivity.
Qed.

(** The tests have seen the healthy stream [s]. *)
Definition sees (w : World) (s : bytes) : Prop := health_rep (get_health (w_rand w)) s /\ healthy s.

(** One read of [k] bytes and its test: the stream goes on healthy, or the test fails. *)
Lemma read_and_test k b w s : (0 < k < 256)%nat -> env_getentropy (n_entropy (w_env w)) k = Some b -> sees w s ->
  exists w1 ok w2, raw_platform_entropy k w = Some (Some b, w1) /\ continuous_health_test b w1 = Some (ok, w2) /\
    (if ok : bool then healthy (s ++ b) /\ sees w2 (s ++ b) else ~ healthy (s ++ b)) /\
    n_entropy (w_env w2) = S (n_entropy (w_env w)) /\ w_audit w2 = w_audit w /\
    g_startup_tested (w_rand w2) = g_startup_tested (w_rand w) /\ g_health_failed (w_rand w2) = g_health_failed (w_rand w).
Proof.
  intros Hk Hb [Hrep Hs]. rewrite (raw_read_run k b w Hk Hb). set (w1 := on_env _ w).
  pose proof (health_loop_rep _ s b Hrep Hs) as Hh. destruct (health_loop (get_health (w_rand w)) b) as [ok h] eqn:Hloop. cbn [fst snd] in Hh.
  exists w1, ok, (on_rand (put_health h) w1). split; [reflexivity |]. split.
  { unfold continuous_health_test, mbind, M_bind, gets, modify, mret, M_ret.
    change (get_health (w_rand w1)) with (get_health (w_rand w)). now rewrite Hloop. }
  split; [| auto]. destruct ok; [| exact Hh].
  destruct Hh as [Hh1 Hh2]. split; [exact Hh1 |]. split; [| exact Hh1]. destruct h. exact Hh2.
Qed.

(** The start-up test over [k] reads of 64 bytes. *)
Lemma startup_unhealthy k : forall fuel w s bs, (k <= fuel)%nat -> lock_free (g_audit_lock (w_audit w)) -> sees w s ->
  delivers (n_entropy (w_env w)) (replicate k 64%nat ++ [FIPS_RAND_SEEDLEN]) bs -> ~ healthy (s ++ concat bs) ->
  (exists w', startup_loop fuel (64 * k) w = Some (-1, w') /\ health_error w') \/
  (exists w' b s', startup_loop fuel (64 * k) w = Some (0, w') /\ lock_free (g_audit_lock (w_audit w')) /\ sees w' s' /\
     env_getentropy (n_entropy (w_env w')) FIPS_RAND_SEEDLEN = Some b /\ ~ healthy (s' ++ b)).
Proof.
  induction k as [|k IH]; intros fuel w s bs Hf Ha Hs Hd Hbad; (destruct bs as [|b bs]; [cbn [concat] in Hbad; rewrite app_nil_r in Hbad; now destruct (Hbad (proj2 Hs)) |]).
  - right. exists w, b, s. cbn [replicate app] in Hd. destruct (delivers_cons _ _ _ _ _ Hd) as [Hb [Hl _]]. cbn [length] in Hl.
    destruct bs; [| cbn [length] in Hl; lia]. cbn [concat] in Hbad. rewrite app_nil_r in Hbad. split; [destruct fuel; reflexivity | auto].
  - destruct fuel as [|fuel]; [lia |]. cbn [replicate app] in Hd. destruct (delivers_cons _ _ _ _ _ Hd) as [Hb Hd'].
    cbn [startup_loop]. rewrite (proj2 (Nat.ltb_lt 0 (64 * S k))), (proj2 (Nat.ltb_ge (64 * S k) 64)) by lia.
    destruct (read_and_test 64 b w s ltac:(lia) Hb Hs) as (w1 & ok & w2 & Hr & Ht & Hok & Hn & Hau & _).
    unfold mbind, M_bind. rewrite Hr, Ht. destruct ok; cbn [negb].
    + replace (64 * S k - 64)%nat with (64 * k)%nat by lia. rewrite <- Hau in Ha. cbn [concat] in Hbad. rewrite app_assoc in Hbad.
      rewrite <- Hn in Hd'. destruct Hok as [_ Hs2].
      destruct (IH fuel w2 (s ++ b) bs ltac:(lia) Ha Hs2 Hd' Hbad) as [H | (w' & b' & s' & H)]; [left; exact H | right; eauto].
    + rewrite <- Hau in Ha. destruct (health_fail_run "Startup entropy health test failed (RCT or APT)" w2 Ha) as (w' & Hr' & He). rewrite Hr'. left. eauto.
Qed.

(** The last read of a request, and its test. *)
Lemma seed_read_unhealthy b w s : lock_free (g_audit_lock (w_audit w)) -> sees w s ->
  env_getentropy (n_entropy (w_env w)) FIPS_RAND_SEEDLEN = Some b -> ~ healthy (s ++ b) ->
  exists w', (b ← raw_platform_entropy FIPS_RAND_SEEDLEN;
      match b with
      | None => mret None
      | Some b =>
          ok ← continuous_health_test b;
          if negb ok then _ ← entropy_health_fail "Raw entropy health test failed (RCT or APT)"; mret None else mret (Some b)
      end) w = Some (None, w') /\ health_error w'.
Proof.
  intros Ha Hs Hb Hbad. destruct (read_and_test FIPS_RAND_SEEDLEN b w s ltac:(unfold FIPS_RAND_SEEDLEN; lia) Hb Hs) as (w1 & ok & w2 & Hr & Ht & Hok & _ & Hau & _).
  unfold mbind, M_bind. rewrite Hr, Ht. destruct ok; [destruct Hok as [Hok _]; contradiction |]. cbn [negb]. rewrite <- Hau in Ha.
  destruct (health_fail_run "Raw entropy health test failed (RCT or APT)" w2 Ha) as (w' & Hr' & He). rewrite Hr'. unfold mret, M_ret. eauto.
Qed.

Lemma bind_run {A C} (m : M A) (k : A -> M C) w a w1 : m w = Some (a, w1) -> mbind k m w = k a w1.
Proof. intros H. unfold mbind, M_bind. now rewrite H. Qed.

Lemma unhealthy_request w s bs : lock_free (g_audit_lock (w_audit w)) -> g_health_failed (w_rand w) = 0 -> sees w s ->
  delivers (n_entropy (w_env w)) (seed_reads w) bs -> ~ healthy (s ++ concat bs) ->
  exists w', platform_entropy FIPS_RAND_SEEDLEN w = Some (None, w') /\ health_error w'.
Proof.
  intros Ha Hnf Hs Hd Hbad. unfold platform_entropy, seed_reads in *. rewrite (bind_run _ _ w 0 w) by (unfold gets; now rewrite Hnf). cbn [Z.eqb negb].
  rewrite (bind_run _ _ w (g_startup_tested (w_rand w)) w) by reflexivity. destruct (g_startup_tested (w_rand w) =? 0).
  - assert (Hsz : FIPS_ENTROPY_STARTUP_SAMPLES = (64 * 16)%nat) by reflexivity. unfold startup_health_test. rewrite Hsz.
    destruct (startup_unhealthy 16 (64 * 16) w s bs ltac:(lia) Ha Hs Hd Hbad) as [(w' & Hr & He) | (w' & b & s' & Hr & Ha' & Hs' & Hb & Hbad')].
    + exists w'. split; [| exact He]. rewrite (bind_run _ _ w (-1) w'); [reflexivity |]. now rewrite (bind_run _ _ w (-1) w' Hr).
    + rewrite (bind_run _ _ w 0 (on_rand (set_g_startup_tested 1) w')); [| now rewrite (bind_run _ _ w 0 w' Hr)]. cbn [Z.eqb negb].
      apply (seed_read_unhealthy b _ s'); assumption.
  - rewrite (bind_run _ _ w 0 w) by reflexivity. cbn [Z.eqb negb]. destruct bs as [|b bs].
    { cbn [concat] in Hbad. rewrite app_nil_r in Hbad. now destruct (Hbad (proj2 Hs)). }
    cbn [app] in Hd. destruct (delivers_cons _ _ _ _ _ Hd) as [Hb [Hl _]]. cbn [length] in Hl. destruct bs; [| cbn [length] in Hl; lia].
    cbn [concat] in Hbad. rewrite app_nil_r in Hbad. now apply (seed_read_unhealthy b w s).
Qed.

(** The latch: as long as it is set, nothing is read from the platform. *)
Lemma latched_request w len : g_health_failed (w_rand w) <> 0 -> platform_entropy len w = Some (None, w).
Proof. intros H. unfold platform_entropy, mbind, M_bind, gets. rewrite (proj2 (Z.eqb_neq _ _) H). reflexivity. Qed.
End Unhealthy.

Definition stuck_env : Env := {|
  env_getentropy k n := Some (zeros n);
  env_host_rand := env_host_rand (Env := plain_env);
  env_malloc_ok _ := true; env_rwlock_init_ok _ := true; env_once_ok := true;
  env_st_cb _ _ _ _ _ _ _ d := d;
  env_stack := env_stack (Env := plain_env); env_hmac_ctx := env_hmac_ctx (Env := plain_env) |}.
