(* ===== verification/Algs.v ===== *)
(** * What the module's components promise each other

    A calculus for operations called inside the module: they finish, leave the locks as they found them and change only
    what [evolves] allows.  [open_op] is for callers that do not hold the self-test lock; [safe_op] is for the
    self-tests, which do: an operation run there must not move the module to ERROR and go on as if nothing had happened, since
    the next state query of the same thread would wait for the lock it holds.
    [AlgOps] is the interface of the algorithm wrappers ([mlkem_wrapper.h], [mldsa_wrapper.h],
    [slhdsa_wrapper.h]) that the self-tests use, [AlgOpsOk] what they promise. *)

From stdpp Require Import base list numbers strings relations.
From Stdlib Require Import ZArith Lia.
From S2P Require Import Prelude Aes CtrDrbg World AuditLog State Rand RandService.

#[local] Open Scope Z_scope.

(** ** Safe operations *)

Section Safe.
Context {E : Env} {B : BuildConfig} (I : AesImpl).

Lemma well_behaved_trans w1 w2 w3 : well_behaved I w1 w2 -> well_behaved I w2 w3 -> well_behaved I w1 w3.
Proof. intros [H1 _] [H2 H3]. split; [etransitivity; eassumption | exact H3]. Qed.

(** A state in which any operation may be run: the self-test lock is free, or the module is self-testing. *)
Definition ready (w : World) : Prop :=
  callable I w /\ (lock_free (g_self_test_lock (w_core w)) \/ g_module_state (w_core w) = QUDO_PQC_STATE_SELFTEST).

(** A state in which the module's own logging and bookkeeping may be run, whatever the module's state. *)
Record calm (w : World) : Prop := {
  cm_audit : lock_free (g_audit_lock (w_audit w));
  cm_rand : lock_free (g_fips_rand_lock (w_rand w));
  cm_wf : rand_wf I (w_rand w) }.

Lemma callable_calm w : callable I w -> calm w.
Proof. intros []. now constructor. Qed.

Lemma calm_step w w' : calm w -> well_behaved I w w' -> calm w'.
Proof. intros [H1 H2 H3] [He Hl]. constructor; [rewrite (ev_audit _ _ _ He); exact H1 | exact Hl | now apply (ev_rand _ _ _ He)]. Qed.

(** After a well-behaved operation the caller is again in a state for any operation, unless the module is in
    ERROR with the lock held. *)
Lemma ready_step w w' : calm w -> well_behaved I w w' ->
  lock_free (g_self_test_lock (w_core w')) \/ g_module_state (w_core w') = QUDO_PQC_STATE_SELFTEST -> ready w'.
Proof.
  intros Hc Hw Hr. destruct (calm_step w w' Hc Hw) as [H1 H2 H3]. split; [| exact Hr]. constructor; [exact H1 | exact H2 | | exact H3].
  intros He. destruct Hr as [Hr | Hr]; [exact Hr | rewrite He in Hr; discriminate].
Qed.

(** [m] may be run in any such state; if it leaves a state that is not, its result is one of [F]: a failure. *)
Definition safe_op {A} (F : A -> Prop) (m : M A) : Prop :=
  forall w, ready w -> wp m (fun a w' => well_behaved I w w' /\ (ready w' \/ F a)) w.

(** [m] is bookkeeping: it may be run even after a failure, keeps the module's state, and its result is one of [F]. *)
Definition quiet_op {A} (F : A -> Prop) (m : M A) : Prop :=
  forall w, calm w -> wp m (fun a w' => well_behaved I w w' /\ (ready w -> ready w') /\ F a) w.

(** [m] may be run whenever the self-test lock is free. *)
Definition open_op {A} (m : M A) : Prop :=
  forall w, callable I w -> lock_free (g_self_test_lock (w_core w)) -> wp m (fun _ w' => well_behaved I w w') w.

Lemma quiet_safe {A} (F G : A -> Prop) (m : M A) : quiet_op F m -> safe_op G m.
Proof.
  intros Hm w Hr. eapply wp_mono; [| apply Hm, callable_calm, Hr]. cbv beta. intros a w' (Hw & Hk & _). split; [exact Hw | left; auto].
Qed.

Lemma safe_open {A} (F : A -> Prop) (m : M A) : safe_op F m -> open_op m.
Proof. intros Hm w Hc Hl. eapply wp_mono; [| apply Hm; split; [exact Hc | now left]]. cbv beta. now intros a w' [Hw _]. Qed.

Lemma quiet_mono {A} (F G : A -> Prop) (m : M A) : (forall a, F a -> G a) -> quiet_op F m -> quiet_op G m.
Proof. intros H Hm w Hc. eapply wp_mono; [| now apply Hm]. cbv beta. intros a w' (H1 & H2 & H3). auto. Qed.

Lemma safe_mono {A} (F G : A -> Prop) (m : M A) : (forall a, F a -> G a) -> safe_op F m -> safe_op G m.
Proof. intros H Hm w Hc. eapply wp_mono; [| now apply Hm]. cbv beta. intros a w' [H1 [H2 | H2]]; auto. Qed.

Lemma well_behaved_refl w : calm w -> well_behaved I w w.
Proof. intros []. now split. Qed.

Lemma quiet_ret {A} (F : A -> Prop) (a : A) : F a -> quiet_op F (mret a).
Proof. intros Ha w Hc. apply wp_ret. split; [now apply well_behaved_refl | auto]. Qed.

Lemma quiet_gets {A} (F : A -> Prop) (f : World -> A) : (forall w, F (f w)) -> quiet_op F (gets f).
Proof. intros Ha w Hc. apply wp_gets. split; [now apply well_behaved_refl | auto]. Qed.

Lemma safe_ret {A} (F : A -> Prop) (a : A) : safe_op F (mret a).
Proof. now apply (quiet_safe (fun _ => True)), quiet_ret. Qed.

Lemma quiet_bind {A C} (F : A -> Prop) (G : C -> Prop) (m : M A) (f : A -> M C) :
  quiet_op F m -> (forall a, F a -> quiet_op G (f a)) -> quiet_op G (mbind f m).
Proof.
  intros Hm Hf w Hc. apply wp_bind. eapply wp_mono; [| now apply Hm]. cbv beta. intros a w1 (Hw1 & Hr1 & Ha).
  eapply wp_mono; [| apply (Hf a Ha), (calm_step w); eassumption]. cbv beta. intros c w2 (Hw2 & Hr2 & Hc2).
  split; [eapply well_behaved_trans; eassumption | auto].
Qed.

(** The rule for sequences: after a failure only bookkeeping, and the failure is passed on. *)
Lemma safe_bind {A C} (F : A -> Prop) (G : C -> Prop) (m : M A) (f : A -> M C) :
  safe_op F m -> (forall a, safe_op G (f a)) -> (forall a, F a -> quiet_op G (f a)) -> safe_op G (mbind f m).
Proof.
  intros Hm Hf Hq w Hr. apply wp_bind. eapply wp_mono; [| now apply Hm]. cbv beta. intros a w1 [Hw1 [Hr1 | Ha]].
  - eapply wp_mono; [| now apply Hf]. cbv beta. intros c w2 [Hw2 Hr2]. split; [eapply well_behaved_trans; eassumption | exact Hr2].
  - eapply wp_mono; [| apply (Hq a Ha), (calm_step w); [apply callable_calm, Hr | exact Hw1]]. cbv beta. intros c w2 (Hw2 & _ & Hc2).
    split; [eapply well_behaved_trans; eassumption | now right].
Qed.

Lemma safe_bind_quiet {A C} (F : A -> Prop) (G : C -> Prop) (m : M A) (f : A -> M C) :
  quiet_op F m -> (forall a, F a -> safe_op G (f a)) -> safe_op G (mbind f m).
Proof.
  intros Hm Hf w Hr. apply wp_bind. eapply wp_mono; [| apply Hm, callable_calm, Hr]. cbv beta. intros a w1 (Hw1 & Hr1 & Ha).
  eapply wp_mono; [| apply (Hf a Ha); auto]. cbv beta. intros c w2 [Hw2 Hr2]. split; [eapply well_behaved_trans; eassumption | exact Hr2].
Qed.

Lemma open_bind {A C} (m : M A) (f : A -> M C) : open_op m -> (forall a, open_op (f a)) -> open_op (mbind f m).
Proof.
  intros Hm Hf w Hc Hl. apply wp_bind. eapply wp_mono; [| now apply Hm]. cbv beta. intros a w1 Hw1.
  assert (Hl1 : lock_free (g_self_test_lock (w_core w1))) by (rewrite (evolves_lock _ _ _ (proj1 Hw1)); exact Hl).
  eapply wp_mono; [| apply Hf; [apply (ready_step w); [now apply callable_calm | exact Hw1 | now left] | exact Hl1]].
  cbv beta. intros c w2 Hw2. eapply well_behaved_trans; eassumption.
Qed.

Lemma open_ret {A} (a : A) : open_op (mret a).
Proof. apply (safe_open (fun _ => False)), safe_ret. Qed.

(** *** Bookkeeping *)

(** Operations that only write the log. *)
Lemma quiet_logs {A} (F : A -> Prop) (m : M A) : (forall w, calm w -> exists a, logs m w a /\ F a) -> quiet_op F m.
Proof.
  intros Hm w Hc. destruct (Hm w Hc) as (a & Ha & HF). eapply logs_wp; [exact Ha |]. intros l Hl.
  assert (Hw : well_behaved I w (set_w_log l w)) by (split; [now apply evolves_log | apply Hc]).
  split; [exact Hw |]. split; [| exact HF]. intros [_ Hr]. now apply (ready_step w).
Qed.

Lemma quiet_audit sev code comp det : 0 <= sev <= 3 -> quiet_op (fun _ => True) (qudo_audit_log sev code comp det).
Proof. intros H. apply quiet_logs. intros w Hc. exists tt. split; [| exact Logic.I]. apply logs_audit; [exact H | apply Hc]. Qed.

Lemma quiet_st_begin st ty de : quiet_op (fun _ => True) (qudo_st_begin st ty de).
Proof. apply quiet_logs. intros w _. eexists. split; [apply logs_st_begin | exact Logic.I]. Qed.

Lemma quiet_st_end st r : quiet_op (fun _ => True) (qudo_st_end st r).
Proof. apply quiet_logs. intros w _. eexists. split; [apply logs_st_end | exact Logic.I]. Qed.

Lemma quiet_st_corrupt st d : quiet_op (fun _ => True) (qudo_st_corrupt st d).
Proof.
  apply quiet_logs. intros w _. unfold qudo_st_corrupt. destruct (st_cb st).
  - eexists. split; [| exact Logic.I]. apply logs_gets. eapply logs_bind; [apply logs_st_cb | intros; apply logs_ret].
  - eexists. split; [apply logs_ret | exact Logic.I].
Qed.

Lemma quiet_when (b : bool) m : quiet_op (fun _ => True) m -> quiet_op (fun _ => True) (when b m).
Proof. intros H. destruct b; [exact H | now apply quiet_ret]. Qed.

(** A change of the state that leaves the module's state and the locks alone. *)
Lemma quiet_modify f : (forall w, evolves I w (f w)) -> (forall w, g_fips_rand_lock (w_rand (f w)) = g_fips_rand_lock (w_rand w)) ->
  (forall w, g_module_state (w_core (f w)) = g_module_state (w_core w)) -> quiet_op (fun _ => True) (modify f).
Proof.
  intros He Hl Hs w Hc. apply wp_modify. assert (Hw : well_behaved I w (f w)) by (split; [apply He | rewrite Hl; apply Hc]).
  split; [exact Hw |]. split; [| exact Logic.I]. intros [_ Hr]. apply (ready_step w); [exact Hc | exact Hw |].
  now rewrite Hs, (evolves_lock _ _ _ (He w)).
Qed.

Lemma evolves_cast (f : list Z -> list Z) w : length (f (g_cast_status (w_core w))) = length (g_cast_status (w_core w)) ->
  evolves I w (on_core (fun c => set_g_cast_status (f (g_cast_status c)) c) w).
Proof.
  intros Hlen. constructor; auto; [| apply rtc_refl].
  exists (g_module_state (w_core w)), (g_error_reason (w_core w)), (f (g_cast_status (w_core w))).
  split; [now destruct w as [[]] | auto].
Qed.

Lemma quiet_set_cast i v : quiet_op (fun _ => True) (qudo_pqc_set_cast_status i v).
Proof.
  apply quiet_when, quiet_modify; [| reflexivity | reflexivity]. intros w. apply (evolves_cast (fun c => wr c (Z.to_nat i) v)). apply length_wr.
Qed.

Lemma quiet_malloc n : quiet_op (fun _ => True) (qudo_malloc n).
Proof.
  unfold qudo_malloc. destruct (Nat.eqb n 0); [now apply quiet_ret |]. eapply quiet_bind; [now apply (quiet_gets (fun _ => True)) |]. intros m _.
  eapply quiet_bind; [| intros; now apply quiet_ret]. apply quiet_modify; [intros; apply evolves_env | reflexivity | reflexivity].
Qed.

(** Marking a self-test as passed. *)
Lemma quiet_post (f : post_t -> post_t) :
  (forall p, g_post_drbg_kat_passed p = 1 -> g_post_drbg_kat_passed (f p) = 1) ->
  (forall p, g_post_integrity_passed p = 1 -> g_post_integrity_passed (f p) = 1) ->
  quiet_op (fun _ => True) (modify (on_post f)).
Proof.
  intros H1 H2. apply quiet_modify; [| reflexivity | reflexivity]. intros w. constructor; cbn; auto; [| apply rtc_refl].
  exists (g_module_state (w_core w)), (g_error_reason (w_core w)), (g_cast_status (w_core w)). split; [apply core_id | auto].
Qed.

(** A loop over tests that stops at the first failure. *)
Fixpoint all_tests {T} (body : T -> M bool) (ts : list T) : M Z :=
  match ts with
  | [] => mret 1
  | t :: ts => ok ← body t; if ok : bool then all_tests body ts else mret 0
  end.

Lemma safe_tests {T} (body : T -> M bool) ts : (forall t, safe_op (fun ok => ok = false) (body t)) ->
  safe_op (fun ok => ok = 0) (all_tests body ts).
Proof.
  intros Hb. induction ts as [|t ts IH]; cbn [all_tests]; [apply safe_ret |].
  eapply safe_bind; [apply Hb | intros [|]; [exact IH | apply safe_ret] |]. intros ok ->. now apply quiet_ret.
Qed.
End Safe.

(** ** The algorithm wrappers *)

(** The part of the objects the self-tests read. *)
Record QUDO_KEM := mk_kem {
  kem_algorithm_name : string; kem_security_level : Z;
  kem_length_public_key : nat; kem_length_secret_key : nat;
  kem_length_ciphertext : nat; kem_length_shared_secret : nat }.
Record QUDO_MLDSA := mk_mldsa {
  mldsa_algorithm_name : string;
  mldsa_length_public_key : nat; mldsa_length_secret_key : nat; mldsa_length_signature : nat }.
Record QUDO_SLHDSA := mk_slhdsa {
  slhdsa_algorithm_name : string;
  slhdsa_length_public_key : nat; slhdsa_length_secret_key : nat; slhdsa_length_signature : nat }.

(** Status 0 is success; the other results are the contents of the caller's buffers afterwards. *)
Class AlgOps := {
  QUDO_KEM_new : string -> M (option QUDO_KEM);
  QUDO_KEM_keypair : QUDO_KEM -> M (Z * (bytes * bytes));
  QUDO_KEM_keypair_from_seed : QUDO_KEM -> bytes -> M (Z * (bytes * bytes));
  QUDO_KEM_encaps : QUDO_KEM -> bytes -> M (Z * (bytes * bytes));
  QUDO_KEM_encaps_derand : QUDO_KEM -> bytes -> bytes -> M (Z * (bytes * bytes));
  QUDO_KEM_decaps : QUDO_KEM -> bytes -> bytes -> M (Z * bytes);
  QUDO_MLDSA_new : string -> M (option QUDO_MLDSA);
  QUDO_MLDSA_keypair : QUDO_MLDSA -> M (Z * (bytes * bytes));
  QUDO_MLDSA_keypair_internal : QUDO_MLDSA -> bytes -> M (Z * (bytes * bytes));
  QUDO_MLDSA_sign_internal : QUDO_MLDSA -> bytes -> bytes -> bytes -> bytes -> Z -> M (Z * (bytes * nat));
  QUDO_MLDSA_verify_internal : QUDO_MLDSA -> bytes -> nat -> bytes -> bytes -> bytes -> Z -> M Z;
  QUDO_SLHDSA_new : string -> M (option QUDO_SLHDSA);
  QUDO_SLHDSA_keypair : QUDO_SLHDSA -> M (Z * (bytes * bytes));
  QUDO_SLHDSA_keypair_internal : QUDO_SLHDSA -> bytes -> bytes -> bytes -> M (Z * (bytes * bytes));
  QUDO_SLHDSA_sign : QUDO_SLHDSA -> nat -> bytes -> bytes -> M (Z * (bytes * nat));
  QUDO_SLHDSA_sign_ex : QUDO_SLHDSA -> nat -> bytes -> option bytes -> option bytes -> bytes -> M (Z * (bytes * nat));
  QUDO_SLHDSA_verify : QUDO_SLHDSA -> bytes -> bytes -> nat -> bytes -> M Z }.

(** Failures, as the wrappers report them. *)
Definition null {A} (r : option A) : Prop := r = None.
Definition bad_rc {A} (r : Z * A) : Prop := fst r <> 0.

(** What the self-tests rely on: every call finishes and is well-behaved, and a call that moves a self-testing module to ERROR
    (the health tests of a reseed, a failed pairwise test) returns a failure. *)
Class AlgOpsOk {E : Env} {B : BuildConfig} (I : AesImpl) (A : AlgOps) : Prop := {
  kem_new_safe n : safe_op I null (QUDO_KEM_new n);
  kem_keypair_safe k : safe_op I bad_rc (QUDO_KEM_keypair k);
  kem_keypair_from_seed_safe k s : safe_op I bad_rc (QUDO_KEM_keypair_from_seed k s);
  kem_encaps_safe k pk : safe_op I bad_rc (QUDO_KEM_encaps k pk);
  kem_encaps_derand_safe k pk e : safe_op I bad_rc (QUDO_KEM_encaps_derand k pk e);
  kem_decaps_safe k c sk : safe_op I bad_rc (QUDO_KEM_decaps k c sk);
  mldsa_new_safe n : safe_op I null (QUDO_MLDSA_new n);
  mldsa_keypair_safe k : safe_op I bad_rc (QUDO_MLDSA_keypair k);
  mldsa_keypair_internal_safe k s : safe_op I bad_rc (QUDO_MLDSA_keypair_internal k s);
  mldsa_sign_internal_safe k m p r sk x : safe_op I bad_rc (QUDO_MLDSA_sign_internal k m p r sk x);
  mldsa_verify_internal_safe k s n m p pk x : safe_op I (fun rc => rc <> 0) (QUDO_MLDSA_verify_internal k s n m p pk x);
  slhdsa_new_safe n : safe_op I null (QUDO_SLHDSA_new n);
  slhdsa_keypair_safe k : safe_op I bad_rc (QUDO_SLHDSA_keypair k);
  slhdsa_keypair_internal_safe k a b c : safe_op I bad_rc (QUDO_SLHDSA_keypair_internal k a b c);
  slhdsa_sign_safe k n m sk : safe_op I bad_rc (QUDO_SLHDSA_sign k n m sk);
  slhdsa_sign_ex_safe k n m c r sk : safe_op I bad_rc (QUDO_SLHDSA_sign_ex k n m c r sk);
  slhdsa_verify_safe k m s n pk : safe_op I (fun rc => rc <> 0) (QUDO_SLHDSA_verify k m s n pk) }.

Create HintDb safe.
#[export] Hint Resolve quiet_st_begin quiet_st_end quiet_st_corrupt quiet_set_cast quiet_malloc : safe.
#[export] Hint Resolve kem_new_safe kem_keypair_safe kem_keypair_from_seed_safe kem_encaps_safe
  kem_encaps_derand_safe kem_decaps_safe mldsa_new_safe mldsa_keypair_safe mldsa_keypair_internal_safe
  mldsa_sign_internal_safe mldsa_verify_internal_safe slhdsa_new_safe slhdsa_keypair_safe
  slhdsa_keypair_internal_safe slhdsa_sign_safe slhdsa_sign_ex_safe slhdsa_verify_safe : safe.

(** Severities in range. *)
Ltac severity := unfold QUDO_SEV_INFO, QUDO_SEV_WARN, QUDO_SEV_ERROR, QUDO_SEV_FATAL in *; lia.

Ltac quiet_base := first [solve [eauto with safe] | apply quiet_audit; severity | now apply quiet_ret | now apply (quiet_gets _ (fun _ => True))].

(** [quiet_step] proves [quiet_op G m] along the code of [m], after the failure recorded in the context. *)
Ltac quiet_step :=
  match goal with
  | |- quiet_op _ _ (mret _) => apply quiet_ret; first [reflexivity | assumption | exact Logic.I]
  | |- quiet_op _ _ (mbind _ _) => eapply quiet_bind; [quiet_base | intros ? ?]
  | H : ?r = None |- quiet_op _ _ (match ?r with Some _ => _ | None => _ end) => rewrite H
  | H : bad_rc ?r |- quiet_op _ _ (let '(_, _) := ?r in _) => destruct r as [? [? ?]] || destruct r as [? ?]; unfold bad_rc in H; cbn [fst] in H
  | H : ?rc <> 0 |- quiet_op _ _ _ => rewrite (proj2 (Z.eqb_neq _ _) H); cbn [negb orb]
  | H : ?ok = 0 |- context [?ok =? 0] => rewrite H; cbn [Z.eqb negb]
  | H : ?ok = false |- context [negb ?ok] => rewrite H; cbn [negb]
  | |- quiet_op _ _ _ => quiet_base
  end.

(** [safe_step] proves [safe_op F m] along the code of [m]. *)
Ltac safe_step :=
  match goal with
  | |- safe_op _ _ (mret _) => apply safe_ret
  | |- safe_op _ _ (mbind _ (gets _)) => eapply safe_bind_quiet; [now apply (quiet_gets _ (fun _ => True)) | intros ? ?]
  | |- safe_op _ _ (mbind _ _) =>
      first [ eapply safe_bind_quiet; [quiet_base | intros ? ?]
            | eapply safe_bind; [solve [eauto with safe] | intros ? | intros ? ?; unfold null in *; solve [repeat quiet_step]] ]
  | |- safe_op _ _ (if ?b then _ else _) => destruct b
  | |- safe_op _ _ (match ?x with _ => _ end) => destruct x
  | |- safe_op _ _ _ => first [solve [eauto with safe] | eapply quiet_safe; quiet_base]
  end.

(** [open_step] proves [open_op m] along the code of [m]. *)
Ltac open_step :=
  match goal with
  | |- open_op _ (mret _) => apply open_ret
  | |- open_op _ (mbind _ _) => apply open_bind; [| intros ?]
  | |- open_op _ (when ?b _) => destruct b; cbn [when]
  | |- open_op _ (if ?b then _ else _) => destruct b
  | |- open_op _ (match ?x with _ => _ end) => destruct x
  | |- open_op _ (gets _) => apply (safe_open _ (fun _ => False)); eapply quiet_safe; now apply (quiet_gets _ (fun _ => True))
  | |- open_op _ _ => first [solve [eapply safe_open; eauto with safe] | apply (safe_open _ (fun _ => False)); eapply quiet_safe; quiet_base]
  end.
