(* ===== verification/Pct.v ===== *)
(** * Pairwise consistency tests

    Model of [src/qudo_pqc_pct.c]: a fresh or imported key pair is tried out once before it is
    used (encapsulate and decapsulate, sign and verify), under the self-test callback, except while
    the module is itself self-testing. *)

From stdpp Require Import base list numbers strings relations.
From Stdlib Require Import ZArith Lia.
From S2P Require Import Prelude Aes CtrDrbg World AuditLog State Rand RandService Algs.

#[local] Open Scope Z_scope.

Definition QUDO_ST_DESC_PCT_ML_KEM : string := "ML-KEM".
Definition QUDO_ST_DESC_PCT_ML_DSA : string := "ML-DSA".
Definition QUDO_ST_DESC_PCT_SLH_DSA : string := "SLH-DSA".

Section Pct.
Context {E : Env} {B : BuildConfig} {A : AlgOps}.

(** The part of each test up to the label [err]; the result is [ret]. *)
Definition mlkem_pct_body (st : qudo_st_ctx_t) (kem : QUDO_KEM) (pk sk : bytes) (use_random : Z) : M Z :=
  ctext ← qudo_malloc (kem_length_ciphertext kem);
  if negb ctext then mret 0
  else
    r ← (if negb (use_random =? 0) then QUDO_KEM_encaps kem pk
         else QUDO_KEM_encaps_derand kem pk (replicate 32 0x55));
    let '(rc, (ctext, secret)) := r in
    if negb (rc =? 0) then mret 0
    else
      ctext ← qudo_st_corrupt st ctext;
      r ← QUDO_KEM_decaps kem ctext sk;
      let '(rc, out) := r in
      if negb (rc =? 0) || negb (qudo_memcmp_ct out secret 32 =? 0) then mret 0 else mret 1.

Definition pct_frame (desc fail : string) (code : Z) (body : qudo_st_ctx_t -> M Z) : M Z :=
  st ← qudo_pqc_get_st_ctx;
  st ← qudo_st_begin st QUDO_ST_TYPE_PCT desc;
  ret ← body st;
  _ ← qudo_st_end st ret;
  _ ← when (ret =? 0) (qudo_audit_log QUDO_SEV_ERROR code QUDO_AUDIT_COMP_PCT fail);
  mret ret.

Definition qudo_pqc_mlkem_pct (kem_ptr : option QUDO_KEM) (pk sk : option bytes) (use_random : Z) : M Z :=
  match kem_ptr, pk, sk with
  | Some kem, Some pk, Some sk =>
      t ← qudo_pqc_is_self_testing;
      if t : bool then mret 1
      else pct_frame QUDO_ST_DESC_PCT_ML_KEM "ML-KEM PCT failed" QUDO_ERR_PCT_ENCAPS_FAIL
             (fun st => mlkem_pct_body st kem pk sk use_random)
  | _, _, _ => mret 0
  end.

Definition pct_msg : bytes := [80; 108; 117; 103; 104].

Definition mldsa_pct_body (st : qudo_st_ctx_t) (sig : QUDO_MLDSA) (pk sk : bytes) : M Z :=
  sig_buf ← qudo_malloc (mldsa_length_signature sig);
  if negb sig_buf then mret 0
  else
    r ← QUDO_MLDSA_sign_internal sig pct_msg [0; 0] (zeros 32) sk 0;
    let '(rc, (sig_buf, sig_len)) := r in
    if negb (rc =? 0) then mret 0
    else
      sig_buf ← qudo_st_corrupt st sig_buf;
      rc ← QUDO_MLDSA_verify_internal sig sig_buf sig_len pct_msg [0; 0] pk 0;
      if negb (rc =? 0) then mret 0 else mret 1.

Definition qudo_pqc_mldsa_pct (sig_ptr : option QUDO_MLDSA) (pk sk : option bytes) : M Z :=
  match sig_ptr, pk, sk with
  | Some sig, Some pk, Some sk =>
      t ← qudo_pqc_is_self_testing;
      if t : bool then mret 1
      else pct_frame QUDO_ST_DESC_PCT_ML_DSA "ML-DSA PCT failed" QUDO_ERR_PCT_SIGN_FAIL
             (fun st => mldsa_pct_body st sig pk sk)
  | _, _, _ => mret 0
  end.

Definition slhdsa_pct_body (st : qudo_st_ctx_t) (sig : QUDO_SLHDSA) (pk sk : bytes) : M Z :=
  sig_buf ← qudo_malloc (slhdsa_length_signature sig);
  if negb sig_buf then mret 0
  else
    r ← QUDO_SLHDSA_sign sig (slhdsa_length_signature sig) (zeros 16) sk;
    let '(rc, (sig_buf, sig_len)) := r in
    if negb (rc =? 0) then mret 0
    else
      sig_buf ← qudo_st_corrupt st sig_buf;
      rc ← QUDO_SLHDSA_verify sig (zeros 16) sig_buf sig_len pk;
      if negb (rc =? 0) then mret 0 else mret 1.

Definition qudo_pqc_slhdsa_pct (sig_ptr : option QUDO_SLHDSA) (pk sk : option bytes) : M Z :=
  match sig_ptr, pk, sk with
  | Some sig, Some pk, Some sk =>
      t ← qudo_pqc_is_self_testing;
      if t : bool then mret 1
      else pct_frame QUDO_ST_DESC_PCT_SLH_DSA "SLH-DSA PCT failed" QUDO_ERR_PCT_SIGN_FAIL
             (fun st => slhdsa_pct_body st sig pk sk)
  | _, _, _ => mret 0
  end.
End Pct.

(** ** Safety *)

Section Safety.
Context {E : Env} {B : BuildConfig} (I : AesImpl) {A : AlgOps} {HA : AlgOpsOk I A}.

(** The context is read under the self-test lock, so the tests are for callers that do not hold it. *)
Lemma get_st_ctx_open : open_op I qudo_pqc_get_st_ctx.
Proof.
  intros w Hc Hl. destruct (get_st_ctx_run w Hl) as [st Hst]. eapply wp_eq; [exact Hst |]. now apply well_behaved_refl, callable_calm.
Qed.

Lemma pct_frame_open desc fail code body : (forall st, open_op I (body st)) -> open_op I (pct_frame desc fail code body).
Proof.
  intros Hb. unfold pct_frame. open_step; [apply get_st_ctx_open |]. open_step; [open_step |]. open_step; [apply Hb |]. repeat open_step.
Qed.

Lemma is_self_testing_open : open_op I qudo_pqc_is_self_testing.
Proof. unfold qudo_pqc_is_self_testing, get_state. repeat open_step. Qed.

Ltac pct_open body :=
  repeat match goal with |- open_op _ (match ?x with _ => _ end) => destruct x end; try open_step;
  [apply is_self_testing_open |]; open_step; [open_step |]; apply pct_frame_open; intros; unfold body; repeat open_step.

Lemma mlkem_pct_open kem pk sk u : open_op I (qudo_pqc_mlkem_pct kem pk sk u).
Proof. unfold qudo_pqc_mlkem_pct. pct_open @mlkem_pct_body. Qed.

Lemma mldsa_pct_open sig pk sk : open_op I (qudo_pqc_mldsa_pct sig pk sk).
Proof. unfold qudo_pqc_mldsa_pct. pct_open @mldsa_pct_body. Qed.

Lemma slhdsa_pct_open sig pk sk : open_op I (qudo_pqc_slhdsa_pct sig pk sk).
Proof. unfold qudo_pqc_slhdsa_pct. pct_open @slhdsa_pct_body. Qed.
End Safety.

(** ** What a test decides *)

Section Exact.
Context {E : Env} {B : BuildConfig} {A : AlgOps}.

(** Without a self-test callback the frame adds nothing but the audit record of a failure. *)
Lemma pct_frame_run desc fail code body w ret w' :
  lock_free (g_self_test_lock (w_core w)) -> g_self_test_cb (w_core w) = None ->
  (forall arg, body (mk_st None arg QUDO_ST_TYPE_PCT desc) w = Some (ret, w')) ->
  lock_free (g_audit_lock (w_audit w')) ->
  pct_frame desc fail code body w
  = Some (ret, if ret =? 0 then set_w_log (audit_logged QUDO_SEV_ERROR code QUDO_AUDIT_COMP_PCT fail w') w' else w').
Proof.
  intros Hl Hcb Hbody Ha.
  assert (Hst : exists arg, qudo_pqc_get_st_ctx w = Some (mk_st None arg "" "", w)).
  { destruct w as [[ms lk on ce sc sa ec ea er cs sp sm su ca] a l r p m e al]. cbn in Hl, Hcb. subst sc.
    destruct Hl as [-> | ->]; eexists; unfold qudo_pqc_get_st_ctx; run_step; reflexivity. }
  destruct Hst as [arg Hst].
  unfold pct_frame. unfold mbind at 1, M_bind at 1. rewrite Hst.
  unfold qudo_st_begin, call_st_cb, qudo_st_end, mbind, M_bind, when, mret, M_ret. cbn [not_null st_cb st_cb_arg].
  rewrite Hbody. unfold call_st_cb, when. cbn [not_null st_cb].
  destruct (Z.eqb_spec ret 0) as [-> | Hne].
  - unfold mret, M_ret. now rewrite audit_log_run by exact Ha.
  - reflexivity.
Qed.

Lemma malloc_run n w : n <> 0%nat -> env_malloc_ok (n_alloc (w_env w)) = true ->
  qudo_malloc n w = Some (true, on_env (set_n_alloc (S (n_alloc (w_env w)))) w).
Proof.
  intros Hn Hm. unfold qudo_malloc. rewrite (proj2 (Nat.eqb_neq _ _) Hn).
  unfold mbind, M_bind, gets, modify, mret, M_ret. now rewrite Hm.
Qed.

Lemma not_self_testing w {C} (m1 m2 : M C) : g_module_state (w_core w) <> QUDO_PQC_STATE_SELFTEST ->
  (t ← qudo_pqc_is_self_testing; if t : bool then m1 else m2) w = m2 w.
Proof.
  intros H. unfold qudo_pqc_is_self_testing, get_state, mbind, M_bind, gets, mret, M_ret.
  now rewrite (proj2 (Z.eqb_neq _ _) H).
Qed.

Lemma corrupt_none arg ty de d : qudo_st_corrupt (mk_st None arg ty de) d = mret d.
Proof. reflexivity. Qed.
End Exact.

Lemma mlkem_pct_run {E : Env} {B : BuildConfig} {A : AlgOps} (kem : QUDO_KEM) (pk sk ct ss out : bytes)
  (u rc rc2 : Z) (w w2 w3 : World) (w1 := on_env (set_n_alloc (S (n_alloc (w_env w)))) w)
  (Hl : lock_free (g_self_test_lock (w_core w))) (Hcb : g_self_test_cb (w_core w) = None)
  (Hns : g_module_state (w_core w) <> QUDO_PQC_STATE_SELFTEST)
  (Hn : kem_length_ciphertext kem <> 0%nat) (Hm : env_malloc_ok (n_alloc (w_env w)) = true)
  (Henc : (if u =? 0 then QUDO_KEM_encaps_derand kem pk (replicate 32 0x55) else QUDO_KEM_encaps kem pk) w1
          = Some ((rc, (ct, ss)), w2))
  (Hdec : QUDO_KEM_decaps kem ct sk w2 = Some ((rc2, out), w3))
  (Ho : (32 <= length out)%nat) (Hs : (32 <= length ss)%nat)
  (Ha2 : lock_free (g_audit_lock (w_audit w2))) (Ha3 : lock_free (g_audit_lock (w_audit w3))) :
  qudo_pqc_mlkem_pct (Some kem) (Some pk) (Some sk) u w
  = let w' := if rc =? 0 then w3 else w2 in
    if bool_decide (rc = 0 /\ rc2 = 0 /\ take 32 out = take 32 ss) then Some (1, w')
    else Some (0, set_w_log (audit_logged QUDO_SEV_ERROR QUDO_ERR_PCT_ENCAPS_FAIL QUDO_AUDIT_COMP_PCT "ML-KEM PCT failed" w') w').
Proof.
  unfold qudo_pqc_mlkem_pct. rewrite not_self_testing by exact Hns.
  set (ret := if bool_decide (rc = 0 /\ rc2 = 0 /\ take 32 out = take 32 ss) then 1 else 0).
  assert (Hbody : forall arg, mlkem_pct_body (mk_st None arg QUDO_ST_TYPE_PCT QUDO_ST_DESC_PCT_ML_KEM) kem pk sk u w
                              = Some (ret, if rc =? 0 then w3 else w2)).
  { intros arg. unfold mlkem_pct_body, mbind, M_bind. rewrite malloc_run by assumption. fold w1. cbn [negb].
    replace (if negb (u =? 0) then QUDO_KEM_encaps kem pk else QUDO_KEM_encaps_derand kem pk (replicate 32 0x55))
      with (if u =? 0 then QUDO_KEM_encaps_derand kem pk (replicate 32 0x55) else QUDO_KEM_encaps kem pk)
      by (destruct (u =? 0); reflexivity).
    rewrite Henc. subst ret. destruct (Z.eqb_spec rc 0) as [-> | Hrc]; cbn [negb].
    2:{ rewrite bool_decide_eq_false_2 by tauto. reflexivity. }
    rewrite corrupt_none. unfold mret, M_ret. rewrite Hdec.
    pose proof (memcmp_ct_0 out ss 32 Ho Hs) as Hcmp.
    destruct (Z.eqb_spec rc2 0) as [-> | Hrc2]; cbn [negb orb].
    2:{ rewrite bool_decide_eq_false_2 by tauto. reflexivity. }
    destruct (Z.eqb_spec (qudo_memcmp_ct out ss 32) 0) as [Heq | Hne]; cbn [negb].
    - rewrite bool_decide_eq_true_2 by tauto. reflexivity.
    - rewrite bool_decide_eq_false_2 by tauto. reflexivity. }
  rewrite (pct_frame_run QUDO_ST_DESC_PCT_ML_KEM "ML-KEM PCT failed" QUDO_ERR_PCT_ENCAPS_FAIL
             (fun st => mlkem_pct_body st kem pk sk u) w ret _ Hl Hcb Hbody) by (destruct (rc =? 0); assumption).
  subst ret. cbv zeta. now destruct (bool_decide _).
Qed.

(** C33. The ML-KEM pairwise test decides consistency: outside self-testing, without a test callback
    and with memory available, it returns 1 exactly if encapsulation to the public key succeeds (with
    the fixed randomness 0x55..55, or fresh randomness if asked for), decapsulation of that ciphertext
    with the secret key succeeds, and both shared secrets agree on all 32 bytes, having changed nothing beyond what those operations change;
    otherwise it returns 0 and has submitted exactly one record to the audit log, of severity ERROR, with code
    QUDO_ERR_PCT_ENCAPS_FAIL. *)
Theorem mlkem_pct_exact {E : Env} {B : BuildConfig} {A : AlgOps} (kem : QUDO_KEM) (pk sk ct ss out : bytes)
  (u rc rc2 : Z) (w w2 w3 : World) (w1 := on_env (set_n_alloc (S (n_alloc (w_env w)))) w)
  (Hl : lock_free (g_self_test_lock (w_core w))) (Hcb : g_self_test_cb (w_core w) = None)
  (Hns : g_module_state (w_core w) <> QUDO_PQC_STATE_SELFTEST)
  (Hn : kem_length_ciphertext kem <> 0%nat) (Hm : env_malloc_ok (n_alloc (w_env w)) = true)
  (Henc : (if u =? 0 then QUDO_KEM_encaps_derand kem pk (replicate 32 0x55) else QUDO_KEM_encaps kem pk) w1
          = Some ((rc, (ct, ss)), w2))
  (Hdec : QUDO_KEM_decaps kem ct sk w2 = Some ((rc2, out), w3))
  (Ho : (32 <= length out)%nat) (Hs : (32 <= length ss)%nat)
  (Ha2 : lock_free (g_audit_lock (w_audit w2))) (Ha3 : lock_free (g_audit_lock (w_audit w3))) :
  qudo_pqc_mlkem_pct (Some kem) (Some pk) (Some sk) u w
  = let w' := if rc =? 0 then w3 else w2 in
    if bool_decide (rc = 0 /\ rc2 = 0 /\ take 32 out = take 32 ss) then Some (1, w')
    else Some (0, set_w_log (audit_logged QUDO_SEV_ERROR QUDO_ERR_PCT_ENCAPS_FAIL QUDO_AUDIT_COMP_PCT "ML-KEM PCT failed" w') w').
Proof. exact (mlkem_pct_run kem pk sk ct ss out u rc rc2 w w2 w3 Hl Hcb Hns Hn Hm Henc Hdec Ho Hs Ha2 Ha3). Qed.

(** The ML-DSA pairwise test decides consistency: under the same conditions it returns 1 exactly
    if signing the fixed message with the secret key succeeds and the signature verifies under the
    public key. *)
Theorem mldsa_pct_exact {E : Env} {B : BuildConfig} {A : AlgOps} (sig : QUDO_MLDSA) (pk sk sb : bytes) (sl : nat)
  (rc rc2 : Z) (w w2 w3 : World) (w1 := on_env (set_n_alloc (S (n_alloc (w_env w)))) w)
  (Hl : lock_free (g_self_test_lock (w_core w))) (Hcb : g_self_test_cb (w_core w) = None)
  (Hns : g_module_state (w_core w) <> QUDO_PQC_STATE_SELFTEST)
  (Hn : mldsa_length_signature sig <> 0%nat) (Hm : env_malloc_ok (n_alloc (w_env w)) = true)
  (Hsign : QUDO_MLDSA_sign_internal sig pct_msg [0; 0] (zeros 32) sk 0 w1 = Some ((rc, (sb, sl)), w2))
  (Hver : QUDO_MLDSA_verify_internal sig sb sl pct_msg [0; 0] pk 0 w2 = Some (rc2, w3))
  (Ha2 : lock_free (g_audit_lock (w_audit w2))) (Ha3 : lock_free (g_audit_lock (w_audit w3))) :
  qudo_pqc_mldsa_pct (Some sig) (Some pk) (Some sk) w
  = let w' := if rc =? 0 then w3 else w2 in
    if bool_decide (rc = 0 /\ rc2 = 0) then Some (1, w')
    else Some (0, set_w_log (audit_logged QUDO_SEV_ERROR QUDO_ERR_PCT_SIGN_FAIL QUDO_AUDIT_COMP_PCT "ML-DSA PCT failed" w') w').
Proof.
  unfold qudo_pqc_mldsa_pct. rewrite not_self_testing by exact Hns.
  set (ret := if bool_decide (rc = 0 /\ rc2 = 0) then 1 else 0).
  assert (Hbody : forall arg, mldsa_pct_body (mk_st None arg QUDO_ST_TYPE_PCT QUDO_ST_DESC_PCT_ML_DSA) sig pk sk w
                              = Some (ret, if rc =? 0 then w3 else w2)).
  { intros arg. unfold mldsa_pct_body, mbind, M_bind. rewrite malloc_run by assumption. fold w1. cbn [negb].
    rewrite Hsign. subst ret. destruct (Z.eqb_spec rc 0) as [-> | Hrc]; cbn [negb].
    2:{ rewrite bool_decide_eq_false_2 by tauto. reflexivity. }
    rewrite corrupt_none. unfold mret, M_ret. rewrite Hver.
    destruct (Z.eqb_spec rc2 0) as [-> | Hrc2]; cbn [negb].
    - rewrite bool_decide_eq_true_2 by tauto. reflexivity.
    - rewrite bool_decide_eq_false_2 by tauto. reflexivity. }
  rewrite (pct_frame_run QUDO_ST_DESC_PCT_ML_DSA "ML-DSA PCT failed" QUDO_ERR_PCT_SIGN_FAIL
             (fun st => mldsa_pct_body st sig pk sk) w ret _ Hl Hcb Hbody) by (destruct (rc =? 0); assumption).
  subst ret. cbv zeta. now destruct (bool_decide _).
Qed.

(** Toy algorithms, for the examples: the shared secret is the key material itself. *)
Definition toy_algs : AlgOps := {|
  QUDO_KEM_new n := mret (Some (mk_kem n 1 32 32 32 32));
  QUDO_KEM_keypair k := mret (0, (zeros 32, zeros 32));
  QUDO_KEM_keypair_from_seed k s := mret (0, (s, s));
  QUDO_KEM_encaps k pk := mret (0, (xor_bytes pk (zeros 32), pk));
  QUDO_KEM_encaps_derand k pk e := mret (0, (xor_bytes pk e, e));
  QUDO_KEM_decaps k c sk := mret (0, xor_bytes c sk);
  QUDO_MLDSA_new n := mret (Some (mk_mldsa n 32 32 32));
  QUDO_MLDSA_keypair k := mret (0, (zeros 32, zeros 32));
  QUDO_MLDSA_keypair_internal k s := mret (0, (s, s));
  QUDO_MLDSA_sign_internal k m p r sk x := mret (0, (sk, length sk));
  QUDO_MLDSA_verify_internal k s n m p pk x := mret (if bool_decide (s = pk) then 0 else 1);
  QUDO_SLHDSA_new n := mret (Some (mk_slhdsa n 32 32 32));
  QUDO_SLHDSA_keypair k := mret (0, (zeros 32, zeros 32));
  QUDO_SLHDSA_keypair_internal k a b c := mret (0, (a, a));
  QUDO_SLHDSA_sign k n m sk := mret (0, (sk, length sk));
  QUDO_SLHDSA_sign_ex k n m c r sk := mret (0, (sk, length sk));
  QUDO_SLHDSA_verify k m s n pk := mret (if bool_decide (s = pk) then 0 else 1) |}.

Lemma toy_algs_ok : @AlgOpsOk plain_env demo_config AesCt toy_algs.
Proof. constructor; intros; apply safe_ret. Qed.

(** A matching pair passes, a mismatched one does not. *)
Lemma mlkem_pct_exact_witness : let kem := mk_kem "ML-KEM-512" 1 32 32 32 32 in let key := replicate 32 7 in
  let w1 := on_env (set_n_alloc 1) demo_world in
  @qudo_pqc_mlkem_pct plain_env toy_algs (Some kem) (Some key) (Some key) 0 demo_world = Some (1, w1) /\
  @qudo_pqc_mlkem_pct plain_env toy_algs (Some kem) (Some key) (Some (replicate 32 8)) 0 demo_world
  = Some (0, set_w_log (audit_logged QUDO_SEV_ERROR QUDO_ERR_PCT_ENCAPS_FAIL QUDO_AUDIT_COMP_PCT "ML-KEM PCT failed" w1) w1).
Proof.
  intros kem key w1. split.
  - eapply eq_trans; [apply (@mlkem_pct_exact plain_env demo_config toy_algs kem key key (xor_bytes key (replicate 32 0x55))
      (replicate 32 0x55) (xor_bytes (xor_bytes key (replicate 32 0x55)) key) 0 0 0 demo_world w1 w1) | reflexivity];
      try reflexivity; try discriminate; try (now left); vm_compute; lia.
  - eapply eq_trans; [apply (@mlkem_pct_exact plain_env demo_config toy_algs kem key (replicate 32 8) (xor_bytes key (replicate 32 0x55))
      (replicate 32 0x55) (xor_bytes (xor_bytes key (replicate 32 0x55)) (replicate 32 8)) 0 0 0 demo_world w1 w1) | reflexivity];
      try reflexivity; try discriminate; try (now left); vm_compute; lia.
Defined.

Lemma mldsa_pct_exact_witness : let sig := mk_mldsa "ML-DSA-65" 32 32 32 in let w1 := on_env (set_n_alloc 1) demo_world in
  @qudo_pqc_mldsa_pct plain_env toy_algs (Some sig) (Some (replicate 32 7)) (Some (replicate 32 8)) demo_world
  = Some (0, set_w_log (audit_logged QUDO_SEV_ERROR QUDO_ERR_PCT_SIGN_FAIL QUDO_AUDIT_COMP_PCT "ML-DSA PCT failed" w1) w1).
Proof.
  intros sig w1.
  eapply eq_trans; [apply (@mldsa_pct_exact plain_env demo_config toy_algs sig (replicate 32 7) (replicate 32 8) (replicate 32 8) 32
    0 1 demo_world w1 w1) | reflexivity]; try reflexivity; try discriminate; now left.
Defined.
