(* ===== verification/Integrity.v ===== *)
(** * Module integrity

    Model of [src/qudo_pqc_integrity.c] and of the key in [include/qudo_fipskey.h]: the HMAC
    known-answer test, the parser of the configured checksum, and the verification of the module
    file (through the application's or the default file functions) or of the loaded code region
    against its HMAC. *)

From stdpp Require Import base list numbers strings relations.
From Stdlib Require Import ZArith Lia Ascii.
From S2P Require Import Prelude Fips180 Sha256 Hmac Aes CtrDrbg World AuditLog State Rand RandService Algs.

#[local] Open Scope Z_scope.

Definition QUDO_ST_DESC_INTEGRITY_HMAC : string := "HMAC".

Definition fixed_key : bytes :=
  [ 0x98; 0x7d; 0x57; 0x22; 0x41; 0x23; 0xc8; 0x8f; 0xa3; 0x4e; 0x39; 0x09;
    0xeb; 0x79; 0x05; 0x5b; 0x28; 0xe8; 0x03; 0x5c; 0x98; 0xa6; 0xda;
    0xad; 0xad; 0x24; 0xc6; 0xe8; 0x34; 0xd8; 0x3a; 0x85 ].

Definition hmac_kat_pt : bytes :=
  [ 0x51; 0x55; 0x44; 0x4f; 0x20; 0x46; 0x49; 0x50; 0x53; 0x20; 0x49; 0x4e; 0x54; 0x45; 0x47; 0x21 ].

Definition hmac_kat_digest : bytes :=
  [ 0x45; 0x4e; 0xad; 0x3e; 0xb8; 0x7c; 0xad; 0xa1; 0x61; 0x79; 0x98;
    0x1a; 0xb0; 0x34; 0xbb; 0x6b; 0x5d; 0x57; 0x07; 0xad; 0x0b; 0xcf;
    0xf3; 0x36; 0xd3; 0xdc; 0x74; 0x34; 0x45; 0xed; 0xe3; 0x1d ].

(** ** The checksum's text *)

Definition char_code (c : ascii) : Z := Z.of_N (N_of_ascii c).

(** One hexadecimal digit; [None] is the [return 0]. *)
Definition hex_digit (c : ascii) : option Z :=
  let x := char_code c in
  if (48 <=? x) && (x <=? 57) then Some (x - 48)
  else if (97 <=? x) && (x <=? 102) then Some (x - 97 + 10)
  else if (65 <=? x) && (x <=? 70) then Some (x - 65 + 10)
  else None.

(** The loop over the text from [p], [out] bytes written to [bin] so far. *)
Fixpoint hex_loop (p : string) (bin : bytes) (out : nat) : nat * bytes :=
  match p with
  | EmptyString => (out, bin)
  | String c0 p =>
      if Ascii.eqb c0 ":" then hex_loop p bin out
      else match p with
           | EmptyString => (0%nat, bin)
           | String c1 p =>
               match hex_digit c0 with
               | None => (0%nat, bin)
               | Some hi =>
                   match hex_digit c1 with
                   | None => (0%nat, bin)
                   | Some lo =>
                       if Nat.leb (length bin) out then (0%nat, bin)
                       else hex_loop p (wr bin out (Z.lor (Z.shiftl hi 4) lo)) (S out)
                   end
               end
           end
  end.

(** Number of bytes decoded (0 on any error) and the destination [bin], of [bin_len] bytes. *)
Definition hex_to_bin (hex : option string) (bin : option bytes) : nat * option bytes :=
  match hex, bin with
  | Some h, Some b => let '(n, b) := hex_loop h b 0 in (n, Some b)
  | _, _ => (0%nat, bin)
  end.

(** ** Files *)

(** The C library's files and the application's file functions: what a handle delivers when it is
    read to its end, buffer after buffer. *)
Class FileIO := {
  io_fopen : string -> option Z;
  io_fread : Z -> list (bytes * bool);              (* data, [ferror] *)
  io_app_open : Z -> string -> option Z;            (* the application's function, path *)
  io_app_read : Z -> Z -> list (Z * bytes) }.       (* the application's function, handle *)

(** [qudo_pqc_config_t]. *)
Record qudo_pqc_config_t := mk_config {
  self_test_cb : option Z; self_test_cb_arg : Z;
  error_cb : option Z; error_cb_arg : Z;
  io_open : option Z; io_read : option Z; io_close : option Z;
  module_path : option string; module_checksum_hex : option string;
  conditional_errors : Z;
  audit_cb : option Z; audit_cb_arg : Z }.

Section Integrity.
Context {E : Env} {B : BuildConfig} {F : FileIO}.

Definition default_io_open (path : string) : option Z := io_fopen path.

(** Return value and data of one call. *)
Definition default_io_read (r : bytes * bool) : Z * bytes :=
  let '(data, err) := r in
  if err : bool then (-1, data) else if Nat.eqb (length data) 0 then (0, data) else (1, data).

(** The successive results of the configured read function on an open handle; once they are
    exhausted the handle is at its end and the function returns 0. *)
Definition reads (config : qudo_pqc_config_t) (handle : Z) : list (Z * bytes) :=
  match io_read config with
  | Some fn => io_app_read fn handle
  | None => map default_io_read (io_fread handle)
  end.

(** [while ((rd = io_read(...)) > 0) ...]; the last [rd] and the context. *)
Fixpoint hmac_reads (rs : list (Z * bytes)) (ctx : qudo_fips_hmac_ctx_t) : Z * qudo_fips_hmac_ctx_t :=
  match rs with
  | [] => (0, ctx)
  | (rd, data) :: rs =>
      if 0 <? rd
      then hmac_reads rs (if Nat.ltb 0 (length data) then qudo_fips_hmac_update ctx data else ctx)
      else (rd, ctx)
  end.

Definition qudo_pqc_integrity_kat (st : qudo_st_ctx_t) : M Z :=
  st ← qudo_st_begin st QUDO_ST_TYPE_KAT_INTEGRITY QUDO_ST_DESC_INTEGRITY_HMAC;
  let out := qudo_fips_hmac_sha256 env_stack env_hmac_ctx (Some fixed_key) hmac_kat_pt (zeros 32) in
  out ← qudo_st_corrupt st out;
  let ok := if negb (qudo_memcmp_ct out hmac_kat_digest 32 =? 0) then 0 else 1 in
  _ ← qudo_st_end st ok;
  mret ok.

(** From opening the file to the label [err]. *)
Definition verify_file (config : qudo_pqc_config_t) (st : qudo_st_ctx_t) (path : string) (expected : bytes) : M Z :=
  match (match io_open config with Some fn => io_app_open fn path | None => default_io_open path end) with
  | None => mret 0
  | Some handle =>
      let ctx := qudo_fips_hmac_init env_stack env_hmac_ctx (Some fixed_key) in
      let '(rd, ctx) := hmac_reads (reads config handle) ctx in
      if rd <? 0 then mret 0
      else
        let '(ctx, computed) := qudo_fips_hmac_final ctx (zeros 32) in
        computed ← qudo_st_corrupt st computed;
        if negb (qudo_memcmp_ct computed expected 32 =? 0) then mret 0 else mret 1
  end.

Definition qudo_pqc_verify_integrity (config : qudo_pqc_config_t) (st : qudo_st_ctx_t) : M Z :=
  kat ← qudo_pqc_integrity_kat st;
  if kat =? 0 then mret 0
  else match module_path config, module_checksum_hex config with
       | Some path, Some hex =>
           let '(expected_len, expected) := hex_to_bin (Some hex) (Some (zeros 32)) in
           if negb (Nat.eqb expected_len 32) then mret 0
           else
             st ← qudo_st_begin st QUDO_ST_TYPE_MODULE_INTEGRITY QUDO_ST_DESC_INTEGRITY_HMAC;
             ret ← verify_file config st path (default [] expected);
             _ ← qudo_st_end st ret;
             mret ret
       | _, _ => mret 0
       end.
End Integrity.

(** The linked image: addresses of the boundary symbols, the code between them, the HMAC patched
    into it. *)
Class Image := {
  qudo_fips_module_start : Z;
  qudo_fips_module_end : Z;
  module_region : bytes;
  qudo_fips_integrity_hmac : bytes }.

Class ImageOk (G : Image) : Prop := {
  region_bytes : are_bytes module_region;
  region_len : qudo_fips_module_start < qudo_fips_module_end ->
    Z.of_nat (length module_region) = qudo_fips_module_end - qudo_fips_module_start;
  region_max : Z.of_nat (length module_region) < 2 ^ 60;
  hmac_len : length qudo_fips_integrity_hmac = 32%nat }.

(** "QUDO_FIPS_NOT_PATCHED___" *)
Definition sentinel : bytes :=
  [ 81; 85; 68; 79; 95; 70; 73; 80; 83; 95; 78; 79; 84; 95; 80; 65; 84; 67; 72; 69; 68; 95; 95; 95 ].

Section Embedded.
Context {E : Env} {B : BuildConfig} {G : Image}.

(** Between [qudo_st_begin] and the label [err]. *)
Definition verify_region (st : qudo_st_ctx_t) : M Z :=
  if qudo_fips_module_end <=? qudo_fips_module_start then mret 0
  else
    let region_size := qudo_fips_module_end - qudo_fips_module_start in
    if region_size <? 1024 then mret 0
    else
      let computed := qudo_fips_hmac_sha256 env_stack env_hmac_ctx (Some fixed_key) module_region (zeros 32) in
      computed ← qudo_st_corrupt st computed;
      if negb (qudo_memcmp_ct computed qudo_fips_integrity_hmac 32 =? 0) then mret 0 else mret 1.

Definition qudo_pqc_verify_integrity_embedded (st : qudo_st_ctx_t) : M Z :=
  kat ← qudo_pqc_integrity_kat st;
  if kat =? 0 then mret 0
  else if bool_decide (take 24 qudo_fips_integrity_hmac = sentinel) then mret (-1)
  else
    st ← qudo_st_begin st QUDO_ST_TYPE_MODULE_INTEGRITY QUDO_ST_DESC_INTEGRITY_HMAC;
    ret ← verify_region st;
    _ ← qudo_st_end st ret;
    mret ret.
End Embedded.

(** ** The parser accepts exactly hexadecimal text *)

(** [hex_text s bs]: [s] is the bytes [bs] in hexadecimal, upper or lower case, with colons
    anywhere between bytes. *)
Inductive hex_text : string -> bytes -> Prop :=
| hex_nil : hex_text EmptyString []
| hex_colon s bs : hex_text s bs -> hex_text (String ":" s) bs
| hex_byte c0 c1 hi lo s bs : hex_digit c0 = Some hi -> hex_digit c1 = Some lo -> hex_text s bs ->
    hex_text (String c0 (String c1 s)) (16 * hi + lo :: bs).

Lemma hex_digit_range c x : hex_digit c = Some x -> 0 <= x < 16.
Proof. unfold hex_digit. intros H. repeat case_match; simplify_eq; lia. Qed.

Lemma digit_no_colon c x : hex_digit c = Some x -> Ascii.eqb c ":" = false.
Proof. intros H. destruct (Ascii.eqb_spec c ":") as [-> | _]; [discriminate | reflexivity]. Qed.

Lemma hex_pair hi lo : 0 <= hi < 16 -> 0 <= lo < 16 -> Z.lor (Z.shiftl hi 4) lo = 16 * hi + lo.
Proof.
  intros Hh Hl.
  assert (Hall : forallb (fun h => forallb (fun l => Z.lor (Z.shiftl h 4) l =? 16 * h + l)
                   (map Z.of_nat (seq 0 16))) (map Z.of_nat (seq 0 16)) = true) by (vm_compute; reflexivity).
  assert (Hin : forall x, 0 <= x < 16 -> In x (map Z.of_nat (seq 0 16))).
  { intros x Hx. apply in_map_iff. exists (Z.to_nat x). split; [lia |]. apply in_seq. lia. }
  rewrite forallb_forall in Hall. specialize (Hall hi (Hin hi Hh)). rewrite forallb_forall in Hall.
  apply Z.eqb_eq. exact (Hall lo (Hin lo Hl)).
Qed.

Lemma blit_cons (bin : bytes) out x bs : (out < length bin)%nat ->
  blit (wr bin out x) (S out) bs = blit bin out (x :: bs).
Proof.
  intros H. unfold wr. rewrite insert_take_drop by exact H.
  replace (take out bin ++ x :: drop (S out) bin) with ((take out bin ++ [x]) ++ drop (S out) bin)
    by (now rewrite <- app_assoc).
  rewrite blit_app by (rewrite length_app, length_take; cbn [length]; lia).
  unfold blit. rewrite <- app_assoc, drop_drop. cbn [length app]. do 4 f_equal. lia.
Qed.

Lemma hex_loop_ok s bs : hex_text s bs -> forall bin out, (out + length bs <= length bin)%nat ->
  hex_loop s bin out = ((out + length bs)%nat, blit bin out bs).
Proof.
  induction 1 as [| s bs _ IH | c0 c1 hi lo s bs H0 H1 _ IH]; intros bin out Hlen; cbn [hex_loop length] in *.
  - rewrite Nat.add_0_r. unfold blit. cbn [length app]. now rewrite Nat.add_0_r, take_drop.
  - now apply IH.
  - rewrite (digit_no_colon c0 hi H0), H0, H1. rewrite (proj2 (Nat.leb_gt _ _)) by lia.
    rewrite IH by (rewrite length_wr; lia).
    rewrite (hex_pair hi lo) by (eapply hex_digit_range; eassumption).
    rewrite blit_cons by lia. f_equal. lia.
Qed.

(** A result other than 0 comes from text, within the buffer. *)
Lemma hex_loop_sound n s : (String.length s <= n)%nat -> forall bin out, (out <= length bin)%nat ->
  fst (hex_loop s bin out) <> 0%nat ->
  exists bs, hex_text s bs /\ (out + length bs <= length bin)%nat.
Proof.
  revert s. induction n as [|n IH]; intros s Hn bin out Ho H.
  - destruct s; [| cbn in Hn; lia]. exists []. split; [constructor | cbn; lia].
  - destruct s as [|c0 s]; [exists []; split; [constructor | cbn; lia] |]. cbn [hex_loop String.length] in *.
    destruct (Ascii.eqb_spec c0 ":") as [-> | Hne].
    + destruct (IH s ltac:(lia) bin out Ho H) as (bs & Ht & Hl). exists bs. split; [now constructor | exact Hl].
    + destruct s as [|c1 s]; [now contradiction H |].
      destruct (hex_digit c0) as [hi|] eqn:H0; [| now contradiction H].
      destruct (hex_digit c1) as [lo|] eqn:H1; [| now contradiction H].
      destruct (Nat.leb_spec (length bin) out) as [Hf | Hlt]; [now contradiction H |].
      destruct (IH s) with (bin := wr bin out (Z.lor (Z.shiftl hi 4) lo)) (out := S out) as (bs & Ht & Hl).
      * cbn [String.length] in Hn. lia.
      * rewrite length_wr. lia.
      * exact H.
      * rewrite length_wr in Hl. exists (16 * hi + lo :: bs). split; [now constructor | cbn [length]; lia].
Qed.

(** The text the tools write: lower case, no separators. *)
Definition hex_char (x : Z) : ascii := ascii_of_N (Z.to_N (if x <? 10 then 48 + x else 87 + x)).
Fixpoint hex_print (bs : bytes) : string :=
  match bs with
  | [] => EmptyString
  | b :: bs => String (hex_char (b / 16)) (String (hex_char (b mod 16)) (hex_print bs))
  end.

Lemma hex_char_digit x : 0 <= x < 16 -> hex_digit (hex_char x) = Some x.
Proof.
  intros Hx. assert (Hall : Forall (fun n => hex_digit (hex_char (Z.of_nat n)) = Some (Z.of_nat n)) (seq 0 16))
    by (repeat constructor).
  rewrite Forall_forall in Hall. specialize (Hall (Z.to_nat x)). rewrite Z2Nat.id in Hall by lia.
  apply Hall. apply elem_of_seq. lia.
Qed.

Lemma hex_print_text bs : are_bytes bs -> hex_text (hex_print bs) bs.
Proof.
  induction 1 as [|b bs Hb _ IH]; cbn [hex_print]; [constructor |]. unfold is_u8 in Hb.
  assert (Hdiv : 16 * (b / 16) + b mod 16 = b) by (symmetry; apply Z.div_mod; lia).
  rewrite <- Hdiv at 3. constructor; [apply hex_char_digit | apply hex_char_digit | exact IH].
  - split; [apply Z.div_pos; lia | apply Z.div_lt_upper_bound; lia].
  - apply Z.mod_pos_bound. lia.
Qed.

(** The checksum parser: text that denotes [bs] (either case, colons between bytes) and fits the
    buffer is decoded to exactly [bs], returning its length; any other text returns 0; so printing
    and parsing is the identity, and a 64-digit checksum is the only text of 32 bytes. *)
Theorem hex_to_bin_exact (s : string) (bin : bytes) :
  (forall bs, hex_text s bs -> (length bs <= length bin)%nat ->
     hex_to_bin (Some s) (Some bin) = (length bs, Some (bs ++ drop (length bs) bin))) /\
  ((forall bs, hex_text s bs -> (length bin < length bs)%nat) -> fst (hex_to_bin (Some s) (Some bin)) = 0%nat) /\
  (forall bs, are_bytes bs -> length bs = length bin ->
     hex_to_bin (Some (hex_print bs)) (Some bin) = (length bs, Some bs)).
Proof.
  assert (Hok : forall t bs, hex_text t bs -> (length bs <= length bin)%nat ->
            hex_to_bin (Some t) (Some bin) = (length bs, Some (bs ++ drop (length bs) bin))).
  { intros t bs Ht Hl. unfold hex_to_bin. rewrite (hex_loop_ok t bs Ht bin 0) by exact Hl. reflexivity. }
  split; [exact (Hok s) |]. split.
  - intros Hno. unfold hex_to_bin. pose proof (hex_loop_sound (String.length s) s (le_n _) bin 0 ltac:(lia)) as Hs.
    destruct (hex_loop s bin 0) as [n b]. cbn [fst] in *. destruct n as [|n]; [reflexivity |].
    destruct Hs as (bs & Ht & Hl); [discriminate |]. specialize (Hno bs Ht). lia.
  - intros bs Hb Hl. rewrite (Hok _ bs (hex_print_text bs Hb)) by lia. now rewrite drop_ge, app_nil_r by lia.
Qed.

(** ** Safety *)

Section Safety.
Context {E : Env} {B : BuildConfig} {F : FileIO} {G : Image} (I : AesImpl).

(** No wrapper is called: the module's state is kept. *)
Lemma integrity_kat_quiet st : quiet_op I (fun _ => True) (qudo_pqc_integrity_kat st).
Proof. unfold qudo_pqc_integrity_kat. repeat quiet_step. Qed.

Lemma verify_integrity_quiet config st : quiet_op I (fun _ => True) (qudo_pqc_verify_integrity config st).
Proof.
  unfold qudo_pqc_verify_integrity. eapply quiet_bind; [apply integrity_kat_quiet |]. intros kat _.
  destruct (kat =? 0); [quiet_step |]. destruct (module_path config), (module_checksum_hex config); try quiet_step.
  destruct (hex_to_bin _ _) as [n e]. destruct (negb _); [quiet_step |]. quiet_step. eapply quiet_bind; [| intros; repeat quiet_step].
  unfold verify_file. destruct (match io_open config with Some _ => _ | None => _ end) as [h|]; [| quiet_step].
  destruct (hmac_reads _ _) as [rd c]. destruct (rd <? 0); [quiet_step |]. destruct (qudo_fips_hmac_final _ _).
  quiet_step. destruct (negb _); quiet_step.
Qed.

Lemma verify_embedded_quiet st : quiet_op I (fun _ => True) (qudo_pqc_verify_integrity_embedded st).
Proof.
  unfold qudo_pqc_verify_integrity_embedded. eapply quiet_bind; [apply integrity_kat_quiet |]. intros kat _.
  destruct (kat =? 0); [quiet_step |]. destruct (bool_decide _); [quiet_step |]. quiet_step. eapply quiet_bind; [| intros; repeat quiet_step].
  unfold verify_region. destruct (_ <=? _); [quiet_step |]. destruct (_ <? _); [quiet_step |]. quiet_step. destruct (negb _); quiet_step.
Qed.
End Safety.

(** ** What verification decides *)

(** The bytes a sequence of reads delivers, [None] after a read error. *)
Fixpoint delivered (rs : list (Z * bytes)) : option bytes :=
  match rs with
  | [] => Some []
  | (rd, data) :: rs =>
      if 0 <? rd then match delivered rs with Some d => Some (data ++ d) | None => None end
      else if rd <? 0 then None else Some []
  end.

(** The content of the module file as the configured file functions deliver it. *)
Definition module_file {F : FileIO} (config : qudo_pqc_config_t) (path : string) : option bytes :=
  match (match io_open config with Some fn => io_app_open fn path | None => io_fopen path end) with
  | None => None
  | Some h => delivered (reads config h)
  end.

(** The file functions deliver bytes, of a total a 64-bit length holds. *)
Class FileOk (F : FileIO) : Prop := {
  file_bytes : forall config h, Forall (fun r => are_bytes (snd r)) (reads config h);
  file_len : forall config h, Z.of_nat (length (concat (map snd (reads config h)))) < 2 ^ 60 }.

Lemma hmac_reads_delivered rs ctx : Forall (fun r => are_bytes (snd r)) rs ->
  exists ds, Forall are_bytes ds /\ snd (hmac_reads rs ctx) = fold_left qudo_fips_hmac_update ds ctx /\
    (length (concat ds) <= length (concat (map snd rs)))%nat /\
    delivered rs = if fst (hmac_reads rs ctx) <? 0 then None else Some (concat ds).
Proof.
  intros H. revert ctx. induction H as [|[rd d] rs Hd _ IH]; intros ctx; cbn [hmac_reads delivered map concat snd].
  - exists []. repeat split; auto.
  - destruct (Z.ltb_spec 0 rd) as [Hp | Hn].
    + cbn [snd] in Hd. set (c1 := if Nat.ltb 0 (length d) then qudo_fips_hmac_update ctx d else ctx).
      destruct (IH c1) as (ds & Hds & Hf & Hlen & Hdel). subst c1.
      destruct (Nat.ltb_spec 0 (length d)) as [Hl | Hz].
      * exists (d :: ds). cbn [fold_left concat]. rewrite !length_app. split; [now constructor |]. split; [exact Hf |].
        split; [lia |]. rewrite Hdel. now destruct (fst _ <? 0).
      * destruct d; [| cbn in Hz; lia]. exists ds. cbn [app]. rewrite Hdel. repeat split; auto. now destruct (fst _ <? 0).
    + exists []. cbn [fold_left concat fst snd length]. split; [constructor |]. split; [reflexivity |].
      split; [lia |]. now destruct (rd <? 0).
Qed.

Lemma fixed_key_ok : are_bytes fixed_key /\ Z.of_nat (length fixed_key) < 2 ^ 61.
Proof. split; [apply is_u8_dec_list; reflexivity | cbn; lia]. Qed.

(** The known answer, and that the code computes it. *)
Lemma integrity_kat_vector : HMAC_SHA256 fixed_key hmac_kat_pt = hmac_kat_digest.
Proof. vm_compute. reflexivity. Qed.

Lemma length_HMAC K m : length (HMAC_SHA256 K m) = 32%nat.
Proof. unfold HMAC_SHA256. apply length_SHA256. Qed.

Section Exact.
Context {E : Env} {HE : EnvOk E} {F : FileIO} {G : Image}.

Lemma integrity_kat_run arg ty de w :
  qudo_pqc_integrity_kat (mk_st None arg ty de) w = Some (1, w).
Proof.
  unfold qudo_pqc_integrity_kat.
  rewrite hmac_sha256_run; [| apply env_stack_ok | apply env_hmac_ctx_ok | apply fixed_key_ok | apply fixed_key_ok
    | apply is_u8_dec_list; reflexivity | cbn; lia | reflexivity].
  now rewrite integrity_kat_vector.
Qed.

Lemma memcmp_digest (a b : bytes) : length a = 32%nat -> length b = 32%nat ->
  (qudo_memcmp_ct a b 32 =? 0) = bool_decide (a = b).
Proof.
  intros Ha Hb. pose proof (memcmp_ct_0 a b 32 ltac:(lia) ltac:(lia)) as H. rewrite !take_ge in H by lia.
  destruct (Z.eqb_spec (qudo_memcmp_ct a b 32) 0); symmetry;
    [apply bool_decide_eq_true_2 | apply bool_decide_eq_false_2]; tauto.
Qed.

(** The verification of a file computes the HMAC of its content and shows it to the callback. *)
Lemma verify_file_eq {HF : FileOk F} config st path expected :
  verify_file config st path expected
  = match module_file config path with
    | Some c => computed ← qudo_st_corrupt st (HMAC_SHA256 fixed_key c);
                if negb (qudo_memcmp_ct computed expected 32 =? 0) then mret 0 else mret 1
    | None => mret 0
    end.
Proof.
  unfold verify_file, module_file, default_io_open.
  destruct (match io_open config with Some _ => _ | None => _ end) as [h|]; [| reflexivity].
  set (ctx := qudo_fips_hmac_init env_stack env_hmac_ctx (Some fixed_key)).
  destruct (hmac_reads_delivered (reads config h) ctx (file_bytes config h)) as (ds & Hds & Hf & Hlen & Hdel).
  rewrite Hdel. destruct (hmac_reads (reads config h) ctx) as [rd c]. cbn [fst snd] in *. subst c.
  destruct (rd <? 0); [reflexivity |]. subst ctx.
  rewrite hmac_run; try apply env_stack_ok; try apply env_hmac_ctx_ok; try apply fixed_key_ok; try assumption.
  2:{ pose proof (file_len config h). lia. }
  unfold blit. rewrite take_0, drop_ge by (rewrite length_zeros, length_HMAC; lia). cbn [app]. now rewrite app_nil_r.
Qed.

Lemma verify_file_run {HF : FileOk F} config arg ty de path expected w : length expected = 32%nat ->
  verify_file config (mk_st None arg ty de) path expected w
  = Some (match module_file config path with
          | Some c => if bool_decide (HMAC_SHA256 fixed_key c = expected) then 1 else 0
          | None => 0
          end, w).
Proof.
  intros He. rewrite verify_file_eq. destruct (module_file config path) as [c|]; [| reflexivity].
  unfold mbind, M_bind. change (qudo_st_corrupt (mk_st None arg ty de)) with (fun d : bytes => (mret d : M bytes)).
  unfold mret, M_ret. rewrite memcmp_digest by (rewrite ?length_HMAC; auto). now destruct (bool_decide _).
Qed.

Lemma hex_text_det s bs : hex_text s bs -> length bs = 32%nat ->
  hex_to_bin (Some s) (Some (zeros 32)) = (32%nat, Some bs).
Proof.
  intros Ht Hl. unfold hex_to_bin. rewrite (hex_loop_ok s bs Ht) by (rewrite length_zeros; lia).
  unfold blit. cbn [Nat.add]. rewrite take_0, drop_ge by (rewrite length_zeros; lia). cbn [app].
  now rewrite app_nil_r, Hl.
Qed.
(** A checksum of 32 bytes comes from text of 32 bytes. *)
Lemma hex_32 s e : hex_to_bin (Some s) (Some (zeros 32)) = (32%nat, e) -> exists bs, hex_text s bs /\ length bs = 32%nat /\ e = Some bs.
Proof.
  intros Hx. pose proof (hex_loop_sound (String.length s) s (le_n _) (zeros 32) 0 ltac:(lia)) as Hs. pose proof Hx as Hx'.
  unfold hex_to_bin in Hx. destruct (hex_loop s (zeros 32) 0) as [n b] eqn:Hl. injection Hx as -> _. cbn [fst] in Hs.
  destruct Hs as (bs & Ht & Hbs); [discriminate |]. rewrite (hex_loop_ok s bs Ht (zeros 32) 0 Hbs) in Hl. injection Hl as Hn _. cbn [Nat.add] in Hn.
  exists bs. split; [exact Ht |]. split; [exact Hn |]. rewrite (hex_text_det s bs Ht Hn) in Hx'. congruence.
Qed.
End Exact.

(** C23. Integrity of the module file: run without a test callback, the verification leaves the
    module's state alone and succeeds exactly if the configured checksum is hexadecimal text of
    32 bytes, the module file can be opened and read to its end, and those 32 bytes are the
    HMAC-SHA-256 of its whole content under the module's key, in whatever pieces it was read.  Every
    other case (bad text, missing file, read error, mismatch) returns 0. *)
Theorem verify_integrity_exact {E : Env} {HE : EnvOk E} {F : FileIO} {HF : FileOk F} (config : qudo_pqc_config_t)
  (arg : Z) (w : World) (path hex : string)
  (Hp : module_path config = Some path) (Hh : module_checksum_hex config = Some hex) :
  exists r, qudo_pqc_verify_integrity config (mk_st None arg "" "") w = Some (r, w) /\ (r = 0 \/ r = 1) /\
    (r = 1 <-> exists mac content, hex_text hex mac /\ length mac = 32%nat /\
                 module_file config path = Some content /\ mac = HMAC_SHA256 fixed_key content).
Proof.
  unfold qudo_pqc_verify_integrity. unfold mbind at 1, M_bind at 1.
  rewrite integrity_kat_run. cbn [Z.eqb]. rewrite Hp, Hh.
  destruct (hex_to_bin (Some hex) (Some (zeros 32))) as [n e] eqn:Hx.
  destruct (Nat.eqb_spec n 32) as [-> | Hne]; cbn [negb].
  - destruct (hex_32 hex e Hx) as (bs & Ht & Hn & ->). cbn [default].
    unfold mbind, M_bind. change (qudo_st_begin ?s ?ty ?de) with (mret (mk_st None arg ty de) : M qudo_st_ctx_t).
    unfold mret, M_ret. rewrite (verify_file_run config arg _ _ path bs w Hn).
    eexists. split; [reflexivity |].
    destruct (module_file config path) as [c|] eqn:Hf.
    + split; [destruct (bool_decide _); auto |]. case_bool_decide as Heq.
      * split; [intros _ | reflexivity]. exists bs, c. auto.
      * split; [discriminate |]. intros (mac & c' & Ht' & Hl' & [= <-] & ->). exfalso. apply Heq.
        pose proof (hex_text_det hex _ Ht' Hl') as H1. congruence.
    + split; [auto |]. split; [discriminate |]. intros (mac & c' & _ & _ & Hc & _). discriminate.
  - exists 0. split; [reflexivity |]. split; [auto |]. split; [discriminate |].
    intros (mac & c & Ht & Hl & _). pose proof (hex_text_det hex mac Ht Hl) as H1. congruence.
Qed.

(** C24. Integrity of the loaded image: without a test callback the verification succeeds exactly if
    the embedded HMAC has been patched in, the region is non-empty and at least 1024 bytes, and the
    embedded value is the HMAC-SHA-256 of the region; it returns -1 exactly for an unpatched image
    and 0 otherwise. *)
Theorem verify_embedded_exact {E : Env} {HE : EnvOk E} {G : Image} {HG : ImageOk G} (arg : Z) (w : World) :
  exists r, qudo_pqc_verify_integrity_embedded (mk_st None arg "" "") w = Some (r, w) /\
    (r = -1 <-> take 24 qudo_fips_integrity_hmac = sentinel) /\
    (r = 1 <-> take 24 qudo_fips_integrity_hmac <> sentinel /\
               1024 <= qudo_fips_module_end - qudo_fips_module_start /\
               qudo_fips_integrity_hmac = HMAC_SHA256 fixed_key module_region) /\
    (r = -1 \/ r = 0 \/ r = 1).
Proof.
  unfold qudo_pqc_verify_integrity_embedded. unfold mbind at 1, M_bind at 1.
  rewrite integrity_kat_run. cbn [Z.eqb]. case_bool_decide as Hs.
  { exists (-1). split; [reflexivity |]. split; [tauto |]. split; [split; [discriminate | tauto] | auto]. }
  unfold mbind at 1 2, M_bind at 1 2. change (qudo_st_begin ?s ?ty ?de) with (mret (mk_st None arg ty de) : M qudo_st_ctx_t).
  unfold mret at 1, M_ret at 1. cbv beta iota. unfold verify_region.
  destruct (Z.leb_spec qudo_fips_module_end qudo_fips_module_start) as [Hr | Hr].
  { exists 0. split; [reflexivity |]. split; [split; [discriminate | tauto] |]. split; [| auto]. split; [discriminate | lia]. }
  destruct (Z.ltb_spec (qudo_fips_module_end - qudo_fips_module_start) 1024) as [Hsz | Hsz].
  { exists 0. split; [reflexivity |]. split; [split; [discriminate | tauto] |]. split; [| auto]. split; [discriminate | lia]. }
  rewrite hmac_sha256_run; try apply env_stack_ok; try apply env_hmac_ctx_ok; try apply fixed_key_ok;
    try apply region_bytes; try apply region_max; try apply length_zeros.
  change (qudo_st_corrupt (mk_st None arg ?t ?d)) with (fun x : bytes => (mret x : M bytes)).
  unfold mbind, M_bind, mret, M_ret. cbv beta iota.
  rewrite memcmp_digest by (rewrite ?length_HMAC; auto using hmac_len).
  case_bool_decide as Heq; cbn [negb]; cbv beta iota; eexists; (split; [reflexivity |]).
  - split; [split; [discriminate | tauto] |]. split; [| auto]. split; [intros _ | reflexivity]. auto.
  - split; [split; [discriminate | tauto] |]. split; [| auto]. split; [discriminate |]. intros (_ & _ & H). congruence.
Qed.

(** A file system with one three-byte file, delivered in two reads. *)
Definition one_file : FileIO := {|
  io_fopen p := if String.eqb p "module.so" then Some 3 else None;
  io_fread h := [([1; 2], false); ([3], false)];
  io_app_open _ _ := None;
  io_app_read _ _ := [] |}.

Lemma one_file_ok : FileOk one_file.
Proof.
  constructor; intros config h; unfold reads; destruct (io_read config); cbn; try lia; [constructor |].
  repeat (apply Forall_cons_2; [apply is_u8_dec_list; reflexivity |]). constructor.
Qed.

Definition one_file_config : qudo_pqc_config_t :=
  mk_config None 0 None 0 None None None (Some "module.so"%string)
    (Some (hex_print (HMAC_SHA256 fixed_key [1; 2; 3]))) 1 None 0.

Lemma HMAC_bytes K m : are_bytes (HMAC_SHA256 K m).
Proof. unfold HMAC_SHA256. apply SHA256_bytes. Qed.

Lemma verify_integrity_exact_witness :
  @qudo_pqc_verify_integrity plain_env one_file one_file_config (mk_st None 0 "" "") static_world
  = Some (1, static_world).
Proof.
  destruct (@verify_integrity_exact plain_env plain_env_ok one_file one_file_ok one_file_config 0 static_world
              "module.so"%string (hex_print (HMAC_SHA256 fixed_key [1; 2; 3])) eq_refl eq_refl)
    as (r & Hrun & _ & Hiff).
  rewrite Hrun. do 2 f_equal. apply Hiff. exists (HMAC_SHA256 fixed_key [1; 2; 3]), [1; 2; 3].
  split; [apply hex_print_text, HMAC_bytes |]. split; [apply length_HMAC |]. split; reflexivity.
Defined.

Definition unpatched_image : Image := {|
  qudo_fips_module_start := 4096; qudo_fips_module_end := 5120; module_region := zeros 1024;
  qudo_fips_integrity_hmac := sentinel ++ zeros 8 |}.

Lemma unpatched_image_ok : ImageOk unpatched_image.
Proof.
  constructor.
  - apply zeros_bytes.
  - intros _. reflexivity.
  - reflexivity.
  - reflexivity.
Qed.

(** The same image with its HMAC patched in. *)
Definition patched_image : Image := {|
  qudo_fips_module_start := 4096; qudo_fips_module_end := 5120; module_region := zeros 1024;
  qudo_fips_integrity_hmac := HMAC_SHA256 fixed_key (zeros 1024) |}.

Lemma patched_image_ok : ImageOk patched_image.
Proof. constructor; [apply zeros_bytes | reflexivity | reflexivity | apply length_HMAC]. Qed.

Lemma verify_embedded_exact_witness :
  @qudo_pqc_verify_integrity_embedded plain_env unpatched_image (mk_st None 0 "" "") static_world = Some (-1, static_world) /\
  @qudo_pqc_verify_integrity_embedded plain_env patched_image (mk_st None 0 "" "") static_world = Some (1, static_world).
Proof.
  split.
  - destruct (@verify_embedded_exact plain_env plain_env_ok unpatched_image unpatched_image_ok 0 static_world) as (r & Hrun & Hneg & _).
    rewrite Hrun. do 2 f_equal. apply Hneg. reflexivity.
  - destruct (@verify_embedded_exact plain_env plain_env_ok patched_image patched_image_ok 0 static_world) as (r & Hrun & _ & Hone & _).
    rewrite Hrun. do 2 f_equal. apply Hone. split; [vm_compute; discriminate |]. split; [discriminate | reflexivity].
Defined.
