(* ===== verification/Post.v ===== *)
(** * Power-on self-tests

    Model of [src/qudo_pqc_post.c]: the known-answer tests of SHA-256, HMAC-SHA-256 and CTR_DRBG
    (with their vectors from [src/qudo_self_test_data.inc]) and of key generation, encapsulation
    and signing through the algorithm wrappers.  The large vectors of the wrappers' tests are the
    parameter [KatData]. *)

From stdpp Require Import base list numbers strings relations.
From Stdlib Require Import ZArith Lia.
From S2P Require Import Prelude Fips180 Sha256 Hmac Aes AesTTable CtrDrbg World AuditLog State Rand RandService Algs Integrity Pct.

#[local] Open Scope Z_scope.

(** ** Vectors *)

Definition sha256_kat_msg : bytes :=
  [ 0x68; 0xb5; 0x03; 0xe0; 0xee; 0x0c; 0xcd; 0xc5; 0x5a; 0x72; 0xb3; 0xf9; 0x8a; 0xe7; 0x87; 0x59;
    0xa4; 0x47; 0x2d; 0x6d; 0x73; 0xc2; 0x11; 0x24; 0x67; 0xbe; 0xdf; 0x54; 0x07; 0xd0; 0xb4; 0x70;
    0x66; 0x40; 0xac; 0x6a; 0xa3; 0xd8; 0xd6; 0xa4; 0xe1; 0x06; 0x37; 0x6d; 0x74; 0x88; 0x76; 0x34;
    0xb6; 0xac; 0x14; 0x3d; 0x24; 0x63; 0xba; 0x14; 0x20; 0xa7; 0xb8; 0xc4; 0xb0; 0xaf; 0xcb; 0x92;
    0xe0; 0x27; 0x81; 0x01; 0x1b; 0x3d; 0x05; 0xb9; 0x84; 0x52; 0xd0; 0x2d; 0xd6; 0x31; 0xcb; 0x20;
    0x83; 0x90; 0x03; 0xd2; 0x62; 0x95; 0x98; 0xe8; 0x42; 0xc8; 0xa8; 0xa8; 0x92; 0x5a; 0xf6; 0xb2;
    0x33; 0x0e; 0x9f; 0x3f; 0xa8; 0xfa; 0xc4; 0xb9; 0x7f; 0x77; 0xd2; 0xbc; 0x4b; 0xfc; 0xdd; 0xc8;
    0x50; 0x4b; 0x1f; 0xa7; 0x62; 0xff; 0xa1; 0x80; 0x67; 0x2a; 0xfb; 0xe0; 0xf7; 0x84; 0x31; 0x57;
    0x0e; 0x1c; 0x2a; 0xb4; 0xf9; 0x1b; 0x6b; 0xa2; 0x37; 0x65; 0xd2; 0x04; 0x16; 0xff; 0x12; 0x3d;
    0xa8; 0x9f; 0x2c; 0xc4; 0xb2; 0x05; 0xcf; 0x5e; 0xc2; 0x99; 0x5b; 0x14; 0x9c; 0xfb; 0x1f; 0x51;
    0x7b; 0xe9; 0xbc; 0x5e; 0x3a; 0x85; 0x67; 0x7d; 0x0f; 0xd1; 0xac; 0x31; 0x5e; 0x64; 0x19; 0xc2;
    0x3e; 0x98; 0xdc; 0x16; 0xd5; 0xad; 0x40; 0xcb; 0x7a; 0x64; 0x39; 0x61; 0x98; 0x7b; 0x74; 0xe3;
    0x96; 0x30; 0x68; 0x30; 0xc1; 0x51; 0xd5; 0x84; 0xb6; 0x02; 0x71; 0xf3; 0xd0; 0x4a; 0xc3; 0xfc;
    0xfa; 0xf3; 0x8f; 0x11; 0xdf; 0xb6; 0x82 ].

Definition sha256_kat_expected : bytes :=
  [ 0xa6; 0xe0; 0x96; 0xfe; 0xbe; 0x98; 0x04; 0x4d; 0x9a; 0x50; 0x27; 0x57; 0xb2; 0xa1; 0xaa; 0xd1;
    0xd3; 0x3d; 0x3d; 0x5a; 0xab; 0x05; 0x93; 0x65; 0x1b; 0xf2; 0x72; 0x10; 0xdb; 0x8b; 0x64; 0xbb ].

Definition hmac_sha256_kat_key : bytes :=
  [ 0x95; 0x60; 0xf4; 0x8e; 0x52; 0x9d; 0x51; 0x19; 0x2c; 0xb3; 0x1c; 0x2e; 0xf0; 0x77; 0x05; 0x95;
    0xca; 0xa8; 0x00; 0xff; 0xe7; 0x5c; 0xdf; 0x37; 0xc1; 0x32; 0x67 ].

Definition hmac_sha256_kat_msg : bytes :=
  [ 0xf2; 0xe3; 0x80; 0x5b; 0xbb; 0x2d; 0xc6; 0x34; 0x69; 0x6f; 0xa1; 0x58; 0x3b; 0x2b; 0xed; 0xdb;
    0x99; 0x61; 0x60; 0xb7; 0xee; 0x1c; 0xca; 0x5e; 0x59; 0x2d; 0x6c; 0x21; 0x47; 0xaa; 0xc6; 0x7f;
    0x42; 0x32; 0xe0; 0xc9; 0x27; 0xe1; 0xe1; 0x0e; 0x18; 0x82; 0xd3; 0x26; 0xbe; 0x9c; 0x52; 0x26;
    0xb0; 0x76; 0x80; 0xcb; 0x52; 0x64; 0x3f; 0xd3; 0xad; 0xa7; 0x3c; 0x9d; 0x3c; 0xde; 0xb7; 0x3c ].

Definition hmac_sha256_kat_expected : bytes :=
  [ 0x4c; 0x51; 0x13; 0x7b; 0xf3; 0x11; 0x4a; 0x2f; 0x1d; 0xbe; 0x4f; 0x9f; 0xbc; 0xbf; 0xd6; 0x91;
    0xb3; 0xc8; 0xad; 0x5a ].

Definition ctr_drbg_aes256_seed : bytes :=
  [ 0xb3; 0x54; 0x59; 0xc7; 0xf9; 0x46; 0x30; 0x93; 0xad; 0x47; 0x3b; 0xab; 0xf0; 0x91; 0x10; 0xe9;
    0x83; 0x40; 0x51; 0x6f; 0x05; 0x21; 0xe9; 0x2f; 0x30; 0x4d; 0x60; 0x2b; 0x79; 0x76; 0x24; 0xdf;
    0xae; 0xba; 0x35; 0x6b; 0x05; 0x97; 0x94; 0x29; 0x65; 0xa6; 0x32; 0x05; 0x39; 0x78; 0x78; 0xff ].

Definition ctr_drbg_aes256_reseed : bytes :=
  [ 0xbc; 0xa1; 0x43; 0x60; 0xda; 0xa3; 0x20; 0xb1; 0x07; 0xac; 0x94; 0x00; 0x58; 0x68; 0xf1; 0x84;
    0x84; 0x80; 0xfb; 0x36; 0x48; 0xed; 0xf9; 0x4a; 0xff; 0x17; 0xdf; 0xae; 0xd3; 0x46; 0x70; 0x2c;
    0x33; 0xf7; 0x96; 0xcf; 0x69; 0x72; 0x8b; 0xa8; 0x11; 0x22; 0x84; 0xd6; 0x80; 0xa0; 0x6a; 0x03 ].

Definition ctr_drbg_aes256_addin0 : bytes :=
  [ 0xa6; 0x42; 0xf0; 0x6d; 0x32; 0x78; 0x28; 0xf3; 0xe8; 0x45; 0x64; 0xa3; 0xe3; 0x7d; 0x60; 0xc1;
    0x57; 0x07; 0x3b; 0x95; 0x86; 0x4c; 0xa0; 0x79; 0x81; 0xb0; 0x18; 0x96; 0x68; 0xa0; 0xd9; 0x78;
    0xcd; 0x5d; 0xc6; 0x8f; 0x06; 0x80; 0x1c; 0xef; 0xf0; 0xdc; 0x83; 0x9a; 0x31; 0x2b; 0x02; 0x8e ].

Definition ctr_drbg_aes256_addin1 : bytes :=
  [ 0x9d; 0xb1; 0x4b; 0xab; 0xfa; 0x91; 0x07; 0xc8; 0x8b; 0xa9; 0x20; 0x73; 0xc0; 0xb4; 0xa6; 0x5e;
    0x89; 0x14; 0x7e; 0xa0; 0x6d; 0x74; 0xb8; 0x94; 0x14; 0x29; 0x79; 0x48; 0x2f; 0x45; 0x29; 0x15;
    0xb3; 0x5b; 0x56; 0x36; 0xf9; 0xb8; 0xa9; 0x51; 0x75; 0x97; 0x35; 0xad; 0xe7; 0xc8; 0xd5; 0xd1 ].

Definition ctr_drbg_aes256_expected : bytes :=
  [ 0xf1; 0x0c; 0x64; 0x56; 0x83; 0xff; 0x01; 0x31; 0x25; 0x40; 0x52; 0xed; 0x4c; 0x69; 0x81; 0x22;
    0xb4; 0x6b; 0x56; 0x36; 0x54; 0xc2; 0x9d; 0x72; 0x8a; 0xc1; 0x91; 0xca; 0x4a; 0xae; 0xfe; 0x64;
    0x9e; 0xef; 0xe4; 0xc6; 0xfc; 0x33; 0xb2; 0x5b; 0xb7; 0x39; 0x29; 0x4d; 0xd5; 0xcf; 0x57; 0x80;
    0x99; 0xf8; 0x56; 0xc9; 0x8d; 0x98; 0x00; 0x0c; 0xbf; 0x97; 0x1f; 0x1e; 0x6e; 0xa9; 0x00; 0x82;
    0x2f; 0xf8; 0xc1; 0x10; 0x11; 0x8f; 0x65; 0x20; 0x47; 0x17; 0x44; 0xd3; 0xf8; 0xa3; 0xf5; 0xc7;
    0xd5; 0x68; 0x49; 0x42; 0x40; 0xe5; 0x7f; 0x54; 0x88; 0xaf; 0x9c; 0x9f; 0x9f; 0x4e; 0x73; 0x22;
    0xf5; 0x6c; 0xcd; 0x84; 0x3c; 0x0d; 0xbf; 0xce; 0x91; 0x70; 0xc0; 0x2e; 0x20; 0x53; 0x89; 0x42;
    0x05; 0x27; 0xf2; 0x3e; 0xdb; 0x33; 0x69; 0xd9; 0xfc; 0xc5; 0xe3; 0x49; 0x01; 0xb5; 0xba; 0x4e;
    0xb7; 0x1b; 0x97; 0x3f; 0xc7; 0x98; 0x2f; 0xfe; 0x08; 0x99; 0xff; 0x7f; 0xe5; 0x3e; 0xe0; 0xc4;
    0xf5; 0x1a; 0x3e; 0xf9; 0x3e; 0xf9; 0xc6; 0xd4; 0xd2; 0x79; 0xdd; 0x75; 0x36; 0xf8; 0x77; 0x6b;
    0xe9; 0x4a; 0xaa; 0x05; 0xe8; 0x9e; 0xf6; 0xe6; 0xae; 0xe8; 0x83; 0x2b; 0x4b; 0x42; 0xff; 0xca;
    0x5f; 0xb9; 0x1e; 0xc0; 0x27; 0x3f; 0x9e; 0xf9; 0x45; 0x86; 0x55; 0x12; 0x88; 0x9b; 0x0c; 0x5e;
    0xe1; 0x41; 0xd1; 0xb3; 0x8d; 0xf8; 0x27; 0xd2; 0xa6; 0x94; 0x83; 0x55; 0x61; 0x62; 0x8c; 0x6f;
    0x9b; 0x09; 0x3a; 0x01; 0xa8; 0x35; 0xf0; 0x7a; 0xdb; 0xb9; 0xe0; 0x3f; 0xeb; 0xf9; 0x33; 0x89;
    0xe8; 0xf3; 0xb8; 0x6e; 0x1e; 0x0a; 0xbf; 0x1f; 0x99; 0x58; 0xfa; 0x28; 0x6a; 0xd9; 0x95; 0x28;
    0x9c; 0x2f; 0x60; 0x6d; 0x1a; 0x90; 0x43; 0xa1; 0x66; 0xc1; 0xaf; 0xe8; 0xd0; 0x07; 0x69; 0xc7;
    0x12; 0x65; 0x08; 0x19; 0xc9; 0x06; 0x8a; 0x4b; 0xd2; 0x27; 0x17; 0xc9; 0x83; 0x38; 0x39; 0x5a;
    0x7b; 0xa6; 0xe9; 0x5b; 0x51; 0x78; 0xbf; 0xbf; 0x4e; 0xfb; 0x0f; 0x05; 0xa9; 0x17; 0x13; 0xba;
    0x8b; 0xf2; 0x12; 0x7a; 0x6b; 0xa1; 0xed; 0xfa; 0x6d; 0x1c; 0xab; 0x05; 0xc0; 0x3e; 0xe0; 0xd2;
    0xaf; 0xe1; 0xda; 0x4e; 0xb8; 0xf2; 0xc5; 0x79; 0xec; 0x87; 0x2f; 0xf4; 0xb6; 0x02; 0x02; 0x7e;
    0xf4; 0xbd; 0xcf; 0x2f; 0x4b; 0x01; 0x42; 0x3f; 0x8e; 0x60; 0x0a; 0x13; 0xd7; 0xca; 0xcb; 0x6a;
    0xb8; 0x32; 0x63; 0xba; 0x58; 0xf9; 0x07; 0x69; 0x4a; 0xf6; 0x14; 0xa6; 0x72; 0x4f; 0xd0; 0xe4;
    0xc6; 0x27; 0xa0; 0xd9; 0x1d; 0xdc; 0x67; 0x16; 0xc6; 0x97; 0xfa; 0xce; 0x6f; 0x48; 0x08; 0xa4;
    0xf3; 0x7b; 0x73; 0x1d; 0xe4; 0xe0; 0xcd; 0x47; 0x66; 0xce; 0xad; 0xaa; 0xaf; 0x47; 0x99; 0x25;
    0x05; 0x29; 0x9c; 0x72; 0xac; 0x1a; 0x6e; 0x9a; 0x83; 0x35; 0xb8; 0xd7; 0xe5; 0x01; 0xb3; 0x84;
    0x11; 0x88; 0xd0; 0xda; 0x4d; 0xe5; 0x26; 0x76; 0x74; 0x44; 0x4d; 0xc2; 0xb0; 0xcf; 0x9f; 0x01;
    0x07; 0x56; 0xfa; 0x86; 0x5a; 0x25; 0xca; 0x3f; 0x1b; 0x24; 0xc3; 0x4e; 0x84; 0x5b; 0x22; 0x59;
    0x92; 0x6b; 0x6a; 0x86; 0x7a; 0x76; 0x84; 0xde; 0x68; 0xa6; 0x13; 0x7c; 0x4f; 0xb0; 0xf4; 0x7a;
    0x2e; 0x54; 0xae; 0x9e; 0x64; 0x55; 0xbe; 0xba; 0x0b; 0x0a; 0x96; 0x29; 0x64; 0x4f; 0xe9; 0xe3;
    0x78; 0xee; 0x95; 0x38; 0x64; 0x43; 0xba; 0x97; 0x71; 0x24; 0xff; 0xd1; 0x19; 0x2e; 0x9f; 0x46;
    0x06; 0x84; 0xc7; 0xb0; 0x9f; 0xa9; 0x9f; 0x5f; 0x93; 0xf0; 0x4f; 0x56; 0xfd; 0x79; 0x55; 0xe0;
    0x42; 0x18; 0x78; 0x87; 0xce; 0x69; 0x6f; 0x19; 0x34; 0x01; 0x7e; 0x45; 0x8b; 0x16; 0xb5; 0xc9 ].

Record QUDO_KAT_KEM := mk_kat_kem {
  kk_desc : string; kk_security_level : Z; kk_sk : bytes; kk_encaps_rand : bytes; kk_expected_ss : bytes;
  kk_expected_ct : bytes; kk_reject_ss : bytes }.
Record QUDO_KAT_SIGN := mk_kat_sign {
  ks_desc : string; ks_alg_name : string; ks_keygen_seed : bytes; ks_sk : bytes; ks_msg : bytes;
  ks_expected_sig : bytes }.
Record QUDO_KAT_SLHDSA := mk_kat_slhdsa {
  kh_desc : string; kh_param_set : string; kh_sk_seed : bytes; kh_sk_prf : bytes; kh_pk_seed : bytes;
  kh_sk : bytes; kh_msg : bytes; kh_sig_sha256 : option bytes }.
(** The local table of [qudo_post_keygen_mlkem]. *)
Record mlkem_keygen_test := mk_keygen_test {
  kg_desc : string; kg_security_level : Z; kg_seed : bytes; kg_expected_sk : bytes }.

Class KatData := {
  mlkem_keygen_tests : list mlkem_keygen_test;
  qudo_kat_kem_tests : list QUDO_KAT_KEM;
  qudo_kat_sign_tests : list QUDO_KAT_SIGN;
  qudo_kat_slhdsa_tests : list QUDO_KAT_SLHDSA }.

(** ** Tests *)

Section Post.
Context {E : Env} {B : BuildConfig} {A : AlgOps} {K : KatData} (I : AesImpl).

Definition qudo_pqc_post_drbg_kat_passed : M Z :=
  v ← gets (fun w => g_post_drbg_kat_passed (w_post w)); mret (if v =? 0 then 0 else 1).
Definition qudo_pqc_post_integrity_passed : M Z :=
  v ← gets (fun w => g_post_integrity_passed (w_post w)); mret (if v =? 0 then 0 else 1).
Definition qudo_pqc_post_mark_integrity_passed : M unit := modify (on_post (set_g_post_integrity_passed 1)).
Definition qudo_pqc_post_reset_status : M unit :=
  _ ← modify (on_post (set_g_post_drbg_kat_passed 0));
  modify (on_post (set_g_post_integrity_passed 0)).

(** [qudo_zalloc]: like [qudo_malloc], zeroed. *)
Definition qudo_zalloc (size : nat) : M (option bytes) :=
  ok ← qudo_malloc size; mret (if ok : bool then Some (zeros size) else None).

Definition kem_name (security_level : Z) : string :=
  if security_level =? 512 then "ML-KEM-512" else if security_level =? 768 then "ML-KEM-768" else "ML-KEM-1024".

(** [result ? 1 : 0] of a test, passed on to the callback. *)
Definition flag (b : bool) : Z := if b then 1 else 0.

Definition keygen_mlkem_test (st : qudo_st_ctx_t) (t : mlkem_keygen_test) : M bool :=
  st ← qudo_st_begin st QUDO_ST_TYPE_KAT_ASYM_KEYGEN (kg_desc t);
  ok ← (kem ← QUDO_KEM_new (kem_name (kg_security_level t));
        match kem with
        | None => mret false
        | Some kem =>
            pk ← qudo_malloc (kem_length_public_key kem);
            sk ← qudo_malloc (kem_length_secret_key kem);
            if negb pk || negb sk then mret false
            else
              r ← QUDO_KEM_keypair_from_seed kem (kg_seed t);
              let '(rc, (pk, sk)) := r in
              if negb (rc =? 0) then mret false
              else
                sk ← qudo_st_corrupt st sk;
                mret (qudo_memcmp_ct sk (kg_expected_sk t) (length (kg_expected_sk t)) =? 0)
        end);
  _ ← qudo_st_end st (flag ok);
  mret ok.

Definition qudo_post_keygen_mlkem (st : qudo_st_ctx_t) : M Z :=
  all_tests (keygen_mlkem_test st) mlkem_keygen_tests.

(** The three phases of one encapsulation vector. *)
Definition kem_encaps_test (st : qudo_st_ctx_t) (tv : QUDO_KAT_KEM) (kem : QUDO_KEM) (pk : bytes)
  : M (bool * (bytes * bytes)) :=
  st ← qudo_st_begin st QUDO_ST_TYPE_KAT_KEM (kk_desc tv);
  r ← QUDO_KEM_encaps_derand kem pk (kk_encaps_rand tv);
  let '(rc, (ct, ss_enc)) := r in
  r ← (if negb (rc =? 0) then mret (false, ss_enc)
       else
         ss_enc ← qudo_st_corrupt st ss_enc;
         mret ((qudo_memcmp_ct ss_enc (kk_expected_ss tv) 32 =? 0) &&
               Nat.eqb (kem_length_ciphertext kem) (length (kk_expected_ct tv)) &&
               (qudo_memcmp_ct ct (kk_expected_ct tv) (length (kk_expected_ct tv)) =? 0), ss_enc));
  let '(ok, ss_enc) := r in
  _ ← qudo_st_end st (flag ok);
  mret (ok, (ct, ss_enc)).

Definition kem_decaps_test (st : qudo_st_ctx_t) (tv : QUDO_KAT_KEM) (kem : QUDO_KEM) (ct ss_enc : bytes) : M bool :=
  st ← qudo_st_begin st QUDO_ST_TYPE_KAT_KEM (kk_desc tv);
  r ← QUDO_KEM_decaps kem ct (kk_sk tv);
  let '(rc, ss_dec) := r in
  ok ← (if negb (rc =? 0) then mret false
        else
          ss_dec ← qudo_st_corrupt st ss_dec;
          mret (qudo_memcmp_ct ss_enc ss_dec 32 =? 0));
  _ ← qudo_st_end st (flag ok);
  mret ok.

Definition kem_reject_test (st : qudo_st_ctx_t) (tv : QUDO_KAT_KEM) (kem : QUDO_KEM) (ss_enc : bytes) : M bool :=
  st ← qudo_st_begin st QUDO_ST_TYPE_KAT_KEM (kk_desc tv);
  zero_ct ← qudo_zalloc (kem_length_ciphertext kem);
  ok ← match zero_ct with
       | None => mret false
       | Some zero_ct =>
           r ← QUDO_KEM_decaps kem zero_ct (kk_sk tv);
           let '(rc, reject_dec) := r in
           if negb (rc =? 0) then mret false
           else
             reject_dec ← qudo_st_corrupt st reject_dec;
             mret ((qudo_memcmp_ct reject_dec (kk_reject_ss tv) 32 =? 0) &&
                   negb (qudo_memcmp_ct reject_dec ss_enc 32 =? 0))
       end;
  _ ← qudo_st_end st (flag ok);
  mret ok.

Definition kem_test (st : qudo_st_ctx_t) (tv : QUDO_KAT_KEM) : M bool :=
  kem ← QUDO_KEM_new (kem_name (kk_security_level tv));
  match kem with
  | None => mret false
  | Some kem =>
      ct ← qudo_malloc (kem_length_ciphertext kem);
      pk ← qudo_malloc (kem_length_public_key kem);
      if negb ct || negb pk then mret false
      else if Nat.ltb (length (kk_sk tv)) (kem_length_public_key kem + 64) then mret false
      else
        let pk := sub (kk_sk tv) (length (kk_sk tv) - kem_length_public_key kem - 64) (kem_length_public_key kem) in
        r ← kem_encaps_test st tv kem pk;
        let '(ok, (ct, ss_enc)) := r in
        if negb ok then mret false
        else
          ok ← kem_decaps_test st tv kem ct ss_enc;
          if negb ok then mret false
          else kem_reject_test st tv kem ss_enc
  end.

Definition qudo_post_kem (st : qudo_st_ctx_t) : M Z := all_tests (kem_test st) qudo_kat_kem_tests.

Definition keygen_mldsa_test (st : qudo_st_ctx_t) (tv : QUDO_KAT_SIGN) : M bool :=
  st ← qudo_st_begin st QUDO_ST_TYPE_KAT_ASYM_KEYGEN (ks_desc tv);
  ok ← (sig ← QUDO_MLDSA_new (ks_alg_name tv);
        match sig with
        | None => mret false
        | Some sig =>
            pk ← qudo_malloc (mldsa_length_public_key sig);
            sk ← qudo_malloc (mldsa_length_secret_key sig);
            if negb pk || negb sk then mret false
            else
              r ← QUDO_MLDSA_keypair_internal sig (ks_keygen_seed tv);
              let '(rc, (pk, sk)) := r in
              if negb (rc =? 0) then mret false
              else
                sk ← qudo_st_corrupt st sk;
                mret (qudo_memcmp_ct sk (ks_sk tv) (length (ks_sk tv)) =? 0)
        end);
  _ ← qudo_st_end st (flag ok);
  mret ok.

Definition qudo_post_keygen_mldsa (st : qudo_st_ctx_t) : M Z :=
  all_tests (keygen_mldsa_test st) qudo_kat_sign_tests.

Definition mldsa_test (st : qudo_st_ctx_t) (tv : QUDO_KAT_SIGN) : M bool :=
  st ← qudo_st_begin st QUDO_ST_TYPE_KAT_SIGNATURE (ks_desc tv);
  ok ← (sig ← QUDO_MLDSA_new (ks_alg_name tv);
        match sig with
        | None => mret false
        | Some sig =>
            pk ← qudo_malloc (mldsa_length_public_key sig);
            sk ← qudo_malloc (mldsa_length_secret_key sig);
            sig_buf ← qudo_malloc (mldsa_length_signature sig);
            if negb pk || negb sk || negb sig_buf then mret false
            else
              r ← QUDO_MLDSA_keypair_internal sig (ks_keygen_seed tv);
              let '(rc, (pk, sk)) := r in
              if negb (rc =? 0) then mret false
              else
                r ← QUDO_MLDSA_sign_internal sig (ks_msg tv) [0; 0] (zeros 32) sk 0;
                let '(rc, (sig_buf, sig_len)) := r in
                if negb (rc =? 0) then mret false
                else
                  sig_buf ← qudo_st_corrupt st sig_buf;
                  if negb (Nat.eqb sig_len (length (ks_expected_sig tv))) ||
                     negb (qudo_memcmp_ct sig_buf (ks_expected_sig tv) (length (ks_expected_sig tv)) =? 0)
                  then mret false
                  else
                    rc ← QUDO_MLDSA_verify_internal sig sig_buf sig_len (ks_msg tv) [0; 0] pk 0;
                    mret (rc =? 0)
        end);
  _ ← qudo_st_end st (flag ok);
  mret ok.

Definition qudo_post_mldsa (st : qudo_st_ctx_t) : M Z := all_tests (mldsa_test st) qudo_kat_sign_tests.

Definition keygen_slhdsa_test (st : qudo_st_ctx_t) (tv : QUDO_KAT_SLHDSA) : M bool :=
  st ← qudo_st_begin st QUDO_ST_TYPE_KAT_ASYM_KEYGEN (kh_desc tv);
  ok ← (sig ← QUDO_SLHDSA_new (kh_param_set tv);
        match sig with
        | None => mret false
        | Some sig =>
            pk ← qudo_malloc (slhdsa_length_public_key sig);
            sk ← qudo_malloc (slhdsa_length_secret_key sig);
            if negb pk || negb sk then mret false
            else
              r ← QUDO_SLHDSA_keypair_internal sig (kh_sk_seed tv) (kh_sk_prf tv) (kh_pk_seed tv);
              let '(rc, (pk, sk)) := r in
              if negb (rc =? 0) then mret false
              else
                sk ← qudo_st_corrupt st sk;
                mret (qudo_memcmp_ct sk (kh_sk tv) (length (kh_sk tv)) =? 0)
        end);
  _ ← qudo_st_end st (flag ok);
  mret ok.

Definition qudo_post_keygen_slhdsa (st : qudo_st_ctx_t) : M Z :=
  all_tests (keygen_slhdsa_test st) qudo_kat_slhdsa_tests.

(** The digest check of a signature, skipped when the vector has no digest. *)
Definition sig_digest_ok (tv : QUDO_KAT_SLHDSA) (sig_buf : bytes) (sig_len : nat) : bool :=
  match kh_sig_sha256 tv with
  | None => true
  | Some d => qudo_memcmp_ct (sha2_256 (stk_sha env_stack) (take sig_len sig_buf)) d 32 =? 0
  end.

Definition slhdsa_test (st : qudo_st_ctx_t) (tv : QUDO_KAT_SLHDSA) : M bool :=
  st ← qudo_st_begin st QUDO_ST_TYPE_KAT_SIGNATURE (kh_desc tv);
  ok ← (sig ← QUDO_SLHDSA_new (kh_param_set tv);
        match sig with
        | None => mret false
        | Some sig =>
            pk ← qudo_malloc (slhdsa_length_public_key sig);
            sk ← qudo_malloc (slhdsa_length_secret_key sig);
            sig_buf ← qudo_malloc (slhdsa_length_signature sig);
            if negb pk || negb sk || negb sig_buf then mret false
            else
              r ← QUDO_SLHDSA_keypair_internal sig (kh_sk_seed tv) (kh_sk_prf tv) (kh_pk_seed tv);
              let '(rc, (pk, sk)) := r in
              if negb (rc =? 0) then mret false
              else
                r ← QUDO_SLHDSA_sign_ex sig (slhdsa_length_signature sig) (kh_msg tv) None None sk;
                let '(rc, (sig_buf, sig_len)) := r in
                if negb (rc =? 0) then mret false
                else if negb (sig_digest_ok tv sig_buf sig_len) then mret false
                else
                  sig_buf ← qudo_st_corrupt st sig_buf;
                  rc ← QUDO_SLHDSA_verify sig (kh_msg tv) sig_buf sig_len pk;
                  mret (rc =? 0)
        end);
  _ ← qudo_st_end st (flag ok);
  mret ok.

Definition qudo_post_slhdsa (st : qudo_st_ctx_t) : M Z := all_tests (slhdsa_test st) qudo_kat_slhdsa_tests.

Definition qudo_post_sha256_kat (st : qudo_st_ctx_t) : M Z :=
  st ← qudo_st_begin st QUDO_ST_TYPE_KAT_DIGEST "SHA-256";
  let md := sha2_256 (stk_sha env_stack) sha256_kat_msg in
  md ← qudo_st_corrupt st md;
  let ok := flag (qudo_memcmp_ct md sha256_kat_expected 32 =? 0) in
  _ ← qudo_st_end st ok;
  mret ok.

Definition qudo_post_hmac_sha256_kat (st : qudo_st_ctx_t) : M Z :=
  st ← qudo_st_begin st QUDO_ST_TYPE_KAT_MAC "HMAC-SHA-256";
  let tag := qudo_fips_hmac_sha256 env_stack env_hmac_ctx (Some hmac_sha256_kat_key) hmac_sha256_kat_msg (zeros 32) in
  tag ← qudo_st_corrupt st tag;
  let ok := flag (qudo_memcmp_ct tag hmac_sha256_kat_expected 20 =? 0) in
  _ ← qudo_st_end st ok;
  mret ok.

(** Instantiate, reseed and generate twice; [None] when a call fails. *)
Definition ctrdrbg_kat_output : option bytes :=
  let '(rc, ctx) := qudo_ctrdrbg_init I (Some drbg_cleared) 32 (Some ctr_drbg_aes256_seed) 48 in
  if negb (rc =? 0) then None
  else
    let '(rc, ctx) := qudo_ctrdrbg_reseed I ctx (Some ctr_drbg_aes256_reseed) 48 in
    if negb (rc =? 0) then None
    else
      let '(rc, ctx, out) := qudo_ctrdrbg_generate I ctx (Some (zeros 512)) 512 (Some ctr_drbg_aes256_addin0) 48 in
      if negb (rc =? 0) then None
      else
        let '(rc, ctx, out) := qudo_ctrdrbg_generate I ctx out 512 (Some ctr_drbg_aes256_addin1) 48 in
        if negb (rc =? 0) then None else out.

Definition qudo_post_ctrdrbg_kat (st : qudo_st_ctx_t) : M Z :=
  st ← qudo_st_begin st QUDO_ST_TYPE_KAT_DRBG "CTR-DRBG-AES-256";
  ok ← match ctrdrbg_kat_output with
       | None => mret 0
       | Some out =>
           out ← qudo_st_corrupt st out;
           mret (flag (qudo_memcmp_ct out ctr_drbg_aes256_expected 512 =? 0))
       end;
  _ ← qudo_st_end st ok;
  mret ok.

(** [if (!test) { audit; return 0; } rest] *)
Definition post_check (test : M Z) (code : Z) (msg : string) (rest : M Z) : M Z :=
  ok ← test;
  if ok =? 0 then
    _ ← qudo_audit_log QUDO_SEV_FATAL code QUDO_AUDIT_COMP_POST msg; mret 0
  else rest.

Definition qudo_pqc_run_post_primitives (st : qudo_st_ctx_t) : M Z :=
  post_check (qudo_post_sha256_kat st) QUDO_ERR_POST_KAT_FAIL "SHA-256 KAT failed"
  (post_check (qudo_post_hmac_sha256_kat st) QUDO_ERR_POST_KAT_FAIL "HMAC-SHA-256 KAT failed"
  (post_check (qudo_post_ctrdrbg_kat st) QUDO_ERR_POST_KAT_FAIL "CTR-DRBG KAT failed"
  (_ ← modify (on_post (set_g_post_drbg_kat_passed 1)); mret 1))).

(** [qudo_pqc_set_cast_status(id, SUCCESS)] for each id of the list. *)
Fixpoint set_casts (ids : list Z) : M unit :=
  match ids with
  | [] => mret tt
  | i :: ids => _ ← qudo_pqc_set_cast_status i QUDO_CAST_STATE_SUCCESS; set_casts ids
  end.

Definition qudo_pqc_run_post_algorithms (st : qudo_st_ctx_t) : M Z :=
  post_check (qudo_post_keygen_mlkem st) QUDO_ERR_POST_KEYGEN_KAT_FAIL "ML-KEM keygen KAT failed"
  (post_check (qudo_post_keygen_mldsa st) QUDO_ERR_POST_KEYGEN_KAT_FAIL "ML-DSA keygen KAT failed"
  (post_check (qudo_post_keygen_slhdsa st) QUDO_ERR_POST_KEYGEN_KAT_FAIL "SLH-DSA keygen KAT failed"
  (post_check (qudo_post_kem st) QUDO_ERR_POST_KEM_KAT_FAIL "ML-KEM encaps/decaps KAT failed"
  (post_check (qudo_post_mldsa st) QUDO_ERR_POST_SIG_KAT_FAIL "ML-DSA sign/verify KAT failed"
  (post_check (qudo_post_slhdsa st) QUDO_ERR_POST_SIG_KAT_FAIL "SLH-DSA sign/verify KAT failed"
  (_ ← set_casts [0; 1; 2; 3; 4; 5; 6; 7; 8; 9; 10; 11];
   mret 1)))))).

Definition qudo_pqc_run_post (st : qudo_st_ctx_t) : M Z :=
  ok ← qudo_pqc_run_post_primitives st;
  if ok =? 0 then mret 0 else qudo_pqc_run_post_algorithms st.
End Post.

(** ** Safety *)

Section Safety.
Context {E : Env} {B : BuildConfig} {A : AlgOps} {K : KatData} (I : AesImpl) {HA : AlgOpsOk I A}.

#[local] Abbreviation failing := (fun ok : bool => ok = false).

(** A test between [qudo_st_begin] and [qudo_st_end] fails where its body does. *)
Lemma framed_safe {T} (F : T -> Prop) st ty de (body : qudo_st_ctx_t -> M T) (res : T -> Z) :
  (forall st, safe_op I F (body st)) ->
  safe_op I F (st ← qudo_st_begin st ty de; ok ← body st; _ ← qudo_st_end st (res ok); mret ok).
Proof.
  intros Hb. safe_step. eapply safe_bind; [apply Hb | intros; repeat safe_step |]. intros r Hr. repeat quiet_step.
Qed.

Lemma zalloc_quiet n : quiet_op I (fun _ => True) (qudo_zalloc n).
Proof. unfold qudo_zalloc. repeat quiet_step. Qed.

Lemma keygen_mlkem_test_safe st t : safe_op I failing (keygen_mlkem_test st t).
Proof. apply framed_safe. intros. repeat safe_step. Qed.

Lemma keygen_mldsa_test_safe st t : safe_op I failing (keygen_mldsa_test st t).
Proof. apply framed_safe. intros. repeat safe_step. Qed.

Lemma keygen_slhdsa_test_safe st t : safe_op I failing (keygen_slhdsa_test st t).
Proof. apply framed_safe. intros. repeat safe_step. Qed.

Lemma mldsa_test_safe st t : safe_op I failing (mldsa_test st t).
Proof. apply framed_safe. intros. repeat safe_step. Qed.

Lemma slhdsa_test_safe st t : safe_op I failing (slhdsa_test st t).
Proof. apply framed_safe. intros. repeat safe_step. Qed.

Lemma kem_encaps_test_safe st tv kem pk : safe_op I (fun r => fst r = false) (kem_encaps_test st tv kem pk).
Proof.
  unfold kem_encaps_test. safe_step. eapply safe_bind; [eauto with safe | intros [rc [ct ss]] | intros [rc [ct ss]] Hf].
  - eapply (safe_bind_quiet _ (fun _ => True)); [destruct (negb _); repeat quiet_step | intros [ok ss'] _; repeat safe_step].
  - unfold bad_rc in Hf. cbn [fst] in Hf. rewrite (proj2 (Z.eqb_neq _ _) Hf). cbn [negb].
    eapply (quiet_bind _ (fun r => r = (false, ss))); [now apply quiet_ret |]. intros r ->. repeat quiet_step.
Qed.

Lemma kem_decaps_test_safe st tv kem ct ss : safe_op I failing (kem_decaps_test st tv kem ct ss).
Proof.
  unfold kem_decaps_test. safe_step. eapply safe_bind; [eauto with safe | intros [rc s] | intros [rc s] Hf].
  - eapply (safe_bind_quiet _ (fun _ => True)); [destruct (negb _); repeat quiet_step | intros ok _; repeat safe_step].
  - unfold bad_rc in Hf. cbn [fst] in Hf. rewrite (proj2 (Z.eqb_neq _ _) Hf). cbn [negb].
    eapply (quiet_bind _ (fun ok => ok = false)); [now apply quiet_ret |]. intros ok ->. repeat quiet_step.
Qed.

Lemma kem_reject_test_safe st tv kem ss : safe_op I failing (kem_reject_test st tv kem ss).
Proof.
  unfold kem_reject_test. safe_step. eapply safe_bind_quiet; [apply zalloc_quiet |]. intros z _.
  eapply (safe_bind _ failing); [repeat safe_step | intros; repeat safe_step |]. intros ok Hf. repeat quiet_step.
Qed.

Lemma kem_test_safe st tv : safe_op I failing (kem_test st tv).
Proof.
  unfold kem_test. safe_step. safe_step; [| safe_step]. safe_step. safe_step. safe_step; [safe_step |]. safe_step; [safe_step |].
  eapply safe_bind; [apply kem_encaps_test_safe | |]; intros [ok [ct ss]]; [| intros Hf; cbn [fst] in Hf; subst ok; apply quiet_ret; reflexivity].
  safe_step; [safe_step |]. eapply safe_bind; [apply kem_decaps_test_safe | |]; intros ok2; [| intros ->; apply quiet_ret; reflexivity].
  safe_step; [safe_step | apply kem_reject_test_safe].
Qed.

#[local] Abbreviation zero := (fun ok : Z => ok = 0).

Lemma post_check_safe t code msg rest : safe_op I zero t -> safe_op I zero rest -> safe_op I zero (post_check t code msg rest).
Proof.
  intros Ht Hr. unfold post_check. eapply safe_bind; [exact Ht | |]; intros ok; [safe_step; [repeat safe_step | exact Hr] |].
  intros ->. change (0 =? 0) with true. cbv iota. repeat quiet_step.
Qed.

Lemma set_casts_quiet ids : quiet_op I (fun _ => True) (set_casts ids).
Proof. induction ids as [|i ids IH]; cbn [set_casts]; [quiet_step |]. quiet_step. exact IH. Qed.

Lemma sha256_kat_quiet st : quiet_op I (fun _ => True) (qudo_post_sha256_kat st).
Proof. unfold qudo_post_sha256_kat. repeat quiet_step. Qed.

Lemma hmac_kat_quiet st : quiet_op I (fun _ => True) (qudo_post_hmac_sha256_kat st).
Proof. unfold qudo_post_hmac_sha256_kat. repeat quiet_step. Qed.

Lemma ctrdrbg_kat_quiet st : quiet_op I (fun _ => True) (qudo_post_ctrdrbg_kat I st).
Proof.
  unfold qudo_post_ctrdrbg_kat. quiet_step. eapply (quiet_bind _ (fun _ => True)); [| intros; repeat quiet_step].
  destruct (ctrdrbg_kat_output I); repeat quiet_step.
Qed.

(** The primitives' tests call no wrapper. *)
Lemma post_primitives_quiet st : quiet_op I (fun _ => True) (qudo_pqc_run_post_primitives I st).
Proof.
  unfold qudo_pqc_run_post_primitives, post_check.
  eapply quiet_bind; [apply sha256_kat_quiet |]. intros r1 _. destruct (r1 =? 0); [repeat quiet_step |].
  eapply quiet_bind; [apply hmac_kat_quiet |]. intros r2 _. destruct (r2 =? 0); [repeat quiet_step |].
  eapply quiet_bind; [apply ctrdrbg_kat_quiet |]. intros r3 _. destruct (r3 =? 0); [repeat quiet_step |].
  eapply quiet_bind; [apply quiet_post; auto | intros; quiet_step].
Qed.

Lemma post_algorithms_safe st : safe_op I zero (qudo_pqc_run_post_algorithms st).
Proof.
  unfold qudo_pqc_run_post_algorithms.
  apply post_check_safe; [apply safe_tests, keygen_mlkem_test_safe |].
  apply post_check_safe; [apply safe_tests, keygen_mldsa_test_safe |].
  apply post_check_safe; [apply safe_tests, keygen_slhdsa_test_safe |].
  apply post_check_safe; [apply safe_tests, kem_test_safe |].
  apply post_check_safe; [apply safe_tests, mldsa_test_safe |].
  apply post_check_safe; [apply safe_tests, slhdsa_test_safe |].
  eapply safe_bind_quiet; [apply set_casts_quiet | intros; safe_step].
Qed.

Lemma run_post_safe st : safe_op I zero (qudo_pqc_run_post I st).
Proof.
  unfold qudo_pqc_run_post. eapply safe_bind_quiet; [apply post_primitives_quiet |]. intros ok _.
  destruct (ok =? 0); [safe_step | apply post_algorithms_safe].
Qed.
End Safety.

(** ** The primitive vectors are right *)

(** The output the CTR_DRBG vector asks for, by SP 800-90A. *)
Definition kat_spec_output : bytes :=
  let s := SP800_90A.Reseed ctr_drbg_aes256_reseed (SP800_90A.Instantiate 32 ctr_drbg_aes256_seed) in
  let s := snd (SP800_90A.Generate 512 (Some ctr_drbg_aes256_addin0) s) in
  fst (SP800_90A.Generate 512 (Some ctr_drbg_aes256_addin1) s).

Lemma generate_kat I (HI : AesImplOk I) c s (o adin : bytes) :
  drbg_rep I c s -> length (SP800_90A.Key s) = 32%nat -> length o = 512%nat -> length adin = 48%nat -> are_bytes adin ->
  exists c', qudo_ctrdrbg_generate I (Some c) (Some o) 512 (Some adin) 48
             = (0, Some c', Some (fst (SP800_90A.Generate 512 (Some adin) s))) /\
    drbg_rep I c' (snd (SP800_90A.Generate 512 (Some adin) s)) /\
    length (SP800_90A.Key (snd (SP800_90A.Generate 512 (Some adin) s))) = 32%nat /\
    length (fst (SP800_90A.Generate 512 (Some adin) s)) = 512%nat.
Proof.
  intros Hr Hk Ho Ha Hb.
  assert (Hne : nonempty (Some adin) = Some adin) by (destruct adin; [discriminate | reflexivity]).
  assert (Hsl : db_seedlen c = 48%nat) by (rewrite (rep_seedlen I c s Hr), Hk; reflexivity).
  assert (Hmax : (512 <= QUDO_CTRDRBG_MAX_REQUEST)%nat) by (unfold QUDO_CTRDRBG_MAX_REQUEST; lia).
  assert (Hal : alen (Some adin) = 48%nat) by exact Ha.
  destruct (generate_rep I HI c s o 512 (Some adin) Hr Hmax ltac:(lia) Hb ltac:(lia)) as (c' & Hg & Hr').
  rewrite Hne in *. rewrite Hal in Hg. exists c'. rewrite drop_ge, app_nil_r in Hg by lia. split; [exact Hg |].
  split; [exact Hr' |]. split.
  - pose proof (op_keeps_seedlen s (DoGenerate 512 (Some adin))) as Hkeep. cbv beta iota in Hkeep. rewrite Hne in Hkeep.
    rewrite Hkeep; [exact Hk |]. split; [exact Hmax |]. split; [exact Hb |]. rewrite Hk. lia.
  - pose proof (Generate_unfold 512 (Some adin) s) as Hu. rewrite Hne in Hu. rewrite Hu. cbn [fst].
    rewrite length_take, length_stream. reflexivity.
Qed.

Lemma kat_output_spec I (HI : AesImplOk I) : ctrdrbg_kat_output I = Some kat_spec_output.
Proof.
  unfold ctrdrbg_kat_output, kat_spec_output.
  destruct (init_rep I HI drbg_cleared 32 ctr_drbg_aes256_seed) as (c1 & Hi & Hr1 & Hs1);
    [right; right; reflexivity | apply is_u8_dec_list; reflexivity | reflexivity | reflexivity |].
  change (length ctr_drbg_aes256_seed) with 48%nat in Hi. rewrite Hi. cbn [Z.eqb negb].
  destruct (reseed_rep I HI c1 _ ctr_drbg_aes256_reseed Hr1) as (c2 & Hrs & Hr2);
    [apply is_u8_dec_list; reflexivity | now rewrite Hs1 |].
  change (length ctr_drbg_aes256_reseed) with 48%nat in Hrs. rewrite Hrs. cbn [Z.eqb negb].
  set (s2 := SP800_90A.Reseed ctr_drbg_aes256_reseed (SP800_90A.Instantiate 32 ctr_drbg_aes256_seed)) in *.
  assert (Hk2 : length (SP800_90A.Key s2) = 32%nat).
  { pose proof (rep_seedlen I c1 _ Hr1) as H1. rewrite Hs1 in H1. subst s2. unfold SP800_90A.Reseed.
    rewrite update_seedlen; [lia |]. rewrite <- H1. reflexivity. }
  destruct (generate_kat I HI c2 s2 (zeros 512) ctr_drbg_aes256_addin0 Hr2 Hk2) as (c3 & Hg3 & Hr3 & Hk3 & Hl3);
    [apply length_zeros | reflexivity | apply is_u8_dec_list; reflexivity |].
  rewrite Hg3. cbn [Z.eqb negb].
  destruct (generate_kat I HI c3 _ _ ctr_drbg_aes256_addin1 Hr3 Hk3 Hl3) as (c4 & Hg4 & _);
    [reflexivity | apply is_u8_dec_list; reflexivity |].
  rewrite Hg4. reflexivity.
Qed.

Lemma kat_vector_tt : ctrdrbg_kat_output AesTT = Some ctr_drbg_aes256_expected.
Proof. vm_compute. reflexivity. Qed.

Lemma kat_vector : kat_spec_output = ctr_drbg_aes256_expected.
Proof. pose proof (kat_output_spec AesTT AesTTOk) as H. rewrite kat_vector_tt in H. congruence. Qed.

Lemma sha_vector : SHA256 sha256_kat_msg = sha256_kat_expected.
Proof. vm_compute. reflexivity. Qed.

Lemma hmac_vector : take 20 (HMAC_SHA256 hmac_sha256_kat_key hmac_sha256_kat_msg) = hmac_sha256_kat_expected.
Proof. vm_compute. reflexivity. Qed.

Lemma memcmp_self (a b : bytes) n : (n <= length a)%nat -> (n <= length b)%nat -> take n a = take n b ->
  (qudo_memcmp_ct a b n =? 0) = true.
Proof. intros Ha Hb H. apply Z.eqb_eq. now apply memcmp_ct_0. Qed.

(** The shape of the three tests: show the callback the computed value, compare what it leaves. *)
Definition kat_core {E : Env} (st : qudo_st_ctx_t) (ty de : string) (d expected : bytes) (n : nat) : M Z :=
  st ← qudo_st_begin st ty de;
  d ← qudo_st_corrupt st d;
  let ok := flag (qudo_memcmp_ct d expected n =? 0) in
  _ ← qudo_st_end st ok;
  mret ok.

Lemma kat_core_none {E : Env} arg ty0 de0 ty de d expected n w :
  kat_core (mk_st None arg ty0 de0) ty de d expected n w = Some (flag (qudo_memcmp_ct d expected n =? 0), w).
Proof. reflexivity. Qed.

(** With a callback: the events it sees, and the comparison of what it leaves. *)
Definition shown {E : Env} (cb arg : Z) (ty de : string) (d : bytes) (w : World) : bytes :=
  env_st_cb (EvSelfTest QUDO_ST_PHASE_BEGIN ty de 0 :: trace (w_log w)) cb arg QUDO_ST_PHASE_CORRUPT ty de 0 d.

Lemma kat_core_some {E : Env} cb arg ty0 de0 ty de d expected n w
  (ok := flag (qudo_memcmp_ct (shown cb arg ty de d w) expected n =? 0)) :
  kat_core (mk_st (Some cb) arg ty0 de0) ty de d expected n w
  = Some (ok, on_log (fun l => set_trace (EvSelfTest QUDO_ST_PHASE_END ty de ok ::
        EvSelfTest QUDO_ST_PHASE_CORRUPT ty de 0 :: EvSelfTest QUDO_ST_PHASE_BEGIN ty de 0 :: trace l) l) w).
Proof. reflexivity. Qed.

Section Primitives.
Context {E : Env} {HE : EnvOk E}.

Lemma sha256_kat_core st :
  qudo_post_sha256_kat st = kat_core st QUDO_ST_TYPE_KAT_DIGEST "SHA-256" sha256_kat_expected sha256_kat_expected 32.
Proof.
  unfold qudo_post_sha256_kat.
  rewrite sha2_256_spec; [now rewrite sha_vector | apply env_stack_ok | apply env_stack_ok
    | apply is_u8_dec_list; reflexivity | cbn; lia].
Qed.

Lemma hmac_kat_core st :
  qudo_post_hmac_sha256_kat st
  = kat_core st QUDO_ST_TYPE_KAT_MAC "HMAC-SHA-256" (HMAC_SHA256 hmac_sha256_kat_key hmac_sha256_kat_msg)
      hmac_sha256_kat_expected 20.
Proof.
  unfold qudo_post_hmac_sha256_kat.
  rewrite hmac_sha256_run; [reflexivity | apply env_stack_ok | apply env_hmac_ctx_ok
    | apply is_u8_dec_list; reflexivity | cbn; lia | apply is_u8_dec_list; reflexivity | cbn; lia | reflexivity].
Qed.

Lemma ctrdrbg_kat_core I (HI : AesImplOk I) st :
  forall w, qudo_post_ctrdrbg_kat I st w
  = kat_core st QUDO_ST_TYPE_KAT_DRBG "CTR-DRBG-AES-256" ctr_drbg_aes256_expected ctr_drbg_aes256_expected 512 w.
Proof.
  intros w. unfold qudo_post_ctrdrbg_kat, kat_core. rewrite (kat_output_spec I HI), kat_vector.
  unfold mbind, M_bind, mret, M_ret. destruct (qudo_st_begin _ _ _ w) as [[st' w']|]; [| reflexivity].
  now destruct (qudo_st_corrupt st' _ w') as [[d w'']|].
Qed.
End Primitives.

(** The power-on vectors are the right ones: on any platform, with any correct AES, and no
    callback in the way, the SHA-256, HMAC-SHA-256 and CTR_DRBG known-answer tests all pass, and
    the primitives' self-test returns 1 having only recorded that the DRBG test passed. *)
Theorem post_primitives_pass {E : Env} {HE : EnvOk E} (I : AesImpl) {HI : AesImplOk I} (arg : Z) (ty de : string)
  (w : World) :
  qudo_pqc_run_post_primitives I (mk_st None arg ty de) w
  = Some (1, on_post (set_g_post_drbg_kat_passed 1) w).
Proof.
  unfold qudo_pqc_run_post_primitives, post_check. unfold mbind at 1, M_bind at 1.
  rewrite sha256_kat_core, kat_core_none, memcmp_self by reflexivity || (vm_compute; lia). cbn [flag Z.eqb].
  unfold mbind at 1, M_bind at 1. rewrite hmac_kat_core, kat_core_none, memcmp_self.
  2:{ rewrite length_HMAC. lia. }
  2:{ vm_compute. lia. }
  2:{ rewrite hmac_vector. reflexivity. }
  cbn [flag Z.eqb]. unfold mbind at 1, M_bind at 1. rewrite (ctrdrbg_kat_core I HI), kat_core_none, memcmp_self by reflexivity.
  reflexivity.
Qed.

Lemma post_primitives_pass_witness :
  @qudo_pqc_run_post_primitives plain_env AesCt (mk_st None 0 "" "") static_world
  = Some (1, on_post (set_g_post_drbg_kat_passed 1) static_world).
Proof. exact (@post_primitives_pass plain_env plain_env_ok AesCt AesCtOk 0 "" "" static_world). Defined.

(** A broken digest does not go unnoticed: with a self-test callback installed (which may
    overwrite the computed digest, to simulate a failure), the SHA-256 test succeeds exactly if what
    the callback leaves is the expected digest; otherwise the primitives' self-test returns 0, leaves
    the DRBG flag alone and reports a fatal error to the audit log. *)
Theorem sha256_kat_detects {E : Env} {HE : EnvOk E} (I : AesImpl) (cb arg : Z) (w : World)
  (Ha : lock_free (g_audit_lock (w_audit w)))
  (d := shown cb arg QUDO_ST_TYPE_KAT_DIGEST "SHA-256" sha256_kat_expected w) :
  (exists w', qudo_post_sha256_kat (mk_st (Some cb) arg "" "") w
              = Some (if bool_decide (d = sha256_kat_expected) then 1 else 0, w')) /\
  (d <> sha256_kat_expected ->
   exists w', qudo_pqc_run_post_primitives I (mk_st (Some cb) arg "" "") w = Some (0, w') /\
     w_post w' = w_post w /\
     exists w1, w' = set_w_log (audit_logged QUDO_SEV_FATAL QUDO_ERR_POST_KAT_FAIL QUDO_AUDIT_COMP_POST
                                  "SHA-256 KAT failed" w1) w1).
Proof.
  assert (Hd : length d = 32%nat).
  { subst d. unfold shown. apply env_st_cb_ok. apply is_u8_dec_list. reflexivity. }
  assert (Hcmp : (qudo_memcmp_ct d sha256_kat_expected 32 =? 0) = bool_decide (d = sha256_kat_expected))
    by (apply memcmp_digest; [exact Hd | reflexivity]).
  split.
  - rewrite sha256_kat_core, kat_core_some. fold d. rewrite Hcmp. unfold flag. eauto.
  - intros Hne. unfold qudo_pqc_run_post_primitives, post_check. unfold mbind at 1, M_bind at 1.
    rewrite sha256_kat_core, kat_core_some. fold d. rewrite Hcmp, bool_decide_eq_false_2 by exact Hne.
    cbn [flag Z.eqb]. set (w1 := on_log _ w). unfold mbind at 1, M_bind at 1.
    rewrite audit_log_run by exact Ha. eexists. split; [reflexivity |]. split; [reflexivity |]. now exists w1.
Qed.

(** An application that flips a bit of everything it is shown. *)
Definition flipping_env : Env := {|
  env_getentropy := env_getentropy (Env := plain_env); env_host_rand := env_host_rand (Env := plain_env);
  env_malloc_ok _ := true; env_rwlock_init_ok _ := true; env_once_ok := true;
  env_st_cb _ _ _ _ _ _ _ d := map (fun x => Z.lxor x 1) d;
  env_stack := env_stack (Env := plain_env); env_hmac_ctx := env_hmac_ctx (Env := plain_env) |}.

Lemma flipping_env_ok : EnvOk flipping_env.
Proof.
  destruct plain_env_ok. constructor; try assumption. intros h cb arg ph ty de res d Hd.
  cbn [env_st_cb flipping_env]. split; [apply length_map |]. apply Forall_map. eapply Forall_impl; [exact Hd |].
  intros x Hx. apply lxor_u8; [exact Hx | unfold is_u8; lia].
Qed.

Lemma sha256_kat_detects_witness :
  exists w', @qudo_pqc_run_post_primitives flipping_env AesCt (mk_st (Some 7) 0 "" "") static_world = Some (0, w').
Proof.
  destruct (@sha256_kat_detects flipping_env flipping_env_ok AesCt 7 0 static_world ltac:(now left)) as [_ H].
  destruct H as (w' & Hrun & _).
  - intros H. apply (f_equal (fun l => nth 0 l 0)) in H. vm_compute in H. lia.
  - exists w'. exact Hrun.
Defined.

(** ** What passing the algorithm tests means *)

(** A loop of tests that does not return 0 has passed every one of them, each from some state. *)
Lemma all_tests_passed {T} (body : T -> M bool) ts r w w' : all_tests body ts w = Some (r, w') -> r <> 0 ->
  Forall (fun t => exists v v', body t v = Some (true, v')) ts.
Proof.
  revert w. induction ts as [|t ts IH]; intros w H Hr; [constructor |]. cbn [all_tests] in H.
  unfold mbind, M_bind in H. destruct (body t w) as [[[|] w1]|] eqn:Hb; [| injection H as <- _; contradiction | discriminate].
  constructor; [eauto | now apply (IH w1)].
Qed.

(** Inversion of a run, one bind at a time. *)
Lemma bind_inv {A C} (m : M A) (k : A -> M C) w c w' : mbind k m w = Some (c, w') ->
  exists a w1, m w = Some (a, w1) /\ k a w1 = Some (c, w').
Proof. unfold mbind, M_bind. destruct (m w) as [[a w1]|]; [eauto | discriminate]. Qed.

Ltac bind_in H a w Ha := apply bind_inv in H as (a & w & Ha & H).

Lemma ret_inv {A} (a b : A) (w w' : World) : (mret a : M A) w = Some (b, w') -> a = b /\ w = w'.
Proof. intros [= -> ->]. auto. Qed.

Section AlgPassed.
Context {E : Env} {A : AlgOps} {K : KatData}.

(** What a passed encapsulation vector shows of the implementation [kem] of the vector's parameter set: with the vector's
    randomness it produces the vector's ciphertext and shared secret, decapsulates it to the same
    secret, and implicitly rejects the all-zero ciphertext with the vector's rejection secret, a
    different one. *)
Definition kem_vector_holds (tv : QUDO_KAT_KEM) : Prop :=
  exists kem ct ss ss' rej w0 w0' w1 w1' w2 w2' w3 w3',
    QUDO_KEM_new (kem_name (kk_security_level tv)) w0 = Some (Some kem, w0') /\
    QUDO_KEM_encaps_derand kem (sub (kk_sk tv) (length (kk_sk tv) - kem_length_public_key kem - 64)
                                  (kem_length_public_key kem)) (kk_encaps_rand tv) w1 = Some ((0, (ct, ss)), w1') /\
    qudo_memcmp_ct ss (kk_expected_ss tv) 32 = 0 /\
    qudo_memcmp_ct ct (kk_expected_ct tv) (length (kk_expected_ct tv)) = 0 /\
    kem_length_ciphertext kem = length (kk_expected_ct tv) /\
    QUDO_KEM_decaps kem ct (kk_sk tv) w2 = Some ((0, ss'), w2') /\ qudo_memcmp_ct ss ss' 32 = 0 /\
    QUDO_KEM_decaps kem (zeros (kem_length_ciphertext kem)) (kk_sk tv) w3 = Some ((0, rej), w3') /\
    qudo_memcmp_ct rej (kk_reject_ss tv) 32 = 0 /\ qudo_memcmp_ct rej ss 32 <> 0.

Lemma begin_none arg ty0 de0 ty de w : qudo_st_begin (mk_st None arg ty0 de0) ty de w = Some (mk_st None arg ty de, w).
Proof. reflexivity. Qed.

Lemma encaps_test_inv arg ty de tv kem pk w ct ss w' :
  kem_encaps_test (mk_st None arg ty de) tv kem pk w = Some ((true, (ct, ss)), w') ->
  exists w1, QUDO_KEM_encaps_derand kem pk (kk_encaps_rand tv) w = Some ((0, (ct, ss)), w1) /\
    qudo_memcmp_ct ss (kk_expected_ss tv) 32 = 0 /\
    qudo_memcmp_ct ct (kk_expected_ct tv) (length (kk_expected_ct tv)) = 0 /\
    kem_length_ciphertext kem = length (kk_expected_ct tv).
Proof.
  unfold kem_encaps_test. intros H. bind_in H st w0 Hst. rewrite begin_none in Hst. injection Hst as <- <-.
  bind_in H r w1 Hr. destruct r as [rc [c s]]. exists w1. bind_in H r w2 Hr2. destruct r as [ok s'].
  bind_in H u w3 Hu. apply ret_inv in H as [[= -> -> ->] _].
  destruct (Z.eqb_spec rc 0) as [-> | Hne]; cbn [negb] in Hr2; [| apply ret_inv in Hr2 as [? _]; discriminate].
  rewrite corrupt_none in Hr2. bind_in Hr2 d w4 Hd. apply ret_inv in Hd as [-> <-]. apply ret_inv in Hr2 as [Hok _].
  apply pair_equal_spec in Hok as [Hok ->]. apply andb_prop in Hok as [Hok H3]. apply andb_prop in Hok as [H1 H2].
  apply Z.eqb_eq in H1, H3. apply Nat.eqb_eq in H2. auto.
Qed.

Lemma decaps_test_inv arg ty de tv kem ct ss w w' :
  kem_decaps_test (mk_st None arg ty de) tv kem ct ss w = Some (true, w') ->
  exists ss' w1, QUDO_KEM_decaps kem ct (kk_sk tv) w = Some ((0, ss'), w1) /\ qudo_memcmp_ct ss ss' 32 = 0.
Proof.
  unfold kem_decaps_test. intros H. bind_in H st w0 Hst. rewrite begin_none in Hst. injection Hst as <- <-.
  bind_in H r w1 Hr. destruct r as [rc s]. exists s, w1. bind_in H ok w2 Hr2. bind_in H u w3 Hu.
  apply ret_inv in H as [-> _].
  destruct (Z.eqb_spec rc 0) as [-> | Hne]; cbn [negb] in Hr2; [| apply ret_inv in Hr2 as [? _]; discriminate].
  rewrite corrupt_none in Hr2. bind_in Hr2 d w4 Hd. apply ret_inv in Hd as [-> <-]. apply ret_inv in Hr2 as [Hok _].
  apply Z.eqb_eq in Hok. auto.
Qed.

Lemma reject_test_inv arg ty de tv kem ss w w' :
  kem_reject_test (mk_st None arg ty de) tv kem ss w = Some (true, w') ->
  exists rej w1 w2, QUDO_KEM_decaps kem (zeros (kem_length_ciphertext kem)) (kk_sk tv) w1 = Some ((0, rej), w2) /\
    qudo_memcmp_ct rej (kk_reject_ss tv) 32 = 0 /\ qudo_memcmp_ct rej ss 32 <> 0.
Proof.
  unfold kem_reject_test. intros H. bind_in H st w0 Hst. rewrite begin_none in Hst. injection Hst as <- <-.
  bind_in H z w1 Hz. bind_in H ok w2 Hr2. bind_in H u w3 Hu. apply ret_inv in H as [-> _].
  unfold qudo_zalloc in Hz. bind_in Hz m wm Hm. apply ret_inv in Hz as [<- ->].
  destruct m; [| apply ret_inv in Hr2 as [? _]; discriminate]. bind_in Hr2 r w4 Hr. destruct r as [rc rej].
  exists rej, w1, w4.
  destruct (Z.eqb_spec rc 0) as [-> | Hne]; cbn [negb] in Hr2; [| apply ret_inv in Hr2 as [? _]; discriminate].
  rewrite corrupt_none in Hr2. bind_in Hr2 d w5 Hd. apply ret_inv in Hd as [-> <-]. apply ret_inv in Hr2 as [Hok _].
  apply andb_prop in Hok as [H1 H2]. apply Z.eqb_eq in H1. apply negb_true_iff, Z.eqb_neq in H2. auto.
Qed.

Lemma kem_test_inv arg ty de tv w w' : kem_test (mk_st None arg ty de) tv w = Some (true, w') -> kem_vector_holds tv.
Proof.
  unfold kem_test. intros H. bind_in H k w0 Hk. destruct k as [kem|]; [| apply ret_inv in H as [? _]; discriminate].
  bind_in H c w1 Hc. bind_in H p w2 Hp.
  destruct (negb c || negb p); [apply ret_inv in H as [? _]; discriminate |].
  destruct (Nat.ltb _ _); [apply ret_inv in H as [? _]; discriminate |].
  bind_in H r w3 Hr. destruct r as [[|] [ct ss]]; cbn [negb] in H; [| apply ret_inv in H as [? _]; discriminate].
  bind_in H ok w4 Hd. destruct ok; cbn [negb] in H; [| apply ret_inv in H as [? _]; discriminate].
  apply encaps_test_inv in Hr as (v1 & E1 & E2 & E3 & E4). apply decaps_test_inv in Hd as (ss' & v2 & D1 & D2).
  apply reject_test_inv in H as (rej & v3 & v4 & R1 & R2 & R3).
  exists kem, ct, ss, ss', rej, w, w0, w2, v1, w3, v2, v3, v4. split_and!; assumption.
Qed.
End AlgPassed.

(** C32. A passed encapsulation self-test is evidence: if [qudo_post_kem] returns 1 (no callback in
    the way), then for every vector the implementation under test produced the vector's ciphertext and
    shared secret from the vector's randomness, decapsulated it to the same secret, and rejected a zero
    ciphertext implicitly with the vector's rejection secret. *)
Theorem post_kem_sound {E : Env} {A : AlgOps} {K : KatData} (arg : Z) (ty de : string) (w w' : World)
  (H : qudo_post_kem (mk_st None arg ty de) w = Some (1, w')) :
  Forall kem_vector_holds qudo_kat_kem_tests.
Proof.
  apply all_tests_passed in H; [| discriminate]. eapply Forall_impl; [exact H |]. intros tv (v & v' & Hv). revert Hv. apply kem_test_inv.
Qed.

(** Vectors for the toy algorithms, as an example. *)
Definition toy_kat : KatData := {|
  mlkem_keygen_tests := [mk_keygen_test "toy" 512 (replicate 32 9) (replicate 32 9)];
  qudo_kat_kem_tests := [mk_kat_kem "toy" 512 (replicate 96 5) (replicate 32 3) (replicate 32 3)
                           (replicate 32 6) (replicate 32 5)];
  qudo_kat_sign_tests := [mk_kat_sign "toy" "ML-DSA-65" (replicate 32 9) (replicate 32 9) [1; 2] (replicate 32 9)];
  qudo_kat_slhdsa_tests := [mk_kat_slhdsa "toy" "SLH-DSA-SHA2-128f" (replicate 32 9) [] [] (replicate 32 9) [1] None] |}.

Lemma post_kem_sound_witness : Forall (@kem_vector_holds toy_algs) (qudo_kat_kem_tests (KatData := toy_kat)).
Proof.
  eapply (@post_kem_sound plain_env toy_algs toy_kat 0 "" "" static_world). vm_compute. reflexivity.
Defined.

Lemma post_check_inv {E : Env} t code msg rest w w' : post_check t code msg rest w = Some (1, w') ->
  exists w1, rest w1 = Some (1, w').
Proof.
  unfold post_check. intros H. bind_in H ok w1 Hok. destruct (ok =? 0); [| eauto].
  bind_in H u w2 Hu. apply ret_inv in H as [? _]. discriminate.
Qed.

Lemma set_casts_run ids w : Forall (fun i => 0 <= i < QUDO_CAST_COUNT) ids ->
  set_casts ids w
  = Some (tt, on_core (fun c => set_g_cast_status
                 (fold_left (fun cs i => wr cs (Z.to_nat i) QUDO_CAST_STATE_SUCCESS) ids (g_cast_status c)) c) w).
Proof.
  intros H. revert w. induction H as [|i ids Hi _ IH]; intros w; [now destruct w as [[]] |]. cbn [set_casts fold_left].
  unfold qudo_pqc_set_cast_status. rewrite (proj2 (Z.leb_le 0 i)), (proj2 (Z.ltb_lt i QUDO_CAST_COUNT)) by lia.
  cbn [andb when]. unfold mbind, M_bind, modify. rewrite IH. now destruct w as [[]].
Qed.

(** Passing the algorithm self-tests marks every one of the twelve conditional self-tests as
    passed, whichever parameter sets the vectors cover. *)
Theorem post_marks_casts {E : Env} {A : AlgOps} {K : KatData} (st : qudo_st_ctx_t) (w w' : World)
  (Hrun : qudo_pqc_run_post_algorithms st w = Some (1, w'))
  (Hlen : length (g_cast_status (w_core w')) = 12%nat) :
  g_cast_status (w_core w') = replicate 12 QUDO_CAST_STATE_SUCCESS.
Proof.
  unfold qudo_pqc_run_post_algorithms in Hrun. do 6 apply post_check_inv in Hrun as [? Hrun].
  bind_in Hrun u w1 Hu. apply ret_inv in Hrun as [_ ->]. rewrite set_casts_run in Hu.
  2:{ unfold QUDO_CAST_COUNT. repeat (apply Forall_cons_2; [lia |]). constructor. }
  injection Hu as _ <-. revert Hlen. cbn [on_core w_core set_w_core g_cast_status set_g_cast_status].
  generalize (g_cast_status (w_core x4)) as cs. intros cs Hlen.
  assert (Hcs : length cs = 12%nat).
  { cbn [fold_left] in Hlen. now rewrite !length_wr in Hlen. }
  do 12 (destruct cs as [|? cs]; [discriminate |]). destruct cs; [reflexivity | discriminate].
Qed.

Lemma post_marks_casts_witness :
  match @qudo_pqc_run_post_algorithms plain_env toy_algs toy_kat (mk_st None 0 "" "") static_world with
  | Some (1, w') => g_cast_status (w_core w') = replicate 12 QUDO_CAST_STATE_SUCCESS
  | _ => False
  end.
Proof.
  destruct (@qudo_pqc_run_post_algorithms plain_env toy_algs toy_kat (mk_st None 0 "" "") static_world)
    as [[r w']|] eqn:Hrun; [| vm_compute in Hrun; discriminate].
  assert (Hr : r = 1) by (vm_compute in Hrun; congruence). subst r.
  apply (@post_marks_casts plain_env toy_algs toy_kat (mk_st None 0 "" "") static_world w' Hrun).
  vm_compute in Hrun. injection Hrun as <-. reflexivity.
Defined.
