(* ===== verification/Init.v ===== *)
(** * Module life cycle

    The rest of [src/qudo_pqc_init.c]: conditional self-tests on demand, the power-up self-tests,
    initialisation, self-test on demand, de-registration of callbacks, shutdown and unloading. *)

From stdpp Require Import base list numbers strings relations.
From Stdlib Require Import ZArith Lia.
From S2P Require Import Prelude Hmac Aes CtrDrbg World AuditLog State Rand RandService Algs Pct Integrity Post.

#[local] Open Scope Z_scope.

Section Init.
Context {E : Env} {B : BuildConfig} {A : AlgOps} {K : KatData} {F : FileIO} {G : Image} (I : AesImpl).

(** ** Conditional self-tests on demand *)

(** From the label [done]: record and report the result. *)
Definition cast_done (cast_id : Z) (alg_name : string) (r : Z * Z) : M Z :=
  let '(ret, err_code) := r in
  _ ← qudo_pqc_set_cast_status cast_id (if ret =? 0 then QUDO_CAST_STATE_FAILURE else QUDO_CAST_STATE_SUCCESS);
  _ ← when (ret =? 0) (qudo_audit_log QUDO_SEV_ERROR err_code QUDO_AUDIT_COMP_CAST alg_name);
  mret ret.

Definition run_cast_mlkem (alg_name : string) (cast_id : Z) : M Z :=
  _ ← qudo_pqc_set_cast_status cast_id QUDO_CAST_STATE_PROCESSING;
  r ← (kem ← QUDO_KEM_new alg_name;
       match kem with
       | None => mret (0, QUDO_ERR_CAST_FAIL)
       | Some kem =>
           pk ← qudo_malloc (kem_length_public_key kem);
           sk ← qudo_malloc (kem_length_secret_key kem);
           if negb pk || negb sk then mret (0, QUDO_ERR_CAST_FAIL)
           else
             r ← QUDO_KEM_keypair kem;
             let '(rc, (pk, sk)) := r in
             if negb (rc =? 0) then mret (0, QUDO_ERR_CAST_KEYGEN_FAIL)
             else ret ← qudo_pqc_mlkem_pct (Some kem) (Some pk) (Some sk) 0; mret (ret, QUDO_ERR_CAST_FAIL)
       end);
  cast_done cast_id alg_name r.

Definition run_cast_mldsa (alg_name : string) (cast_id : Z) : M Z :=
  _ ← qudo_pqc_set_cast_status cast_id QUDO_CAST_STATE_PROCESSING;
  r ← (sig ← QUDO_MLDSA_new alg_name;
       match sig with
       | None => mret (0, QUDO_ERR_CAST_FAIL)
       | Some sig =>
           pk ← qudo_malloc (mldsa_length_public_key sig);
           sk ← qudo_malloc (mldsa_length_secret_key sig);
           if negb pk || negb sk then mret (0, QUDO_ERR_CAST_FAIL)
           else
             r ← QUDO_MLDSA_keypair sig;
             let '(rc, (pk, sk)) := r in
             if negb (rc =? 0) then mret (0, QUDO_ERR_CAST_KEYGEN_FAIL)
             else ret ← qudo_pqc_mldsa_pct (Some sig) (Some pk) (Some sk); mret (ret, QUDO_ERR_CAST_FAIL)
       end);
  cast_done cast_id alg_name r.

Definition run_cast_slhdsa (param_set : string) (cast_id : Z) : M Z :=
  _ ← qudo_pqc_set_cast_status cast_id QUDO_CAST_STATE_PROCESSING;
  r ← (sig ← QUDO_SLHDSA_new param_set;
       match sig with
       | None => mret (0, QUDO_ERR_CAST_FAIL)
       | Some sig =>
           pk ← qudo_malloc (slhdsa_length_public_key sig);
           sk ← qudo_malloc (slhdsa_length_secret_key sig);
           if negb pk || negb sk then mret (0, QUDO_ERR_CAST_FAIL)
           else
             r ← QUDO_SLHDSA_keypair sig;
             let '(rc, (pk, sk)) := r in
             if negb (rc =? 0) then mret (0, QUDO_ERR_CAST_KEYGEN_FAIL)
             else ret ← qudo_pqc_slhdsa_pct (Some sig) (Some pk) (Some sk); mret (ret, QUDO_ERR_CAST_FAIL)
       end);
  cast_done cast_id param_set r.

(** [if (!test) ok = 0;] for each test in turn. *)
Fixpoint casts_loop (tests : list (M Z)) (ok : Z) : M Z :=
  match tests with
  | [] => mret ok
  | t :: tests => r ← t; casts_loop tests (if r =? 0 then 0 else ok)
  end.

Definition all_casts : list (M Z) :=
  [ run_cast_mlkem "ML-KEM-512" 0; run_cast_mlkem "ML-KEM-768" 1; run_cast_mlkem "ML-KEM-1024" 2;
    run_cast_mldsa "ML-DSA-44" 3; run_cast_mldsa "ML-DSA-65" 4; run_cast_mldsa "ML-DSA-87" 5;
    run_cast_slhdsa "SLH-DSA-SHA2-128f" 6; run_cast_slhdsa "SLH-DSA-SHA2-192f" 7;
    run_cast_slhdsa "SLH-DSA-SHA2-256f" 8; run_cast_slhdsa "SLH-DSA-SHAKE-128f" 9;
    run_cast_slhdsa "SLH-DSA-SHAKE-192f" 10; run_cast_slhdsa "SLH-DSA-SHAKE-256f" 11 ].

Definition qudo_pqc_run_all_casts : M Z :=
  _ ← qudo_audit_log QUDO_SEV_INFO QUDO_ERR_NONE QUDO_AUDIT_COMP_CAST "On-demand CAST starting";
  ok ← casts_loop all_casts 1;
  _ ← (if ok =? 0
       then qudo_audit_log QUDO_SEV_ERROR QUDO_ERR_CAST_FAIL QUDO_AUDIT_COMP_CAST "One or more CASTs failed"
       else qudo_audit_log QUDO_SEV_INFO QUDO_ERR_NONE QUDO_AUDIT_COMP_CAST "All CASTs passed");
  mret ok.

(** ** Power-up self-tests *)

Definition store_cnf (path mac : string) : M unit :=
  when (Nat.ltb (String.length path) 1024 && Nat.ltb (String.length mac) 256)
    (_ ← modify (on_core (set_g_stored_module_path path));
     _ ← modify (on_core (set_g_stored_module_mac mac));
     modify (on_core (set_g_stored_used_cnf 1))).

(** The integrity phase of a FIPS build: 1, or 0 for [goto done] with [ok = 0]. *)
Definition st_integrity (config : qudo_pqc_config_t) (st : qudo_st_ctx_t) : M Z :=
  match module_path config, module_checksum_hex config with
  | Some path, Some mac =>
      ok ← qudo_pqc_verify_integrity config st;
      if ok =? 0 then
        _ ← qudo_audit_log QUDO_SEV_FATAL QUDO_ERR_POST_INTEGRITY_FAIL QUDO_AUDIT_COMP_INTEGRITY
              "Config-based integrity verification failed";
        mret 0
      else
        _ ← store_cnf path mac;
        _ ← qudo_audit_log QUDO_SEV_INFO QUDO_ERR_NONE QUDO_AUDIT_COMP_INTEGRITY
              "Config-based integrity verification passed";
        _ ← qudo_pqc_post_mark_integrity_passed;
        mret 1
  | _, _ =>
      if QUDO_PQC_DISABLE_EMBEDDED_HMAC then
        _ ← qudo_audit_log QUDO_SEV_INFO QUDO_ERR_NONE QUDO_AUDIT_COMP_INTEGRITY
              "Embedded integrity disabled; host owns module integrity";
        _ ← qudo_pqc_post_mark_integrity_passed;
        mret 1
      else
        ret ← qudo_pqc_verify_integrity_embedded st;
        if ret =? 0 then
          _ ← qudo_audit_log QUDO_SEV_FATAL QUDO_ERR_INTEGRITY_MISMATCH QUDO_AUDIT_COMP_INTEGRITY
                "Embedded integrity verification failed";
          mret 0
        else if ret <? 0 then
          _ ← qudo_audit_log QUDO_SEV_FATAL QUDO_ERR_INTEGRITY_NO_CONFIG QUDO_AUDIT_COMP_INTEGRITY
                "No integrity config or embedded HMAC available";
          mret 0
        else
          _ ← qudo_audit_log QUDO_SEV_INFO QUDO_ERR_NONE QUDO_AUDIT_COMP_INTEGRITY
                "Embedded integrity verification passed";
          _ ← qudo_pqc_post_mark_integrity_passed;
          mret 1
  end.

Definition st_primitives (st : qudo_st_ctx_t) : M Z :=
  _ ← qudo_audit_log QUDO_SEV_INFO QUDO_ERR_NONE QUDO_AUDIT_COMP_POST "POST primitive KATs starting";
  ok ← qudo_pqc_run_post_primitives I st;
  if ok =? 0 then
    _ ← qudo_audit_log QUDO_SEV_FATAL QUDO_ERR_POST_KAT_FAIL QUDO_AUDIT_COMP_POST "POST primitive KATs failed";
    mret 0
  else
    _ ← qudo_audit_log QUDO_SEV_INFO QUDO_ERR_NONE QUDO_AUDIT_COMP_POST "POST primitive KATs passed";
    mret 1.

Definition st_seed : M Z :=
  rc ← qudo_fips_rand_seed_from_platform I;
  if negb (rc =? 0) then
    _ ← qudo_audit_log QUDO_SEV_FATAL QUDO_ERR_DRBG_SEED_FAIL QUDO_AUDIT_COMP_DRBG
          "Failed to seed DRBG from platform entropy";
    mret 0
  else mret 1.

Definition st_algorithms (st : qudo_st_ctx_t) : M Z :=
  _ ← qudo_audit_log QUDO_SEV_INFO QUDO_ERR_NONE QUDO_AUDIT_COMP_POST "POST algorithm KATs starting";
  ok ← qudo_pqc_run_post_algorithms st;
  if ok =? 0 then
    _ ← qudo_audit_log QUDO_SEV_FATAL QUDO_ERR_POST_KAT_FAIL QUDO_AUDIT_COMP_POST "POST algorithm KATs failed";
    mret 0
  else
    _ ← qudo_audit_log QUDO_SEV_INFO QUDO_ERR_NONE QUDO_AUDIT_COMP_POST "POST algorithm KATs passed";
    mret 1.

(** Everything before the final state change. *)
Definition self_tests_body (config : qudo_pqc_config_t) (st : qudo_st_ctx_t) : M Z :=
  if QUDO_FIPS_MODULE then
    ok ← st_integrity config st;
    if ok =? 0 then mret 0
    else
      ok ← st_primitives st;
      if ok =? 0 then mret 0
      else
        ok ← st_seed;
        if ok =? 0 then mret 0 else st_algorithms st
  else st_seed.

(** The final state change: RUNNING or ERROR. *)
Definition self_tests_finish (ok : Z) : M Z :=
  if ok =? 0 then
    _ ← set_state QUDO_PQC_STATE_ERROR;
    _ ← qudo_audit_log QUDO_SEV_FATAL QUDO_ERR_MODULE_ERROR_STATE QUDO_AUDIT_COMP_STATE "SELFTEST -> ERROR";
    mret ok
  else
    _ ← set_state QUDO_PQC_STATE_RUNNING;
    _ ← qudo_audit_log QUDO_SEV_INFO QUDO_ERR_NONE QUDO_AUDIT_COMP_STATE "SELFTEST -> RUNNING";
    mret ok.

Definition qudo_pqc_run_self_tests (config : qudo_pqc_config_t) : M Z :=
  ok ← self_tests_body config (mk_st (self_test_cb config) (self_test_cb_arg config) "" "");
  self_tests_finish ok.

(** ** Initialisation *)

Definition do_self_test_lock_init : M unit :=
  l ← qudo_rwlock_new; modify (on_core (set_g_self_test_lock l)).

Definition default_config : qudo_pqc_config_t :=
  mk_config None 0 None 0 None None None None None 1 None 0.

Definition set_callbacks (config : qudo_pqc_config_t) : M unit :=
  modify (on_core (fun c =>
    set_g_error_cb_arg (error_cb_arg config) (set_g_error_cb (error_cb config)
      (set_g_self_test_cb_arg (self_test_cb_arg config) (set_g_self_test_cb (self_test_cb config) c))))).

(** Initialisation of a module that is neither RUNNING nor in ERROR, under the lock. *)
Definition init_locked (config : qudo_pqc_config_t) : M Z :=
  _ ← set_callbacks config;
  _ ← qudo_audit_set_callback (audit_cb config) (audit_cb_arg config);
  _ ← modify (on_core (set_g_conditional_error_check (conditional_errors config)));
  _ ← modify (on_core (set_g_config_set 1));
  _ ← set_state QUDO_PQC_STATE_SELFTEST;
  _ ← qudo_audit_log QUDO_SEV_INFO QUDO_ERR_NONE QUDO_AUDIT_COMP_STATE "INIT -> SELFTEST (POST starting)";
  ok ← qudo_pqc_run_self_tests config;
  _ ← qudo_rwlock_unlock self_test_lock;
  mret ok.

Definition qudo_pqc_init (config : option qudo_pqc_config_t) : M Z :=
  let config := default default_config config in
  ok ← qudo_once (fun w => g_self_test_once (w_core w)) (on_core (set_g_self_test_once true)) do_self_test_lock_init;
  if ok =? 0 then mret 0
  else
    l ← gets (fun w => g_self_test_lock (w_core w));
    if negb (not_null l) then mret 0
    else
      state ← get_state;
      if state =? QUDO_PQC_STATE_RUNNING then
        ok ← qudo_rwlock_wrlock self_test_lock;
        if ok =? 0 then mret 0
        else
          _ ← set_callbacks config;
          _ ← (if not_null (audit_cb config) then qudo_audit_set_callback (audit_cb config) (audit_cb_arg config)
               else mret tt);
          _ ← qudo_rwlock_unlock self_test_lock;
          mret 1
      else if state =? QUDO_PQC_STATE_ERROR then mret 0
      else
        ok ← qudo_rwlock_wrlock self_test_lock;
        if ok =? 0 then mret 0
        else
          state ← get_state;
          if state =? QUDO_PQC_STATE_RUNNING then _ ← qudo_rwlock_unlock self_test_lock; mret 1
          else if state =? QUDO_PQC_STATE_ERROR then _ ← qudo_rwlock_unlock self_test_lock; mret 0
          else init_locked config.

(** ** Self-test on demand *)

Definition stored_config : M qudo_pqc_config_t :=
  p ← gets (fun w => g_stored_module_path (w_core w));
  m ← gets (fun w => g_stored_module_mac (w_core w));
  mret (mk_config None 0 None 0 None None None (Some p) (Some m) 0 None 0).

Definition on_demand_integrity (st : qudo_st_ctx_t) : M Z :=
  used ← gets (fun w => g_stored_used_cnf (w_core w));
  if negb (used =? 0) then cfg ← stored_config; qudo_pqc_verify_integrity cfg st
  else if QUDO_PQC_DISABLE_EMBEDDED_HMAC then mret 1
  else qudo_pqc_verify_integrity_embedded st.

(** The tests, with the module in SELFTEST. *)
Definition on_demand_tests (st : qudo_st_ctx_t) : M Z :=
  if QUDO_FIPS_MODULE then
    ret ← on_demand_integrity st;
    if ret <=? 0 then
      _ ← qudo_audit_log QUDO_SEV_FATAL (if ret =? 0 then QUDO_ERR_INTEGRITY_MISMATCH else QUDO_ERR_INTEGRITY_NO_CONFIG)
            QUDO_AUDIT_COMP_INTEGRITY "On-demand integrity verification failed";
      mret 0
    else
      _ ← qudo_audit_log QUDO_SEV_INFO QUDO_ERR_NONE QUDO_AUDIT_COMP_INTEGRITY
            "On-demand integrity verification passed";
      qudo_pqc_run_post I st
  else mret 1.

Definition on_demand_finish (ok : Z) : M unit :=
  if ok =? 0 then
    _ ← set_state QUDO_PQC_STATE_ERROR;
    qudo_audit_log QUDO_SEV_FATAL QUDO_ERR_POST_KAT_FAIL QUDO_AUDIT_COMP_POST "On-demand self-test failed"
  else
    _ ← set_state QUDO_PQC_STATE_RUNNING;
    qudo_audit_log QUDO_SEV_INFO QUDO_ERR_NONE QUDO_AUDIT_COMP_POST "On-demand self-test passed (KATs only)".

(** The part under the lock, in three steps: begin, tests, finish. *)
Definition self_test_begin : M qudo_st_ctx_t :=
  _ ← set_state QUDO_PQC_STATE_SELFTEST;
  cb ← gets (fun w => g_self_test_cb (w_core w));
  arg ← gets (fun w => g_self_test_cb_arg (w_core w));
  mret (mk_st cb arg "" "").

Definition self_test_locked : M Z :=
  st ← self_test_begin;
  ok ← on_demand_tests st;
  _ ← on_demand_finish ok;
  _ ← qudo_rwlock_unlock self_test_lock;
  mret ok.

Definition state_verdict (state : Z) : Z := if state =? QUDO_PQC_STATE_ERROR then 0 else 1.

Definition qudo_pqc_self_test : M Z :=
  set ← gets (fun w => g_config_set (w_core w));
  if set =? 0 then mret 0
  else
    l ← gets (fun w => g_self_test_lock (w_core w));
    if negb (not_null l) then mret 0
    else
      state ← get_state;
      if negb (state =? QUDO_PQC_STATE_RUNNING) then mret (state_verdict state)
      else
        ok ← qudo_rwlock_wrlock self_test_lock;
        if ok =? 0 then mret 0
        else
          state ← get_state;
          if negb (state =? QUDO_PQC_STATE_RUNNING) then
            _ ← qudo_rwlock_unlock self_test_lock; mret (state_verdict state)
          else self_test_locked.

(** ** Shutdown *)

Definition clear_callbacks : M unit :=
  modify (on_core (fun c =>
    set_g_error_cb_arg 0 (set_g_error_cb None (set_g_self_test_cb_arg 0 (set_g_self_test_cb None c))))).

Definition qudo_pqc_unregister_callbacks (arg : Z) : M unit :=
  l ← gets (fun w => g_self_test_lock (w_core w));
  if negb (not_null l) then mret tt
  else
    ok ← qudo_rwlock_wrlock self_test_lock;
    if ok =? 0 then mret tt
    else
      cur ← gets (fun w => g_self_test_cb_arg (w_core w));
      _ ← (if cur =? arg then _ ← clear_callbacks; qudo_audit_set_callback None 0 else mret tt);
      qudo_rwlock_unlock self_test_lock.

Definition qudo_pqc_fini : M unit :=
  l ← gets (fun w => g_self_test_lock (w_core w));
  _ ← (if not_null l then _ ← qudo_rwlock_wrlock self_test_lock; mret tt else mret tt);
  _ ← clear_callbacks;
  _ ← modify (on_core (set_g_error_reason None));
  _ ← qudo_pqc_post_reset_status;
  _ ← qudo_audit_set_callback None 0;
  _ ← modify (on_core (set_g_config_set 0));
  state ← get_state;
  _ ← when (negb (state =? QUDO_PQC_STATE_ERROR)) (set_state QUDO_PQC_STATE_INIT);
  _ ← (if not_null l then qudo_rwlock_unlock self_test_lock else mret tt);
  _ ← qudo_fips_rand_cleanup;
  qudo_audit_cleanup.

Definition qudo_dep_cleanup : M unit :=
  _ ← qudo_audit_cleanup;
  _ ← qudo_fips_rand_dep_cleanup;
  l ← gets (fun w => g_self_test_lock (w_core w));
  _ ← (if not_null l then qudo_rwlock_free self_test_lock else mret tt);
  modify (on_core (set_g_self_test_once false)).
End Init.
