(* ===== verification/Module.v ===== *)
(** * The module as a whole

    Every public operation, run from a state with the module's invariant, finishes (no self-deadlock)
    and re-establishes the invariant; ERROR is absorbing; unhealthy entropy leads to it; the logs stay within
    their limits.  Reachability is over sequences of
    public operations from the loaded image. *)

From stdpp Require Import base list numbers strings relations.
From Stdlib Require Import ZArith Lia.
From S2P Require Import Prelude Hmac Aes AesTTable CtrDrbg World AuditLog State Rand RandService Algs Pct Integrity Post Init.

#[local] Open Scope Z_scope.

(** ** Invariants *)

Section Module.
Context {E : Env} {HE : EnvOk E} {B : BuildConfig} {A : AlgOps} {K : KatData} {F : FileIO} {G : Image}.
Context (I : AesImpl) {HI : AesImplOk I} {HA : AlgOpsOk I A}.

(** What holds in every state, whoever holds the self-test lock. *)
Record base_inv (w : World) : Prop := {
  bi_audit : lock_free (g_audit_lock (w_audit w));
  bi_rlock : lock_free (g_fips_rand_lock (w_rand w));
  bi_rand : rand_wf I (w_rand w);
  bi_log : log_inv (w_log w);
  bi_cast : length (g_cast_status (w_core w)) = 12%nat;
  bi_level : 1 <= g_min_security_level w <= 5;
  bi_once : g_self_test_lock (w_core w) <> None -> env_once_ok = true /\ g_self_test_once (w_core w) = true }.

(** The self-tests whose success RUNNING stands for. *)
Definition tested (w : World) : Prop :=
  QUDO_FIPS_MODULE = true -> g_post_drbg_kat_passed (w_post w) = 1 /\ g_post_integrity_passed (w_post w) = 1.

(** What RUNNING stands for. *)
Definition serving (w : World) : Prop := tested w /\ g_self_test_lock (w_core w) <> None.

(** The module between two public calls. *)
Record module_inv (w : World) : Prop := {
  mi_base : base_inv w;
  mi_lock : lock_free (g_self_test_lock (w_core w));
  mi_running : g_module_state (w_core w) = QUDO_PQC_STATE_RUNNING -> serving w }.

Lemma base_inv_well_behaved w w' : base_inv w -> well_behaved I w w' -> base_inv w'.
Proof.
  intros [H1 H2 H3 H4 H5 H6 H7] [[(s & r & cs & Hc & Hs & Hl) Ha Hlog Hr Hk Hi Hm _] Hfree]. constructor.
  - now rewrite Ha.
  - exact Hfree.
  - auto.
  - eapply log_ext_inv; eassumption.
  - rewrite Hc. cbn. congruence.
  - now rewrite Hm.
  - rewrite Hc. exact H7.
Qed.

Lemma inv_callable w : module_inv w -> callable I w.
Proof. intros [[H1 H2 H3 _ _ _ _] Hl _]. constructor; auto. Qed.

(** A public call's effect on the state diagram: ERROR is final. *)
Definition keeps_error (w w' : World) : Prop :=
  g_module_state (w_core w) = QUDO_PQC_STATE_ERROR -> g_module_state (w_core w') = QUDO_PQC_STATE_ERROR.

Definition api_post (w w' : World) : Prop := module_inv w' /\ keeps_error w w'.

Lemma well_behaved_api w w' : module_inv w -> well_behaved I w w' -> api_post w w'.
Proof.
  intros [Hb Hl Hr] Hw. pose proof (evolves_state I _ _ (proj1 Hw)) as Hst. split.
  - constructor; [now apply (base_inv_well_behaved w) | rewrite (evolves_lock I _ _ (proj1 Hw)); exact Hl |].
    intros Hrun. destruct Hst as [Hs | Hs]; [| rewrite Hs in Hrun; discriminate]. rewrite Hs in Hrun.
    destruct (Hr Hrun) as [Ht Hn]. split; [| now rewrite (evolves_lock I _ _ (proj1 Hw))].
    intros Hf. destruct (Ht Hf) as [H1 H2]. split; [now apply (ev_kat _ _ _ (proj1 Hw)) | now apply (ev_int _ _ _ (proj1 Hw))].
  - intros He. destruct Hst as [Hs | Hs]; congruence.
Qed.

(** Every operation of the calculus is a public operation that keeps the invariant. *)
Lemma open_api {T} (m : M T) w : open_op I m -> module_inv w -> wp m (fun _ w' => api_post w w') w.
Proof.
  intros Hm Hw. eapply wp_mono; [| apply Hm; [now apply inv_callable | apply Hw]]. cbv beta. intros _ w' Hwb. now apply well_behaved_api.
Qed.

(** ** Conditional self-tests *)

Lemma cast_done_open i n r : open_op I (cast_done i n r).
Proof. unfold cast_done. destruct r as [ret code]. repeat open_step. Qed.

Ltac cast_open pct :=
  repeat first [ apply cast_done_open | apply pct | match goal with |- open_op _ (let '(_, _) := ?r in _) => destruct r as [? [? ?]] end | open_step ].

Lemma run_cast_mlkem_open n i : open_op I (run_cast_mlkem n i).
Proof. unfold run_cast_mlkem. cast_open (mlkem_pct_open I). Qed.

Lemma run_cast_mldsa_open n i : open_op I (run_cast_mldsa n i).
Proof. unfold run_cast_mldsa. cast_open (mldsa_pct_open I). Qed.

Lemma run_cast_slhdsa_open n i : open_op I (run_cast_slhdsa n i).
Proof. unfold run_cast_slhdsa. cast_open (slhdsa_pct_open I). Qed.

Lemma casts_loop_open ts : forall ok, Forall (open_op I) ts -> open_op I (casts_loop ts ok).
Proof. induction ts as [|t ts IH]; intros ok H; cbn [casts_loop]; [open_step |]. apply Forall_cons_1 in H as [Ht H]. open_step; auto. Qed.

Lemma run_all_casts_open : open_op I qudo_pqc_run_all_casts.
Proof.
  unfold qudo_pqc_run_all_casts. open_step; [open_step |]. open_step; [| repeat open_step]. apply casts_loop_open. unfold all_casts.
  repeat (apply Forall_cons_2; [first [apply run_cast_mlkem_open | apply run_cast_mldsa_open | apply run_cast_slhdsa_open] |]). constructor.
Qed.

(** ** Power-up self-tests *)

(** The self-test thread at work: it holds the lock, the module is in SELFTEST. *)
Record testing (w : World) : Prop := {
  te_base : base_inv w;
  te_lock : g_self_test_lock (w_core w) = Some WriteLocked;
  te_state : g_module_state (w_core w) = QUDO_PQC_STATE_SELFTEST }.

(** The lock is held; the state may have become ERROR. *)
Definition held (w : World) : Prop := base_inv w /\ g_self_test_lock (w_core w) = Some WriteLocked.

(** Self-tests passed stay passed. *)
Definition flags_kept (w w' : World) : Prop :=
  (g_post_drbg_kat_passed (w_post w) = 1 -> g_post_drbg_kat_passed (w_post w') = 1) /\
  (g_post_integrity_passed (w_post w) = 1 -> g_post_integrity_passed (w_post w') = 1).

#[local] Instance flags_kept_refl : Reflexive flags_kept.
Proof. split; auto. Qed.
#[local] Instance flags_kept_trans : Transitive flags_kept.
Proof. intros w1 w2 w3 [H1 H2] [H3 H4]. split; auto. Qed.

Lemma testing_held w : testing w -> held w.
Proof. intros []. now split. Qed.

Lemma testing_ready w : testing w -> ready I w.
Proof.
  intros [[H1 H2 H3 _ _ _ _] Hl Hs]. split; [| now right]. constructor; auto. rewrite Hs. discriminate.
Qed.

(** A well-behaved operation during the tests keeps the lock, and the passed tests; the module is still testing if the
    operation left it ready for more. *)
Lemma held_step w w' : held w -> well_behaved I w w' -> held w' /\ flags_kept w w'.
Proof.
  intros [Hb Hl] Hw. split; [split; [now apply (base_inv_well_behaved w) | now rewrite (evolves_lock I _ _ (proj1 Hw))] |].
  split; [apply (ev_kat _ _ _ (proj1 Hw)) | apply (ev_int _ _ _ (proj1 Hw))].
Qed.

Lemma testing_step w w' : testing w -> well_behaved I w w' -> ready I w' -> testing w'.
Proof.
  intros Ht Hw [_ Hr]. destruct (held_step w w' (testing_held w Ht) Hw) as [[Hb Hl] _]. constructor; [exact Hb | exact Hl |].
  destruct Hr as [[H | H] | H]; congruence.
Qed.

(** Running bookkeeping during the tests. *)
Lemma testing_op {T} (P : T -> Prop) (m : M T) w : quiet_op I P m -> testing w ->
  wp m (fun _ w' => testing w' /\ flags_kept w w') w.
Proof.
  intros Hm Ht. pose proof (testing_ready w Ht) as Hr. eapply wp_mono; [| apply Hm, callable_calm, Hr].
  cbv beta. intros _ w' (Hw & Hk & _). split; [apply (testing_step w); auto | now apply (held_step w); [apply testing_held |]].
Qed.

Lemma testing_audit sev code comp det w : 0 <= sev <= 3 -> testing w ->
  wp (qudo_audit_log sev code comp det) (fun _ w' => testing w' /\ flags_kept w w') w.
Proof. intros Hs. eapply testing_op. now apply quiet_audit. Qed.

(** The outcome of a phase: the tests go on, or they have failed. *)
Definition phase_post (good : World -> Prop) (w : World) (ok : Z) (w' : World) : Prop :=
  held w' /\ flags_kept w w' /\ (ok <> 0 -> testing w' /\ good w').

Lemma phase_fail good w w' : testing w' -> flags_kept w w' -> phase_post good w 0 w'.
Proof. intros Ht Hf. split; [now apply testing_held |]. split; [exact Hf | congruence]. Qed.

(** [audit; return 0]. *)
Lemma fail_wp good w w1 sev code comp det : 0 <= sev <= 3 -> testing w1 -> flags_kept w w1 ->
  wp (_ ← qudo_audit_log sev code comp det; mret 0) (phase_post good w) w1.
Proof.
  intros Hs Ht Hf. wp_step. eapply wp_mono; [| now apply testing_audit]. cbv beta. intros _ w2 [Ht2 Hf2].
  wp_step. apply phase_fail; [exact Ht2 | etransitivity; eassumption].
Qed.

Definition int_passed (w : World) : Prop := g_post_integrity_passed (w_post w) = 1.
Definition kat_passed (w : World) : Prop := g_post_drbg_kat_passed (w_post w) = 1.

(** [audit; mark; return 1]. *)
Lemma integrity_done_wp w w1 det : testing w1 -> flags_kept w w1 ->
  wp (_ ← qudo_audit_log QUDO_SEV_INFO QUDO_ERR_NONE QUDO_AUDIT_COMP_INTEGRITY det;
      _ ← qudo_pqc_post_mark_integrity_passed; mret 1) (phase_post int_passed w) w1.
Proof.
  intros Ht Hf. wp_step. eapply wp_mono; [| apply testing_audit; [severity | exact Ht]]. cbv beta. intros _ w2 [Ht2 Hf2].
  wp_step. unfold qudo_pqc_post_mark_integrity_passed. wp_step. wp_step.
  assert (Ht3 : testing (on_post (set_g_post_integrity_passed 1) w2))
    by (destruct Ht2 as [[]]; constructor; [constructor; assumption | assumption | assumption]).
  split; [now apply testing_held |]. split; [| intros _; now split].
  etransitivity; [exact Hf |]. etransitivity; [exact Hf2 |]. split; cbn; auto.
Qed.

Lemma store_cnf_wp p m w : testing w -> wp (store_cnf p m) (fun _ w' => testing w' /\ flags_kept w w') w.
Proof.
  intros Ht. unfold store_cnf. wp_step; [| split; [exact Ht | reflexivity]]. do 5 wp_step.
  split; [| split; cbn; auto]. destruct Ht as [[] Hl Hs]. constructor; [constructor; assumption | exact Hl | exact Hs].
Qed.

Lemma st_integrity_wp config st w : testing w -> wp (st_integrity config st) (phase_post int_passed w) w.
Proof.
  intros Ht. unfold st_integrity.
  assert (Hcnf : forall p m, wp (ok ← qudo_pqc_verify_integrity config st;
      if ok =? 0 then
        _ ← qudo_audit_log QUDO_SEV_FATAL QUDO_ERR_POST_INTEGRITY_FAIL QUDO_AUDIT_COMP_INTEGRITY
              "Config-based integrity verification failed"; mret 0
      else
        _ ← store_cnf p m;
        _ ← qudo_audit_log QUDO_SEV_INFO QUDO_ERR_NONE QUDO_AUDIT_COMP_INTEGRITY
              "Config-based integrity verification passed";
        _ ← qudo_pqc_post_mark_integrity_passed; mret 1) (phase_post int_passed w) w).
  { intros p m. wp_step. eapply wp_mono; [| eapply testing_op; [apply verify_integrity_quiet | exact Ht]].
    cbv beta. intros ok w1 [Ht1 Hf1]. destruct (ok =? 0); [apply fail_wp; [severity | assumption..] |].
    wp_step. eapply wp_mono; [| now apply store_cnf_wp]. cbv beta. intros _ w2 [Ht2 Hf2].
    apply integrity_done_wp; [exact Ht2 | etransitivity; eassumption]. }
  assert (Hemb : wp (if QUDO_PQC_DISABLE_EMBEDDED_HMAC then
        _ ← qudo_audit_log QUDO_SEV_INFO QUDO_ERR_NONE QUDO_AUDIT_COMP_INTEGRITY
              "Embedded integrity disabled; host owns module integrity";
        _ ← qudo_pqc_post_mark_integrity_passed; mret 1
      else
        ret ← qudo_pqc_verify_integrity_embedded st;
        if ret =? 0 then
          _ ← qudo_audit_log QUDO_SEV_FATAL QUDO_ERR_INTEGRITY_MISMATCH QUDO_AUDIT_COMP_INTEGRITY
                "Embedded integrity verification failed"; mret 0
        else if ret <? 0 then
          _ ← qudo_audit_log QUDO_SEV_FATAL QUDO_ERR_INTEGRITY_NO_CONFIG QUDO_AUDIT_COMP_INTEGRITY
                "No integrity config or embedded HMAC available"; mret 0
        else
          _ ← qudo_audit_log QUDO_SEV_INFO QUDO_ERR_NONE QUDO_AUDIT_COMP_INTEGRITY
                "Embedded integrity verification passed";
          _ ← qudo_pqc_post_mark_integrity_passed; mret 1) (phase_post int_passed w) w).
  { destruct QUDO_PQC_DISABLE_EMBEDDED_HMAC; [apply integrity_done_wp; [exact Ht | reflexivity] |].
    wp_step. eapply wp_mono; [| eapply testing_op; [apply verify_embedded_quiet | exact Ht]].
    cbv beta. intros ret w1 [Ht1 Hf1]. destruct (ret =? 0); [apply fail_wp; [severity | assumption..] |].
    destruct (ret <? 0); [apply fail_wp; [severity | assumption..] |]. now apply integrity_done_wp. }
  destruct (module_path config), (module_checksum_hex config); [apply Hcnf | exact Hemb..].
Qed.

(** A check that fails returns 0; one that passes went on to the rest. *)
Lemma post_check_nonzero t code msg rest w r w' : post_check t code msg rest w = Some (r, w') -> r <> 0 ->
  exists w1, rest w1 = Some (r, w').
Proof.
  unfold post_check. intros H Hr. bind_in H ok w1 Hok. destruct (ok =? 0); [| eauto].
  bind_in H u w2 Hu. apply ret_inv in H as [<- _]. congruence.
Qed.

Lemma primitives_flag st w r w' : qudo_pqc_run_post_primitives I st w = Some (r, w') -> r <> 0 -> kat_passed w'.
Proof.
  intros H Hr. unfold qudo_pqc_run_post_primitives in H.
  do 3 (apply post_check_nonzero in H as [? H]; [| exact Hr]). bind_in H u w1 Hu. apply ret_inv in H as [_ <-].
  injection Hu as _ <-. reflexivity.
Qed.

Lemma st_primitives_wp st w : testing w -> wp (st_primitives I st) (phase_post kat_passed w) w.
Proof.
  intros Ht. unfold st_primitives. wp_step. eapply wp_mono; [| apply testing_audit; [severity | exact Ht]].
  cbv beta. intros _ w1 [Ht1 Hf1]. wp_step.
  destruct (wp_run _ _ _ (testing_op _ _ _ (post_primitives_quiet I st) Ht1)) as (r & w2 & Hrun & Ht2 & Hf2).
  eapply wp_eq; [exact Hrun |]. cbv beta. assert (Hf : flags_kept w w2) by (etransitivity; eassumption).
  destruct (Z.eqb_spec r 0) as [-> | Hne]; [apply fail_wp; [severity | assumption..] |].
  wp_step. eapply wp_mono; [| apply testing_audit; [severity | exact Ht2]]. cbv beta. intros _ w3 [Ht3 Hf3]. wp_step.
  split; [now apply testing_held |]. split; [etransitivity; eassumption |]. intros _. split; [exact Ht3 |].
  apply Hf3. now apply (primitives_flag st w1 r w2).
Qed.

Lemma held_audit sev code comp det w : 0 <= sev <= 3 -> held w ->
  wp (qudo_audit_log sev code comp det) (fun _ w' => held w' /\ flags_kept w w' /\ w_core w' = w_core w) w.
Proof.
  intros Hs [Hb Hl]. eapply logs_wp; [apply logs_audit; [exact Hs | apply Hb] |]. intros l Hlog.
  split; [split; [| exact Hl] | split; [split; auto | reflexivity]].
  apply (base_inv_well_behaved w); [exact Hb |]. split; [now apply evolves_log | apply Hb].
Qed.

Lemma st_seed_wp w : testing w -> wp (st_seed I) (phase_post (fun _ => True) w) w.
Proof.
  intros Ht. unfold st_seed. wp_step.
  assert (Hca : callable I w) by apply (testing_ready w Ht).
  eapply wp_mono; [| now apply seed_from_platform_wp]. cbv beta. intros rc w1 (Hwb & Hp & Hok).
  assert (Hh : held w1).
  { split; [apply (base_inv_well_behaved w); [apply Ht | exact Hwb] |].
    rewrite (evolves_lock I _ _ (proj1 Hwb)). apply Ht. }
  assert (Hf : flags_kept w w1) by (unfold flags_kept; now rewrite Hp).
  destruct (Z.eqb_spec rc 0) as [-> | Hne]; cbn [negb].
  - wp_step. split; [exact Hh |]. split; [exact Hf |]. intros _. destruct (Hok eq_refl) as (Hc & H1 & H2 & _).
    split; [| exact Logic.I]. constructor; [apply Hh | apply Hh | rewrite Hc; apply Ht].
  - wp_step. eapply wp_mono; [| apply held_audit; [severity | exact Hh]]. cbv beta. intros _ w2 (Hh2 & Hf2 & _). wp_step.
    split; [exact Hh2 |]. split; [etransitivity; eassumption | congruence].
Qed.

Lemma st_algorithms_wp st w : testing w -> wp (st_algorithms st) (phase_post (fun _ => True) w) w.
Proof.
  intros Ht. unfold st_algorithms. wp_step. eapply wp_mono; [| apply testing_audit; [severity | exact Ht]]. cbv beta. intros _ w1 [Ht1 Hf1].
  wp_step. eapply wp_mono; [| apply (post_algorithms_safe I st w1), testing_ready, Ht1]. cbv beta. intros ok w2 [Hwb Hr].
  destruct (held_step w1 w2 (testing_held _ Ht1) Hwb) as [Hh2 Hf2]. assert (Hf : flags_kept w w2) by (etransitivity; eassumption).
  destruct (Z.eqb_spec ok 0) as [-> | Hne].
  - wp_step. eapply wp_mono; [| apply held_audit; [severity | exact Hh2]]. cbv beta. intros _ w3 (Hh3 & Hf3 & _). wp_step.
    split; [exact Hh3 |]. split; [etransitivity; eassumption | congruence].
  - destruct Hr as [Hr | Hr]; [| contradiction]. assert (Ht2 : testing w2) by now apply (testing_step w1).
    wp_step. eapply wp_mono; [| apply testing_audit; [severity | exact Ht2]]. cbv beta. intros _ w3 [Ht3 Hf3]. wp_step.
    split; [now apply testing_held |]. split; [etransitivity; eassumption |]. auto.
Qed.

(** All phases: on success the module is still SELFTEST and everything RUNNING stands for holds. *)
Lemma self_tests_body_wp config st w : testing w ->
  wp (self_tests_body I config st) (fun ok w' => held w' /\ (ok <> 0 -> tested w')) w.
Proof.
  intros Ht. unfold self_tests_body, tested. destruct QUDO_FIPS_MODULE eqn:Hfips.
  2:{ eapply wp_mono; [| now apply st_seed_wp]. cbv beta. intros ok w' (Hh & _ & _). split; [exact Hh | discriminate]. }
  wp_step. eapply wp_mono; [| now apply st_integrity_wp]. cbv beta. intros ok1 w1 (Hh1 & Hf1 & Hok1).
  destruct (Z.eqb_spec ok1 0) as [-> | Hne1]; [wp_step; split; [exact Hh1 | congruence] |].
  destruct (Hok1 Hne1) as [Ht1 Hint].
  wp_step. eapply wp_mono; [| now apply st_primitives_wp]. cbv beta. intros ok2 w2 (Hh2 & Hf2 & Hok2).
  destruct (Z.eqb_spec ok2 0) as [-> | Hne2]; [wp_step; split; [exact Hh2 | congruence] |].
  destruct (Hok2 Hne2) as [Ht2 Hkat].
  wp_step. eapply wp_mono; [| now apply st_seed_wp]. cbv beta. intros ok3 w3 (Hh3 & Hf3 & Hok3).
  destruct (Z.eqb_spec ok3 0) as [-> | Hne3]; [wp_step; split; [exact Hh3 | congruence] |].
  destruct (Hok3 Hne3) as [Ht3 _].
  eapply wp_mono; [| now apply st_algorithms_wp]. cbv beta. intros ok4 w4 (Hh4 & Hf4 & _).
  split; [exact Hh4 |]. intros _ _. split; [apply Hf4, Hf3, Hkat | apply Hf4, Hf3, Hf2, Hint].
Qed.

(** Storing a state under the lock. *)
Lemma held_set_state s w : held w -> held (on_core (set_g_module_state s) w).
Proof. intros [[] Hl]. split; [constructor; assumption | exact Hl]. Qed.

(** Releasing the lock turns a held state into one between calls. *)
Definition verdict (ok : Z) (w : World) : Prop :=
  (ok = 0 /\ g_module_state (w_core w) = QUDO_PQC_STATE_ERROR) \/
  (ok <> 0 /\ g_module_state (w_core w) = QUDO_PQC_STATE_RUNNING /\ tested w).

Lemma unlock_self_test w Q : g_self_test_lock (w_core w) = Some WriteLocked ->
  Q tt (on_core (set_g_self_test_lock (Some Unlocked)) w) -> wp (qudo_rwlock_unlock self_test_lock) Q w.
Proof. intros Hl HQ. unfold wp, qudo_rwlock_unlock. run_step. now rewrite Hl. Qed.

Lemma wrlock_self_test w Q : g_self_test_lock (w_core w) = Some Unlocked ->
  Q 1 (on_core (set_g_self_test_lock (Some WriteLocked)) w) -> wp (qudo_rwlock_wrlock self_test_lock) Q w.
Proof. intros Hl HQ. unfold wp, qudo_rwlock_wrlock. run_step. now rewrite Hl. Qed.

Lemma release_inv w : held w -> (g_module_state (w_core w) = QUDO_PQC_STATE_RUNNING -> tested w) ->
  module_inv (on_core (set_g_self_test_lock (Some Unlocked)) w).
Proof.
  intros [[] Hl] Hr. constructor; [constructor; try assumption; cbn; intros _; apply bi_once0; now rewrite Hl | now right |].
  intros H. split; [now apply Hr | discriminate].
Qed.

Lemma release_wp ok w : held w -> verdict ok w ->
  wp (_ ← qudo_rwlock_unlock self_test_lock; mret ok) (fun r w' => r = ok /\ module_inv w' /\ verdict ok w') w.
Proof.
  intros Hh Hv. wp_step. apply unlock_self_test; [apply Hh |]. wp_step. split; [reflexivity |].
  split; [| exact Hv]. apply release_inv; [exact Hh |]. intros Hr.
  destruct Hv as [[_ He] | (_ & _ & Ht)]; [rewrite He in Hr; discriminate | exact Ht].
Qed.

Lemma audit_verdict sev code comp det ok w : 0 <= sev <= 3 -> held w -> verdict ok w ->
  wp (qudo_audit_log sev code comp det) (fun _ w' => held w' /\ verdict ok w') w.
Proof.
  intros Hs Hh Hv. eapply wp_mono; [| now apply held_audit]. cbv beta. intros _ w' (Hh' & Hf & Hc).
  split; [exact Hh' |]. unfold verdict, tested in *. rewrite Hc. destruct Hv as [H | (H1 & H2 & H3)]; [now left | right].
  split; [exact H1 |]. split; [exact H2 |]. intros Hfips. destruct (H3 Hfips). split; now apply Hf.
Qed.

Lemma self_tests_finish_wp ok w : held w -> (ok <> 0 -> tested w) ->
  wp (self_tests_finish ok) (fun r w' => r = ok /\ held w' /\ verdict ok w') w.
Proof.
  intros Hh Ht. unfold self_tests_finish. destruct (Z.eqb_spec ok 0) as [Hz | Hne]; wp_step; unfold set_state; wp_step; wp_step.
  - eapply wp_mono; [| apply (audit_verdict _ _ _ _ ok); [severity | now apply held_set_state | now left]].
    cbv beta. intros _ w' [Hh' Hv]. wp_step. auto.
  - eapply wp_mono; [| apply (audit_verdict _ _ _ _ ok); [severity | now apply held_set_state | right; auto]].
    cbv beta. intros _ w' [Hh' Hv]. wp_step. auto.
Qed.

(** ** Callbacks *)

(** Only the audit callback, its lock and the allocation count change. *)
Definition only_audit (cb : option Z) (arg : Z) (w w' : World) : Prop :=
  exists a e, w' = set_w_env e (set_w_audit a w) /\ lock_free (g_audit_lock a) /\ g_audit_cb a = cb /\ g_audit_cb_arg a = arg.

Lemma only_audit_base cb arg w w' : only_audit cb arg w w' -> base_inv w -> base_inv w'.
Proof. intros (a & e & -> & Hl & _) []. now constructor. Qed.

Lemma audit_store_wp cb arg w : lock_free (g_audit_lock (w_audit w)) ->
  wp (l ← gets (fun w => g_audit_lock (w_audit w));
      _ ← (if not_null l then _ ← qudo_rwlock_wrlock audit_lock; mret tt else mret tt);
      _ ← modify (on_audit (set_g_audit_cb cb));
      _ ← modify (on_audit (set_g_audit_cb_arg arg));
      if not_null l then qudo_rwlock_unlock audit_lock else mret tt) (fun _ w' => only_audit cb arg w w') w.
Proof.
  intros Hl. destruct w as [c [acb aarg lk once] l r p m e al]. cbn in Hl.
  destruct Hl as [-> | ->]; unfold wp; run_step.
  - exists (mk_audit cb arg None once), e. split; [reflexivity | split; [now left | auto]].
  - exists (mk_audit cb arg (Some Unlocked) once), e. split; [reflexivity | split; [now right | auto]].
Qed.

Lemma audit_set_cb_wp cb arg w : lock_free (g_audit_lock (w_audit w)) ->
  wp (qudo_audit_set_callback cb arg) (fun _ w' => only_audit cb arg w w') w.
Proof.
  intros Hl. unfold qudo_audit_set_callback. wp_step. unfold qudo_once.
  destruct env_once_ok; cbn [negb]; [| wp_step; now apply audit_store_wp]. wp_step. wp_step.
  destruct (g_audit_lock_once (w_audit w)); [wp_step; now apply audit_store_wp |].
  unfold do_audit_lock_init, qudo_rwlock_new. do 11 wp_step.
  eapply wp_mono; [| apply audit_store_wp].
  - cbv beta. intros _ w' (a & e & -> & Ha). eexists a, e. split; [now destruct w | exact Ha].
  - cbn. destruct (env_malloc_ok _); [destruct (env_rwlock_init_ok _) |]; [now right | now left | now left].
Qed.

(** Registering and clearing callbacks under the self-test lock. *)
Lemma held_core f w : (forall c, g_self_test_lock (f c) = g_self_test_lock c /\ g_cast_status (f c) = g_cast_status c /\ g_self_test_once (f c) = g_self_test_once c) ->
  held w -> held (on_core f w).
Proof.
  intros Hf [[] Hl]. destruct (Hf (w_core w)) as (H1 & H2 & H3). split; [constructor; auto; cbn; rewrite ?H1, ?H2, ?H3; auto | cbn; congruence].
Qed.

Lemma held_audit_cb cb arg w : held w ->
  wp (qudo_audit_set_callback cb arg) (fun _ w' => held w' /\ only_audit cb arg w w') w.
Proof.
  intros [Hb Hl]. eapply wp_mono; [| apply audit_set_cb_wp; apply Hb]. cbv beta. intros _ w' Ho.
  split; [split; [now apply (only_audit_base cb arg w) |] | exact Ho]. destruct Ho as (a & e & -> & _). exact Hl.
Qed.

(** ** Initialisation *)

Lemma init_locked_wp config w : held w ->
  wp (init_locked I config) (fun ok w' => module_inv w' /\ verdict ok w') w.
Proof.
  intros Hh. unfold init_locked. wp_step. unfold set_callbacks. wp_step.
  wp_step. eapply wp_mono; [| apply held_audit_cb, held_core; [auto | exact Hh]].
  cbv beta. intros _ w1 (Hh1 & _). do 5 wp_step. unfold set_state. wp_step. wp_step.
  set (w2 := on_core (set_g_config_set 1) (on_core (set_g_conditional_error_check (conditional_errors config)) w1)).
  assert (Ht : testing (on_core (set_g_module_state QUDO_PQC_STATE_SELFTEST) w2)).
  { assert (Hh2 : held w2) by (apply held_core; [auto |]; apply held_core; [auto | exact Hh1]).
    destruct (held_set_state QUDO_PQC_STATE_SELFTEST w2 Hh2) as [Hb Hl]. constructor; [exact Hb | exact Hl | reflexivity]. }
  eapply wp_mono; [| apply testing_audit; [severity | exact Ht]]. cbv beta. intros _ w3 [Ht3 _].
  wp_step. unfold qudo_pqc_run_self_tests. wp_step.
  eapply wp_mono; [| now apply self_tests_body_wp]. cbv beta. intros ok w4 [Hh4 Hok4].
  eapply wp_mono; [| now apply self_tests_finish_wp]. cbv beta. intros r w5 (-> & Hh5 & Hv).
  eapply wp_mono; [| now apply (release_wp ok)]. cbv beta. intros r w6 (-> & Hi & Hv6). now split.
Qed.

(** The callbacks of [config] in the state of [qudo_pqc_init.c]. *)
Definition with_callbacks (config : qudo_pqc_config_t) (c : core_t) : core_t :=
  set_g_error_cb_arg (error_cb_arg config) (set_g_error_cb (error_cb config)
    (set_g_self_test_cb_arg (self_test_cb_arg config) (set_g_self_test_cb (self_test_cb config) c))).

(** Exactly the callbacks are replaced, that of the audit log if there is a new one. *)
Record callbacks_replaced (config : qudo_pqc_config_t) (w w' : World) : Prop := {
  cr_core : w_core w' = with_callbacks config (w_core w);
  cr_cb : g_audit_cb (w_audit w') = if not_null (audit_cb config) then audit_cb config else g_audit_cb (w_audit w);
  cr_arg : g_audit_cb_arg (w_audit w') = if not_null (audit_cb config) then audit_cb_arg config else g_audit_cb_arg (w_audit w);
  cr_silent : not_null (audit_cb config) = false -> w_audit w' = w_audit w /\ w_env w' = w_env w;
  cr_log : w_log w' = w_log w;
  cr_rand : w_rand w' = w_rand w;
  cr_post : w_post w' = w_post w;
  cr_level : g_min_security_level w' = g_min_security_level w;
  cr_alg : w_alg w' = w_alg w }.

(** What [qudo_pqc_init] promises. *)
Definition init_post (config : option qudo_pqc_config_t) (w : World) (ok : Z) (w' : World) : Prop :=
  module_inv w' /\ keeps_error w w' /\
  (ok = 1 -> g_module_state (w_core w') = QUDO_PQC_STATE_RUNNING) /\
  (g_module_state (w_core w) = QUDO_PQC_STATE_ERROR -> ok = 0 /\ w_rand w' = w_rand w) /\
  (g_module_state (w_core w) = QUDO_PQC_STATE_RUNNING -> ok = 1 /\ callbacks_replaced (default default_config config) w w') /\
  (g_module_state (w_core w) <> QUDO_PQC_STATE_RUNNING -> g_module_state (w_core w) <> QUDO_PQC_STATE_ERROR ->
     verdict ok w' \/ (ok = 0 /\ g_module_state (w_core w') = g_module_state (w_core w) /\ (env_once_ok = false \/ g_self_test_lock (w_core w') = None))).

(** The lock is there, or is created once. *)
Lemma self_test_once_wp w : module_inv w ->
  wp (qudo_once (fun w => g_self_test_once (w_core w)) (on_core (set_g_self_test_once true)) do_self_test_lock_init)
     (fun r w' => module_inv w' /\ g_module_state (w_core w') = g_module_state (w_core w) /\
        w_rand w' = w_rand w /\ (r = 0 -> env_once_ok = false) /\ (g_module_state (w_core w) = QUDO_PQC_STATE_RUNNING -> w' = w)) w.
Proof.
  intros Hi. pose proof Hi as [[H1 H2 H3 H4 H5 H6 Ho] Hl Hr]. unfold qudo_once. destruct env_once_ok eqn:He; cbn [negb]; [| wp_step; split_and!; auto].
  wp_step. wp_step. destruct (g_self_test_once (w_core w)) eqn:Hon; [wp_step; split_and!; auto; discriminate |].
  unfold do_self_test_lock_init, qudo_rwlock_new. do 10 wp_step.
  assert (Hnr : g_module_state (w_core w) <> QUDO_PQC_STATE_RUNNING).
  { intros Hrun. destruct (Ho (proj2 (Hr Hrun))) as [_ Ho2]. congruence. }
  split; [| split_and!; auto; [discriminate | contradiction]].
  constructor; [constructor; try assumption; auto | | intros Hrun; contradiction].
  cbn. destruct (env_malloc_ok _); [destruct (env_rwlock_init_ok _) |]; [now right | now left | now left].
Qed.

Lemma lock_free_held w : module_inv w -> not_null (g_self_test_lock (w_core w)) = true ->
  g_self_test_lock (w_core w) = Some Unlocked /\ held (on_core (set_g_self_test_lock (Some WriteLocked)) w).
Proof.
  intros [[] Hl _] Hn. pose proof (lock_free_cases _ Hl Hn) as Hf. split; [exact Hf |]. split; [| reflexivity].
  constructor; try assumption. cbn. intros _. apply bi_once0. now rewrite Hf.
Qed.

(** Initialisation in RUNNING. *)
Lemma init_running_wp config w : module_inv w -> g_module_state (w_core w) = QUDO_PQC_STATE_RUNNING ->
  wp (ok ← qudo_rwlock_wrlock self_test_lock;
      if ok =? 0 then mret 0
      else
        _ ← set_callbacks config;
        _ ← (if not_null (audit_cb config) then qudo_audit_set_callback (audit_cb config) (audit_cb_arg config) else mret tt);
        _ ← qudo_rwlock_unlock self_test_lock;
        mret 1) (fun ok w' => module_inv w' /\ ok = 1 /\ callbacks_replaced config w w') w.
Proof.
  intros Hi Hrun. destruct (mi_running _ Hi Hrun) as [Ht Hn].
  destruct (lock_free_held w Hi) as [Hfree Hh]; [now destruct (g_self_test_lock (w_core w)) |].
  wp_step. apply wrlock_self_test; [exact Hfree |]. change (1 =? 0) with false. cbv iota. wp_step. unfold set_callbacks. wp_step.
  set (w2 := on_core _ (on_core _ w)). assert (Hh2 : held w2) by (apply held_core; auto).
  assert (Hcore : set_g_self_test_lock (Some Unlocked) (w_core w2) = with_callbacks config (w_core w)).
  { subst w2. destruct w as [[]]. cbn in Hfree. now subst. }
  assert (Hfin : forall w3, held w3 -> w_core w3 = w_core w2 -> w_post w3 = w_post w ->
    callbacks_replaced config w (on_core (set_g_self_test_lock (Some Unlocked)) w3) ->
    wp (_ ← qudo_rwlock_unlock self_test_lock; mret 1) (fun ok w' => module_inv w' /\ ok = 1 /\ callbacks_replaced config w w') w3).
  { intros w3 Hh3 Hc3 Hp3 Hcr. wp_step. apply unlock_self_test; [apply Hh3 |]. wp_step. split; [| now split].
    apply release_inv; [exact Hh3 |]. intros _. unfold tested. rewrite Hp3. exact Ht. }
  wp_step. destruct (not_null (audit_cb config)) eqn:Hcb.
  - eapply wp_mono; [| now apply held_audit_cb]. cbv beta. intros _ w3 [Hh3 (a & e & -> & Hla & Hc1 & Hc2)].
    apply Hfin; [exact Hh3 | reflexivity | reflexivity |]. constructor; rewrite ?Hcb; try reflexivity; try discriminate; assumption.
  - wp_step. apply Hfin; [exact Hh2 | reflexivity | reflexivity |]. constructor; rewrite ?Hcb; try reflexivity; auto.
Qed.

Lemma init_wp config w : module_inv w -> wp (qudo_pqc_init I config) (init_post config w) w.
Proof.
  intros Hi. unfold qudo_pqc_init. wp_step. eapply wp_mono; [| now apply self_test_once_wp].
  cbv beta. intros r w1 (Hi1 & Hs1 & Hr1 & Honce & Hsame). unfold init_post, keeps_error. rewrite <- Hs1, <- Hr1.
  assert (Hnot : g_module_state (w_core w1) = QUDO_PQC_STATE_RUNNING -> env_once_ok = true /\ g_self_test_lock (w_core w1) <> None).
  { intros Hrun. destruct (mi_running _ Hi1 Hrun) as [_ Hn]. split; [apply (bi_once _ (mi_base _ Hi1) Hn) | exact Hn]. }
  destruct (Z.eqb_spec r 0) as [Hz | _].
  { wp_step. split_and!; auto; try discriminate; [| auto 6]. intros Hrun. destruct (Hnot Hrun) as [He _]. rewrite (Honce Hz) in He. discriminate. }
  wp_step. wp_step. destruct (not_null (g_self_test_lock (w_core w1))) eqn:Hn; cbn [negb].
  2:{ assert (Hnone : g_self_test_lock (w_core w1) = None) by (destruct (g_self_test_lock (w_core w1)); [discriminate | reflexivity]).
      wp_step. split_and!; auto 6; try discriminate. intros Hrun. destruct (Hnot Hrun) as [_ He]. contradiction. }
  destruct (lock_free_held w1 Hi1 Hn) as [Hfree Hh]. unfold get_state. wp_step. wp_step.
  destruct (Z.eqb_spec (g_module_state (w_core w1)) QUDO_PQC_STATE_RUNNING) as [Hrun | Hnr].
  - assert (Hw : w1 = w) by (apply Hsame; congruence). subst w1.
    eapply wp_mono; [| now apply init_running_wp]. cbv beta. intros ok w' (Hi' & -> & Hcr).
    assert (Hst : g_module_state (w_core w') = QUDO_PQC_STATE_RUNNING) by (rewrite (cr_core _ _ _ Hcr); exact Hrun).
    rewrite Hrun. split_and!; auto; try discriminate; congruence.
  - destruct (Z.eqb_spec (g_module_state (w_core w1)) QUDO_PQC_STATE_ERROR) as [He | Hne].
    { wp_step. split_and!; auto; try discriminate; congruence. }
    wp_step. apply wrlock_self_test; [exact Hfree |]. change (1 =? 0) with false. cbv iota. wp_step. wp_step.
    cbn [on_core w_core set_w_core g_module_state set_g_self_test_lock].
    rewrite (proj2 (Z.eqb_neq _ _) Hnr), (proj2 (Z.eqb_neq _ _) Hne).
    eapply wp_mono; [| now apply init_locked_wp]. cbv beta. intros ok w2 [Hi2 Hv]. split; [exact Hi2 |].
    split; [congruence |]. split; [| split; [congruence | split; [congruence | auto]]].
    intros ->. destruct Hv as [[? _] | (_ & Hr & _)]; [discriminate | exact Hr].
Qed.

(** ** Self-test on demand *)

Lemma on_demand_integrity_quiet st : quiet_op I (fun _ => True) (on_demand_integrity st).
Proof.
  unfold on_demand_integrity, stored_config. eapply quiet_bind; [now apply (quiet_gets _ (fun _ => True)) |]. intros used _. destruct (negb _).
  - eapply (quiet_bind _ (fun _ => True)); [repeat quiet_step | intros; apply verify_integrity_quiet].
  - destruct QUDO_PQC_DISABLE_EMBEDDED_HMAC; [quiet_step | apply verify_embedded_quiet].
Qed.

Lemma on_demand_tests_safe st : safe_op I (fun ok => ok = 0) (on_demand_tests I st).
Proof.
  unfold on_demand_tests. destruct QUDO_FIPS_MODULE; [| apply safe_ret]. eapply safe_bind_quiet; [apply on_demand_integrity_quiet |].
  intros ret _. destruct (ret <=? 0); [repeat safe_step |]. safe_step. now apply run_post_safe.
Qed.

Lemma self_test_locked_wp w : held w -> tested w ->
  wp (self_test_locked I) (fun ok w' => module_inv w' /\ verdict ok w') w.
Proof.
  intros Hh Ht. unfold self_test_locked, self_test_begin, set_state. do 7 wp_step. wp_step.
  set (w1 := on_core (set_g_module_state QUDO_PQC_STATE_SELFTEST) w).
  assert (Ht1 : testing w1) by (destruct (held_set_state QUDO_PQC_STATE_SELFTEST w Hh); now constructor).
  wp_step. eapply wp_mono; [| apply (on_demand_tests_safe _ w1), testing_ready, Ht1]. cbv beta. intros ok w2 [Hwb _].
  destruct (held_step w1 w2 (testing_held _ Ht1) Hwb) as [Hh2 Hf].
  assert (Hted : tested w2) by (intros Hfips; destruct (Ht Hfips) as [H1 H2]; split; [now apply Hf | now apply Hf]).
  wp_step. unfold on_demand_finish, set_state. destruct (Z.eqb_spec ok 0) as [Hz | Hne]; wp_step; wp_step.
  - eapply wp_mono; [| apply (audit_verdict _ _ _ _ ok); [severity | now apply held_set_state | now left]].
    cbv beta. intros _ w' [Hh' Hv]. eapply wp_mono; [| now apply (release_wp ok)]. cbv beta. intros r w6 (-> & Hi & Hv6). now split.
  - eapply wp_mono; [| apply (audit_verdict _ _ _ _ ok); [severity | now apply held_set_state | right; auto]].
    cbv beta. intros _ w' [Hh' Hv]. eapply wp_mono; [| now apply (release_wp ok)]. cbv beta. intros r w6 (-> & Hi & Hv6). now split.
Qed.

(** What [qudo_pqc_self_test] promises. *)
Definition self_test_post (w : World) (ok : Z) (w' : World) : Prop :=
  module_inv w' /\ keeps_error w w' /\
  (g_config_set (w_core w) <> 0 -> g_self_test_lock (w_core w) <> None ->
   g_module_state (w_core w) = QUDO_PQC_STATE_RUNNING -> verdict ok w') /\
  (g_module_state (w_core w) <> QUDO_PQC_STATE_RUNNING -> w' = w) /\
  (g_module_state (w_core w) = QUDO_PQC_STATE_ERROR -> ok = 0).

Lemma self_test_wp w : module_inv w -> wp (qudo_pqc_self_test I) (self_test_post w) w.
Proof.
  intros Hi. unfold qudo_pqc_self_test, self_test_post, keeps_error. wp_step. wp_step.
  destruct (Z.eqb_spec (g_config_set (w_core w)) 0) as [Hz | Hset]; [wp_step; split_and!; auto; congruence |].
  wp_step. wp_step. destruct (not_null (g_self_test_lock (w_core w))) eqn:Hn; cbn [negb].
  2:{ wp_step. split_and!; auto. intros _ H. destruct (g_self_test_lock (w_core w)); [discriminate | congruence]. }
  destruct (lock_free_held w Hi Hn) as [Hfree Hh]. unfold get_state. wp_step. wp_step.
  destruct (Z.eqb_spec (g_module_state (w_core w)) QUDO_PQC_STATE_RUNNING) as [Hrun | Hnr]; cbn [negb].
  2:{ wp_step. split_and!; auto; [congruence |]. intros He. unfold state_verdict. now rewrite He. }
  wp_step. apply wrlock_self_test; [exact Hfree |]. change (1 =? 0) with false. cbv iota. wp_step. wp_step.
  cbn [on_core w_core set_w_core g_module_state set_g_self_test_lock]. rewrite Hrun. cbn [Z.eqb negb].
  change (QUDO_PQC_STATE_RUNNING =? QUDO_PQC_STATE_RUNNING) with true. cbn [negb].
  eapply wp_mono; [| apply self_test_locked_wp; [exact Hh | apply (mi_running _ Hi Hrun)]].
  cbv beta. intros ok w' [Hi' Hv]. split_and!; auto; discriminate || congruence.
Qed.

(** ** Shutdown *)

Lemma unregister_wp arg w : module_inv w -> wp (qudo_pqc_unregister_callbacks arg)
  (fun _ w' => api_post w w' /\ g_module_state (w_core w') = g_module_state (w_core w) /\ w_rand w' = w_rand w) w.
Proof.
  intros Hi. unfold qudo_pqc_unregister_callbacks. wp_step. wp_step.
  destruct (not_null (g_self_test_lock (w_core w))) eqn:Hn; cbn [negb]; [| wp_step; split; [split; [exact Hi | intros H; exact H] | auto]].
  destruct (lock_free_held w Hi Hn) as [Hfree Hh].
  wp_step. apply wrlock_self_test; [exact Hfree |]. change (1 =? 0) with false. cbv iota. wp_step. wp_step. wp_step.
  set (w1 := on_core (set_g_self_test_lock (Some WriteLocked)) w) in *.
  assert (Hfin : forall w2, held w2 -> g_module_state (w_core w2) = g_module_state (w_core w) -> w_post w2 = w_post w -> w_rand w2 = w_rand w ->
            wp (qudo_rwlock_unlock self_test_lock)
              (fun _ w' => api_post w w' /\ g_module_state (w_core w') = g_module_state (w_core w) /\ w_rand w' = w_rand w) w2).
  { intros w2 Hh2 Hs2 Hp2 Hr2. apply unlock_self_test; [apply Hh2 |]. split; [| now split]. split.
    - apply release_inv; [exact Hh2 |]. rewrite Hs2. unfold tested. rewrite Hp2. apply (mi_running _ Hi).
    - intros He. cbn. now rewrite Hs2. }
  destruct (_ =? arg).
  - wp_step. unfold clear_callbacks. wp_step.
    eapply wp_mono; [| apply held_audit_cb, held_core; [auto | exact Hh]]. cbv beta. intros _ w2 [Hh2 (a & e & -> & _)]. now apply Hfin.
  - wp_step. now apply Hfin.
Qed.

Lemma audit_cleanup_run w : lock_free (g_audit_lock (w_audit w)) ->
  qudo_audit_cleanup w = Some (tt, set_w_audit (mk_audit None 0 None false) w).
Proof.
  intros Hl. destruct w as [c [cb arg lk once] l r p m e al]. cbn in Hl.
  destruct Hl as [-> | ->]; unfold qudo_audit_cleanup; run_step; reflexivity.
Qed.

Lemma wiped_wf r : rand_wf I (wiped r).
Proof. constructor; [reflexivity |]. intros H. now contradiction H. Qed.

(** The part of [qudo_pqc_fini] after the lock: everything is cleared but a latched ERROR. *)
Definition fini_post (w w' : World) : Prop :=
  module_inv w' /\ keeps_error w w' /\
  (g_module_state (w_core w) <> QUDO_PQC_STATE_ERROR -> g_module_state (w_core w') = QUDO_PQC_STATE_INIT) /\
  g_fips_rand_ready (w_rand w') = 0 /\ g_config_set (w_core w') = 0 /\
  g_post_drbg_kat_passed (w_post w') = 0 /\ g_post_integrity_passed (w_post w') = 0 /\
  (g_fips_rand_ready (w_rand w) <> 0 -> w_rand w' = wiped (w_rand w)).

Lemma fini_tail_wp w w2 (l : QUDO_RWLOCK) : base_inv w2 ->
  w_rand w2 = w_rand w -> g_module_state (w_core w2) = g_module_state (w_core w) ->
  g_self_test_lock (w_core w2) = l -> (not_null l = true -> l = Some WriteLocked) ->
  w_post w2 = mk_post 0 0 ->
  wp (_ ← modify (on_core (set_g_config_set 0));
      state ← get_state;
      _ ← when (negb (state =? QUDO_PQC_STATE_ERROR)) (set_state QUDO_PQC_STATE_INIT);
      _ ← (if not_null l then qudo_rwlock_unlock self_test_lock else mret tt);
      _ ← qudo_fips_rand_cleanup;
      qudo_audit_cleanup) (fun _ w' => fini_post w w') w2.
Proof.
  intros Hb Hr Hs Hl Hlk Hp. unfold get_state, set_state. do 4 wp_step. wp_step.
  set (s' := if negb (g_module_state (w_core w) =? QUDO_PQC_STATE_ERROR) then QUDO_PQC_STATE_INIT else g_module_state (w_core w)).
  set (w3 := on_core (set_g_module_state s') (on_core (set_g_config_set 0) w2)).
  assert (Hw3 : wp (when (negb (g_module_state (w_core (on_core (set_g_config_set 0) w2)) =? QUDO_PQC_STATE_ERROR))
                     (modify (on_core (set_g_module_state QUDO_PQC_STATE_INIT)))) (fun _ w' => w' = w3) (on_core (set_g_config_set 0) w2)).
  { change (g_module_state (w_core (on_core (set_g_config_set 0) w2))) with (g_module_state (w_core w2)).
    subst w3 s'. rewrite <- Hs. destruct (negb _) eqn:Hd; cbn [when]; wp_step; [reflexivity |]. now destruct w2 as [[]]. }
  eapply wp_mono; [| exact Hw3]. cbv beta. intros _ w' ->. wp_step.
  assert (Hunl : wp (if not_null l then qudo_rwlock_unlock self_test_lock else mret tt)
            (fun _ w' => w' = on_core (set_g_self_test_lock (if not_null l then Some Unlocked else None)) w3) w3).
  { destruct (not_null l) eqn:Hn.
    - apply unlock_self_test; [| reflexivity]. cbn. rewrite Hl. auto.
    - wp_step. destruct l; [discriminate |]. subst w3. destruct w2 as [[]]. cbn in Hl. now subst. }
  eapply wp_mono; [| exact Hunl]. cbv beta. intros _ w' ->. clear Hw3 Hunl.
  set (w4 := on_core _ w3). wp_step. eapply wp_eq; [apply rand_cleanup_run; apply Hb |].
  set (w5 := if _ =? 0 then w4 else on_rand wiped w4).
  assert (Hw5 : w_audit w5 = w_audit w2 /\ w_core w5 = w_core w4 /\ w_log w5 = w_log w2 /\ w_post w5 = mk_post 0 0 /\
            g_min_security_level w5 = g_min_security_level w2 /\
            w_rand w5 = (if g_fips_rand_ready (w_rand w) =? 0 then w_rand w else wiped (w_rand w))).
  { subst w5. change (w_rand w4) with (w_rand w2). rewrite Hr.
    destruct (g_fips_rand_ready (w_rand w) =? 0); cbn; rewrite ?Hr; split_and!; auto. }
  destruct Hw5 as (Ha5 & Hc5 & Hl5 & Hp5 & Hm5 & Hr5).
  eapply wp_eq; [apply audit_cleanup_run; rewrite Ha5; apply Hb |]. destruct Hb as [B1 B2 B3 B4 B5 B6 B7].
  unfold fini_post, keeps_error. cbn [set_w_audit w_core w_rand w_post]. rewrite Hc5, Hr5, Hp5.
  change (g_module_state (w_core w4)) with s'. subst s'.
  split_and!.
  - constructor.
    + rewrite Hr in B2, B3. constructor; cbn [set_w_audit w_core w_rand w_audit w_log g_min_security_level].
      * now left.
      * rewrite Hr5. destruct (g_fips_rand_ready (w_rand w) =? 0); exact B2.
      * rewrite Hr5. destruct (g_fips_rand_ready (w_rand w) =? 0); [exact B3 | apply wiped_wf].
      * now rewrite Hl5.
      * rewrite Hc5. exact B5.
      * now rewrite Hm5.
      * rewrite Hc5. cbn. intros Hn. apply B7. rewrite Hl. destruct l; [discriminate | contradiction].
    + cbn [set_w_audit w_core]. rewrite Hc5. cbn. destruct (not_null l); [now right | now left].
    + cbn [set_w_audit w_core w_post]. rewrite Hc5. cbn.
      destruct (Z.eqb_spec (g_module_state (w_core w)) QUDO_PQC_STATE_ERROR) as [-> | _]; discriminate.
  - intros ->. reflexivity.
  - intros Hne. now rewrite (proj2 (Z.eqb_neq _ _) Hne).
  - destruct (Z.eqb_spec (g_fips_rand_ready (w_rand w)) 0); [assumption | reflexivity].
  - reflexivity.
  - reflexivity.
  - reflexivity.
  - intros Hne. now rewrite (proj2 (Z.eqb_neq _ _) Hne).
Qed.

Lemma fini_wp w : module_inv w -> wp qudo_pqc_fini (fun _ w' => fini_post w w') w.
Proof.
  intros Hi. pose proof (mi_base _ Hi) as Hb. unfold qudo_pqc_fini. wp_step. wp_step.
  set (l := g_self_test_lock (w_core w)).
  assert (Hlock : wp (if not_null l then _ ← qudo_rwlock_wrlock self_test_lock; mret tt else mret tt)
            (fun _ w1 => w1 = on_core (set_g_self_test_lock (if not_null l then Some WriteLocked else None)) w) w).
  { destruct (not_null l) eqn:Hn.
    - wp_step. apply wrlock_self_test; [apply lock_free_cases; [apply Hi | exact Hn] |]. now wp_step.
    - wp_step. destruct w as [[]]. cbn in l. subst l. destruct g_self_test_lock; [discriminate | reflexivity]. }
  wp_step. eapply wp_mono; [| exact Hlock]. cbv beta. intros _ w1 ->. clear Hlock.
  unfold clear_callbacks, qudo_pqc_post_reset_status. do 8 wp_step.
  set (w2 := on_post _ _). assert (Hb2 : base_inv w2).
  { destruct Hb. constructor; try assumption. cbn. intros Hn. apply bi_once0. fold l. now destruct l. }
  wp_step. eapply wp_mono; [| apply audit_set_cb_wp; apply Hb2]. cbv beta. intros _ w3 Ho.
  assert (Hb3 : base_inv w3) by (now apply (only_audit_base None 0 w2)). destruct Ho as (a & e & -> & _).
  pose proof (fini_tail_wp w (set_w_env e (set_w_audit a w2)) (if not_null l then Some WriteLocked else None) Hb3
                eq_refl eq_refl eq_refl) as Htail.
  destruct (not_null l); apply Htail; reflexivity || discriminate.
Qed.

(** ** The other public operations *)

Lemma rand_bytes_open (o : bytes) n : (n <= length o)%nat -> open_op I (qudo_fips_rand_bytes I (Some o) n).
Proof. intros Hn w Hc _. eapply wp_mono; [| now apply rand_bytes_wp]. cbv beta. now intros r w' [Hw _]. Qed.

Lemma rand_seed_open : open_op I (qudo_fips_rand_seed_from_platform I).
Proof. intros w Hc _. eapply wp_mono; [| now apply seed_from_platform_wp]. cbv beta. now intros r w' [Hw _]. Qed.

Lemma rand_init_open e : are_bytes e -> open_op I (qudo_fips_rand_init I (Some e) (length e)).
Proof.
  intros He w Hc _. eapply wp_mono; [| apply rand_init_wp; try assumption; [apply Hc | reflexivity]].
  cbv beta. intros r w' (Hev & Hl & _). split; [apply Hev, Hc | exact Hl].
Qed.

Lemma rand_reseed_open e : are_bytes e -> open_op I (qudo_fips_rand_reseed I (Some e) (length e)).
Proof. intros He w Hc _. eapply wp_mono; [| now apply rand_reseed_wp]. cbv beta. now intros r w' [Hw _]. Qed.

Lemma set_error_open t : open_op I (qudo_pqc_set_error_state t).
Proof.
  intros w Hc _. destruct (set_error_run t w) as (l & Hr & Hl); [apply Hc |]. eapply wp_eq; [exact Hr |].
  split; [| apply Hc]. etransitivity; [apply (evolves_error I t w) | now apply evolves_log].
Qed.

Lemma is_running_open : open_op I qudo_pqc_is_running.
Proof.
  intros w Hc Hl. eapply logs_wp; [apply logs_is_running; [intros _; exact Hl | apply Hc] |]. intros l Hle.
  split; [now apply evolves_log | apply Hc].
Qed.

Lemma rand_cleanup_api w : module_inv w -> wp qudo_fips_rand_cleanup (fun _ w' => api_post w w') w.
Proof.
  intros Hi. eapply wp_eq; [apply rand_cleanup_run; apply Hi |]. destruct (_ =? 0); [split; [exact Hi | intros H; exact H] |].
  destruct Hi as [[] Hl Hr]. split; [| intros H; exact H]. constructor; [| exact Hl | exact Hr].
  constructor; try assumption. apply wiped_wf.
Qed.


Lemma only_audit_inv cb arg w w' : only_audit cb arg w w' -> module_inv w -> api_post w w'.
Proof.
  intros Ho Hi. assert (Hb : base_inv w') by (apply (only_audit_base cb arg w); [exact Ho | apply Hi]).
  destruct Ho as (a & e & -> & _). split; [| intros H; exact H]. constructor; [exact Hb | apply Hi | apply (mi_running _ Hi)].
Qed.

Lemma audit_cb_api cb arg w : module_inv w -> wp (qudo_audit_set_callback cb arg) (fun _ w' => api_post w w') w.
Proof. intros Hi. eapply wp_mono; [| apply audit_set_cb_wp; apply Hi]. cbv beta. intros _ w' Ho. now apply (only_audit_inv cb arg). Qed.

(** ** Runs of the module *)

(** The public operations.  [OpAlg] is any call of an algorithm wrapper or of a pairwise test: an
    operation of the calculus. *)
Inductive api : Type -> Type :=
| OpInit (config : option qudo_pqc_config_t) : api Z
| OpSelfTest : api Z
| OpUnregister (arg : Z) : api unit
| OpFini : api unit
| OpCasts : api Z
| OpSetError (type : option string) : api unit
| OpSetCast (id status : Z) : api unit
| OpAuditCallback (cb : option Z) (arg : Z) : api unit
| OpIsRunning : api bool
| OpRandBytes (o : bytes) (n : nat) : api (Z * option bytes)
| OpRandSeed : api Z
| OpRandInit (e : bytes) : api Z
| OpRandReseed (e : bytes) : api Z
| OpRandCleanup : api unit
| OpAlg {T} (m : M T) : api T.

Definition run_api {T} (op : api T) : M T :=
  match op in api T return M T with
  | OpInit config => qudo_pqc_init I config
  | OpSelfTest => qudo_pqc_self_test I
  | OpUnregister arg => qudo_pqc_unregister_callbacks arg
  | OpFini => qudo_pqc_fini
  | OpCasts => qudo_pqc_run_all_casts
  | OpSetError type => qudo_pqc_set_error_state type
  | OpSetCast id status => qudo_pqc_set_cast_status id status
  | OpAuditCallback cb arg => qudo_audit_set_callback cb arg
  | OpIsRunning => qudo_pqc_is_running
  | OpRandBytes o n => qudo_fips_rand_bytes I (Some o) n
  | OpRandSeed => qudo_fips_rand_seed_from_platform I
  | OpRandInit e => qudo_fips_rand_init I (Some e) (length e)
  | OpRandReseed e => qudo_fips_rand_reseed I (Some e) (length e)
  | OpRandCleanup => qudo_fips_rand_cleanup
  | OpAlg m => m
  end.

(** A proper call: buffers have the length they are given with, inputs are bytes; a wrapper's operation finishes and is
    well-behaved when the self-test lock is free. *)
Definition proper {T} (op : api T) : Prop :=
  match op with
  | OpRandBytes o n => (n <= length o)%nat
  | OpRandInit e | OpRandReseed e => are_bytes e
  | OpAlg m => open_op I m
  | _ => True
  end.

Lemma api_wp {T} (op : api T) w : module_inv w -> proper op -> wp (run_api op) (fun _ w' => api_post w w') w.
Proof.
  intros Hi Hp. destruct op; cbn [run_api proper] in *.
  - eapply wp_mono; [| now apply init_wp]. cbv beta. intros ok w' (H1 & H2 & _). now split.
  - eapply wp_mono; [| now apply self_test_wp]. cbv beta. intros ok w' (H1 & H2 & _). now split.
  - eapply wp_mono; [| now apply unregister_wp]. cbv beta. now intros _ w' [H _].
  - eapply wp_mono; [| now apply fini_wp]. cbv beta. intros ok w' (H1 & H2 & _). now split.
  - apply open_api; [apply run_all_casts_open | exact Hi].
  - apply open_api; [apply set_error_open | exact Hi].
  - apply open_api; [open_step | exact Hi].
  - now apply audit_cb_api.
  - apply open_api; [apply is_running_open | exact Hi].
  - apply open_api; [now apply rand_bytes_open | exact Hi].
  - apply open_api; [apply rand_seed_open | exact Hi].
  - apply open_api; [now apply rand_init_open | exact Hi].
  - apply open_api; [now apply rand_reseed_open | exact Hi].
  - now apply rand_cleanup_api.
  - now apply open_api.
Qed.

(** One completed call. *)
Inductive step (w w' : World) : Prop :=
| step_call T (op : api T) (r : T) : proper op -> run_api op w = Some (r, w') -> step w w'.

(** The image after its constructor has run. *)
Definition loaded : World := set_w_core (set_g_module_state QUDO_PQC_STATE_SELFTEST (w_core static_world)) static_world.

Lemma loaded_run : qudo_dep_init static_world = Some (tt, loaded).
Proof. reflexivity. Qed.

Lemma loaded_inv : module_inv loaded.
Proof.
  constructor; [constructor | now left | discriminate].
  - now left.
  - now left.
  - constructor; [reflexivity |]. intros H. now contradiction H.
  - constructor; [reflexivity | | cbn; lia]. intros sev Hs.
    assert (Hc : sev = 0 \/ sev = 1 \/ sev = 2 \/ sev = 3) by lia.
    destruct Hc as [-> | [-> | [-> | ->]]]; vm_compute; split; congruence.
  - reflexivity.
  - cbn. lia.
  - intros H. now contradiction H.
Qed.

Lemma step_api w w' : module_inv w -> step w w' -> api_post w w'.
Proof.
  intros Hi [T op r Hp Hr]. pose proof (api_wp op w Hi Hp) as Hw. unfold wp in Hw. now rewrite Hr in Hw.
Qed.

Lemma run_inv w w' : rtc step w w' -> module_inv w -> api_post w w'.
Proof.
  induction 1 as [w | w1 w2 w3 Hs _ IH]; intros Hi; [split; [exact Hi | intros H; exact H] |].
  destruct (step_api _ _ Hi Hs) as [Hi2 Hk]. destruct (IH Hi2) as [Hi3 Hk3]. split; [exact Hi3 | intros H; auto].
Qed.

(** *** A latched health failure *)

(** The calls that may clear it: shutdown and clean-up of the generator. *)
Definition clears {T} (op : api T) : bool :=
  match op with OpFini | OpRandCleanup => true | _ => false end.

(** One completed call of the others. *)
Inductive kept_step (w w' : World) : Prop :=
| kept_call T (op : api T) (r : T) : proper op -> clears op = false -> run_api op w = Some (r, w') -> kept_step w w'.

Definition latched (w : World) : Prop :=
  module_inv w /\ g_module_state (w_core w) = QUDO_PQC_STATE_ERROR /\ g_health_failed (w_rand w) <> 0.

Lemma latched_well_behaved w w' : latched w -> well_behaved I w w' -> latched w'.
Proof.
  intros (Hi & He & Hf) Hw. destruct (well_behaved_api w w' Hi Hw) as [Hi' Hk]. split; [exact Hi' |]. split; [auto |].
  now apply (ev_latch _ _ _ (proj1 Hw)).
Qed.

Lemma latched_open {T} (m : M T) w : open_op I m -> latched w -> wp m (fun _ w' => latched w') w.
Proof.
  intros Hm Hw. eapply wp_mono; [| apply Hm; [apply inv_callable, Hw | apply Hw]]. cbv beta. intros _ w'. now apply latched_well_behaved.
Qed.

(** The calls that leave the generator alone. *)
Lemma latched_same w w' : latched w -> module_inv w' -> keeps_error w w' -> w_rand w' = w_rand w -> latched w'.
Proof. intros (_ & He & Hf) Hi Hk Hr. split; [exact Hi |]. split; [auto | now rewrite Hr]. Qed.

Lemma latched_api {T} (op : api T) w : proper op -> clears op = false -> latched w -> wp (run_api op) (fun _ w' => latched w') w.
Proof.
  intros Hp Hc Hw. pose proof Hw as (Hi & He & _). destruct op; cbn [run_api proper clears] in *; try discriminate.
  - eapply wp_mono; [| now apply init_wp]. cbv beta. intros ok w' (H1 & H2 & _ & H3 & _). apply (latched_same w); auto. now apply H3.
  - eapply wp_mono; [| now apply self_test_wp]. cbv beta. intros ok w' (_ & _ & _ & H & _). rewrite H; [exact Hw |]. rewrite He. discriminate.
  - eapply wp_mono; [| now apply unregister_wp]. cbv beta. intros _ w' [[H1 H2] [_ H3]]. now apply (latched_same w).
  - apply latched_open; [apply run_all_casts_open | exact Hw].
  - apply latched_open; [apply set_error_open | exact Hw].
  - apply latched_open; [open_step | exact Hw].
  - eapply wp_mono; [| apply audit_set_cb_wp; apply Hi]. cbv beta. intros _ w' Ho.
    pose proof (only_audit_inv cb arg w w' Ho Hi) as [H1 H2]. destruct Ho as (a & e & -> & _). now apply (latched_same w).
  - apply latched_open; [apply is_running_open | exact Hw].
  - apply latched_open; [now apply rand_bytes_open | exact Hw].
  - apply latched_open; [apply rand_seed_open | exact Hw].
  - apply latched_open; [now apply rand_init_open | exact Hw].
  - apply latched_open; [now apply rand_reseed_open | exact Hw].
  - now apply latched_open.
Qed.

Lemma latched_run w w' : rtc kept_step w w' -> latched w -> latched w'.
Proof.
  induction 1 as [w | w1 w2 w3 [T op r Hp Hc Hr] _ IH]; intros Hw; [exact Hw |]. apply IH.
  pose proof (latched_api op w1 Hp Hc Hw) as H. unfold wp in H. now rewrite Hr in H.
Qed.
End Module.

(** ** The module's promises *)

Section Promises.
Context {E : Env} {HE : EnvOk E} {B : BuildConfig} {A : AlgOps} {K : KatData} {F : FileIO} {G : Image}.


(** C7. The ERROR state is final: once the module is in ERROR, no sequence of public calls (a shutdown
    and a new initialisation included) leads out of it; initialisation returns 0, the module does not
    report itself running, and no random bits are served. *)
Theorem error_is_final (I : AesImpl) {HI : AesImplOk I} {HA : AlgOpsOk I A} (w w' : World)
  (Hreach : rtc (step I) loaded w)
  (He : g_module_state (w_core w) = QUDO_PQC_STATE_ERROR) (Hrun : rtc (step I) w w') :
  g_module_state (w_core w') = QUDO_PQC_STATE_ERROR /\
  (forall config, exists w'', qudo_pqc_init I config w' = Some (0, w'')) /\
  (exists w'', qudo_pqc_is_running w' = Some (false, w'')) /\
  (forall o n, exists w'', qudo_fips_rand_bytes I (Some o) n w' = Some ((-1, Some o), w'')).
Proof.
  destruct (run_inv I _ _ Hreach (loaded_inv I)) as [Hi _].
  destruct (run_inv I _ _ Hrun Hi) as [Hi' Hk]. specialize (Hk He). split; [exact Hk |]. split; [| split].
  - intros config. destruct (wp_run _ _ _ (init_wp I config w' Hi')) as (ok & w'' & Hr & _ & _ & _ & H0 & _).
    exists w''. now rewrite Hr, (proj1 (H0 Hk)).
  - destruct (logs_is_running w') as (l & Hr & _); [intros _; apply Hi' | apply Hi' |].
    rewrite Hk in Hr. eauto.
  - intros o n. destruct (rand_bytes_refused I w' (Some o) n) as (l & Hr & _); [now apply inv_callable | | eauto].
    unfold rand_refuses, in_service. now rewrite Hk.
Qed.

(** C34. The reports stay within their limits: in every reachable state at most 100 audit records of each
    severity have been delivered to the application, exactly as many as the counters say; the error state has been reported
    through the error callback (code 1) at most as often as the report counter says, and that is at most 10. *)
Theorem reports_are_limited (I : AesImpl) {HI : AesImplOk I} {HA : AlgOpsOk I A} (w : World) (sev : Z)
  (Hreach : rtc (step I) loaded w) (Hs : 0 <= sev <= 3) :
  rd (g_audit_count (w_log w)) (Z.to_nat sev) = Z.of_nat (audit_events sev (trace (w_log w))) /\
  (audit_events sev (trace (w_log w)) <= 100)%nat /\
  Z.of_nat (report_events (trace (w_log w))) <= g_error_report_count (w_log w) /\
  0 <= g_error_report_count (w_log w) <= 10 /\ (report_events (trace (w_log w)) <= 10)%nat.
Proof.
  destruct (run_inv I _ _ Hreach (loaded_inv I)) as [[Hb _ _] _]. destruct (bi_log _ _ Hb) as [_ Hc Hr].
  destruct (Hc sev Hs) as [H1 H2]. unfold QUDO_AUDIT_RATE_LIMIT in H2. split; [exact H1 | lia].
Qed.

(** C25. Initialisation decides.  In every reachable state [qudo_pqc_init] finishes.  In RUNNING it returns 1 and
    replaces the callbacks of the self-tests, of errors and (if there is a new one) of the audit log by those of the
    configuration, and nothing else ([callbacks_replaced]; setting an audit callback may set up the audit log's lock).  In ERROR it returns 0 and the module stays
    there, the generator untouched.  In any other state, unless the module's lock cannot be created (then it returns 0 and the state stays),
    it returns non-zero with the module RUNNING and (in a FIPS build) integrity and DRBG tests
    recorded as passed, or returns 0 with the module in ERROR. *)
Theorem init_decides (I : AesImpl) {HI : AesImplOk I} {HA : AlgOpsOk I A} (w : World) (config : option qudo_pqc_config_t)
  (Hreach : rtc (step I) loaded w) :
  exists ok w', qudo_pqc_init I config w = Some (ok, w') /\
    (g_module_state (w_core w) = QUDO_PQC_STATE_RUNNING -> ok = 1 /\ callbacks_replaced (default default_config config) w w') /\
    (g_module_state (w_core w) = QUDO_PQC_STATE_ERROR ->
       ok = 0 /\ g_module_state (w_core w') = QUDO_PQC_STATE_ERROR /\ w_rand w' = w_rand w) /\
    (g_module_state (w_core w) <> QUDO_PQC_STATE_RUNNING -> g_module_state (w_core w) <> QUDO_PQC_STATE_ERROR ->
       (ok <> 0 /\ g_module_state (w_core w') = QUDO_PQC_STATE_RUNNING /\
          (QUDO_FIPS_MODULE = true -> g_post_drbg_kat_passed (w_post w') = 1 /\ g_post_integrity_passed (w_post w') = 1)) \/
       (ok = 0 /\ g_module_state (w_core w') = QUDO_PQC_STATE_ERROR) \/
       (ok = 0 /\ g_module_state (w_core w') = g_module_state (w_core w) /\
          (env_once_ok = false \/ g_self_test_lock (w_core w') = None))).
Proof.
  destruct (run_inv I _ _ Hreach (loaded_inv I)) as [Hi _].
  destruct (wp_run _ _ _ (init_wp I config w Hi)) as (ok & w' & Hr & _ & Hk & _ & He & H1 & H2).
  exists ok, w'. split; [exact Hr |]. split; [exact H1 |]. split; [intros H; destruct (He H); auto |]. intros Hnr Hne.
  destruct (H2 Hnr Hne) as [[H | H] | H]; [right; left; exact H | left; exact H | right; right; exact H].
Qed.

(** C18. Unhealthy entropy is never used, and a failure of the health tests stays.  Let the module be in a reachable state in which no
    health test has failed yet, and [s] the bytes tested so far.  If the platform answers the reads of the next seeding (the 16 start-up reads of 64
    bytes, if they are still due, then the 48 bytes of the seed) with [bs] and the stream fails the continuous tests of SP 800-90B somewhere in them,
    then the request for entropy and the seeding fail, the module is in ERROR with the DRBG health test as the reason, and after any public calls but
    [qudo_pqc_fini] and [qudo_fips_rand_cleanup] (which clear the latch) it still is, and every request for entropy fails without reading the
    platform's source. *)
Theorem unhealthy_entropy_latches (I : AesImpl) {HI : AesImplOk I} {HA : AlgOpsOk I A} (w : World) (s : bytes) (bs : list bytes)
  (Hreach : rtc (step I) loaded w) (Hnf : g_health_failed (w_rand w) = 0) (Hsees : sees w s)
  (Hd : delivers (n_entropy (w_env w)) (seed_reads w) bs) (Hbad : ~ healthy (s ++ concat bs)) :
  exists w', platform_entropy FIPS_RAND_SEEDLEN w = Some (None, w') /\
    qudo_fips_rand_seed_from_platform I w = Some (-1, w') /\
    g_module_state (w_core w') = QUDO_PQC_STATE_ERROR /\ g_error_reason (w_core w') = Some QUDO_ST_TYPE_DRBG_HEALTH /\
    forall w'' len, rtc (kept_step I) w' w'' ->
      g_module_state (w_core w'') = QUDO_PQC_STATE_ERROR /\ platform_entropy len w'' = Some (None, w'') /\
      qudo_fips_rand_seed_from_platform I w'' = Some (-1, w'').
Proof.
  destruct (run_inv I _ _ Hreach (loaded_inv I)) as [Hi _].
  destruct (unhealthy_request w s bs (bi_audit _ _ (mi_base _ _ Hi)) Hnf Hsees Hd Hbad) as (w' & Hr & He).
  assert (Hseed : forall v v', platform_entropy FIPS_RAND_SEEDLEN v = Some (None, v') -> qudo_fips_rand_seed_from_platform I v = Some (-1, v')).
  { intros v v' Hv. unfold qudo_fips_rand_seed_from_platform. now rewrite (bind_run _ _ _ _ _ Hv). }
  exists w'. split; [exact Hr |]. split; [auto |]. split; [apply He |]. split; [apply He |]. intros w'' len Hrun.
  pose proof (rand_seed_open I w (inv_callable _ _ Hi) (mi_lock _ _ Hi)) as Hwb. unfold wp in Hwb. rewrite (Hseed _ _ Hr) in Hwb.
  destruct (latched_run I w' w'' Hrun) as (_ & H1 & H2).
  { split; [now apply (well_behaved_api I w) |]. split; [apply He |]. now rewrite (he_latch _ He). }
  split; [exact H1 |]. split; [now apply latched_request | now apply Hseed, latched_request].
Qed.

(** C31. Shutdown clears: from every reachable state [qudo_pqc_fini] finishes with the generator wiped,
    the recorded self-test results reset and the configuration forgotten, and takes the module back to
    INIT unless an ERROR is latched. *)
Theorem fini_clears (I : AesImpl) {HI : AesImplOk I} {HA : AlgOpsOk I A} (w : World)
  (Hreach : rtc (step I) loaded w) :
  exists w', qudo_pqc_fini w = Some (tt, w') /\
    g_module_state (w_core w') = (if g_module_state (w_core w) =? QUDO_PQC_STATE_ERROR then QUDO_PQC_STATE_ERROR
                                  else QUDO_PQC_STATE_INIT) /\
    g_fips_rand_ready (w_rand w') = 0 /\
    (g_fips_rand_ready (w_rand w) <> 0 -> w_rand w' = wiped (w_rand w)) /\
    g_config_set (w_core w') = 0 /\ g_post_drbg_kat_passed (w_post w') = 0 /\ g_post_integrity_passed (w_post w') = 0.
Proof.
  destruct (run_inv I _ _ Hreach (loaded_inv I)) as [Hi _].
  destruct (wp_run _ _ _ (fini_wp I w Hi)) as ([] & w' & Hr & _ & Hk & Hs & H1 & H2 & H3 & H4 & H5).
  exists w'. split; [exact Hr |]. split; [| auto].
  destruct (Z.eqb_spec (g_module_state (w_core w)) QUDO_PQC_STATE_ERROR) as [He | Hne]; auto.
Qed.

(** C38. A fatal error reported by another thread during the self-tests is lost: the last step of a
    self-test on demand (and of the power-up self-tests) that has found nothing wrong stores RUNNING
    whatever the state is by then, so that a module which [qudo_pqc_set_error_state] has put into ERROR
    in between is RUNNING again, with the reason of the error still recorded. *)
Theorem concurrent_error_is_lost (w : World) (type : string)
  (Ha : lock_free (g_audit_lock (w_audit w))) (Ht : type <> QUDO_ST_TYPE_PCT) (Ht' : type <> QUDO_ST_TYPE_PCT_IMPORT) :
  (exists w1 w2, qudo_pqc_set_error_state (Some type) w = Some (tt, w1) /\
     g_module_state (w_core w1) = QUDO_PQC_STATE_ERROR /\ on_demand_finish 1 w1 = Some (tt, w2) /\
     g_module_state (w_core w2) = QUDO_PQC_STATE_RUNNING /\ g_error_reason (w_core w2) = Some type) /\
  (exists w1 w2, qudo_pqc_set_error_state (Some type) w = Some (tt, w1) /\
     g_module_state (w_core w1) = QUDO_PQC_STATE_ERROR /\ self_tests_finish 1 w1 = Some (1, w2) /\
     g_module_state (w_core w2) = QUDO_PQC_STATE_RUNNING /\ g_error_reason (w_core w2) = Some type).
Proof.
  destruct (set_error_run (Some type) w Ha) as (l & Hr & _).
  assert (Hee : enter_error (Some type) (w_core w)
                = set_g_error_reason (Some type) (set_g_module_state QUDO_PQC_STATE_ERROR (w_core w))).
  { unfold enter_error. rewrite !bool_decide_eq_false_2 by congruence. reflexivity. }
  unfold on_core in Hr. rewrite Hee in Hr. set (w1 := set_w_log l _) in Hr.
  assert (Hl1 : lock_free (g_audit_lock (w_audit (on_core (set_g_module_state QUDO_PQC_STATE_RUNNING) w1)))) by exact Ha.
  split; exists w1; eexists; (split; [exact Hr |]); (split; [reflexivity |]).
  - unfold on_demand_finish, set_state, mbind, M_bind, modify. cbn [Z.eqb].
    rewrite audit_log_run by exact Hl1. split; [reflexivity |]. split; reflexivity.
  - unfold self_tests_finish, set_state, mbind, M_bind, modify, mret, M_ret. cbn [Z.eqb].
    rewrite audit_log_run by exact Hl1. split; [reflexivity |]. split; reflexivity.
Qed.
End Promises.

(** ** Examples *)


(** The state after a fatal error of a loaded module. *)
Definition failed_world : World :=
  set_w_core (set_g_error_reason (Some "DRBG_Health"%string) (set_g_module_state QUDO_PQC_STATE_ERROR (w_core loaded))) loaded.

Lemma failed_reachable :
  @step plain_env demo_config toy_algs toy_kat one_file unpatched_image AesCt loaded failed_world.
Proof. apply (step_call AesCt loaded failed_world unit (OpSetError (Some "DRBG_Health"%string)) tt); [exact Logic.I | reflexivity]. Qed.

Lemma error_is_final_witness :
  exists w', @qudo_pqc_fini plain_env failed_world = Some (tt, w') /\ g_module_state (w_core w') = QUDO_PQC_STATE_ERROR /\
    exists w'', @qudo_pqc_init plain_env demo_config toy_algs toy_kat one_file unpatched_image AesCt None w' = Some (0, w'').
Proof.
  destruct (@qudo_pqc_fini plain_env failed_world) as [[[] w']|] eqn:Hf; [| vm_compute in Hf; discriminate].
  exists w'. split; [reflexivity |].
  destruct (@error_is_final plain_env plain_env_ok demo_config toy_algs toy_kat one_file unpatched_image AesCt AesCtOk
              toy_algs_ok failed_world w' (rtc_once _ _ failed_reachable) eq_refl) as (H1 & H2 & _).
  - apply rtc_once. apply (step_call AesCt failed_world w' unit OpFini tt); [exact Logic.I | exact Hf].
  - split; [exact H1 | apply H2].
Defined.

(** The state after a successful initialisation of a FIPS build with the default configuration. *)
Definition running_world : World :=
  match @qudo_pqc_init plain_env demo_config toy_algs toy_kat one_file unpatched_image AesTT None loaded with
  | Some (_, w) => w
  | None => loaded
  end.

Lemma running_reachable :
  @step plain_env demo_config toy_algs toy_kat one_file unpatched_image AesTT loaded running_world.
Proof.
  apply (step_call AesTT loaded running_world Z (OpInit None) 1); [exact Logic.I |]. vm_compute. reflexivity.
Qed.

Lemma toy_algs_tt : @AlgOpsOk plain_env demo_config AesTT toy_algs.
Proof. constructor; intros; apply safe_ret. Qed.

(** The first initialisation of the image ends RUNNING; a second one only replaces the callbacks. *)
Definition new_callbacks : qudo_pqc_config_t := mk_config (Some 5) 6 (Some 7) 8 None None None None None 1 (Some 9) 10.

Lemma init_decides_witness :
  (exists w', @qudo_pqc_init plain_env demo_config toy_algs toy_kat one_file unpatched_image AesTT None loaded = Some (1, w') /\
     g_module_state (w_core w') = QUDO_PQC_STATE_RUNNING) /\
  (exists w', @qudo_pqc_init plain_env demo_config toy_algs toy_kat one_file unpatched_image AesTT (Some new_callbacks) running_world
              = Some (1, w') /\ callbacks_replaced new_callbacks running_world w').
Proof.
  split.
  - destruct (@init_decides plain_env plain_env_ok demo_config toy_algs toy_kat one_file unpatched_image AesTT AesTTOk
                toy_algs_tt loaded None (rtc_refl _ _)) as (ok & w' & Hr & _ & _ & Hd).
    assert (Hok : option_map fst (@qudo_pqc_init plain_env demo_config toy_algs toy_kat one_file unpatched_image AesTT None loaded) = Some 1)
      by (vm_compute; reflexivity).
    rewrite Hr in Hok. cbn [option_map fst] in Hok. injection Hok as ->. exists w'. split; [exact Hr |].
    destruct (Hd ltac:(clear; discriminate) ltac:(clear; discriminate)) as [(_ & H & _) | [[H _] | [H _]]]; [exact H | discriminate H | discriminate H].
  - destruct (@init_decides plain_env plain_env_ok demo_config toy_algs toy_kat one_file unpatched_image AesTT AesTTOk
                toy_algs_tt running_world (Some new_callbacks) (rtc_once _ _ running_reachable)) as (ok & w' & Hr & Hd & _).
    destruct Hd as [-> Hc]; [vm_compute; reflexivity |]. exists w'. now split.
Defined.

(** The error reported once to a caller that has registered for it. *)
Lemma reports_are_limited_witness :
  (audit_events 3 (trace (w_log failed_world)) <= 100)%nat /\ (report_events (trace (w_log failed_world)) <= 10)%nat.
Proof.
  destruct (@reports_are_limited plain_env plain_env_ok demo_config toy_algs toy_kat one_file unpatched_image AesCt AesCtOk
              toy_algs_ok failed_world 3 (rtc_once _ _ failed_reachable)) as (_ & H1 & _ & _ & H2); [lia | auto].
Defined.

(** An entropy source that is stuck at 0, in a freshly loaded module. *)
Lemma stuck_env_ok : EnvOk stuck_env.
Proof.
  constructor; try apply plain_env_ok.
  intros k n b [= <-]. split; [apply length_zeros | apply zeros_bytes].
Qed.

Lemma stuck_algs_ok : @AlgOpsOk stuck_env demo_config AesCt toy_algs.
Proof. constructor; intros; apply safe_ret. Qed.

Lemma unhealthy_entropy_latches_witness :
  exists w', @qudo_fips_rand_seed_from_platform stuck_env AesCt loaded = Some (-1, w') /\
    g_module_state (w_core w') = QUDO_PQC_STATE_ERROR /\
    exists w'', @qudo_pqc_init stuck_env demo_config toy_algs toy_kat one_file unpatched_image AesCt None w' = Some (0, w'') /\
      @platform_entropy stuck_env 48 w'' = Some (None, w'').
Proof.
  destruct (@unhealthy_entropy_latches stuck_env stuck_env_ok demo_config toy_algs toy_kat one_file unpatched_image AesCt AesCtOk stuck_algs_ok
              loaded [] [zeros 64]) as (w' & _ & Hr & He & _ & Hlater).
  - apply rtc_refl.
  - reflexivity.
  - split; [exact fresh_rep | exact healthy_nil].
  - split; [cbn; lia |]. intros [|i] Hi; [reflexivity | cbn in Hi; lia].
  - intros H. destruct (H (zeros 4) (zeros 60) eq_refl) as [Hc _]; [discriminate |]. vm_compute in Hc. lia.
  - exists w'. split; [exact Hr |]. split; [exact He |].
    destruct (@qudo_pqc_init stuck_env demo_config toy_algs toy_kat one_file unpatched_image AesCt None w') as [[ok w'']|] eqn:Hi.
    + exists w''. assert (Hs : @kept_step stuck_env demo_config toy_algs toy_kat one_file unpatched_image AesCt w' w'')
        by exact (kept_call AesCt w' w'' Z (OpInit None) ok Logic.I eq_refl Hi).
      destruct (Hlater w'' 48%nat (rtc_once _ _ Hs)) as (_ & H & _). split; [| exact H]. f_equal. f_equal.
      clear - Hi Hr. vm_compute in Hr. injection Hr as <-. vm_compute in Hi. now injection Hi as <- _.
    + exfalso. vm_compute in Hr. injection Hr as <-. vm_compute in Hi. discriminate.
Defined.

Lemma fini_clears_witness :
  exists w', @qudo_pqc_fini plain_env loaded = Some (tt, w') /\ g_module_state (w_core w') = QUDO_PQC_STATE_INIT.
Proof.
  destruct (@fini_clears plain_env plain_env_ok demo_config toy_algs toy_kat one_file unpatched_image AesCt AesCtOk
              toy_algs_ok loaded (rtc_refl _ _)) as (w' & Hr & Hs & _).
  exists w'. split; [exact Hr | exact Hs].
Defined.

Lemma concurrent_error_is_lost_witness :
  exists w1 w2, qudo_pqc_set_error_state (Some QUDO_ST_TYPE_DRBG_HEALTH) demo_world = Some (tt, w1) /\
    g_module_state (w_core w1) = QUDO_PQC_STATE_ERROR /\ on_demand_finish 1 w1 = Some (tt, w2) /\
    g_module_state (w_core w2) = QUDO_PQC_STATE_RUNNING.
Proof.
  destruct (@concurrent_error_is_lost plain_env demo_world QUDO_ST_TYPE_DRBG_HEALTH) as [(w1 & w2 & H1 & H2 & H3 & H4 & _) _].
  - now left.
  - discriminate.
  - discriminate.
  - eauto 6.
Defined.
