(* ===== verification/Running.v ===== *)
(** * What RUNNING stands for

    A FIPS module that is RUNNING was brought there by an initialisation in whose course every power-up self-test, and the
    integrity check that its configuration asks for, returned success.  The proof follows a run of the module back to the call
    that took it to RUNNING, and that call step by step through the code. *)

From stdpp Require Import base list numbers strings relations.
From Stdlib Require Import ZArith Lia.
From S2P Require Import Prelude Hmac Aes AesTTable CtrDrbg World AuditLog State Rand RandService Algs Pct Integrity Post Init Module.

#[local] Open Scope Z_scope.

(** ** Results of the tests *)

(** Run in [v], the test returns success and leaves [v']. *)
Definition succeeds (t : M Z) (v v' : World) : Prop := exists r, t v = Some (r, v') /\ r <> 0.

(** Nothing but the log is written in between. *)
Definition logged (v v' : World) : Prop := exists l, v' = set_w_log l v.

(** One test per vector, each from the state the one before has left, and every one returns true. *)
Fixpoint all_succeed {T} (test : T -> M bool) (ts : list T) (v v' : World) : Prop :=
  match ts with
  | [] => v' = v
  | t :: ts => exists v1, test t v = Some (true, v1) /\ all_succeed test ts v1 v'
  end.

(** A self-test callback that leaves what it is shown. *)
Definition passive (E : Env) : Prop := forall h cb arg ph ty de res d, env_st_cb h cb arg ph ty de res d = d.

(** The module file is the one whose HMAC is configured. *)
Definition file_intact {F : FileIO} (config : qudo_pqc_config_t) (path hex : string) : Prop :=
  exists mac content, hex_text hex mac /\ length mac = 32%nat /\
    module_file config path = Some content /\ mac = HMAC_SHA256 fixed_key content.

(** The image in memory is the one whose HMAC has been patched in. *)
Definition image_intact {G : Image} : Prop :=
  take 24 qudo_fips_integrity_hmac <> sentinel /\ 1024 <= qudo_fips_module_end - qudo_fips_module_start /\
  qudo_fips_integrity_hmac = HMAC_SHA256 fixed_key module_region.

Section Tests.
Context {E : Env} {B : BuildConfig} {A : AlgOps} {K : KatData} {F : FileIO} {G : Image} (I : AesImpl).

(** The context of the tests of an initialisation. *)
Definition init_st (config : qudo_pqc_config_t) : qudo_st_ctx_t := mk_st (self_test_cb config) (self_test_cb_arg config) "" "".

(** The integrity check that the configuration asks for, run in [a]: of the module file if there is a path and a checksum, otherwise of
    the image, unless the build leaves the image's integrity to the host. *)
Definition integrity_tested (config : qudo_pqc_config_t) (a : World) : Prop :=
  match module_path config, module_checksum_hex config with
  | Some path, Some hex =>
      (exists v, succeeds (qudo_pqc_verify_integrity config (init_st config)) a v) /\ (passive E -> file_intact config path hex)
  | _, _ =>
      QUDO_PQC_DISABLE_EMBEDDED_HMAC = true \/
      ((exists r v, qudo_pqc_verify_integrity_embedded (init_st config) a = Some (r, v) /\ 0 < r) /\ (passive E -> image_intact))
  end.

(** The known-answer tests of the primitives, one after the other from [a]. *)
Definition primitives_tested (st : qudo_st_ctx_t) (a : World) : Prop :=
  exists v0 v1 v2 v3, logged a v0 /\ succeeds (qudo_post_sha256_kat st) v0 v1 /\ succeeds (qudo_post_hmac_sha256_kat st) v1 v2 /\
    succeeds (qudo_post_ctrdrbg_kat I st) v2 v3.

(** The tests of the algorithms, every vector, one after the other from [a]. *)
Definition algorithms_tested (st : qudo_st_ctx_t) (a : World) : Prop :=
  exists v0 v1 v2 v3 v4 v5 v6, logged a v0 /\
    all_succeed (keygen_mlkem_test st) mlkem_keygen_tests v0 v1 /\ all_succeed (keygen_mldsa_test st) qudo_kat_sign_tests v1 v2 /\
    all_succeed (keygen_slhdsa_test st) qudo_kat_slhdsa_tests v2 v3 /\ all_succeed (kem_test st) qudo_kat_kem_tests v3 v4 /\
    all_succeed (mldsa_test st) qudo_kat_sign_tests v4 v5 /\ all_succeed (slhdsa_test st) qudo_kat_slhdsa_tests v5 v6.

(** The self-tests of an initialisation take the module from [a0] to [a4]: four phases, all successful, and what was tested in each. *)
Definition tests_run (config : qudo_pqc_config_t) (a0 a4 : World) : Prop :=
  exists a1 a2 a3,
    succeeds (st_integrity config (init_st config)) a0 a1 /\ integrity_tested config a0 /\
    succeeds (st_primitives I (init_st config)) a1 a2 /\ primitives_tested (init_st config) a1 /\
    succeeds (st_seed I) a2 a3 /\ (exists v, qudo_fips_rand_seed_from_platform I a2 = Some (0, v)) /\
    succeeds (st_algorithms (init_st config)) a3 a4 /\ algorithms_tested (init_st config) a3.

(** [qudo_pqc_init] called in [w1] and returning in [w2] runs the self-tests from [a0] to [a4]. *)
Record tests_within (config : qudo_pqc_config_t) (w1 a0 a4 w2 : World) : Prop := {
  tw_selftest : g_module_state (w_core a0) = QUDO_PQC_STATE_SELFTEST;
  tw_locked : g_self_test_lock (w_core a0) = Some WriteLocked;
  tw_before : w_rand a0 = w_rand w1 /\ w_post a0 = w_post w1;
  tw_run : tests_run config a0 a4;
  tw_after : w_rand w2 = w_rand a4 /\ w_post w2 = w_post a4 }.
End Tests.

(** ** Following the code back *)

Section Inversion.
Context {E : Env} {HE : EnvOk E} {B : BuildConfig} {A : AlgOps} {K : KatData} {F : FileIO} {G : Image} (I : AesImpl).

Lemma wp_det {T} (m : M T) (Q : T -> World -> Prop) w a w' : wp m Q w -> m w = Some (a, w') -> Q a w'.
Proof. unfold wp. intros H Hr. now rewrite Hr in H. Qed.

Lemma corrupt_passive st d w d' w' : passive E -> qudo_st_corrupt st d w = Some (d', w') -> d' = d.
Proof.
  intros Hp H. unfold qudo_st_corrupt in H. destruct (st_cb st) as [cb|]; [| now apply ret_inv in H as [-> _]].
  bind_in H t w1 Ht. bind_in H u w2 Hu. apply ret_inv in H as [<- _]. apply Hp.
Qed.

(** Shown to a passive callback and found equal: it is equal. *)
Lemma shown_equal st computed expected w r w' : passive E -> length computed = 32%nat -> length expected = 32%nat ->
  (d ← qudo_st_corrupt st computed; if negb (qudo_memcmp_ct d expected 32 =? 0) then mret 0 else mret 1) w = Some (r, w') -> r <> 0 ->
  computed = expected.
Proof.
  intros Hp Hc He H Hr. bind_in H d w1 Hd. apply (corrupt_passive _ _ _ _ _ Hp) in Hd. subst d.
  rewrite memcmp_digest in H by assumption. case_bool_decide as Heq; [exact Heq |]. cbn [negb] in H. apply ret_inv in H as [<- _]. contradiction.
Qed.

Lemma verify_integrity_inv {HF : FileOk F} config st path hex w r w' : passive E ->
  module_path config = Some path -> module_checksum_hex config = Some hex ->
  qudo_pqc_verify_integrity config st w = Some (r, w') -> r <> 0 -> file_intact config path hex.
Proof.
  intros Hp Hpath Hhex H Hr. unfold qudo_pqc_verify_integrity in H. bind_in H k w1 Hk.
  destruct (k =? 0); [apply ret_inv in H as [<- _]; contradiction |]. rewrite Hpath, Hhex in H.
  destruct (hex_to_bin (Some hex) (Some (zeros 32))) as [n e] eqn:Hx.
  destruct (Nat.eqb_spec n 32) as [-> | _]; cbn [negb] in H; [| apply ret_inv in H as [<- _]; contradiction].
  destruct (hex_32 hex e Hx) as (bs & Ht & Hn & ->). cbn [default] in H. bind_in H s w2 Hs. bind_in H ret w3 Hv. bind_in H u w4 Hu.
  apply ret_inv in H as [<- _]. rewrite verify_file_eq in Hv. destruct (module_file config path) as [c|] eqn:Hf; [| apply ret_inv in Hv as [<- _]; contradiction].
  apply shown_equal in Hv; [| exact Hp | apply length_HMAC | exact Hn | exact Hr]. now exists bs, c.
Qed.

Lemma verify_embedded_inv {HG : ImageOk G} st w r w' : passive E ->
  qudo_pqc_verify_integrity_embedded st w = Some (r, w') -> 0 < r -> image_intact.
Proof.
  intros Hp H Hr. unfold qudo_pqc_verify_integrity_embedded in H. bind_in H k w1 Hk.
  destruct (k =? 0); [apply ret_inv in H as [<- _]; lia |]. case_bool_decide as Hs; [apply ret_inv in H as [<- _]; lia |].
  bind_in H s w2 Hst. bind_in H ret w3 Hv. bind_in H u w4 Hu. apply ret_inv in H as [<- _]. unfold verify_region in Hv.
  destruct (Z.leb_spec qudo_fips_module_end qudo_fips_module_start); [apply ret_inv in Hv as [<- _]; lia |].
  destruct (Z.ltb_spec (qudo_fips_module_end - qudo_fips_module_start) 1024); [apply ret_inv in Hv as [<- _]; lia |].
  rewrite hmac_sha256_run in Hv; try apply env_stack_ok; try apply env_hmac_ctx_ok; try apply fixed_key_ok;
    try apply region_bytes; try apply region_max; try apply length_zeros.
  apply shown_equal in Hv; [| exact Hp | apply length_HMAC | apply hmac_len | lia]. now repeat split.
Qed.

Lemma st_integrity_inv {HF : FileOk F} {HG : ImageOk G} config w w' : succeeds (st_integrity config (init_st config)) w w' -> integrity_tested config w.
Proof.
  intros (r & H & Hr). unfold st_integrity in H. unfold integrity_tested.
  assert (Hemb : (if QUDO_PQC_DISABLE_EMBEDDED_HMAC then
        _ ← qudo_audit_log QUDO_SEV_INFO QUDO_ERR_NONE QUDO_AUDIT_COMP_INTEGRITY
              "Embedded integrity disabled; host owns module integrity";
        _ ← qudo_pqc_post_mark_integrity_passed; mret 1
      else
        ret ← qudo_pqc_verify_integrity_embedded (init_st config);
        if ret =? 0 then
          _ ← qudo_audit_log QUDO_SEV_FATAL QUDO_ERR_INTEGRITY_MISMATCH QUDO_AUDIT_COMP_INTEGRITY
                "Embedded integrity verification failed"; mret 0
        else if ret <? 0 then
          _ ← qudo_audit_log QUDO_SEV_FATAL QUDO_ERR_INTEGRITY_NO_CONFIG QUDO_AUDIT_COMP_INTEGRITY
                "No integrity config or embedded HMAC available"; mret 0
        else
          _ ← qudo_audit_log QUDO_SEV_INFO QUDO_ERR_NONE QUDO_AUDIT_COMP_INTEGRITY
                "Embedded integrity verification passed";
          _ ← qudo_pqc_post_mark_integrity_passed; mret 1) w = Some (r, w') ->
     QUDO_PQC_DISABLE_EMBEDDED_HMAC = true \/
      ((exists r v, qudo_pqc_verify_integrity_embedded (init_st config) w = Some (r, v) /\ 0 < r) /\ (passive E -> image_intact))).
  { clear H. intros H. destruct QUDO_PQC_DISABLE_EMBEDDED_HMAC; [now left |]. right. bind_in H ret w1 Hv.
    destruct (Z.eqb_spec ret 0) as [-> | H0]; [bind_in H u w2 Hu; apply ret_inv in H as [<- _]; contradiction |].
    destruct (Z.ltb_spec ret 0); [bind_in H u w2 Hu; apply ret_inv in H as [<- _]; contradiction |].
    split; [exists ret, w1; split; [exact Hv | lia] |]. intros Hp. apply (verify_embedded_inv _ _ _ _ Hp Hv). lia. }
  destruct (module_path config) as [path|] eqn:Hpath, (module_checksum_hex config) as [hex|] eqn:Hhex; [| now apply Hemb..].
  bind_in H ok w1 Hv. destruct (Z.eqb_spec ok 0) as [-> | H0]; [bind_in H u w2 Hu; apply ret_inv in H as [<- _]; contradiction |].
  split; [now exists w1, ok |]. intros Hp. exact (verify_integrity_inv config _ path hex _ _ _ Hp Hpath Hhex Hv H0).
Qed.

Lemma audit_inv sev code comp det w u w' : lock_free (g_audit_lock (w_audit w)) -> qudo_audit_log sev code comp det w = Some (u, w') -> logged w w'.
Proof. intros Hl H. rewrite audit_log_run in H by exact Hl. injection H as _ <-. eexists. reflexivity. Qed.

(** A check that does not fail: its test returned success, and the rest went on from there. *)
Lemma post_check_succeeds t code msg rest w w' : succeeds (post_check t code msg rest) w w' ->
  exists w1, succeeds t w w1 /\ succeeds rest w1 w'.
Proof.
  unfold post_check. intros (r & H & Hr). bind_in H ok w1 Hok. destruct (Z.eqb_spec ok 0) as [-> | H0].
  - bind_in H u w2 Hu. apply ret_inv in H as [<- _]. contradiction.
  - exists w1. split; [now exists ok | now exists r].
Qed.

Lemma all_tests_succeed {T} (test : T -> M bool) ts w w' : succeeds (all_tests test ts) w w' -> all_succeed test ts w w'.
Proof.
  revert w. induction ts as [|t ts IH]; intros w (r & H & Hr); cbn [all_tests all_succeed] in *; [now apply ret_inv in H as [_ ->] |].
  bind_in H ok w1 Hok. destruct ok; [| apply ret_inv in H as [<- _]; contradiction]. exists w1. split; [exact Hok |]. apply IH. now exists r.
Qed.

Lemma st_primitives_inv st w w' : lock_free (g_audit_lock (w_audit w)) -> succeeds (st_primitives I st) w w' -> primitives_tested I st w.
Proof.
  intros Hl (r & H & Hr). unfold st_primitives in H. bind_in H u w1 Hu. apply audit_inv in Hu; [| exact Hl]. bind_in H ok w2 Hok.
  destruct (Z.eqb_spec ok 0) as [-> | H0]; bind_in H u' w3 Hu'; apply ret_inv in H as [<- _]; [contradiction |].
  assert (Hs : succeeds (qudo_pqc_run_post_primitives I st) w1 w2) by now exists ok. unfold qudo_pqc_run_post_primitives in Hs.
  apply post_check_succeeds in Hs as (v1 & H1 & Hs). apply post_check_succeeds in Hs as (v2 & H2 & Hs). apply post_check_succeeds in Hs as (v3 & H3 & _).
  now exists w1, v1, v2, v3.
Qed.

Lemma st_seed_inv w w' : succeeds (st_seed I) w w' -> exists v, qudo_fips_rand_seed_from_platform I w = Some (0, v).
Proof.
  intros (r & H & Hr). unfold st_seed in H. bind_in H rc w1 Hrc. destruct (Z.eqb_spec rc 0) as [-> | H0]; [eauto |]. cbn [negb] in H.
  bind_in H u w2 Hu. apply ret_inv in H as [<- _]. contradiction.
Qed.

Lemma st_algorithms_inv st w w' : lock_free (g_audit_lock (w_audit w)) -> succeeds (st_algorithms st) w w' -> algorithms_tested st w.
Proof.
  intros Hl (r & H & Hr). unfold st_algorithms in H. bind_in H u w1 Hu. apply audit_inv in Hu; [| exact Hl]. bind_in H ok w2 Hok.
  destruct (Z.eqb_spec ok 0) as [-> | H0]; bind_in H u' w3 Hu'; apply ret_inv in H as [<- _]; [contradiction |].
  assert (Hs : succeeds (qudo_pqc_run_post_algorithms st) w1 w2) by now exists ok. unfold qudo_pqc_run_post_algorithms in Hs.
  apply post_check_succeeds in Hs as (v1 & H1 & Hs). apply post_check_succeeds in Hs as (v2 & H2 & Hs). apply post_check_succeeds in Hs as (v3 & H3 & Hs).
  apply post_check_succeeds in Hs as (v4 & H4 & Hs). apply post_check_succeeds in Hs as (v5 & H5 & Hs). apply post_check_succeeds in Hs as (v6 & H6 & _).
  exists w1, v1, v2, v3, v4, v5, v6. auto 10 using all_tests_succeed.
Qed.

Lemma self_tests_inv {HF : FileOk F} {HG : ImageOk G} {HI : AesImplOk I} {HA : AlgOpsOk I A} config w w' : QUDO_FIPS_MODULE = true -> testing I w ->
  succeeds (self_tests_body I config (init_st config)) w w' -> tests_run I config w w'.
Proof.
  intros Hf Ht (r & H & Hr). unfold self_tests_body in H. rewrite Hf in H. bind_in H ok1 w1 H1.
  destruct (Z.eqb_spec ok1 0) as [_ | N1]; [apply ret_inv in H as [<- _]; contradiction |]. bind_in H ok2 w2 H2.
  destruct (Z.eqb_spec ok2 0) as [_ | N2]; [apply ret_inv in H as [<- _]; contradiction |]. bind_in H ok3 w3 H3.
  destruct (Z.eqb_spec ok3 0) as [_ | N3]; [apply ret_inv in H as [<- _]; contradiction |].
  destruct (wp_det _ _ _ _ _ (st_integrity_wp I config _ w Ht) H1) as (_ & _ & T1). destruct (T1 N1) as [Ht1 _].
  destruct (wp_det _ _ _ _ _ (st_primitives_wp I _ w1 Ht1) H2) as (_ & _ & T2). destruct (T2 N2) as [Ht2 _].
  destruct (wp_det _ _ _ _ _ (st_seed_wp I w2 Ht2) H3) as (_ & _ & T3). destruct (T3 N3) as [Ht3 _].
  assert (S1 : succeeds (st_integrity config (init_st config)) w w1) by now exists ok1.
  assert (S2 : succeeds (st_primitives I (init_st config)) w1 w2) by now exists ok2. assert (S3 : succeeds (st_seed I) w2 w3) by now exists ok3.
  assert (S4 : succeeds (st_algorithms (init_st config)) w3 w') by now exists r.
  exists w1, w2, w3. split_and!; try assumption.
  - exact (st_integrity_inv config w w1 S1).
  - apply (st_primitives_inv _ _ w2); [apply Ht1 | exact S2].
  - exact (st_seed_inv w2 w3 S3).
  - apply (st_algorithms_inv _ _ w'); [apply Ht3 | exact S4].
Qed.

(** Storing the verdict, and releasing the lock. *)
Lemma finish_inv ok o w w' : lock_free (g_audit_lock (w_audit w)) -> self_tests_finish o w = Some (ok, w') ->
  o = ok /\ w_rand w' = w_rand w /\ w_post w' = w_post w.
Proof.
  intros Hl H. unfold self_tests_finish, set_state in H.
  destruct (o =? 0); bind_in H u1 v1 H1; injection H1 as _ <-; bind_in H u2 v2 H2; apply audit_inv in H2 as [l ->]; try exact Hl;
    apply ret_inv in H as [<- <-]; auto.
Qed.

Lemma init_locked_inv {HF : FileOk F} {HG : ImageOk G} {HI : AesImplOk I} {HA : AlgOpsOk I A} config w ok w' : QUDO_FIPS_MODULE = true -> held I w ->
  init_locked I config w = Some (ok, w') -> ok <> 0 -> exists a0 a4, tests_within I config w a0 a4 w'.
Proof.
  intros Hf Hh H Hok. unfold init_locked, set_callbacks, set_state in H. bind_in H u1 v1 H1. injection H1 as _ <-.
  match type of H with (mbind _ _) ?v = _ => assert (Hh1 : held I v) by (apply held_core; [auto | exact Hh]) end.
  bind_in H u2 v2 H2. destruct (wp_det _ _ _ _ _ (held_audit_cb I _ _ _ Hh1) H2) as [Hh2 (a & e & -> & _)]. clear H2.
  bind_in H u3 v3 H3. injection H3 as _ <-. bind_in H u4 v4 H4. injection H4 as _ <-. bind_in H u5 v5 H5. injection H5 as _ <-.
  bind_in H u6 a0 H6. bind_in H r v7 H7. bind_in H u9 v8 H8. apply ret_inv in H as [-> <-].
  match type of H6 with qudo_audit_log _ _ _ _ ?v = _ => set (v5 := v) in H6; assert (Ht : testing I v5) end.
  { destruct (held_set_state I QUDO_PQC_STATE_SELFTEST _ (held_core I (set_g_config_set 1) _ ltac:(auto)
      (held_core I (set_g_conditional_error_check (conditional_errors config)) _ ltac:(auto) Hh2))) as [Hb Hl]. constructor; [exact Hb | exact Hl | reflexivity]. }
  destruct (wp_det _ _ _ _ _ (testing_audit I QUDO_SEV_INFO _ _ _ v5 ltac:(severity) Ht) H6) as [Ht0 _]. apply audit_inv in H6 as [l H6]; [| apply Ht].
  unfold qudo_pqc_run_self_tests in H7. bind_in H7 o a4 Ho. destruct (wp_det _ _ _ _ _ (self_tests_body_wp I config _ a0 Ht0) Ho) as [[Hb4 _] _].
  apply finish_inv in H7 as (-> & Hr7 & Hp7); [| apply Hb4].
  exists a0, a4. constructor.
  - apply Ht0.
  - apply Ht0.
  - rewrite H6. now split.
  - apply self_tests_inv; [exact Hf | exact Ht0 | now exists ok].
  - rewrite <- Hr7, <- Hp7. unfold qudo_rwlock_unlock in H8. bind_in H8 s v9 H9. injection H9 as <- <-.
    destruct (g_self_test_lock (w_core v7)) as [[| [|[|n]] |]|]; try discriminate H8; injection H8 as _ <-; now split.
Qed.
End Inversion.

(** ** Following a run back *)

Section Runs.
Context {E : Env} {HE : EnvOk E} {B : BuildConfig} {A : AlgOps} {K : KatData} {F : FileIO} {G : Image}.
Context (I : AesImpl) {HI : AesImplOk I} {HA : AlgOpsOk I A}.

(** Setting up the lock keeps the generator and the recorded results. *)
Lemma once_keeps w r w' :
  qudo_once (fun w => g_self_test_once (w_core w)) (on_core (set_g_self_test_once true)) do_self_test_lock_init w = Some (r, w') ->
  w_rand w' = w_rand w /\ w_post w' = w_post w.
Proof.
  unfold qudo_once, do_self_test_lock_init, qudo_rwlock_new, mbind, M_bind, gets, modify, mret, M_ret. intros H. cbn in H.
  repeat case_match; simplify_eq; now split.
Qed.

(** The lock of a module between two calls is taken at once. *)
Lemma wrlock_inv w r w' : module_inv I w -> not_null (g_self_test_lock (w_core w)) = true -> qudo_rwlock_wrlock self_test_lock w = Some (r, w') ->
  w' = on_core (set_g_self_test_lock (Some WriteLocked)) w /\ held I w'.
Proof.
  intros Hi Hn H. destruct (lock_free_held I w Hi Hn) as [Hfree Hh].
  apply (wp_det _ (fun _ v => v = on_core (set_g_self_test_lock (Some WriteLocked)) w) _ _ _ (wrlock_self_test w _ Hfree eq_refl)) in H.
  now rewrite H.
Qed.

Lemma init_inv {HF : FileOk F} {HG : ImageOk G} config w ok w' : QUDO_FIPS_MODULE = true -> module_inv I w ->
  g_module_state (w_core w) <> QUDO_PQC_STATE_RUNNING -> qudo_pqc_init I config w = Some (ok, w') -> ok <> 0 ->
  exists a0 a4, tests_within I (default default_config config) w a0 a4 w'.
Proof.
  intros Hf Hi Hnr H Hok. unfold qudo_pqc_init in H. bind_in H o w1 Ho. destruct (once_keeps _ _ _ Ho) as [Hr1 Hp1].
  apply (wp_det _ _ _ _ _ (self_test_once_wp I w Hi)) in Ho as (Hi1 & Hs & _).
  rewrite <- Hs in Hnr. destruct (o =? 0); [apply ret_inv in H as [<- _]; contradiction |].
  bind_in H l w2 Hl. injection Hl as <- <-. destruct (not_null _) eqn:Hn; [| apply ret_inv in H as [<- _]; contradiction].
  bind_in H s w2 Hst. injection Hst as <- <-. rewrite (proj2 (Z.eqb_neq _ _) Hnr) in H. cbn [negb] in H.
  destruct (_ =? _); [apply ret_inv in H as [<- _]; contradiction |]. bind_in H o' w2 Hw. apply (wrlock_inv _ _ _ Hi1 Hn) in Hw as [Hw Hh].
  destruct (o' =? 0); [apply ret_inv in H as [<- _]; contradiction |]. bind_in H s w3 Hst. injection Hst as <- <-.
  assert (Hs2 : g_module_state (w_core w2) = g_module_state (w_core w1)) by now rewrite Hw.
  rewrite Hs2, (proj2 (Z.eqb_neq _ _) Hnr) in H. destruct (_ =? _); [bind_in H u w3 Hu; apply ret_inv in H as [<- _]; contradiction |].
  destruct (init_locked_inv I _ _ _ _ Hf Hh H Hok) as (a0 & a4 & [T1 T2 [T3 T4] T5 T6]). exists a0, a4. constructor; try assumption.
  rewrite T3, T4, Hw. now split.
Qed.

(** Only an initialisation that returns success takes the module to RUNNING. *)
Lemma becomes_running w w' : module_inv I w -> step I w w' -> g_module_state (w_core w) <> QUDO_PQC_STATE_RUNNING ->
  g_module_state (w_core w') = QUDO_PQC_STATE_RUNNING -> exists config ok, qudo_pqc_init I config w = Some (ok, w') /\ ok <> 0.
Proof.
  intros Hi [T op r Hp Hr] Hn Hrun.
  assert (Hopen : forall m : M T, open_op I m -> m w = Some (r, w') -> False).
  { intros m Hm Hmr. apply (wp_det _ _ _ _ _ (Hm w (inv_callable I w Hi) (mi_lock I w Hi))) in Hmr.
    destruct (evolves_state I _ _ (proj1 Hmr)) as [Hs | Hs]; rewrite Hs in Hrun; [contradiction | discriminate]. }
  destruct op; cbn [run_api proper] in *.
  - exists config, r. split; [exact Hr |]. apply (wp_det _ _ _ _ _ (init_wp I config w Hi)) in Hr as (_ & Hk & _ & _ & _ & Hd).
    destruct (decide (g_module_state (w_core w) = QUDO_PQC_STATE_ERROR)) as [He | He]; [rewrite (Hk He) in Hrun; discriminate |].
    destruct (Hd Hn He) as [[[_ H] | [H _]] | (_ & H & _)]; [rewrite H in Hrun; discriminate | exact H | congruence].
  - apply (wp_det _ _ _ _ _ (self_test_wp I w Hi)) in Hr as (_ & _ & _ & H & _). rewrite (H Hn) in Hrun. contradiction.
  - apply (wp_det _ _ _ _ _ (unregister_wp I arg w Hi)) in Hr as (_ & H & _). congruence.
  - apply (wp_det _ _ _ _ _ (fini_wp I w Hi)) in Hr as (_ & Hk & H & _).
    destruct (decide (g_module_state (w_core w) = QUDO_PQC_STATE_ERROR)) as [He | He]; [rewrite (Hk He) in Hrun | rewrite (H He) in Hrun]; discriminate.
  - destruct (Hopen _ (run_all_casts_open I) Hr).
  - destruct (Hopen _ (set_error_open I type) Hr).
  - destruct (Hopen (qudo_pqc_set_cast_status id status)); [open_step | exact Hr].
  - apply (wp_det _ _ _ _ _ (audit_set_cb_wp cb arg w (bi_audit I w (mi_base I w Hi)))) in Hr as (a & e & -> & _). contradiction.
  - destruct (Hopen _ (is_running_open I) Hr).
  - destruct (Hopen _ (rand_bytes_open I o n Hp) Hr).
  - destruct (Hopen _ (rand_seed_open I) Hr).
  - destruct (Hopen _ (rand_init_open I e Hp) Hr).
  - destruct (Hopen _ (rand_reseed_open I e Hp) Hr).
  - rewrite rand_cleanup_run in Hr by apply Hi. injection Hr as _ <-. destruct (_ =? 0); contradiction.
  - destruct (Hopen _ Hp Hr).
Qed.

(** A call that leaves the module RUNNING. *)
Definition running_step (w w' : World) : Prop := step I w w' /\ g_module_state (w_core w') = QUDO_PQC_STATE_RUNNING.

(** The initialisation that took the module to RUNNING. *)
Lemma running_since w : rtc (step I) loaded w -> g_module_state (w_core w) = QUDO_PQC_STATE_RUNNING ->
  exists w1 config ok w2, rtc (step I) loaded w1 /\ g_module_state (w_core w1) <> QUDO_PQC_STATE_RUNNING /\
    qudo_pqc_init I config w1 = Some (ok, w2) /\ ok <> 0 /\ rtc running_step w2 w.
Proof.
  intros Hr. pattern w. refine (rtc_ind_r _ loaded _ _ w Hr); clear w Hr; [discriminate |]. intros v w Hv Hs IH Hrun.
  destruct (decide (g_module_state (w_core v) = QUDO_PQC_STATE_RUNNING)) as [Hvr | Hvn].
  - destruct (IH Hvr) as (w1 & config & ok & w2 & H1 & H2 & H3 & H4 & H5). exists w1, config, ok, w2.
    split_and!; try assumption. eapply rtc_r; [exact H5 | now split].
  - destruct (run_inv I _ _ Hv (loaded_inv I)) as [Hi _]. destruct (becomes_running v w Hi Hs Hvn Hrun) as (config & ok & H1 & H2).
    exists v, config, ok, w. split_and!; try assumption. apply rtc_refl.
Qed.
End Runs.

(** C1. A FIPS module runs only when tested.  In every reachable state of a FIPS build in which the module is RUNNING, it was taken there by a
    call of [qudo_pqc_init] that returned success, from a state that was not RUNNING, and has been RUNNING between all calls since.  That call ran the
    self-tests in state SELFTEST under the write lock, one after the other, and each returned success: the integrity check that the configuration asks for (of the
    module file, or of the image; a build with embedded integrity disabled makes none if the configuration names no file), the known-answer tests of SHA-256,
    HMAC and CTR_DRBG, the seeding of the generator, and the tests of every algorithm vector.  Both results are still recorded as passed.  If the application's
    self-test callback leaves what it is shown, the file (or the image) has the HMAC that is configured (or patched in). *)
Theorem running_is_tested {E : Env} {HE : EnvOk E} {B : BuildConfig} {A : AlgOps} {K : KatData} {F : FileIO} {HF : FileOk F} {G : Image} {HG : ImageOk G}
  (I : AesImpl) {HI : AesImplOk I} {HA : AlgOpsOk I A} (w : World)
  (Hreach : rtc (step I) loaded w) (Hrun : g_module_state (w_core w) = QUDO_PQC_STATE_RUNNING) (Hf : QUDO_FIPS_MODULE = true) :
  (exists w1 config ok w2, rtc (step I) loaded w1 /\ g_module_state (w_core w1) <> QUDO_PQC_STATE_RUNNING /\
     qudo_pqc_init I config w1 = Some (ok, w2) /\ ok <> 0 /\ rtc (running_step I) w2 w /\
     exists a0 a4, tests_within I (default default_config config) w1 a0 a4 w2) /\
  g_post_drbg_kat_passed (w_post w) = 1 /\ g_post_integrity_passed (w_post w) = 1.
Proof.
  destruct (run_inv I _ _ Hreach (loaded_inv I)) as [Hi _]. split; [| apply (mi_running _ _ Hi Hrun), Hf].
  destruct (running_since I w Hreach Hrun) as (w1 & config & ok & w2 & H1 & H2 & H3 & H4 & H5).
  destruct (run_inv I _ _ H1 (loaded_inv I)) as [Hi1 _]. exists w1, config, ok, w2. split_and!; try assumption.
  exact (init_inv I config w1 ok w2 Hf Hi1 H2 H3 H4).
Qed.

(** The state after an initialisation of a FIPS build that checks the module file. *)
Definition tested_world : World :=
  match @qudo_pqc_init plain_env demo_config toy_algs toy_kat one_file unpatched_image AesTT (Some one_file_config) loaded with
  | Some (_, w) => w
  | None => loaded
  end.

Lemma tested_reachable :
  @step plain_env demo_config toy_algs toy_kat one_file unpatched_image AesTT loaded tested_world.
Proof.
  apply (step_call AesTT loaded tested_world Z (OpInit (Some one_file_config)) 1); [exact Logic.I |]. vm_compute. reflexivity.
Qed.

Lemma running_is_tested_witness :
  g_module_state (w_core tested_world) = QUDO_PQC_STATE_RUNNING /\
  (exists w1 config a0 a4 w2, @tests_within plain_env demo_config toy_algs toy_kat one_file unpatched_image AesTT config w1 a0 a4 w2) /\
  g_post_integrity_passed (w_post tested_world) = 1.
Proof.
  assert (Hrun : g_module_state (w_core tested_world) = QUDO_PQC_STATE_RUNNING) by (vm_compute; reflexivity).
  split; [exact Hrun |].
  destruct (@running_is_tested plain_env plain_env_ok demo_config toy_algs toy_kat one_file one_file_ok unpatched_image unpatched_image_ok AesTT AesTTOk
              toy_algs_tt tested_world (rtc_once _ _ tested_reachable) Hrun eq_refl)
    as [(w1 & config & ok & w2 & _ & _ & _ & _ & _ & a0 & a4 & H) [_ Hi]].
  split; [| exact Hi]. exists w1, (default default_config config), a0, a4, w2. exact H.
Defined.
