(* ===== verification/Services.v ===== *)
(** * Services around the core

    Models of [src/qudo_pqc_security.c] (security levels), [src/qudo_pqc_indicator.c] and
    [include/qudo_pqc_indicator.h] (the approved-service indicator) and [src/qudo_pqc_utils.c] (the
    public wrappers of the generator, of HMAC and of CTR_DRBG contexts, and the integrity queries). *)

From stdpp Require Import base list numbers strings relations.
From Stdlib Require Import ZArith Lia.
From S2P Require Import Prelude Fips180 Sha256 Hmac Aes CtrDrbg World AuditLog State Rand RandService Algs Pct Integrity.

#[local] Open Scope Z_scope.

(** ** Security levels *)

Definition g_sec_levels : list (string * Z) :=
  [ ("ML-KEM-512", 1); ("ML-KEM-768", 3); ("ML-KEM-1024", 5);
    ("ML-DSA-44", 2); ("ML-DSA-65", 3); ("ML-DSA-87", 5);
    ("SLH-DSA-SHA2-128s", 1); ("SLH-DSA-SHA2-128f", 1); ("SLH-DSA-SHA2-192s", 3);
    ("SLH-DSA-SHA2-192f", 3); ("SLH-DSA-SHA2-256s", 5); ("SLH-DSA-SHA2-256f", 5);
    ("SLH-DSA-SHAKE-128s", 1); ("SLH-DSA-SHAKE-128f", 1); ("SLH-DSA-SHAKE-192s", 3);
    ("SLH-DSA-SHAKE-192f", 3); ("SLH-DSA-SHAKE-256s", 5); ("SLH-DSA-SHAKE-256f", 5) ]%string.

(** The loop over the table. *)
Fixpoint level_lookup (t : list (string * Z)) (n : string) : Z :=
  match t with
  | [] => 0
  | (name, level) :: t => if String.eqb n name then level else level_lookup t n
  end.

Definition qudo_pqc_get_security_level (algorithm_name : option string) : Z :=
  match algorithm_name with None => 0 | Some n => level_lookup g_sec_levels n end.

(** [qudo_fips_ind_t]. *)
Record qudo_fips_ind_t := mk_ind { approved_flag : Z; strict : Z }.

Definition qudo_fips_ind_init (ind : option qudo_fips_ind_t) (s : Z) : option qudo_fips_ind_t :=
  match ind with None => None | Some _ => Some (mk_ind 1 s) end.

Definition qudo_fips_ind_set_unapproved (ind : option qudo_fips_ind_t) : Z * option qudo_fips_ind_t :=
  match ind with
  | None => (1, None)
  | Some i => (if strict i =? 0 then 1 else 0, Some (mk_ind 0 (strict i)))
  end.

Definition qudo_fips_ind_is_approved (ind : option qudo_fips_ind_t) : Z :=
  match ind with None => 1 | Some i => approved_flag i end.

Section Services.
Context {E : Env} {B : BuildConfig} {G : Image} (I : AesImpl).

Definition qudo_pqc_set_min_security_level (level : Z) : M unit :=
  when ((1 <=? level) && (level <=? 5)) (modify (set_g_min_security_level level)).

Definition qudo_pqc_get_min_security_level : M Z := gets g_min_security_level.

Definition qudo_pqc_check_security_level (algorithm_name : option string) (ind : option qudo_fips_ind_t)
  : M (Z * option qudo_fips_ind_t) :=
  match algorithm_name with
  | None => mret (0, ind)
  | Some n =>
      let level := qudo_pqc_get_security_level (Some n) in
      if level =? 0 then mret (0, ind)
      else
        min_level ← gets g_min_security_level;
        if level <? min_level then
          _ ← qudo_audit_log QUDO_SEV_WARN QUDO_ERR_PARAM_INVALID QUDO_AUDIT_COMP_INDICATOR
                "Algorithm below minimum security level";
          match ind with
          | Some _ => mret (qudo_fips_ind_set_unapproved ind)
          | None => mret (0, ind)
          end
        else mret (1, ind)
  end.

(** ** Indicator *)

Definition qudo_fips_ind_get_default_strict : Z := if QUDO_FIPS_MODULE then 1 else 0.

Definition qudo_fips_ind_check_operation (algorithm_name : option string) : M Z :=
  running ← qudo_pqc_is_running;
  if negb running then mret 0
  else if qudo_pqc_is_fips_approved algorithm_name =? 0 then mret 0
  else if QUDO_FIPS_MODULE then
    ready ← qudo_fips_rand_is_ready;
    mret (if ready =? 0 then 0 else 1)
  else mret 1.

(** ** Random bits *)

Definition qudo_pqc_rand_bytes (out : option bytes) (out_len : nat) : M (Z * option bytes) :=
  running ← qudo_pqc_is_running;
  if negb running then mret (-1, out) else qudo_fips_rand_bytes I out out_len.

Definition qudo_pqc_rand_seed_from_platform : M Z := qudo_fips_rand_seed_from_platform I.

Definition qudo_pqc_rand_init (entropy : option bytes) (entropy_len : nat) : M Z :=
  ok ← qudo_pqc_is_running_or_selftest;
  if negb ok then mret (-1) else qudo_fips_rand_init I entropy entropy_len.

Definition qudo_pqc_rand_reseed (entropy : option bytes) (entropy_len : nat) : M Z :=
  qudo_fips_rand_reseed I entropy entropy_len.
Definition qudo_pqc_rand_is_ready : M Z := qudo_fips_rand_is_ready.
Definition qudo_pqc_rand_cleanup : M unit := qudo_fips_rand_cleanup.

(** ** Integrity queries *)

(** [Some (start, end)] for the return value 0. *)
Definition qudo_pqc_get_module_boundary (start_ok end_ok : bool) : option (Z * Z) :=
  if QUDO_FIPS_MODULE then
    if negb start_ok || negb end_ok then None
    else if qudo_fips_module_end <=? qudo_fips_module_start then None
    else Some (qudo_fips_module_start, qudo_fips_module_end)
  else None.

Definition qudo_pqc_get_integrity_hmac (hmac_ok len_ok : bool) : option (bytes * nat) :=
  if QUDO_FIPS_MODULE then
    if negb hmac_ok || negb len_ok then None else Some (qudo_fips_integrity_hmac, 32%nat)
  else None.

Definition qudo_pqc_integrity_hmac_is_patched : Z :=
  if QUDO_FIPS_MODULE then if bool_decide (take 24 qudo_fips_integrity_hmac = sentinel) then 0 else 1 else -1.

(** ** HMAC contexts *)

Definition qudo_pqc_cleanse (p : option bytes) : option bytes :=
  match p with None => None | Some b => Some (zeros (length b)) end.

Definition qudo_pqc_hmac_sha256 (key : option bytes) (data out : bytes) : bytes :=
  qudo_fips_hmac_sha256 env_stack env_hmac_ctx key data out.

Definition qudo_pqc_hmac_ctx_new : M (option qudo_fips_hmac_ctx_t) :=
  ok ← qudo_malloc 1; mret (if ok : bool then Some hmac_ctx_cleared else None).

Definition qudo_pqc_hmac_ctx_init (ctx : option qudo_fips_hmac_ctx_t) (key : option bytes) : option qudo_fips_hmac_ctx_t :=
  match ctx with None => None | Some c => Some (qudo_fips_hmac_init env_stack c key) end.

Definition qudo_pqc_hmac_ctx_update (ctx : option qudo_fips_hmac_ctx_t) (data : bytes) : option qudo_fips_hmac_ctx_t :=
  match ctx with None => None | Some c => Some (qudo_fips_hmac_update c data) end.

Definition qudo_pqc_hmac_ctx_final (ctx : option qudo_fips_hmac_ctx_t) (out : bytes) : option qudo_fips_hmac_ctx_t * bytes :=
  match ctx with
  | None => (None, out)
  | Some c => let '(c, out) := qudo_fips_hmac_final c out in (Some c, out)
  end.

(** What the freed memory held. *)
Definition qudo_pqc_hmac_ctx_free (ctx : option qudo_fips_hmac_ctx_t) : option qudo_fips_hmac_ctx_t :=
  match ctx with None => None | Some _ => Some hmac_ctx_cleared end.

(** ** CTR_DRBG contexts *)

(** What the caller's pointer refers to afterwards; [Freed c] is memory given back to the allocator while
    it held [c]. *)
Inductive handle := Live (c : qudo_ctrdrbg_ctx_t) | Freed (c : qudo_ctrdrbg_ctx_t).

Definition qudo_pqc_ctrdrbg_mark_unapproved (op : string) : M unit :=
  qudo_audit_log QUDO_SEV_INFO QUDO_ERR_NONE QUDO_AUDIT_COMP_INDICATOR op.

(** [if (!qudo_pqc_is_running()) return refused; mark; body]. *)
Definition ctrdrbg_service {T} (op : string) (refused : T) (body : M T) : M T :=
  running ← qudo_pqc_is_running;
  if negb running then mret refused
  else _ ← qudo_pqc_ctrdrbg_mark_unapproved op; body.

Definition qudo_pqc_ctrdrbg_new : M (option qudo_ctrdrbg_ctx_t) :=
  ctrdrbg_service "qudo_pqc_ctrdrbg_new: non-Approved service" None
    (ok ← qudo_malloc 1; mret (if ok : bool then Some drbg_cleared else None)).

Definition qudo_pqc_ctrdrbg_init (ctx : option qudo_ctrdrbg_ctx_t) (keylen : nat) (seed : option bytes) (seedlen : nat)
  : M (Z * option qudo_ctrdrbg_ctx_t) :=
  ctrdrbg_service "qudo_pqc_ctrdrbg_init: non-Approved service" (-1, ctx)
    match ctx with
    | None => mret (-1, None)
    | Some c => mret (qudo_ctrdrbg_init I (Some c) keylen seed seedlen)
    end.

Definition qudo_pqc_ctrdrbg_generate (ctx : option qudo_ctrdrbg_ctx_t) (out : option bytes) (out_len : nat)
  (additional : option bytes) (additional_len : nat) : M (Z * option qudo_ctrdrbg_ctx_t * option bytes) :=
  ctrdrbg_service "qudo_pqc_ctrdrbg_generate: non-Approved service" (-1, ctx, out)
    match ctx with
    | None => mret (-1, None, out)
    | Some c => mret (qudo_ctrdrbg_generate I (Some c) out out_len additional additional_len)
    end.

Definition qudo_pqc_ctrdrbg_reseed (ctx : option qudo_ctrdrbg_ctx_t) (seed : option bytes) (seedlen : nat)
  : M (Z * option qudo_ctrdrbg_ctx_t) :=
  ctrdrbg_service "qudo_pqc_ctrdrbg_reseed: non-Approved service" (-1, ctx)
    match ctx with
    | None => mret (-1, None)
    | Some c => mret (qudo_ctrdrbg_reseed I (Some c) seed seedlen)
    end.

Definition qudo_pqc_ctrdrbg_uninit (ctx : option qudo_ctrdrbg_ctx_t) : M (option qudo_ctrdrbg_ctx_t) :=
  ctrdrbg_service "qudo_pqc_ctrdrbg_uninit: non-Approved service" ctx (mret (qudo_ctrdrbg_free ctx)).

Definition qudo_pqc_ctrdrbg_free (ctx : option qudo_ctrdrbg_ctx_t) : M (option handle) :=
  ctrdrbg_service "qudo_pqc_ctrdrbg_free: non-Approved service"
    (match ctx with None => None | Some c => Some (Live c) end)
    match qudo_ctrdrbg_free ctx with
    | None => mret None
    | Some _ => (* qudo_secure_clear, free *) mret (Some (Freed drbg_cleared))
    end.

(** [for (i = 0; i < n; i++) if (a[i] != 0) return 0;] *)
Definition all_zero (a : bytes) : bool := forallb (fun x => x =? 0) a.

Definition qudo_pqc_ctrdrbg_is_zeroized (ctx : option qudo_ctrdrbg_ctx_t) : M Z :=
  ctrdrbg_service "qudo_pqc_ctrdrbg_is_zeroized: non-Approved service" 0
    match ctx with
    | None => mret 0
    | Some c => mret (if all_zero (db_K c) && all_zero (db_V c) && negb (db_initialized c) then 1 else 0)
    end.
End Services.

(** ** Properties *)

(** C36. Security levels: the check accepts exactly the algorithms of the table whose level reaches the
    configured minimum; below it, a warning is filed and the operation is refused, except through a
    non-strict indicator, which lets it pass marked as not approved; an unknown name is refused. *)
Theorem check_security_level_exact {E : Env} (n : string) (ind : option qudo_fips_ind_t) (w : World)
  (Ha : lock_free (g_audit_lock (w_audit w)))
  (level := qudo_pqc_get_security_level (Some n)) :
  (level <> 0 <-> In n (map fst g_sec_levels)) /\
  qudo_pqc_check_security_level (Some n) ind w
  = Some (if level =? 0 then ((0, ind), w)
          else if g_min_security_level w <=? level then ((1, ind), w)
          else (match ind with
                | None => (0, None)
                | Some i => (if strict i =? 0 then 1 else 0, Some (mk_ind 0 (strict i)))
                end, set_w_log (audit_logged QUDO_SEV_WARN QUDO_ERR_PARAM_INVALID QUDO_AUDIT_COMP_INDICATOR
                                  "Algorithm below minimum security level" w) w)).
Proof.
  split.
  - subst level. unfold qudo_pqc_get_security_level.
    assert (Hpos : Forall (fun p => snd p <> 0) g_sec_levels) by (repeat constructor; discriminate).
    induction Hpos as [|[m l] t Hl _ IH]; [cbn; tauto |]. cbn [level_lookup map fst In].
    destruct (String.eqb_spec n m) as [-> | Hne]; [tauto |]. rewrite IH. split; [auto |].
    intros [H | H]; [congruence | exact H].
  - unfold qudo_pqc_check_security_level. fold level. destruct (level =? 0); [reflexivity |].
    unfold mbind at 1, M_bind at 1, gets at 1. rewrite Z.leb_antisym.
    destruct (level <? g_min_security_level w); cbn [negb]; [| reflexivity].
    unfold mbind, M_bind. rewrite audit_log_run by exact Ha. destruct ind as [i|]; reflexivity.
Qed.

Lemma check_security_level_exact_witness :
  @qudo_pqc_check_security_level (Some "ML-KEM-512"%string) (Some (mk_ind 1 1))
    (set_g_min_security_level 3 static_world)
  = Some ((0, Some (mk_ind 0 1)), set_g_min_security_level 3 static_world).
Proof.
  destruct (@check_security_level_exact plain_env "ML-KEM-512"%string (Some (mk_ind 1 1))
              (set_g_min_security_level 3 static_world) ltac:(now left)) as [_ H].
  rewrite H. reflexivity.
Defined.

(** The approved-service indicator: [qudo_fips_ind_check_operation] says yes exactly if the module is
    RUNNING, the name is one of the approved algorithms up to case, and (in a FIPS build) the generator
    is seeded; it only writes the log. *)
Theorem ind_check_exact {E : Env} {B : BuildConfig} (n : string) (w : World)
  (Hs : lock_free (g_self_test_lock (w_core w))) (Ha : lock_free (g_audit_lock (w_audit w))) :
  exists r l, qudo_fips_ind_check_operation (Some n) w = Some (r, set_w_log l w) /\ log_ext (w_log w) l /\
    (r = 0 \/ r = 1) /\
    (r = 1 <-> g_module_state (w_core w) = QUDO_PQC_STATE_RUNNING /\
               (exists a, In a approved /\ lower n = lower a) /\
               (QUDO_FIPS_MODULE = true -> g_fips_rand_ready (w_rand w) <> 0)).
Proof.
  assert (Happ : qudo_pqc_is_fips_approved (Some n) <> 0 <-> exists a, In a approved /\ lower n = lower a).
  { unfold qudo_pqc_is_fips_approved. destruct (existsb (strcasecmp_eq n) approved) eqn:He.
    - apply existsb_exists in He as (a & Hin & Heq). apply String.eqb_eq in Heq. split; [eauto | discriminate].
    - split; [congruence |]. intros (a & Hin & Heq). exfalso.
      assert (Ht : existsb (strcasecmp_eq n) approved = true)
        by (apply existsb_exists; exists a; split; [exact Hin | unfold strcasecmp_eq; now apply String.eqb_eq]).
      congruence. }
  destruct (logs_is_running w) as (l & Hrun & Hl); [auto | exact Ha |].
  unfold qudo_fips_ind_check_operation. unfold mbind at 1, M_bind at 1. rewrite Hrun.
  destruct (Z.eqb_spec (g_module_state (w_core w)) QUDO_PQC_STATE_RUNNING) as [Hr | Hr]; cbn [negb].
  2:{ exists 0, l. split; [reflexivity |]. split; [exact Hl |]. split; [auto |]. split; [discriminate | tauto]. }
  destruct (Z.eqb_spec (qudo_pqc_is_fips_approved (Some n)) 0) as [Hz | Hnz].
  { exists 0, l. split; [reflexivity |]. split; [exact Hl |]. split; [auto |]. split; [discriminate |].
    intros (_ & Hex & _). apply Happ in Hex. congruence. }
  apply Happ in Hnz. destruct QUDO_FIPS_MODULE eqn:Hf.
  - unfold qudo_fips_rand_is_ready, mbind, M_bind, gets, mret, M_ret. cbn [w_rand set_w_log].
    destruct (Z.eqb_spec (g_fips_rand_ready (w_rand w)) 0) as [H0 | H1]; eexists _, l;
      (split; [reflexivity |]); (split; [exact Hl |]); (split; [auto |]).
    + split; [discriminate |]. intros (_ & _ & H). now contradiction H.
    + split; auto.
  - exists 1, l. split; [reflexivity |]. split; [exact Hl |]. split; [auto |]. split; [intros _ | reflexivity].
    split; [exact Hr |]. split; [exact Hnz | discriminate].
Qed.

Lemma ind_check_exact_witness :
  exists l, @qudo_fips_ind_check_operation demo_config (Some "hashml-dsa-65"%string) demo_world
            = Some (1, set_w_log l demo_world).
Proof.
  destruct (@ind_check_exact plain_env demo_config "hashml-dsa-65"%string demo_world ltac:(now left) ltac:(now left))
    as (r & l & Hrun & _ & _ & Hiff).
  exists l. rewrite Hrun. do 2 f_equal. apply Hiff. split; [reflexivity |]. split; [| discriminate].
  exists "HashML-DSA-65"%string. split; [| reflexivity]. apply list_elem_of_In. apply (bool_decide_eq_true_1 _). vm_compute. reflexivity.
Defined.

(** Outside RUNNING every CTR_DRBG service only writes the log. *)
Lemma service_refused {E : Env} {T} op (refused : T) (body : M T) w :
  g_module_state (w_core w) <> QUDO_PQC_STATE_RUNNING ->
  lock_free (g_self_test_lock (w_core w)) -> lock_free (g_audit_lock (w_audit w)) ->
  logs (ctrdrbg_service op refused body) w refused.
Proof.
  intros Hs Hl Ha. unfold ctrdrbg_service. eapply logs_bind; [apply logs_is_running; auto |].
  intros l _. rewrite (proj2 (Z.eqb_neq _ _) Hs). apply logs_ret.
Qed.

Lemma service_runs {E : Env} {T} op (refused : T) (body : M T) w :
  g_module_state (w_core w) = QUDO_PQC_STATE_RUNNING -> lock_free (g_audit_lock (w_audit w)) ->
  exists l, log_ext (w_log w) l /\ ctrdrbg_service op refused body w = body (set_w_log l w).
Proof.
  intros Hs Ha. unfold ctrdrbg_service, qudo_pqc_ctrdrbg_mark_unapproved.
  destruct (logs_audit QUDO_SEV_INFO QUDO_ERR_NONE QUDO_AUDIT_COMP_INDICATOR op w ltac:(severity) Ha) as (l & Hrun & Hl).
  exists l. split; [exact Hl |]. unfold qudo_pqc_is_running, get_state, mbind, M_bind, gets, when, mret, M_ret.
  rewrite Hs. change (QUDO_PQC_STATE_RUNNING =? QUDO_PQC_STATE_ERROR) with false.
  change (QUDO_PQC_STATE_RUNNING =? QUDO_PQC_STATE_RUNNING) with true. unfold mret, M_ret. cbn [negb]. now rewrite Hrun.
Qed.

(** C35. CTR_DRBG contexts of applications: while the module is RUNNING, freeing a context releases its
    memory erased and un-initialising it erases key, counter and state, which [is_zeroized] confirms.  Outside RUNNING (after
    an error, or after shutdown) both calls refuse: the context keeps its key, its counter and its memory. *)
Theorem ctrdrbg_release {E : Env} (c : qudo_ctrdrbg_ctx_t) (w : World)
  (Hl : lock_free (g_self_test_lock (w_core w))) (Ha : lock_free (g_audit_lock (w_audit w))) :
  (g_module_state (w_core w) = QUDO_PQC_STATE_RUNNING ->
     (exists l, qudo_pqc_ctrdrbg_free (Some c) w = Some (Some (Freed drbg_cleared), set_w_log l w)) /\
     (exists w1 c1 w2, qudo_pqc_ctrdrbg_uninit (Some c) w = Some (Some c1, w1) /\
        all_zero (db_K c1) = true /\ all_zero (db_V c1) = true /\ db_initialized c1 = false /\
        qudo_pqc_ctrdrbg_is_zeroized (Some c1) w1 = Some (1, w2))) /\
  (g_module_state (w_core w) <> QUDO_PQC_STATE_RUNNING ->
     (exists l, qudo_pqc_ctrdrbg_free (Some c) w = Some (Some (Live c), set_w_log l w)) /\
     (exists l, qudo_pqc_ctrdrbg_uninit (Some c) w = Some (Some c, set_w_log l w))).
Proof.
  split; intros Hs.
  - split.
    + destruct (service_runs "qudo_pqc_ctrdrbg_free: non-Approved service" (Some (Live c)) (mret (Some (Freed drbg_cleared))) w Hs Ha)
        as (l & _ & Hr). exists l. exact Hr.
    + destruct (service_runs "qudo_pqc_ctrdrbg_uninit: non-Approved service" (Some c) (mret (qudo_ctrdrbg_free (Some c))) w Hs Ha)
        as (l & _ & Hr).
      destruct (service_runs "qudo_pqc_ctrdrbg_is_zeroized: non-Approved service" 0 (mret 1) (set_w_log l w) Hs Ha)
        as (l2 & _ & Hr2).
      exists (set_w_log l w), drbg_cleared. eexists. split; [exact Hr |]. split_and!; try reflexivity. exact Hr2.
  - split.
    + destruct (service_refused "qudo_pqc_ctrdrbg_free: non-Approved service" (Some (Live c)) (mret (Some (Freed drbg_cleared))) w Hs Hl Ha)
        as (l & Hr & _). eauto.
    + destruct (service_refused "qudo_pqc_ctrdrbg_uninit: non-Approved service" (Some c) (mret (qudo_ctrdrbg_free (Some c))) w Hs Hl Ha)
        as (l & Hr & _). eauto.
Qed.

Lemma ctrdrbg_release_witness :
  exists l, qudo_pqc_ctrdrbg_free (Some demo_drbg) (on_core (set_g_module_state QUDO_PQC_STATE_ERROR) demo_world)
            = Some (Some (Live demo_drbg), set_w_log l (on_core (set_g_module_state QUDO_PQC_STATE_ERROR) demo_world)).
Proof.
  destruct (@ctrdrbg_release plain_env demo_drbg (on_core (set_g_module_state QUDO_PQC_STATE_ERROR) demo_world)
              ltac:(now left) ltac:(now left)) as [_ H].
  apply H. discriminate.
Defined.
