(* ===== verification/Fips202.v ===== *)
(** * FIPS 202 reference Keccak, SHA-3 and SHAKE

    The permutation (Section 3: step mappings on the 5 x 5 array of lanes, rotation offsets by the walk of
    Algorithm 2, round constants by the shift register of Algorithm 5), the sponge (Section 4), the padding
    and the functions of Section 6, on the byte strings of Appendix B.  [Keccak] and [Shake] show that the
    code computes them. *)

From stdpp Require Import base list numbers.
From Stdlib Require Import ZArith Lia.
From S2P Require Import Prelude.

#[local] Open Scope Z_scope.

(** ** Lanes *)

(** Lane (x, y) of a state is element [x + 5 y]; the coordinates are taken modulo 5. *)
Definition lane (A : list Z) (x y : nat) : Z := rd A (x mod 5 + 5 * (y mod 5)).
Definition lanes (f : nat -> nat -> Z) : list Z := map (fun i => f (i mod 5)%nat (i / 5)%nat) (seq 0 25).

(** Bit [z] of a 64-bit lane moves to [z + n] modulo 64. *)
Definition rotl (n : nat) (x : Z) : Z :=
  Z.lor (u64 (Z.shiftl x (Z.of_nat n))) (Z.shiftr x (64 - Z.of_nat n)).

Definition lane_not (x : Z) : Z := u64 (Z.lnot x).

(** ** Step mappings (3.2) *)

Definition theta_C (A : list Z) (x : nat) : Z :=
  fold_left Z.lxor (map (lane A x) [1; 2; 3; 4]%nat) (lane A x 0).
Definition theta_D (A : list Z) (x : nat) : Z := Z.lxor (theta_C A (x + 4)) (rotl 1 (theta_C A (x + 1))).
Definition theta (A : list Z) : list Z := lanes (fun x y => Z.lxor (lane A x y) (theta_D A x)).

(** The walk of Algorithm 2 visits the lanes other than (0, 0); lane number [t] of it is rotated by
    [(t + 1) (t + 2) / 2]. *)
Fixpoint rho_walk (n t x y : nat) : list (nat * nat) :=
  match n with
  | O => []
  | S n => (x + 5 * y, ((t + 1) * (t + 2) / 2) mod 64)%nat :: rho_walk n (S t) y ((2 * x + 3 * y) mod 5)%nat
  end.

Definition rho_offset (i : nat) : nat :=
  match List.find (fun p => Nat.eqb (fst p) i) (rho_walk 24 0 1 0) with Some p => snd p | None => 0 end.

Definition rho_offsets : list nat := Eval vm_compute in map rho_offset (seq 0 25).

Definition rho (A : list Z) : list Z :=
  lanes (fun x y => let n := nth (x + 5 * y) rho_offsets O in
                    if Nat.eqb n 0 then lane A x y else rotl n (lane A x y)).

Definition pi (A : list Z) : list Z := lanes (fun x y => lane A (x + 3 * y) x).

Definition chi (A : list Z) : list Z :=
  lanes (fun x y => Z.lxor (lane A x y) (Z.land (lane_not (lane A (x + 1) y)) (lane A (x + 2) y))).

(** The shift register of Algorithm 5: bit [R[i]] is element [i]. *)
Definition rc_step (R : list bool) : list bool :=
  let R := false :: R in
  let b i := nth i R false in
  let b8 := b 8%nat in
  take 8 [xorb (b 0%nat) b8; b 1%nat; b 2%nat; b 3%nat; xorb (b 4%nat) b8; xorb (b 5%nat) b8; xorb (b 6%nat) b8; b 7%nat].

Definition rc (t : nat) : bool :=
  nth 0 (Nat.iter (t mod 255) rc_step [true; false; false; false; false; false; false; false]) false.

(** [RC[2^j - 1] = rc(j + 7 ir)]. *)
Definition RC (ir : nat) : Z :=
  fold_left (fun acc j => Z.lor acc (if rc (j + 7 * ir) then Z.shiftl 1 (2 ^ Z.of_nat j - 1) else 0)) (seq 0 7) 0.

Definition iota (ir : nat) (A : list Z) : list Z :=
  lanes (fun x y => if Nat.eqb (x + 5 * y) 0 then Z.lxor (lane A x y) (RC ir) else lane A x y).

Definition Rnd (A : list Z) (ir : nat) : list Z := iota ir (chi (pi (rho (theta A)))).

Definition keccak_lanes (A : list Z) : list Z := fold_left Rnd (seq 0 24) A.

(** ** Byte strings *)

(** A lane is eight bytes, the first one least significant. *)
Definition le64 (b : bytes) : Z := fold_right (fun x acc => x + 256 * acc) 0 b.
Fixpoint Z_to_le (n : nat) (v : Z) : bytes :=
  match n with O => [] | S n => u8 v :: Z_to_le n (Z.shiftr v 8) end.

Definition to_lanes (S : bytes) : list Z := map (fun i => le64 (sub S (8 * i) 8)) (seq 0 25).
Definition of_lanes (A : list Z) : bytes := concat (map (Z_to_le 8) A).

Definition keccak_f (S : bytes) : bytes := of_lanes (keccak_lanes (to_lanes S)).

(** ** Sponge (4) *)

(** Absorbing blocks of [r] bytes into a state of 200 bytes. *)
Definition absorb_block (S P : bytes) : bytes := keccak_f (xor_bytes S (P ++ zeros (200 - length P))).

Fixpoint blocks (n r : nat) (m : bytes) : list bytes :=
  match n with O => [] | S n => take r m :: blocks n r (drop r m) end.

Definition absorb (r : nat) (m : bytes) (S : bytes) : bytes :=
  fold_left absorb_block (blocks (length m / r) r m) S.

(** The bytes squeezed from state [S] by [n] further applications of the permutation. *)
Fixpoint squeeze (n r : nat) (S : bytes) : bytes :=
  match n with O => take r S | Datatypes.S n => take r S ++ squeeze n r (keccak_f S) end.

(** ** Padding, in bits (5.1, 6.1, 6.2, B.1) *)

Definition byte_bits (x : Z) : list bool := map (fun i => Z.testbit x (Z.of_nat i)) (seq 0 8).
Definition bits (m : bytes) : list bool := concat (map byte_bits m).

Definition pad101 (x m : nat) : list bool := true :: repeat false (Z.to_nat ((- Z.of_nat m - 2) mod Z.of_nat x)) ++ [true].

Definition bits_byte (b : list bool) : Z := fold_right (fun b acc => Z.b2z b + 2 * acc) 0 b.
Fixpoint bits_bytes (n : nat) (b : list bool) : bytes :=
  match n with O => [] | S n => bits_byte (take 8 b) :: bits_bytes n (drop 8 b) end.

(** The padded message: message bits, suffix, then pad10*1 up to a multiple of the rate. *)
Definition padded (r : nat) (suffix : list bool) (m : bytes) : bytes :=
  let b := bits m ++ suffix in
  let p := b ++ pad101 (8 * r) (length b) in
  bits_bytes (length p / 8) p.

(** ** Functions (6.1, 6.2) *)

(** The infinite output, cut to [d] bytes. *)
Definition keccak_sponge (r : nat) (suffix : list bool) (m : bytes) (d : nat) : bytes :=
  take d (squeeze (d / r) r (absorb r (padded r suffix m) (zeros 200))).

Definition SHA3_256 (m : bytes) : bytes := keccak_sponge 136 [false; true] m 32.
Definition SHA3_512 (m : bytes) : bytes := keccak_sponge 72 [false; true] m 64.
Definition SHAKE128 (m : bytes) (d : nat) : bytes := keccak_sponge 168 [true; true; true; true] m d.
Definition SHAKE256 (m : bytes) (d : nat) : bytes := keccak_sponge 136 [true; true; true; true] m d.
