(* ===== verification/Keccak.v ===== *)
(** * Keccak-f[1600]

    Model of [mlkem-native/mlkem/src/fips202/keccakf1600.c]: the portable permutation, unrolled by two rounds,
    and byte access to the state, which is memory of 200 bytes accessed as 25 little-endian lanes. *)

From stdpp Require Import base list numbers.
From Stdlib Require Import ZArith Lia.
From S2P Require Import Prelude Fips202.

#[local] Open Scope Z_scope.

Definition MLK_KECCAK_NROUNDS : nat := 24.

Definition MLK_KECCAK_ROL (a offset : Z) : Z := Z.lxor (u64 (Z.shiftl a offset)) (Z.shiftr a (64 - offset)).

(** ** Byte access *)

(** Little-endian build: the bytes of the state are the memory itself. *)
Definition mlk_keccakf1600_extract_bytes (state : bytes) (offset length : nat) : bytes := sub state offset length.

Definition mlk_keccakf1600_xor_bytes (state data : bytes) (offset length : nat) : bytes :=
  blit state offset (xor_bytes (sub state offset length) (take length data)).

(** Lane [i] of the state, read and written as a [uint64_t]. *)
Definition ld64 (state : bytes) (i : nat) : Z := le64 (sub state (8 * i) 8).
Definition st64 (v : Z) : bytes := Z_to_le 8 v.

(** ** The permutation *)

Definition mlk_KeccakF_RoundConstants : list Z :=
  [ 0x0000000000000001; 0x0000000000008082; 0x800000000000808a; 0x8000000080008000;
    0x000000000000808b; 0x0000000080000001; 0x8000000080008081; 0x8000000000008009;
    0x000000000000008a; 0x0000000000000088; 0x0000000080008009; 0x000000008000000a;
    0x000000008000808b; 0x800000000000008b; 0x8000000000008089; 0x8000000000008003;
    0x8000000000008002; 0x8000000000000080; 0x000000000000800a; 0x800000008000000a;
    0x8000000080008081; 0x8000000000008080; 0x0000000080000001; 0x8000000080008008 ].

(** [prepareTheta; thetaRhoPiChiIotaPrepareTheta(round, A, E)]: the lanes [E] from the lanes [A]. *)
Definition thetaRhoPiChiIota (rc : Z) (s : list Z) : list Z :=
  match s with
  | [Aba; Abe; Abi; Abo; Abu; Aga; Age; Agi; Ago; Agu;
      Aka; Ake; Aki; Ako; Aku; Ama; Ame; Ami; Amo; Amu;
      Asa; Ase; Asi; Aso; Asu] =>
      let BCa := Z.lxor (Z.lxor (Z.lxor (Z.lxor Aba Aga) Aka) Ama) Asa in
      let BCe := Z.lxor (Z.lxor (Z.lxor (Z.lxor Abe Age) Ake) Ame) Ase in
      let BCi := Z.lxor (Z.lxor (Z.lxor (Z.lxor Abi Agi) Aki) Ami) Asi in
      let BCo := Z.lxor (Z.lxor (Z.lxor (Z.lxor Abo Ago) Ako) Amo) Aso in
      let BCu := Z.lxor (Z.lxor (Z.lxor (Z.lxor Abu Agu) Aku) Amu) Asu in
      let Da := Z.lxor BCu (MLK_KECCAK_ROL BCe 1) in
      let De := Z.lxor BCa (MLK_KECCAK_ROL BCi 1) in
      let Di := Z.lxor BCe (MLK_KECCAK_ROL BCo 1) in
      let Do_ := Z.lxor BCi (MLK_KECCAK_ROL BCu 1) in
      let Du := Z.lxor BCo (MLK_KECCAK_ROL BCa 1) in
      let Aba := Z.lxor Aba Da in
      let BCa := Aba in
      let Age := Z.lxor Age De in
      let BCe := MLK_KECCAK_ROL Age 44 in
      let Aki := Z.lxor Aki Di in
      let BCi := MLK_KECCAK_ROL Aki 43 in
      let Amo := Z.lxor Amo Do_ in
      let BCo := MLK_KECCAK_ROL Amo 21 in
      let Asu := Z.lxor Asu Du in
      let BCu := MLK_KECCAK_ROL Asu 14 in
      let Eba := Z.lxor BCa (Z.land (u64 (Z.lnot BCe)) BCi) in
      let Eba := Z.lxor Eba rc in
      let Ebe := Z.lxor BCe (Z.land (u64 (Z.lnot BCi)) BCo) in
      let Ebi := Z.lxor BCi (Z.land (u64 (Z.lnot BCo)) BCu) in
      let Ebo := Z.lxor BCo (Z.land (u64 (Z.lnot BCu)) BCa) in
      let Ebu := Z.lxor BCu (Z.land (u64 (Z.lnot BCa)) BCe) in
      let Abo := Z.lxor Abo Do_ in
      let BCa := MLK_KECCAK_ROL Abo 28 in
      let Agu := Z.lxor Agu Du in
      let BCe := MLK_KECCAK_ROL Agu 20 in
      let Aka := Z.lxor Aka Da in
      let BCi := MLK_KECCAK_ROL Aka 3 in
      let Ame := Z.lxor Ame De in
      let BCo := MLK_KECCAK_ROL Ame 45 in
      let Asi := Z.lxor Asi Di in
      let BCu := MLK_KECCAK_ROL Asi 61 in
      let Ega := Z.lxor BCa (Z.land (u64 (Z.lnot BCe)) BCi) in
      let Ege := Z.lxor BCe (Z.land (u64 (Z.lnot BCi)) BCo) in
      let Egi := Z.lxor BCi (Z.land (u64 (Z.lnot BCo)) BCu) in
      let Ego := Z.lxor BCo (Z.land (u64 (Z.lnot BCu)) BCa) in
      let Egu := Z.lxor BCu (Z.land (u64 (Z.lnot BCa)) BCe) in
      let Abe := Z.lxor Abe De in
      let BCa := MLK_KECCAK_ROL Abe 1 in
      let Agi := Z.lxor Agi Di in
      let BCe := MLK_KECCAK_ROL Agi 6 in
      let Ako := Z.lxor Ako Do_ in
      let BCi := MLK_KECCAK_ROL Ako 25 in
      let Amu := Z.lxor Amu Du in
      let BCo := MLK_KECCAK_ROL Amu 8 in
      let Asa := Z.lxor Asa Da in
      let BCu := MLK_KECCAK_ROL Asa 18 in
      let Eka := Z.lxor BCa (Z.land (u64 (Z.lnot BCe)) BCi) in
      let Eke := Z.lxor BCe (Z.land (u64 (Z.lnot BCi)) BCo) in
      let Eki := Z.lxor BCi (Z.land (u64 (Z.lnot BCo)) BCu) in
      let Eko := Z.lxor BCo (Z.land (u64 (Z.lnot BCu)) BCa) in
      let Eku := Z.lxor BCu (Z.land (u64 (Z.lnot BCa)) BCe) in
      let Abu := Z.lxor Abu Du in
      let BCa := MLK_KECCAK_ROL Abu 27 in
      let Aga := Z.lxor Aga Da in
      let BCe := MLK_KECCAK_ROL Aga 36 in
      let Ake := Z.lxor Ake De in
      let BCi := MLK_KECCAK_ROL Ake 10 in
      let Ami := Z.lxor Ami Di in
      let BCo := MLK_KECCAK_ROL Ami 15 in
      let Aso := Z.lxor Aso Do_ in
      let BCu := MLK_KECCAK_ROL Aso 56 in
      let Ema := Z.lxor BCa (Z.land (u64 (Z.lnot BCe)) BCi) in
      let Eme := Z.lxor BCe (Z.land (u64 (Z.lnot BCi)) BCo) in
      let Emi := Z.lxor BCi (Z.land (u64 (Z.lnot BCo)) BCu) in
      let Emo := Z.lxor BCo (Z.land (u64 (Z.lnot BCu)) BCa) in
      let Emu := Z.lxor BCu (Z.land (u64 (Z.lnot BCa)) BCe) in
      let Abi := Z.lxor Abi Di in
      let BCa := MLK_KECCAK_ROL Abi 62 in
      let Ago := Z.lxor Ago Do_ in
      let BCe := MLK_KECCAK_ROL Ago 55 in
      let Aku := Z.lxor Aku Du in
      let BCi := MLK_KECCAK_ROL Aku 39 in
      let Ama := Z.lxor Ama Da in
      let BCo := MLK_KECCAK_ROL Ama 41 in
      let Ase := Z.lxor Ase De in
      let BCu := MLK_KECCAK_ROL Ase 2 in
      let Esa := Z.lxor BCa (Z.land (u64 (Z.lnot BCe)) BCi) in
      let Ese := Z.lxor BCe (Z.land (u64 (Z.lnot BCi)) BCo) in
      let Esi := Z.lxor BCi (Z.land (u64 (Z.lnot BCo)) BCu) in
      let Eso := Z.lxor BCo (Z.land (u64 (Z.lnot BCu)) BCa) in
      let Esu := Z.lxor BCu (Z.land (u64 (Z.lnot BCa)) BCe) in
      [Eba; Ebe; Ebi; Ebo; Ebu; Ega; Ege; Egi; Ego; Egu;
      Eka; Eke; Eki; Eko; Eku; Ema; Eme; Emi; Emo; Emu;
      Esa; Ese; Esi; Eso; Esu]
  | _ => s
  end.

(** [for (round = 0; round < 24; round += 2)]: from [A] to [E] and back to [A]. *)
Fixpoint keccak_loop (fuel round : nat) (A : list Z) : list Z :=
  match fuel with
  | O => A
  | S fuel =>
      if Nat.ltb round MLK_KECCAK_NROUNDS then
        let E := thetaRhoPiChiIota (rd mlk_KeccakF_RoundConstants round) A in
        let A := thetaRhoPiChiIota (rd mlk_KeccakF_RoundConstants (round + 1)) E in
        keccak_loop fuel (round + 2) A
      else A
  end.

Definition mlk_keccakf1600_permute_c (state : bytes) : bytes :=
  let A := map (ld64 state) (seq 0 25) in
  concat (map st64 (keccak_loop 13 0 A)).

(** Without a native backend. *)
Definition mlk_keccakf1600_permute (state : bytes) : bytes := mlk_keccakf1600_permute_c state.

(** [mldsa-native/mldsa/src/fips202/keccakf1600.c] has the same text under another prefix. *)
Definition mld_keccakf1600_extract_bytes := mlk_keccakf1600_extract_bytes.
Definition mld_keccakf1600_xor_bytes := mlk_keccakf1600_xor_bytes.
Definition mld_keccakf1600_permute := mlk_keccakf1600_permute.

(** ** Lanes stay 64 bits wide *)

Definition is_u64 (x : Z) : Prop := 0 <= x < 2 ^ 64.

Lemma u64_range x : is_u64 (u64 x).
Proof. rewrite u64_mod. apply Z.mod_pos_bound. reflexivity. Qed.

Lemma testbit_u64_ge x i : is_u64 x -> 64 <= i -> Z.testbit x i = false.
Proof.
  intros [H0 H] Hi. destruct (Z.eq_dec x 0) as [-> | Hne]; [apply Z.bits_0 |].
  apply Z.bits_above_log2; [lia |]. apply Z.log2_lt_pow2; [lia |].
  apply Z.lt_le_trans with (2 ^ 64); [exact H | apply Z.pow_le_mono_r; lia].
Qed.

Lemma lxor_u64 a b : is_u64 a -> is_u64 b -> is_u64 (Z.lxor a b).
Proof.
  intros Ha Hb. unfold is_u64. apply bits_bound; [lia | |].
  - apply Z.lxor_nonneg. destruct Ha, Hb. tauto.
  - intros i Hi. rewrite Z.lxor_spec, !testbit_u64_ge by (auto; lia). reflexivity.
Qed.

Lemma testbit_u64 x i : 0 <= i -> Z.testbit (u64 x) i = (i <? 64) && Z.testbit x i.
Proof.
  intros Hi. rewrite u64_mod. destruct (Z.ltb_spec i 64) as [H | H].
  - now rewrite Z.mod_pow2_bits_low.
  - now rewrite Z.mod_pow2_bits_high by lia.
Qed.

Lemma rotl_disjoint a n i : is_u64 a -> (0 < n < 64)%nat -> 0 <= i ->
  Z.testbit (u64 (Z.shiftl a (Z.of_nat n))) i && Z.testbit (Z.shiftr a (64 - Z.of_nat n)) i = false.
Proof.
  intros Ha Hn Hi. rewrite testbit_u64, Z.shiftl_spec, Z.shiftr_spec by lia.
  destruct (Z.lt_ge_cases i (Z.of_nat n)) as [H | H].
  - rewrite (Z.testbit_neg_r a (i - Z.of_nat n)) by lia. now rewrite andb_false_r.
  - rewrite (testbit_u64_ge a (i + (64 - Z.of_nat n))) by (auto; lia). now rewrite andb_false_r.
Qed.

Lemma ROL_rotl a n : is_u64 a -> (0 < n < 64)%nat -> MLK_KECCAK_ROL a (Z.of_nat n) = rotl n a.
Proof.
  intros Ha Hn. unfold MLK_KECCAK_ROL, rotl. apply Z.bits_inj'. intros i Hi.
  pose proof (rotl_disjoint a n i Ha Hn Hi) as H. rewrite Z.lxor_spec, Z.lor_spec.
  destruct (Z.testbit (u64 (Z.shiftl a (Z.of_nat n))) i), (Z.testbit (Z.shiftr a (64 - Z.of_nat n)) i); easy.
Qed.

Lemma rotl_u64 a n : is_u64 a -> (0 < n < 64)%nat -> is_u64 (rotl n a).
Proof.
  intros Ha Hn. unfold rotl. apply bits_bound; [lia | |].
  - apply Z.lor_nonneg. split; [apply u64_range |]. apply Z.shiftr_nonneg. apply Ha.
  - intros i Hi. rewrite Z.lor_spec, testbit_u64, Z.shiftr_spec by lia.
    rewrite (proj2 (Z.ltb_ge i 64)), (testbit_u64_ge a) by (auto; lia). reflexivity.
Qed.

(** The same with the constant of the source as a literal. *)
Lemma ROL_const a z : is_u64 a -> 0 < z < 64 -> MLK_KECCAK_ROL a z = rotl (Z.to_nat z) a.
Proof. intros Ha Hz. rewrite <- ROL_rotl by (auto; lia). now rewrite Z2Nat.id by lia. Qed.

Lemma ROL_u64 a z : is_u64 a -> 0 < z < 64 -> is_u64 (MLK_KECCAK_ROL a z).
Proof. intros Ha Hz. rewrite ROL_const by auto. apply rotl_u64; [exact Ha | lia]. Qed.

Lemma land_u64 a b : is_u64 b -> is_u64 (Z.land a b).
Proof.
  intros Hb. apply bits_bound; [lia | apply Z.land_nonneg; right; apply Hb |].
  intros i Hi. rewrite Z.land_spec, (testbit_u64_ge b) by (auto; lia). apply andb_false_r.
Qed.

#[export] Hint Resolve u64_range lxor_u64 land_u64 : bits.
#[export] Hint Extern 2 (is_u64 (rotl _ _)) => apply rotl_u64; [| lia] : bits.
#[export] Hint Extern 2 (is_u64 (MLK_KECCAK_ROL _ _)) => apply ROL_u64; [| lia] : bits.

(** ** One round *)

Lemma RC_exact : mlk_KeccakF_RoundConstants = map RC (seq 0 24).
Proof. vm_compute. reflexivity. Qed.

Lemma RC_rd ir : (ir < 24)%nat -> rd mlk_KeccakF_RoundConstants ir = RC ir.
Proof.
  intros H. rewrite RC_exact. do 24 (destruct ir as [|ir]; [reflexivity |]). lia.
Qed.

Lemma RC_u64 ir : (ir < 24)%nat -> is_u64 (RC ir).
Proof.
  intros H. rewrite <- RC_rd by exact H. apply rd_Forall; [split; [lia | reflexivity] |].
  repeat (constructor; [unfold is_u64; lia |]). constructor.
Qed.

Lemma thetaRhoPiChiIota_Rnd s ir :
  length s = 25%nat -> Forall is_u64 s ->
  thetaRhoPiChiIota (RC ir) s = Rnd s ir.
Proof.
  intros Hl Hs. do 25 (destruct s as [|? s]; [discriminate |]). destruct s; [| discriminate]. clear Hl.
  repeat match goal with H : Forall _ (_ :: _) |- _ => apply Forall_cons_1 in H; destruct H end.
  unfold thetaRhoPiChiIota. cbv zeta.
  repeat (rewrite ROL_const; [| solve [auto 20 with bits] | lia]).
  reflexivity.
Qed.

Lemma length_lanes f : length (lanes f) = 25%nat.
Proof. reflexivity. Qed.

Lemma lanes_u64 f : (forall x y, is_u64 (f x y)) -> Forall is_u64 (lanes f).
Proof. intros H. apply Forall_map, Forall_forall. auto. Qed.

Lemma lane_u64 A x y : Forall is_u64 A -> is_u64 (lane A x y).
Proof. intros H. unfold lane. apply (rd_Forall is_u64); [split; [lia | reflexivity] | exact H]. Qed.
#[export] Hint Resolve lane_u64 lanes_u64 : bits.

Lemma rho_offset_range i : (nth i rho_offsets O < 64)%nat.
Proof. do 25 (destruct i as [|i]; [vm_compute; lia |]). destruct i; cbn; lia. Qed.

Lemma theta_C_u64 A x : Forall is_u64 A -> is_u64 (theta_C A x).
Proof. intros H. unfold theta_C. cbn [fold_left map]. auto 20 with bits. Qed.
#[local] Hint Resolve theta_C_u64 : bits.

Lemma theta_u64 A : Forall is_u64 A -> Forall is_u64 (theta A).
Proof. intros H. apply lanes_u64. intros x y. unfold theta_D. auto with bits. Qed.

Lemma rho_u64 A : Forall is_u64 A -> Forall is_u64 (rho A).
Proof.
  intros H. apply lanes_u64. intros x y. cbv zeta. pose proof (rho_offset_range (x + 5 * y)).
  destruct (Nat.eqb_spec (nth (x + 5 * y) rho_offsets O) 0); [auto with bits |].
  apply rotl_u64; [auto with bits | lia].
Qed.

Lemma chi_u64 A : Forall is_u64 A -> Forall is_u64 (chi A).
Proof. intros H. apply lanes_u64. auto with bits. Qed.

Lemma Rnd_u64 A ir : (ir < 24)%nat -> Forall is_u64 A -> Forall is_u64 (Rnd A ir).
Proof.
  intros Hir HA. pose proof (RC_u64 ir Hir). apply lanes_u64. intros x y.
  assert (Forall is_u64 (chi (pi (rho (theta A))))) by (apply chi_u64, lanes_u64; intros; apply lane_u64, rho_u64, theta_u64, HA).
  case Nat.eqb; auto with bits.
Qed.

Lemma keccak_loop_fold k : forall fuel A, length A = 25%nat -> Forall is_u64 A -> (k < fuel)%nat -> (k <= 12)%nat ->
  keccak_loop fuel (24 - 2 * k) A = fold_left Rnd (seq (24 - 2 * k) (2 * k)) A.
Proof.
  induction k as [|k IH]; intros [|fuel] A Hl HA Hf Hk; try lia; [reflexivity |].
  cbn [keccak_loop]. replace (Nat.ltb (24 - 2 * S k) MLK_KECCAK_NROUNDS) with true
    by (symmetry; apply Nat.ltb_lt; unfold MLK_KECCAK_NROUNDS; lia).
  replace (seq (24 - 2 * S k) (2 * S k)) with ((24 - 2 * S k) :: (24 - 2 * S k + 1) :: seq (24 - 2 * k) (2 * k))%nat
    by (replace (2 * S k)%nat with (S (S (2 * k))) by lia; cbn [seq]; repeat f_equal; lia).
  cbn [fold_left]. rewrite !RC_rd by lia.
  rewrite (thetaRhoPiChiIota_Rnd A) by assumption.
  rewrite thetaRhoPiChiIota_Rnd by (first [reflexivity | apply Rnd_u64; [lia | assumption]]).
  replace (24 - 2 * S k + 2)%nat with (24 - 2 * k)%nat by lia.
  apply IH; [reflexivity | | lia | lia]. apply Rnd_u64; [lia |]. apply Rnd_u64; [lia | assumption].
Qed.

Lemma le64_range n b : length b = n -> are_bytes b -> 0 <= le64 b < 2 ^ (8 * Z.of_nat n).
Proof.
  revert b. induction n as [|n IH]; intros [|x b] Hl Hb; try discriminate; [cbn; lia |].
  apply Forall_cons_1 in Hb as [Hx Hb]. cbn [le64 fold_right]. fold (le64 b).
  specialize (IH b ltac:(cbn in Hl; lia) Hb). replace (8 * Z.of_nat (S n)) with (8 + 8 * Z.of_nat n) by lia.
  rewrite Z.pow_add_r by lia. unfold is_u8 in Hx. change (2 ^ 8) with 256. lia.
Qed.

Lemma to_lanes_u64 S : length S = 200%nat -> are_bytes S -> Forall is_u64 (to_lanes S).
Proof.
  intros Hl Hb. apply Forall_map, Forall_forall. intros i Hi. apply in_seq in Hi.
  apply (le64_range 8); [apply length_sub; lia | now apply Forall_take, Forall_drop].
Qed.

Lemma permute_c_keccak_f S : length S = 200%nat -> are_bytes S -> mlk_keccakf1600_permute_c S = keccak_f S.
Proof.
  intros Hl Hb. unfold mlk_keccakf1600_permute_c, keccak_f, of_lanes, keccak_lanes. do 2 f_equal.
  apply (keccak_loop_fold 12); [reflexivity | now apply to_lanes_u64 | lia | lia].
Qed.

Lemma length_Z_to_le n v : length (Z_to_le n v) = n.
Proof. revert v. induction n as [|n IH]; intros v; [reflexivity |]. cbn. now rewrite IH. Qed.

Lemma Z_to_le_bytes n v : are_bytes (Z_to_le n v).
Proof. revert v. induction n as [|n IH]; intros v; constructor; [apply u8_range | apply IH]. Qed.

Lemma length_keccak_f S : length (keccak_f S) = 200%nat.
Proof.
  unfold keccak_f, of_lanes, keccak_lanes. change (seq 0 24) with (seq 0 23 ++ [23%nat]). rewrite fold_left_app.
  cbn [fold_left]. set (A := fold_left Rnd _ _). unfold Rnd at 1, iota at 1, lanes at 1.
  rewrite map_map, length_concat, map_map.
  erewrite map_ext by (intros; apply length_Z_to_le). reflexivity.
Qed.

Lemma keccak_f_bytes S : are_bytes (keccak_f S).
Proof. apply Forall_concat, Forall_map, Forall_forall. intros v _. apply Z_to_le_bytes. Qed.
#[export] Hint Resolve keccak_f_bytes Z_to_le_bytes : bits.

(** C12. The unrolled permutation is Keccak-f[1600]: on every state, the 24 rounds of the code, two per pass of
    the loop with the lanes in 25 variables, give the state FIPS 202 specifies by its five step mappings, with
    the rotation offsets and round constants the standard derives. *)
Theorem keccakf1600_fips202 (S : bytes) (Hlen : length S = 200%nat) (Hb : are_bytes S) :
  mlk_keccakf1600_permute_c S = keccak_f S /\ mld_keccakf1600_permute S = keccak_f S.
Proof. split; now apply permute_c_keccak_f. Qed.

Lemma keccakf1600_fips202_witness :
  take 8 (mlk_keccakf1600_permute_c (zeros 200)) = [0xe7; 0xdd; 0xe1; 0x40; 0x79; 0x8f; 0x25; 0xf1].
Proof.
  rewrite (proj1 (keccakf1600_fips202 (zeros 200) (length_zeros 200) (zeros_bytes 200))). vm_compute. reflexivity.
Defined.
