(* ===== verification/Shake.v ===== *)
(** * SHA-3 and SHAKE

    Models of [mlkem-native/mlkem/src/fips202/fips202.c] (one-shot hashing and block-wise squeezing) and of
    [mldsa-native/mldsa/src/fips202/fips202.c] (incremental absorbing and squeezing). *)

From stdpp Require Import base list numbers.
From Stdlib Require Import ZArith Lia.
From S2P Require Import Prelude Fips202 Keccak.

#[local] Open Scope Z_scope.

Definition SHAKE128_RATE : nat := 168.
Definition SHAKE256_RATE : nat := 136.
Definition SHA3_256_RATE : nat := 136.
Definition SHA3_512_RATE : nat := 72.

(** ** ML-KEM: absorb once, squeeze once *)

(** [while (mlen >= r)]: every pass consumes [r >= 1] bytes. *)
Fixpoint mlk_absorb_blocks (fuel r : nat) (s m : bytes) : bytes * bytes :=
  match fuel with
  | O => (s, m)
  | S fuel =>
      if Nat.leb r (length m)
      then mlk_absorb_blocks fuel r (mlk_keccakf1600_permute (mlk_keccakf1600_xor_bytes s m 0 r)) (drop r m)
      else (s, m)
  end.

Definition mlk_keccak_absorb_once (r : nat) (m : bytes) (p : Z) : bytes :=
  let '(s, m) := mlk_absorb_blocks (length m) r (zeros 200) m in
  let mlen := length m in
  let s := if Nat.ltb 0 mlen then mlk_keccakf1600_xor_bytes s m 0 mlen else s in
  if Nat.eqb mlen (r - 1) then mlk_keccakf1600_xor_bytes s [Z.lor p 128] mlen 1
  else mlk_keccakf1600_xor_bytes (mlk_keccakf1600_xor_bytes s [p] mlen 1) [128] (r - 1) 1.

Fixpoint mlk_keccak_squeezeblocks (nblocks : nat) (s : bytes) (r : nat) : bytes * bytes :=
  match nblocks with
  | O => ([], s)
  | S nblocks =>
      let s := mlk_keccakf1600_permute s in
      let h := mlk_keccakf1600_extract_bytes s 0 r in
      let '(rest, s) := mlk_keccak_squeezeblocks nblocks s r in
      (h ++ rest, s)
  end.

(** [while (outlen > 0)]: every pass produces at least one byte. *)
Fixpoint mlk_squeeze_loop (fuel outlen : nat) (s : bytes) (r : nat) : bytes :=
  match fuel with
  | O => []
  | S fuel =>
      if Nat.ltb 0 outlen then
        let s := mlk_keccakf1600_permute s in
        let len := if Nat.ltb outlen r then outlen else r in
        mlk_keccakf1600_extract_bytes s 0 len ++ mlk_squeeze_loop fuel (outlen - len) s r
      else []
  end.

Definition mlk_keccak_squeeze_once (outlen : nat) (s : bytes) (r : nat) : bytes := mlk_squeeze_loop outlen outlen s r.

Definition mlk_shake128_absorb_once (input : bytes) : bytes := mlk_keccak_absorb_once SHAKE128_RATE input 0x1F.
Definition mlk_shake128_squeezeblocks (nblocks : nat) (state : bytes) : bytes * bytes :=
  mlk_keccak_squeezeblocks nblocks state SHAKE128_RATE.
Definition mlk_shake256 (outlen : nat) (input : bytes) : bytes :=
  mlk_keccak_squeeze_once outlen (mlk_keccak_absorb_once SHAKE256_RATE input 0x1F) SHAKE256_RATE.
Definition mlk_sha3_256 (input : bytes) : bytes :=
  mlk_keccak_squeeze_once 32 (mlk_keccak_absorb_once SHA3_256_RATE input 0x06) SHA3_256_RATE.
Definition mlk_sha3_512 (input : bytes) : bytes :=
  mlk_keccak_squeeze_once 64 (mlk_keccak_absorb_once SHA3_512_RATE input 0x06) SHA3_512_RATE.

(** ** ML-DSA: incremental *)

Definition keccak_init : bytes := zeros 200.

(** [while (inlen >= r - pos)]: every pass but possibly the first consumes [r] bytes. *)
Fixpoint keccak_absorb_loop (fuel : nat) (s : bytes) (pos r : nat) (inp : bytes) : bytes * nat * bytes :=
  match fuel with
  | O => (s, pos, inp)
  | S fuel =>
      if Nat.leb (r - pos) (length inp)
      then keccak_absorb_loop fuel (mld_keccakf1600_permute (mld_keccakf1600_xor_bytes s inp pos (r - pos)))
             0 r (drop (r - pos) inp)
      else (s, pos, inp)
  end.

Definition keccak_absorb (s : bytes) (pos r : nat) (inp : bytes) : bytes * nat :=
  let '(s, pos, inp) := keccak_absorb_loop (S (length inp)) s pos r inp in
  (mld_keccakf1600_xor_bytes s inp pos (length inp), (pos + length inp)%nat).

Definition keccak_finalize (s : bytes) (pos r : nat) (p : Z) : bytes :=
  let b := 0x80 in
  mld_keccakf1600_xor_bytes (mld_keccakf1600_xor_bytes s [p] pos 1) [b] (r - 1) 1.

(** [while (bytes_to_go > 0)]: every pass produces at least one byte. *)
Fixpoint keccak_squeeze_loop (fuel bytes_to_go : nat) (s : bytes) (pos r : nat) : bytes * (bytes * nat) :=
  match fuel with
  | O => ([], (s, pos))
  | S fuel =>
      if Nat.ltb 0 bytes_to_go then
        let '(s, pos) := if Nat.eqb pos r then (mld_keccakf1600_permute s, 0%nat) else (s, pos) in
        let i := if Nat.ltb bytes_to_go (r - pos) then bytes_to_go else (r - pos)%nat in
        let out := mld_keccakf1600_extract_bytes s pos i in
        let '(rest, st) := keccak_squeeze_loop fuel (bytes_to_go - i) s (pos + i) r in
        (out ++ rest, st)
      else ([], (s, pos))
  end.

Definition keccak_squeeze (outlen : nat) (s : bytes) (pos r : nat) : bytes * (bytes * nat) :=
  keccak_squeeze_loop outlen outlen s pos r.

(** [mld_shake128ctx] and [mld_shake256ctx]. *)
Record mld_shakectx := mk_shakectx { shake_s : bytes; shake_pos : nat }.

Definition mld_shake_init : mld_shakectx := mk_shakectx keccak_init 0.
Definition mld_shake_release : mld_shakectx := mk_shakectx (zeros 200) 0.

Definition shake_absorb (r : nat) (c : mld_shakectx) (inp : bytes) : mld_shakectx :=
  let '(s, pos) := keccak_absorb (shake_s c) (shake_pos c) r inp in mk_shakectx s pos.
Definition shake_finalize (r : nat) (c : mld_shakectx) : mld_shakectx :=
  mk_shakectx (keccak_finalize (shake_s c) (shake_pos c) r 0x1F) r.
Definition shake_squeeze (r : nat) (outlen : nat) (c : mld_shakectx) : bytes * mld_shakectx :=
  let '(out, (s, pos)) := keccak_squeeze outlen (shake_s c) (shake_pos c) r in (out, mk_shakectx s pos).

Definition mld_shake128_init := mld_shake_init.
Definition mld_shake128_absorb := shake_absorb SHAKE128_RATE.
Definition mld_shake128_finalize := shake_finalize SHAKE128_RATE.
Definition mld_shake128_squeeze := shake_squeeze SHAKE128_RATE.
Definition mld_shake256_init := mld_shake_init.
Definition mld_shake256_absorb := shake_absorb SHAKE256_RATE.
Definition mld_shake256_finalize := shake_finalize SHAKE256_RATE.
Definition mld_shake256_squeeze := shake_squeeze SHAKE256_RATE.

Definition mld_shake256 (outlen : nat) (inp : bytes) : bytes :=
  let c := mld_shake256_absorb mld_shake256_init inp in
  fst (mld_shake256_squeeze outlen (mld_shake256_finalize c)).

(** ** Padding in bytes *)

Lemma bits_bytes_app n1 n2 b1 b2 : length b1 = (8 * n1)%nat ->
  bits_bytes (n1 + n2) (b1 ++ b2) = bits_bytes n1 b1 ++ bits_bytes n2 b2.
Proof.
  revert b1. induction n1 as [|n1 IH]; intros b1 Hl; [destruct b1; [reflexivity | discriminate] |].
  cbn [bits_bytes Nat.add app]. rewrite take_app_le, drop_app_le by lia. f_equal. apply IH. rewrite length_drop. lia.
Qed.

Lemma bits_byte_bits x : is_u8 x -> bits_byte (byte_bits x) = x.
Proof.
  intros Hx. apply (byte_forall (fun x => bits_byte (byte_bits x) =? x)) in Hx; [now apply Z.eqb_eq |].
  vm_compute. reflexivity.
Qed.

Lemma length_bits m : length (bits m) = (8 * length m)%nat.
Proof. induction m as [|x m IH]; [reflexivity |]. change (bits (x :: m)) with (byte_bits x ++ bits m).
  rewrite length_app, IH. cbn [length byte_bits map seq]. lia. Qed.

Lemma bits_bytes_bits m : are_bytes m -> bits_bytes (length m) (bits m) = m.
Proof.
  induction m as [|x m IH]; intros Hm; [reflexivity |]. apply Forall_cons_1 in Hm as [Hx Hm].
  change (bits (x :: m)) with (byte_bits x ++ bits m). change (length (x :: m)) with (1 + length m)%nat.
  rewrite bits_bytes_app by reflexivity. rewrite IH by exact Hm. cbn [bits_bytes app].
  f_equal. now apply bits_byte_bits.
Qed.

Lemma bits_bytes_false k : bits_bytes k (repeat false (8 * k)) = zeros k.
Proof.
  induction k as [|k IH]; [reflexivity |]. replace (8 * S k)%nat with (8 + 8 * k)%nat by lia.
  rewrite repeat_app. change (S k) with (1 + k)%nat. rewrite bits_bytes_app by reflexivity. now rewrite IH.
Qed.

(** The bytes after the message: [q] of them, starting with the domain byte [p], ending with 0x80. *)
Definition pad_tail (q : nat) (p : Z) : bytes :=
  if Nat.eqb q 1 then [Z.lor p 128] else p :: zeros (q - 2) ++ [128].

Definition pad_bytes (r : nat) (p : Z) (m : bytes) : bytes := m ++ pad_tail (r - length m mod r) p.

Lemma length_pad_tail q p : (1 <= q)%nat -> length (pad_tail q p) = q.
Proof.
  intros Hq. unfold pad_tail. destruct (Nat.eqb_spec q 1) as [-> | H]; [reflexivity |].
  cbn [length]. rewrite length_app, length_zeros. cbn. lia.
Qed.

(** Suffix and domain byte of the SHA-3 functions and of SHAKE. *)
Inductive domain : list bool -> Z -> Prop :=
  | domain_sha3 : domain [false; true] 0x06
  | domain_shake : domain [true; true; true; true] 0x1F.

Lemma pad_tail_u8 sfx p q : domain sfx p -> are_bytes (pad_tail q p).
Proof.
  intros Hd. assert (is_u8 p /\ is_u8 (Z.lor p 128)) as [Hp Hl] by (destruct Hd; vm_compute; intuition congruence).
  unfold pad_tail. case Nat.eqb; [now apply Forall_singleton |]. constructor; [exact Hp |].
  apply Forall_app. split; [apply zeros_bytes |]. apply Forall_singleton. unfold is_u8. lia.
Qed.

Lemma pad_tail_bits sfx p q : domain sfx p -> (1 <= q)%nat ->
  bits_bytes q (sfx ++ true :: repeat false (8 * q - length sfx - 2) ++ [true]) = pad_tail q p.
Proof.
  intros Hd Hq. unfold pad_tail. destruct (Nat.eqb_spec q 1) as [-> | H]; [destruct Hd; reflexivity |].
  set (j := (6 - length sfx)%nat).
  replace (8 * q - length sfx - 2)%nat with (S j + (8 * (q - 2) + 7))%nat by (destruct Hd; cbn in *; lia).
  rewrite (repeat_app _ (S j)), (repeat_app _ (8 * (q - 2))).
  replace (sfx ++ true :: (repeat false (S j) ++ repeat false (8 * (q - 2)) ++ repeat false 7) ++ [true])
    with ((sfx ++ true :: repeat false (S j)) ++ repeat false (8 * (q - 2)) ++ (repeat false 7 ++ [true]))
    by (repeat (rewrite <- ?app_assoc; cbn [app]); reflexivity).
  replace q with (1 + ((q - 2) + 1))%nat at 1 by lia.
  rewrite !bits_bytes_app by (rewrite ?repeat_length; destruct Hd; reflexivity).
  rewrite bits_bytes_false. destruct Hd; reflexivity.
Qed.

Lemma padded_bytes r sfx p m : (0 < r)%nat -> domain sfx p -> are_bytes m -> padded r sfx m = pad_bytes r p m.
Proof.
  intros Hr Hd Hm. unfold padded, pad_bytes, pad101. cbv zeta. rewrite (length_app (bits m) sfx), length_bits.
  set (q := (r - length m mod r)%nat).
  assert (Hq : (1 <= q <= r)%nat) by (pose proof (Nat.mod_upper_bound (length m) r); subst q; lia).
  assert (Hs : (length sfx + 2 <= 8)%nat) by (destruct Hd; cbn; lia).
  assert (Hj : Z.to_nat ((- Z.of_nat (8 * length m + length sfx) - 2) mod Z.of_nat (8 * r)) = (8 * q - length sfx - 2)%nat).
  { rewrite <- (Z.mod_unique_pos (- Z.of_nat (8 * length m + length sfx) - 2) (Z.of_nat (8 * r))
                  (- Z.of_nat (length m / r) - 1) (Z.of_nat (8 * q - length sfx - 2))); [lia | lia |].
    pose proof (Nat.div_mod_eq (length m) r). subst q. nia. }
  rewrite Hj. set (tail := true :: repeat false (8 * q - length sfx - 2) ++ [true]).
  rewrite <- (app_assoc (bits m)). rewrite (length_app (bits m)), length_bits.
  assert (Ht : length (sfx ++ tail) = (8 * q)%nat).
  { subst tail. rewrite length_app. cbn [length]. rewrite length_app, repeat_length. cbn [length]. lia. }
  rewrite Ht. replace ((8 * length m + 8 * q) / 8)%nat with (length m + q)%nat
    by (replace (8 * length m + 8 * q)%nat with ((length m + q) * 8)%nat by lia; now rewrite Nat.div_mul).
  rewrite bits_bytes_app by apply length_bits. rewrite bits_bytes_bits by exact Hm. f_equal.
  subst tail. apply pad_tail_bits; [exact Hd | lia].
Qed.

(** ** Bytes at an offset of the state *)

Definition place (off : nat) (d : bytes) : bytes := zeros off ++ d ++ zeros (200 - off - length d).

Lemma length_place off d : (off + length d <= 200)%nat -> length (place off d) = 200%nat.
Proof. intros H. unfold place. rewrite !length_app, !length_zeros. lia. Qed.

Lemma place_bytes off d : are_bytes d -> are_bytes (place off d).
Proof. intros H. unfold place, are_bytes. rewrite !Forall_app. repeat split; auto; apply zeros_bytes. Qed.

Lemma xor_bytes_assoc a b c : xor_bytes (xor_bytes a b) c = xor_bytes a (xor_bytes b c).
Proof.
  revert b c. induction a as [|x a IH]; intros [|y b] [|z c]; try reflexivity.
  unfold xor_bytes in *. cbn. now rewrite IH, Z.lxor_assoc.
Qed.

Lemma xor_bytes_app a1 a2 b1 b2 : length a1 = length b1 ->
  xor_bytes (a1 ++ a2) (b1 ++ b2) = xor_bytes a1 b1 ++ xor_bytes a2 b2.
Proof. apply zip_with_app. Qed.

Lemma xor_bytes_zeros_l a n : (length a <= n)%nat -> xor_bytes (zeros n) a = a.
Proof.
  revert n. induction a as [|x a IH]; intros [|n] H; try reflexivity; cbn in H; [lia |].
  unfold xor_bytes, zeros in *. cbn. now rewrite IH by lia.
Qed.

Lemma zeros_app a b : zeros (a + b) = zeros a ++ zeros b.
Proof. apply replicate_add. Qed.

(** XORing bytes into the state is XORing the state with the bytes in place. *)
Lemma xor_bytes_place s d off n : length s = 200%nat -> (off + n <= 200)%nat -> (n <= length d)%nat ->
  mlk_keccakf1600_xor_bytes s d off n = xor_bytes s (place off (take n d)).
Proof.
  intros Hs Hn Hd. unfold mlk_keccakf1600_xor_bytes, place.
  assert (Ht : length (take n d) = n) by (rewrite length_take; lia).
  rewrite Ht.
  assert (Hb : length (sub s off n) = n) by (apply length_sub; lia).
  assert (Es : s = take off s ++ sub s off n ++ drop (off + n) s).
  { unfold sub. rewrite <- drop_drop. now rewrite take_drop, take_drop. }
  rewrite Es at 1 3. rewrite blit_app by (rewrite length_take; lia).
  rewrite length_xor_bytes, Hb by lia. rewrite drop_app_length' by lia.
  rewrite xor_bytes_app by (rewrite length_take, length_zeros; lia).
  rewrite xor_bytes_app by lia.
  rewrite !xor_bytes_zeros by (rewrite ?length_take, ?length_drop; lia). reflexivity.
Qed.

Lemma xor_place_next a b : (length a + length b <= 200)%nat ->
  xor_bytes (place 0 a) (place (length a) b) = place 0 (a ++ b).
Proof.
  intros H. unfold place at 1 2. cbn [zeros replicate app].
  rewrite xor_bytes_app by (now rewrite length_zeros). rewrite xor_bytes_zeros by lia.
  rewrite xor_bytes_zeros_l by (rewrite length_app, length_zeros; lia).
  unfold place. cbn [zeros replicate app]. rewrite length_app, <- app_assoc. do 3 f_equal. lia.
Qed.

Lemma place_lor off a b : Z.lxor a b = Z.lor a b -> xor_bytes (place off [a]) (place off [b]) = place off [Z.lor a b].
Proof.
  intros E. unfold place. rewrite !xor_bytes_app by (rewrite ?length_zeros; reflexivity).
  cbn [length]. rewrite !xor_bytes_zeros by (rewrite length_zeros; lia). change (xor_bytes [a] [b]) with [Z.lxor a b]. rewrite E. reflexivity.
Qed.

Lemma place_nil : place 0 [] = zeros 200.
Proof. reflexivity. Qed.

Lemma place_0_full a : place 0 a = a ++ zeros (200 - length a).
Proof. unfold place. cbn [zeros replicate app]. now rewrite Nat.sub_0_r. Qed.

(** ** Absorbing *)

Lemma mld_permute_eq s : mld_keccakf1600_permute s = mlk_keccakf1600_permute s.
Proof. reflexivity. Qed.

Lemma permute_keccak_f S : length S = 200%nat -> are_bytes S -> mlk_keccakf1600_permute S = keccak_f S.
Proof. apply permute_c_keccak_f. Qed.

#[local] Opaque keccak_f mlk_keccakf1600_permute.


Lemma absorb_block_state S P : length (absorb_block S P) = 200%nat /\ are_bytes (absorb_block S P).
Proof. split; [apply length_keccak_f | apply keccak_f_bytes]. Qed.

Lemma blocks_app n1 n2 r a b : length a = (n1 * r)%nat ->
  blocks (n1 + n2) r (a ++ b) = blocks n1 r a ++ blocks n2 r b.
Proof.
  revert a. induction n1 as [|n1 IH]; intros a Hl; [destruct a; [reflexivity | discriminate] |].
  cbn [blocks Nat.add app]. rewrite take_app_le, drop_app_le by lia. f_equal. apply IH. rewrite length_drop. lia.
Qed.

Lemma absorb_snoc r full blk S k : (0 < r)%nat -> length full = (k * r)%nat -> length blk = r ->
  absorb r (full ++ blk) S = absorb_block (absorb r full S) blk.
Proof.
  intros Hr Hf Hb. unfold absorb. rewrite length_app, Hf, Hb.
  replace (k * r + r)%nat with ((k + 1) * r)%nat by lia. rewrite !Nat.div_mul by lia.
  rewrite blocks_app by exact Hf. rewrite fold_left_app. cbn [blocks fold_left].
  now rewrite take_ge by lia.
Qed.

Lemma absorb_state r m S : length S = 200%nat -> are_bytes S ->
  length (absorb r m S) = 200%nat /\ are_bytes (absorb r m S).
Proof.
  unfold absorb. generalize (blocks (length m / r) r m) as bl. intros bl. revert S.
  induction bl as [|P bl IH]; intros S Hl Hb; [auto |]. cbn [fold_left]. now apply IH; apply absorb_block_state.
Qed.

(** The state [s], with [pos] bytes of an incomplete block, has absorbed the message [m]. *)
Definition absorbed (r : nat) (m s : bytes) (pos : nat) : Prop :=
  exists full rest k, m = full ++ rest /\ length full = (k * r)%nat /\ length rest = pos /\ (pos < r)%nat /\
    s = xor_bytes (absorb r full (zeros 200)) (place 0 rest).

Lemma absorbed_init r : (0 < r)%nat -> absorbed r [] (zeros 200) 0.
Proof.
  intros Hr. exists [], [], 0%nat. repeat split; try (cbn; lia).
  rewrite place_nil. unfold absorb. cbn [length]. rewrite Nat.Div0.div_0_l.
  cbn [blocks fold_left]. now rewrite xor_bytes_zeros by (now rewrite length_zeros).
Qed.

Section Rate.
Context (r : nat) (Hr : (0 < r <= 200)%nat).

Lemma absorbed_xor m s pos d : absorbed r m s pos -> (pos + length d <= r)%nat ->
  exists full rest k, m = full ++ rest /\ length full = (k * r)%nat /\ length rest = pos /\
    mlk_keccakf1600_xor_bytes s d pos (length d) = xor_bytes (absorb r full (zeros 200)) (place 0 (rest ++ d)) /\
    length s = 200%nat.
Proof.
  intros (full & rest & k & Hm & Hf & Hrest & Hp & Hs) Hd.
  destruct (absorb_state r full (zeros 200)) as [Hl _]; [apply length_zeros | apply zeros_bytes |].
  assert (Hls : length s = 200%nat) by (rewrite Hs, length_xor_bytes; [exact Hl | rewrite length_place; lia]).
  exists full, rest, k. repeat split; auto. rewrite xor_bytes_place by lia.
  rewrite take_ge by lia. rewrite Hs, xor_bytes_assoc, <- Hrest, xor_place_next by lia. reflexivity.
Qed.

Lemma xor_bytes_take_data s d off n : mlk_keccakf1600_xor_bytes s d off n = mlk_keccakf1600_xor_bytes s (take n d) off n.
Proof. unfold mlk_keccakf1600_xor_bytes. now rewrite take_take, Nat.min_id. Qed.

Lemma absorbed_block m s pos inp : absorbed r m s pos -> (r - pos <= length inp)%nat -> are_bytes (m ++ inp) ->
  absorbed r (m ++ take (r - pos) inp) (mlk_keccakf1600_permute (mlk_keccakf1600_xor_bytes s inp pos (r - pos))) 0.
Proof.
  intros Ha Hi Hb. pose proof Ha as (_ & _ & _ & _ & _ & _ & Hp & _).
  assert (Ht : length (take (r - pos) inp) = (r - pos)%nat) by (rewrite length_take; lia).
  destruct (absorbed_xor m s pos (take (r - pos) inp) Ha) as (full & rest & k & -> & Hf & Hrest & Hx & Hs); [lia |].
  rewrite Ht in Hx. rewrite xor_bytes_take_data, Hx. clear Hx Ha.
  set (blk := rest ++ take (r - pos) inp) in *.
  assert (Hblk : length blk = r) by (subst blk; rewrite length_app; lia).
  assert (Hbb : are_bytes blk).
  { subst blk. unfold are_bytes in *. rewrite !Forall_app in Hb. rewrite Forall_app. destruct Hb as [[_ ?] ?].
    auto using Forall_take. }
  destruct (absorb_state r full (zeros 200)) as [Hl Hfb]; [apply length_zeros | apply zeros_bytes |].
  exists (full ++ blk), [], (S k). rewrite app_nil_r. subst blk. rewrite app_assoc.
  split; [reflexivity |]. split; [rewrite <- app_assoc, length_app, Hblk, Hf; lia |]. split; [reflexivity |]. split; [lia |].
  rewrite <- app_assoc. rewrite (absorb_snoc r full _ _ k) by lia.
  rewrite place_nil, xor_bytes_zeros by (unfold absorb_block; rewrite length_keccak_f; lia).
  unfold absorb_block. rewrite <- place_0_full. apply permute_keccak_f.
  - rewrite length_xor_bytes; [exact Hl |]. rewrite Hl, length_place; [reflexivity |]. rewrite Hblk; lia.
  - apply xor_bytes_u8; [exact Hfb | now apply place_bytes].
Qed.

Lemma absorbed_tail m s pos inp : absorbed r m s pos -> (length inp < r - pos)%nat ->
  absorbed r (m ++ inp) (mlk_keccakf1600_xor_bytes s inp pos (length inp)) (pos + length inp).
Proof.
  intros Ha Hi. destruct (absorbed_xor m s pos inp Ha) as (full & rest & k & -> & Hf & Hrest & Hx & Hs); [lia |].
  exists full, (rest ++ inp), k. rewrite Hx, app_assoc, length_app. repeat split; auto; lia.
Qed.

Lemma keccak_absorb_loop_absorbed fuel : forall m s pos inp, (length inp <= fuel)%nat ->
  absorbed r m s pos -> are_bytes (m ++ inp) ->
  exists s' pos' m' inp', keccak_absorb_loop fuel s pos r inp = (s', pos', inp') /\ m' ++ inp' = m ++ inp /\
    absorbed r m' s' pos' /\ (length inp' < r - pos')%nat.
Proof.
  induction fuel as [|fuel IH]; intros m s pos inp Hf Ha Hb; pose proof Ha as (_ & _ & _ & _ & _ & _ & Hp & _).
  { exists s, pos, m, inp. repeat split; auto. lia. }
  cbn [keccak_absorb_loop].
  destruct (Nat.leb_spec (r - pos) (length inp)) as [Hle | Hlt].
  - destruct (IH (m ++ take (r - pos) inp) (mlk_keccakf1600_permute (mlk_keccakf1600_xor_bytes s inp pos (r - pos)))
                0%nat (drop (r - pos) inp)) as (s' & pos' & m' & inp' & E & Em & Ha' & Hl').
    + rewrite length_drop. lia.
    + now apply absorbed_block.
    + now rewrite <- app_assoc, take_drop.
    + exists s', pos', m', inp'. rewrite Em, <- app_assoc, take_drop. auto.
  - exists s, pos, m, inp. auto.
Qed.

Lemma keccak_absorb_absorbed m s pos inp : absorbed r m s pos -> are_bytes (m ++ inp) ->
  let '(s', pos') := keccak_absorb s pos r inp in absorbed r (m ++ inp) s' pos'.
Proof.
  intros Ha Hb. unfold keccak_absorb.
  destruct (keccak_absorb_loop_absorbed (S (length inp)) m s pos inp) as (s' & pos' & m' & inp' & E & <- & Ha' & Hl'); auto.
  cbv beta in E |- *. rewrite E. now apply absorbed_tail.
Qed.

(** ** Padding *)

Lemma absorbed_finalize m s pos sfx p : absorbed r m s pos -> are_bytes m -> domain sfx p -> (2 <= r)%nat ->
  length (keccak_finalize s pos r p) = 200%nat /\ are_bytes (keccak_finalize s pos r p) /\
  keccak_f (keccak_finalize s pos r p) = absorb r (padded r sfx m) (zeros 200).
Proof.
  intros Ha Hm Hd Hr2. pose proof Ha as (_ & _ & _ & _ & _ & _ & Hp & _).
  destruct (absorbed_xor m s pos [p] Ha) as (full & rest & k & -> & Hf & Hrest & Hx & Hs); [cbn; lia |].
  destruct (absorb_state r full (zeros 200)) as [Hl Hfb]; [apply length_zeros | apply zeros_bytes |].
  assert (E : keccak_finalize s pos r p = xor_bytes (absorb r full (zeros 200)) (place 0 (rest ++ pad_tail (r - pos) p))).
  { unfold keccak_finalize. unfold mld_keccakf1600_xor_bytes. cbn [length] in Hx. rewrite Hx. clear Hx Ha.
    assert (Hlp : length (place 0 (rest ++ [p])) = 200%nat) by (apply length_place; rewrite length_app; cbn; lia).
    rewrite xor_bytes_place by (rewrite ?length_xor_bytes by lia; cbn [length]; lia). cbn [take].
    rewrite xor_bytes_assoc. f_equal. unfold pad_tail. destruct (Nat.eqb_spec (r - pos) 1) as [H1 | H1].
    - replace (r - 1)%nat with (length rest) by lia. rewrite <- !xor_place_next by (cbn; lia).
      rewrite xor_bytes_assoc, place_lor by (destruct Hd; reflexivity). reflexivity.
    - replace (rest ++ p :: zeros (r - pos - 2) ++ [128]) with ((rest ++ p :: zeros (r - pos - 2)) ++ [128])
        by (now rewrite <- app_assoc).
      replace (r - 1)%nat with (length (rest ++ p :: zeros (r - pos - 2)))
        by (rewrite length_app; cbn [length]; rewrite length_zeros; lia).
      rewrite <- (xor_place_next (rest ++ p :: zeros (r - pos - 2)) [128]) by (rewrite length_app; cbn [length]; rewrite length_zeros; cbn; lia). f_equal.
      rewrite !place_0_full.
      replace (rest ++ p :: zeros (r - pos - 2)) with ((rest ++ [p]) ++ zeros (r - pos - 2)) by (now rewrite <- app_assoc).
      rewrite <- (app_assoc (rest ++ [p])), <- zeros_app. do 2 f_equal. rewrite !length_app, length_zeros. cbn [length]. lia. }
  assert (Hpad : padded r sfx (full ++ rest) = full ++ rest ++ pad_tail (r - pos) p).
  { rewrite (padded_bytes r sfx p) by (auto; lia). unfold pad_bytes. rewrite <- app_assoc. do 3 f_equal.
    rewrite length_app, Hf, Hrest. rewrite Nat.add_comm, Nat.Div0.mod_add, Nat.mod_small by lia. reflexivity. }
  assert (Hlt : length (rest ++ pad_tail (r - pos) p) = r) by (rewrite length_app, length_pad_tail; lia).
  rewrite E. repeat split.
  - rewrite length_xor_bytes; rewrite ?length_place; lia.
  - apply xor_bytes_u8; [exact Hfb |]. apply place_bytes. unfold are_bytes in *. rewrite Forall_app in *.
    split; [tauto |]. now apply (pad_tail_u8 sfx).
  - rewrite Hpad, (absorb_snoc r full _ _ k) by lia. unfold absorb_block. now rewrite <- place_0_full.
Qed.

(** ** Squeezing *)

Lemma length_squeeze n S : length S = 200%nat -> length (squeeze n r S) = (r * (n + 1))%nat.
Proof.
  revert S. induction n as [|n IH]; intros S Hl; cbn [squeeze]; rewrite ?length_app, length_take, ?IH by apply length_keccak_f; lia.
Qed.

(** The output does not depend on how far the stream is unrolled. *)
Lemma squeeze_prefix n k S : length S = 200%nat -> take (r * (n + 1)) (squeeze (n + k) r S) = squeeze n r S.
Proof.
  intros Hl. assert (E : exists t, squeeze (n + k) r S = squeeze n r S ++ t).
  { clear Hl. revert S. induction n as [|n IH]; intros S.
    - destruct k as [|k]; cbn [squeeze Nat.add]; [exists []; now rewrite app_nil_r | eauto].
    - cbn [squeeze Nat.add]. destruct (IH (keccak_f S)) as [t ->]. exists t. now rewrite app_assoc. }
  destruct E as [t ->]. rewrite take_app_length'; [reflexivity | now rewrite length_squeeze].
Qed.

Lemma take_squeeze d n S : length S = 200%nat -> (d / r <= n)%nat -> take d (squeeze n r S) = take d (squeeze (d / r) r S).
Proof.
  intros Hl Hn. rewrite <- (squeeze_prefix (d / r) (n - d / r)) by exact Hl.
  rewrite take_take. replace (d / r + (n - d / r))%nat with n by lia. f_equal.
  pose proof (Nat.div_mod_eq d r). pose proof (Nat.mod_upper_bound d r). lia.
Qed.

Lemma sub_squeeze j : forall n T pos i, length T = 200%nat -> (j <= n)%nat -> (pos + i <= r)%nat ->
  sub (squeeze n r T) (r * j + pos) i = sub (Nat.iter j keccak_f T) pos i.
Proof.
  induction j as [|j IH]; intros n T pos i Hl Hj Hp.
  - rewrite Nat.mul_0_r. cbn [Nat.iter Nat.add]. change (Nat.iter 0 keccak_f T) with T.
    assert (E : exists t, squeeze n r T = take r T ++ t) by (destruct n; cbn [squeeze]; [exists []; now rewrite app_nil_r | eauto]).
    destruct E as [t ->]. unfold sub. rewrite drop_app_le, take_app_le by (rewrite ?length_drop, length_take; lia).
    rewrite <- (take_drop r T) at 2. rewrite drop_app_le by (rewrite length_take; lia).
    now rewrite take_app_le by (rewrite length_drop, length_take; lia).
  - destruct n as [|n]; [lia |]. cbn [squeeze]. unfold sub at 1.
    replace (r * S j + pos)%nat with (length (take r T) + (r * j + pos))%nat by (rewrite length_take; lia).
    rewrite drop_app_add'  by reflexivity. fold (sub (squeeze n r (keccak_f T)) (r * j + pos) i).
    rewrite IH by (try apply length_keccak_f; lia). f_equal. now rewrite <- Nat.iter_succ_r.
Qed.

(** The state [s], read up to [pos], has produced [t] bytes of the stream of the padded state [S0]. *)
Definition squeezing (S0 : bytes) (t : nat) (s : bytes) (pos : nat) : Prop :=
  exists j, s = Nat.iter j keccak_f S0 /\ (r + t = r * j + pos)%nat /\ (pos <= r)%nat.

Lemma iter_keccak_state j T : length T = 200%nat -> are_bytes T ->
  length (Nat.iter j keccak_f T) = 200%nat /\ are_bytes (Nat.iter j keccak_f T).
Proof. intros Hl Hb. destruct j as [|j]; [auto |]. split; [apply length_keccak_f | apply keccak_f_bytes]. Qed.

Lemma squeezing_permute S0 t s : length S0 = 200%nat -> are_bytes S0 -> squeezing S0 t s r ->
  squeezing S0 t (mld_keccakf1600_permute s) 0.
Proof.
  intros Hl Hb (j & -> & Ht & _). exists (S j). destruct (iter_keccak_state j S0 Hl Hb) as [Hl' Hb'].
  repeat split; [rewrite mld_permute_eq; now apply permute_keccak_f | lia | lia].
Qed.

Lemma keccak_squeeze_loop_stream S0 N fuel : length S0 = 200%nat -> are_bytes S0 -> forall t s pos n,
  (n <= fuel)%nat -> (t + n <= r * N)%nat -> squeezing S0 t s pos ->
  exists s' pos', keccak_squeeze_loop fuel n s pos r = (sub (squeeze N r (keccak_f S0)) t n, (s', pos')) /\
    squeezing S0 (t + n) s' pos'.
Proof.
  intros Hl Hb. induction fuel as [|fuel IH]; intros t s pos n Hn HN Hs; cbn [keccak_squeeze_loop].
  { replace n with 0%nat by lia. exists s, pos. now rewrite Nat.add_0_r. }
  destruct (Nat.ltb_spec 0 n) as [Hpos | Hz]; [| replace n with 0%nat by lia; exists s, pos; now rewrite Nat.add_0_r].
  set (st := if Nat.eqb pos r then _ else _).
  assert (Hst : squeezing S0 t (fst st) (snd st) /\ (snd st < r)%nat).
  { subst st. destruct (Nat.eqb_spec pos r) as [-> | Hne]; cbn [fst snd].
    - split; [now apply squeezing_permute | lia].
    - split; [exact Hs |]. destruct Hs as (? & _ & _ & ?). lia. }
  clearbody st. destruct st as [s1 pos1]. cbn [fst snd] in Hst. destruct Hst as [(j & -> & Ht & Hp) Hlt].
  destruct j as [|j]; [lia |].
  set (i := if Nat.ltb n (r - pos1) then n else (r - pos1)%nat).
  assert (Hi : (1 <= i <= n)%nat /\ (pos1 + i <= r)%nat) by (subst i; destruct (Nat.ltb_spec n (r - pos1)); lia).
  destruct (IH (t + i)%nat (Nat.iter (S j) keccak_f S0) (pos1 + i)%nat (n - i)%nat) as (s' & pos' & E & Hs');
    [lia | lia | exists (S j); repeat split; lia |].
  rewrite E. exists s', pos'. replace (t + n)%nat with (t + i + (n - i))%nat by lia. split; [| exact Hs'].
  f_equal. unfold mld_keccakf1600_extract_bytes, mlk_keccakf1600_extract_bytes.
  rewrite Nat.iter_succ_r. rewrite <- (sub_squeeze j N) by (rewrite ?length_keccak_f; nia).
  replace (r * j + pos1)%nat with t by lia. unfold sub. rewrite <- drop_drop.
  replace n with (i + (n - i))%nat at 2 by lia. now rewrite <- take_take_drop.
Qed.

Lemma keccak_squeeze_stream S0 N t s pos n : length S0 = 200%nat -> are_bytes S0 ->
  (t + n <= r * N)%nat -> squeezing S0 t s pos ->
  exists s' pos', keccak_squeeze n s pos r = (sub (squeeze N r (keccak_f S0)) t n, (s', pos')) /\
    squeezing S0 (t + n) s' pos'.
Proof. intros. now apply keccak_squeeze_loop_stream. Qed.

Lemma squeezing_init S0 : squeezing S0 0 S0 r.
Proof. exists 0%nat. repeat split; lia. Qed.

(** ** The one-shot functions take the same steps *)

Lemma mlk_absorb_blocks_loop fuel s inp :
  keccak_absorb_loop fuel s 0 r inp = (fst (mlk_absorb_blocks fuel r s inp), 0%nat, snd (mlk_absorb_blocks fuel r s inp)).
Proof.
  revert s inp. induction fuel as [|fuel IH]; intros s inp; [reflexivity |]. cbn [keccak_absorb_loop mlk_absorb_blocks].
  rewrite Nat.sub_0_r. destruct (Nat.leb r (length inp)); [apply IH | reflexivity].
Qed.

Lemma mlk_absorb_once_padded m sfx p : are_bytes m -> domain sfx p -> (2 <= r)%nat ->
  length (mlk_keccak_absorb_once r m p) = 200%nat /\ are_bytes (mlk_keccak_absorb_once r m p) /\
  keccak_f (mlk_keccak_absorb_once r m p) = absorb r (padded r sfx m) (zeros 200).
Proof.
  intros Hm Hd Hr2. unfold mlk_keccak_absorb_once.
  destruct (keccak_absorb_loop_absorbed (length m) [] (zeros 200) 0 m) as (s & pos & m' & inp & E & Em & Ha & Hl);
    [lia | apply absorbed_init; lia | exact Hm |].
  rewrite mlk_absorb_blocks_loop in E. destruct (mlk_absorb_blocks _ _ _ _) as [s1 inp1]. cbn [fst snd] in E.
  injection E as -> <- ->. cbn [app] in Em. subst m.
  assert (Ha' : absorbed r (m' ++ inp) (if Nat.ltb 0 (length inp) then mlk_keccakf1600_xor_bytes s inp 0 (length inp) else s) (length inp)).
  { destruct inp as [|x inp]; [now rewrite app_nil_r | now apply (absorbed_tail _ s 0)]. }
  cbv zeta. set (s2 := if Nat.ltb 0 _ then _ else _) in *. clearbody s2.
  replace (if Nat.eqb (length inp) (r - 1) then _ else _) with (keccak_finalize s2 (length inp) r p);
    [now apply absorbed_finalize |].
  destruct (absorbed_xor _ s2 (length inp) [p] Ha') as (_ & _ & _ & _ & _ & _ & _ & Hs); [cbn [length]; lia |].
  unfold keccak_finalize, mld_keccakf1600_xor_bytes. destruct (Nat.eqb_spec (length inp) (r - 1)) as [<- |]; [| reflexivity].
  assert (length (place (length inp) [p]) = 200%nat) by (apply length_place; cbn [length]; lia).
  rewrite !(xor_bytes_place s2) by (cbn [length]; lia). cbn [take].
  rewrite xor_bytes_place by (rewrite ?length_xor_bytes by lia; cbn [length]; lia). cbn [take].
  rewrite xor_bytes_assoc, place_lor; [reflexivity | destruct Hd; reflexivity].
Qed.

Lemma mlk_squeeze_once_loop fuel n s : mlk_squeeze_loop fuel n s r = fst (keccak_squeeze_loop fuel n s r r).
Proof.
  revert n s. induction fuel as [|fuel IH]; intros n s; [reflexivity |]. cbn [mlk_squeeze_loop keccak_squeeze_loop].
  destruct (Nat.ltb 0 n); [| reflexivity]. rewrite Nat.eqb_refl, Nat.sub_0_r. cbn [Nat.add].
  unfold mld_keccakf1600_permute, mld_keccakf1600_extract_bytes.
  set (s1 := mlk_keccakf1600_permute s). clearbody s1.
  destruct (Nat.ltb_spec n r) as [Hn | Hn].
  - rewrite Nat.sub_diag. destruct fuel; reflexivity.
  - rewrite IH. destruct (keccak_squeeze_loop _ _ _ _ _) as [? []]. reflexivity.
Qed.

Lemma mlk_oneshot m sfx p d : are_bytes m -> domain sfx p -> (2 <= r)%nat ->
  mlk_keccak_squeeze_once d (mlk_keccak_absorb_once r m p) r = keccak_sponge r sfx m d.
Proof.
  intros Hm Hd Hr2. destruct (mlk_absorb_once_padded m sfx p Hm Hd Hr2) as (Hl & Hb & E).
  unfold mlk_keccak_squeeze_once, keccak_sponge. rewrite mlk_squeeze_once_loop, <- E.
  destruct (keccak_squeeze_stream _ (S d) 0 (mlk_keccak_absorb_once r m p) r d Hl Hb) as (s' & pos' & Eq & _); [nia | apply squeezing_init |].
  unfold keccak_squeeze in Eq. rewrite Eq. cbn [fst]. unfold sub. rewrite drop_0. apply take_squeeze.
  - apply length_keccak_f.
  - apply Nat.Div0.div_le_upper_bound. nia.
Qed.

Lemma mlk_squeezeblocks_stream S0 N nb : length S0 = 200%nat -> are_bytes S0 -> forall t s,
  (t + nb * r <= r * N)%nat -> squeezing S0 t s r ->
  exists s', mlk_keccak_squeezeblocks nb s r = (sub (squeeze N r (keccak_f S0)) t (nb * r), s') /\
    squeezing S0 (t + nb * r) s' r.
Proof.
  intros Hl Hb. induction nb as [|nb IH]; intros t s HN Hs; cbn [mlk_keccak_squeezeblocks].
  { exists s. cbn [Nat.mul]. now rewrite Nat.add_0_r. }
  destruct (squeezing_permute S0 t s Hl Hb Hs) as ([|j] & Ej & Ht & _); [lia |].
  unfold mld_keccakf1600_permute in Ej. rewrite Ej.
  destruct (IH (t + r)%nat (Nat.iter (S j) keccak_f S0)) as (s' & E & Hs'); [lia | exists (S j); repeat split; lia |].
  rewrite E. exists s'. replace (t + S nb * r)%nat with (t + r + nb * r)%nat by lia. split; [| exact Hs'].
  f_equal. unfold mlk_keccakf1600_extract_bytes. rewrite Nat.iter_succ_r.
  rewrite <- (sub_squeeze j N) by (rewrite ?length_keccak_f; nia).
  replace (r * j + 0)%nat with t by lia. unfold sub. rewrite <- drop_drop.
  change (S nb * r)%nat with (r + nb * r)%nat. now rewrite <- take_take_drop.
Qed.

End Rate.

(** ** Sequences of calls *)

(** The output of squeezing [outs] bytes in turn. *)
Fixpoint squeezes {C} (sq : nat -> C -> bytes * C) (outs : list nat) (c : C) : bytes :=
  match outs with
  | [] => []
  | n :: outs => let '(o, c) := sq n c in o ++ squeezes sq outs c
  end.

Section Streaming.
Context (r : nat) (Hr : (2 <= r <= 200)%nat).

Lemma sub_next (l : bytes) t n k : sub l t n ++ sub l (t + n) k = sub l t (n + k).
Proof. unfold sub. rewrite <- drop_drop. apply take_take_drop. Qed.

Lemma le_stream d : (0 + d <= r * S d)%nat.
Proof. nia. Qed.

Lemma shake_absorbs_absorbed chunks : forall m c, absorbed r m (shake_s c) (shake_pos c) ->
  are_bytes (m ++ concat chunks) ->
  let c' := fold_left (shake_absorb r) chunks c in absorbed r (m ++ concat chunks) (shake_s c') (shake_pos c').
Proof.
  induction chunks as [|d chunks IH]; intros m c Ha Hb; [now rewrite app_nil_r |].
  cbn [concat fold_left] in *. rewrite app_assoc in *. apply IH; [| exact Hb].
  pose proof (keccak_absorb_absorbed r ltac:(lia) m (shake_s c) (shake_pos c) d Ha) as H.
  unfold shake_absorb. destruct (keccak_absorb _ _ _ _). apply H. apply Forall_app in Hb. tauto.
Qed.

Lemma shake_squeezes_stream S0 N outs : length S0 = 200%nat -> are_bytes S0 -> forall t c,
  (t + list_sum outs <= r * N)%nat -> squeezing r S0 t (shake_s c) (shake_pos c) ->
  squeezes (shake_squeeze r) outs c = sub (squeeze N r (keccak_f S0)) t (list_sum outs).
Proof.
  intros Hl Hb. induction outs as [|n outs IH]; intros t c HN Hs; [reflexivity |].
  change (list_sum (n :: outs)) with (n + list_sum outs)%nat in *. cbn [squeezes]. unfold shake_squeeze at 1.
  destruct (keccak_squeeze_stream r ltac:(lia) S0 N t (shake_s c) (shake_pos c) n Hl Hb ltac:(lia) Hs) as (s' & pos' & E & Hs').
  rewrite E, (IH (t + n)%nat) by (exact Hs' || lia). apply sub_next.
Qed.

Lemma shake_streaming chunks outs : are_bytes (concat chunks) ->
  squeezes (shake_squeeze r) outs (shake_finalize r (fold_left (shake_absorb r) chunks mld_shake_init)) =
  keccak_sponge r [true; true; true; true] (concat chunks) (list_sum outs).
Proof.
  intros Hb. pose proof (shake_absorbs_absorbed chunks [] mld_shake_init (absorbed_init r ltac:(lia)) Hb) as Ha.
  cbn [app] in Ha. set (c := fold_left _ _ _) in *. clearbody c.
  destruct (absorbed_finalize r ltac:(lia) _ _ _ _ _ Ha Hb domain_shake ltac:(lia)) as (Hl & Hfb & E).
  set (d := list_sum outs). unfold keccak_sponge. rewrite <- E.
  rewrite (shake_squeezes_stream _ (S d) outs Hl Hfb 0 (shake_finalize r c)) by (exact (le_stream d) || exact (squeezing_init r ltac:(lia) _)).
  unfold sub. rewrite drop_0. apply take_squeeze; [lia | apply length_keccak_f |].
  apply Nat.Div0.div_le_upper_bound. nia.
Qed.

Lemma mlk_squeezes_stream S0 N nbs : length S0 = 200%nat -> are_bytes S0 -> forall t s,
  (t + r * list_sum nbs <= r * N)%nat -> squeezing r S0 t s r ->
  squeezes (fun n s => mlk_keccak_squeezeblocks n s r) nbs s = sub (squeeze N r (keccak_f S0)) t (r * list_sum nbs).
Proof.
  intros Hl Hb. induction nbs as [|n nbs IH]; intros t s HN Hs; [cbn; now rewrite Nat.mul_0_r |].
  change (list_sum (n :: nbs)) with (n + list_sum nbs)%nat in *. cbn [squeezes].
  destruct (mlk_squeezeblocks_stream r ltac:(lia) S0 N n Hl Hb t s ltac:(lia) Hs) as (s' & E & Hs').
  rewrite E, (IH (t + n * r)%nat) by (exact Hs' || lia). rewrite sub_next. f_equal. lia.
Qed.

Lemma mlk_block_streaming m nbs : are_bytes m ->
  squeezes (fun n s => mlk_keccak_squeezeblocks n s r) nbs (mlk_keccak_absorb_once r m 0x1F) =
  keccak_sponge r [true; true; true; true] m (r * list_sum nbs).
Proof.
  intros Hm. destruct (mlk_absorb_once_padded r ltac:(lia) m _ _ Hm domain_shake ltac:(lia)) as (Hl & Hb & E).
  unfold keccak_sponge. rewrite <- E.
  rewrite (mlk_squeezes_stream _ (S (list_sum nbs)) nbs Hl Hb 0) by (nia || exact (squeezing_init r ltac:(lia) _)).
  unfold sub. rewrite drop_0. apply take_squeeze; [lia | apply length_keccak_f |].
  rewrite Nat.mul_comm, Nat.div_mul; lia.
Qed.

End Streaming.

(** ** Claims *)

(** C15. The hash functions that ML-KEM is built on are the FIPS 202 functions: on every input, [mlk_sha3_256], [mlk_sha3_512]
    and [mlk_shake256] (at every output length) return the SHA3-256, SHA3-512 and SHAKE256 digests, and any sequence of
    [mlk_shake128_squeezeblocks] calls after [mlk_shake128_absorb_once] returns the blocks of the SHAKE128 output in order.
    The reference pads in bits (message, suffix, 10*1); the code XORs the domain byte and 0x80 into the state. *)
Theorem mlk_hashes_fips202 (m : bytes) (Hm : are_bytes m) :
  mlk_sha3_256 m = SHA3_256 m /\ mlk_sha3_512 m = SHA3_512 m /\
  (forall d, mlk_shake256 d m = SHAKE256 m d) /\
  (forall nbs, squeezes mlk_shake128_squeezeblocks nbs (mlk_shake128_absorb_once m) = SHAKE128 m (168 * list_sum nbs)).
Proof.
  assert (H136 : (0 < 136 <= 200)%nat) by lia. assert (H72 : (0 < 72 <= 200)%nat) by lia.
  repeat split; intros.
  - exact (mlk_oneshot 136 H136 m _ _ 32 Hm domain_sha3 ltac:(lia)).
  - exact (mlk_oneshot 72 H72 m _ _ 64 Hm domain_sha3 ltac:(lia)).
  - exact (mlk_oneshot 136 H136 m _ _ d Hm domain_shake ltac:(lia)).
  - exact (mlk_block_streaming 168 ltac:(lia) m nbs Hm).
Qed.

#[local] Transparent keccak_f mlk_keccakf1600_permute.

Lemma mlk_hashes_fips202_witness : take 4 (mlk_sha3_256 [97; 98; 99]) = [0x3a; 0x98; 0x5d; 0xa7] /\
  length (squeezes mlk_shake128_squeezeblocks [1; 2]%nat (mlk_shake128_absorb_once [7])) = 504%nat.
Proof.
  assert (H : are_bytes [97; 98; 99]) by now apply is_u8_dec_list. assert (H7 : are_bytes [7]) by now apply is_u8_dec_list.
  rewrite (proj1 (mlk_hashes_fips202 _ H)), (proj2 (proj2 (proj2 (mlk_hashes_fips202 _ H7)))).
  split; vm_compute; reflexivity.
Defined.

#[local] Opaque keccak_f mlk_keccakf1600_permute.

(** C16. Incremental hashing does not depend on how the input and the output are split: for the SHAKE128 and SHAKE256
    contexts of ML-DSA, absorbing any sequence of chunks, finalizing, and squeezing any sequence of lengths (empty chunks,
    empty outputs and block boundaries included) gives, concatenated, SHAKE of the concatenated chunks; so does the one-shot
    [mld_shake256]. *)
Theorem mld_shake_streaming (chunks : list bytes) (outs : list nat) (Hb : are_bytes (concat chunks)) :
  squeezes mld_shake128_squeeze outs (mld_shake128_finalize (fold_left mld_shake128_absorb chunks mld_shake128_init)) =
    SHAKE128 (concat chunks) (list_sum outs) /\
  squeezes mld_shake256_squeeze outs (mld_shake256_finalize (fold_left mld_shake256_absorb chunks mld_shake256_init)) =
    SHAKE256 (concat chunks) (list_sum outs) /\
  mld_shake256 (list_sum outs) (concat chunks) = SHAKE256 (concat chunks) (list_sum outs).
Proof.
  split; [exact (shake_streaming 168 ltac:(lia) chunks outs Hb) |].
  split; [exact (shake_streaming 136 ltac:(lia) chunks outs Hb) |].
  pose proof (shake_streaming 136 ltac:(lia) [concat chunks] [list_sum outs]) as H. cbn [concat fold_left squeezes] in H.
  rewrite app_nil_r in H. specialize (H Hb). unfold mld_shake256, mld_shake256_squeeze.
  change (list_sum [list_sum outs]) with (list_sum outs + 0)%nat in H. rewrite Nat.add_0_r in H.
  unfold SHAKE256. rewrite <- H. unfold mld_shake256_finalize, mld_shake256_absorb, mld_shake256_init.
  destruct (shake_squeeze _ _ _). now rewrite app_nil_r.
Qed.

Lemma mld_shake_streaming_witness :
  let chunks := [repeat 5 135; []; [6; 7]; repeat 8 300] in
  squeezes mld_shake256_squeeze [1; 0; 135; 137]%nat
    (mld_shake256_finalize (fold_left mld_shake256_absorb chunks mld_shake256_init)) = SHAKE256 (concat chunks) 273.
Proof.
  intros chunks. assert (Hb : are_bytes (concat chunks)) by (apply is_u8_dec_list; vm_compute; reflexivity).
  exact (proj1 (proj2 (mld_shake_streaming chunks [1; 0; 135; 137]%nat Hb))).
Defined.
