(* ===== verification/ShakeX4.v ===== *)
(** * Batched SHAKE

    Model of [mlkem-native/mlkem/src/fips202/fips202x4.c] and of the four-way functions of [keccakf1600.c] without a native
    backend.  The state of 100 lanes is the list of its four 200-byte states. *)

From stdpp Require Import base list numbers.
From Stdlib Require Import ZArith Lia.
From S2P Require Import Prelude Fips202 Keccak Shake.

#[local] Open Scope Z_scope.

(** ** keccakf1600.c *)

Definition mlk_keccakf1600x4_extract_bytes (state : list bytes) (offset length : nat) : list bytes :=
  map (fun s => mlk_keccakf1600_extract_bytes s offset length) state.
Definition mlk_keccakf1600x4_xor_bytes (state data : list bytes) (offset length : nat) : list bytes :=
  zip_with (fun s d => mlk_keccakf1600_xor_bytes s d offset length) state data.
Definition mlk_keccakf1600x4_permute (state : list bytes) : list bytes := map mlk_keccakf1600_permute state.

(** ** fips202x4.c *)

(** [while (inlen >= r)] on the four inputs, of the same length. *)
Fixpoint mlk_absorb_blocks_x4 (fuel r : nat) (s ins : list bytes) (inlen : nat) : list bytes * list bytes * nat :=
  match fuel with
  | O => (s, ins, inlen)
  | S fuel =>
      if Nat.leb r inlen
      then mlk_absorb_blocks_x4 fuel r (mlk_keccakf1600x4_permute (mlk_keccakf1600x4_xor_bytes s ins 0 r))
             (map (drop r) ins) (inlen - r)
      else (s, ins, inlen)
  end.

Definition mlk_keccak_absorb_once_x4 (s : list bytes) (r : nat) (ins : list bytes) (inlen : nat) (p : Z) : list bytes :=
  let '(s, ins, inlen) := mlk_absorb_blocks_x4 inlen r s ins inlen in
  let s := if Nat.ltb 0 inlen then mlk_keccakf1600x4_xor_bytes s ins 0 inlen else s in
  if Nat.eqb inlen (r - 1)
  then mlk_keccakf1600x4_xor_bytes s (repeat [Z.lor p 128] 4) inlen 1
  else let s := mlk_keccakf1600x4_xor_bytes s (repeat [p] 4) inlen 1 in
       mlk_keccakf1600x4_xor_bytes s (repeat [128] 4) (r - 1) 1.

Fixpoint mlk_keccak_squeezeblocks_x4 (nblocks : nat) (s : list bytes) (r : nat) : list bytes * list bytes :=
  match nblocks with
  | O => (map (fun _ => []) s, s)
  | S nblocks =>
      let s := mlk_keccakf1600x4_permute s in
      let out := mlk_keccakf1600x4_extract_bytes s 0 r in
      let '(rest, s) := mlk_keccak_squeezeblocks_x4 nblocks s r in
      (zip_with app out rest, s)
  end.

Definition mlk_shake128x4_absorb_once (ins : list bytes) (inlen : nat) : list bytes :=
  mlk_keccak_absorb_once_x4 (repeat (zeros 200) 4) SHAKE128_RATE ins inlen 0x1F.
Definition mlk_shake128x4_squeezeblocks (nblocks : nat) (state : list bytes) : list bytes * list bytes :=
  mlk_keccak_squeezeblocks_x4 nblocks state SHAKE128_RATE.
Definition mlk_shake256x4_absorb_once (ins : list bytes) (inlen : nat) : list bytes :=
  mlk_keccak_absorb_once_x4 (repeat (zeros 200) 4) SHAKE256_RATE ins inlen 0x1F.
Definition mlk_shake256x4_squeezeblocks (nblocks : nat) (state : list bytes) : list bytes * list bytes :=
  mlk_keccak_squeezeblocks_x4 nblocks state SHAKE256_RATE.

Definition mlk_shake256x4 (outlen : nat) (ins : list bytes) (inlen : nat) : list bytes :=
  let nblocks := (outlen / SHAKE256_RATE)%nat in
  let statex := mlk_shake256x4_absorb_once ins inlen in
  let '(out, statex) := mlk_shake256x4_squeezeblocks nblocks statex in
  let outlen := (outlen - nblocks * SHAKE256_RATE)%nat in
  if Nat.eqb outlen 0 then out
  else let '(tmp, statex) := mlk_shake256x4_squeezeblocks 1 statex in
       zip_with (fun o t => o ++ take outlen t) out tmp.

(** ** Four independent sponges *)

Lemma xor_x4_map {A} (f g : A -> bytes) l o n :
  mlk_keccakf1600x4_xor_bytes (map f l) (map g l) o n = map (fun x => mlk_keccakf1600_xor_bytes (f x) (g x) o n) l.
Proof. unfold mlk_keccakf1600x4_xor_bytes. induction l as [|x l IH]; [reflexivity |]. cbn [map zip_with]. now rewrite IH. Qed.

Lemma absorb_blocks_x4_map {A} r fuel : forall (f g : A -> bytes) l n, Forall (fun x => length (g x) = n) l ->
  exists n', mlk_absorb_blocks_x4 fuel r (map f l) (map g l) n =
    (map (fun x => fst (mlk_absorb_blocks fuel r (f x) (g x))) l, map (fun x => snd (mlk_absorb_blocks fuel r (f x) (g x))) l, n') /\
    Forall (fun x => length (snd (mlk_absorb_blocks fuel r (f x) (g x))) = n') l.
Proof.
  induction fuel as [|fuel IH]; intros f g l n Hn; cbn [mlk_absorb_blocks_x4 mlk_absorb_blocks]; [exists n; auto |].
  destruct (Nat.leb_spec r n) as [Hle | Hlt].
  - rewrite xor_x4_map. unfold mlk_keccakf1600x4_permute. rewrite !map_map. cbv beta.
    destruct (IH (fun x => mlk_keccakf1600_permute (mlk_keccakf1600_xor_bytes (f x) (g x) 0 r)) (fun x => drop r (g x)) l (n - r)%nat)
      as (n' & E & Hn').
    { eapply Forall_impl; [| exact Hn]. cbv beta. intros x Hx. rewrite length_drop, Hx. reflexivity. }
    exists n'. split; [etransitivity; [exact E |] |].
    + f_equal; f_equal; apply map_ext_in; intros x Hx; rewrite List.Forall_forall in Hn; rewrite (Hn x Hx);
        (destruct (Nat.leb_spec r n); [reflexivity | lia]).
    + apply List.Forall_forall. intros x Hx. rewrite List.Forall_forall in Hn, Hn'. rewrite (Hn x Hx).
      destruct (Nat.leb_spec r n); [| lia]. now apply Hn'.
  - exists n. split; [| eapply Forall_impl; [| exact Hn]; cbv beta; intros x Hx; rewrite Hx; now destruct (Nat.leb_spec r n); [lia |]].
    f_equal; f_equal; apply map_ext_in; intros x Hx; rewrite List.Forall_forall in Hn; rewrite (Hn x Hx);
        (destruct (Nat.leb_spec r n); [lia | reflexivity]).
Qed.

Lemma absorb_once_x4_map r (ins : list bytes) n p : length ins = 4%nat -> Forall (fun m => length m = n) ins ->
  mlk_keccak_absorb_once_x4 (repeat (zeros 200) 4) r ins n p = map (fun m => mlk_keccak_absorb_once r m p) ins.
Proof.
  intros H4 Hn. unfold mlk_keccak_absorb_once_x4.
  assert (E0 : repeat (zeros 200) 4 = map (fun _ : bytes => zeros 200) ins) by (do 5 (destruct ins as [|? ins]; try discriminate); reflexivity).
  assert (Ec : forall c : bytes, repeat c 4 = map (fun _ => c) ins) by (intros; do 5 (destruct ins as [|? ins]; try discriminate); reflexivity).
  rewrite E0.
  destruct (absorb_blocks_x4_map r n (fun _ => zeros 200) (fun m => m) ins n Hn) as (n' & E & Hn').
  rewrite (map_id ins : map (fun m : bytes => m) ins = ins) in E. rewrite E. clear E. rewrite !Ec.
  assert (Ep : forall m, In m ins -> mlk_absorb_blocks n r (zeros 200) m = mlk_absorb_blocks (length m) r (zeros 200) m).
  { intros m Hm. rewrite List.Forall_forall in Hn. now rewrite (Hn m Hm). }
  rewrite List.Forall_forall in Hn'.
  destruct (Nat.ltb 0 n') eqn:E1, (Nat.eqb n' (r - 1)) eqn:E2; rewrite ?xor_x4_map; apply map_ext_in; intros m Hm;
    unfold mlk_keccak_absorb_once; specialize (Hn' m Hm); rewrite <- Ep by exact Hm; cbv beta in Hn';
    destruct (mlk_absorb_blocks n r (zeros 200) m) as [s rest]; cbn [fst snd] in *; rewrite Hn', E1, E2; reflexivity.
Qed.

Lemma squeezeblocks_x4_map nb : forall r s,
  mlk_keccak_squeezeblocks_x4 nb s r =
  (map (fun s => fst (mlk_keccak_squeezeblocks nb s r)) s, map (fun s => snd (mlk_keccak_squeezeblocks nb s r)) s).
Proof.
  induction nb as [|nb IH]; intros r s; cbn [mlk_keccak_squeezeblocks_x4 mlk_keccak_squeezeblocks]; [now rewrite map_id |].
  rewrite IH. unfold mlk_keccakf1600x4_permute, mlk_keccakf1600x4_extract_bytes. rewrite !map_map. f_equal.
  - induction s as [|x s IHs]; [reflexivity |]. cbn [map zip_with]. rewrite IHs.
    destruct (mlk_keccak_squeezeblocks nb _ r). reflexivity.
  - apply map_ext. intros x. destruct (mlk_keccak_squeezeblocks nb _ r). reflexivity.
Qed.
