(* ===== verification/Fips203.v ===== *)
(** * FIPS 203 reference arithmetic

    The ring, the number-theoretic transform (4.3), compression, byte encoding and sampling (4.2), as the standard
    defines them.  [MlkemNtt], [MlkemCompress], [MlkemSampling] and [MlkemIndcpa] show that the code computes them. *)

From stdpp Require Import base list numbers.
From Stdlib Require Import ZArith Lia.
From S2P Require Import Prelude Fips202.

#[local] Open Scope Z_scope.

Definition q : Z := 3329.
Definition zeta : Z := 17.

(** ** R_q = Z_q[X] / (X^256 + 1) *)

(** Multiplication by X: the coefficient that leaves at degree 256 returns negated. *)
Definition mul_X (h : list Z) : list Z := - rd h 255 :: take 255 h.

(** The product of the polynomials with coefficients [f] and [g], by Horner's rule in R_q. *)
Fixpoint rq_mul (f g : list Z) : list Z :=
  match f with
  | [] => repeat 0 256
  | a :: f => zip_with (fun x y => (x + y) mod q) (map (Z.mul a) g) (mul_X (rq_mul f g))
  end.

Definition rq_add (f g : list Z) : list Z := zip_with (fun x y => (x + y) mod q) f g.

Definition rq_sub (f g : list Z) : list Z := zip_with (fun x y => (x - y) mod q) f g.

(** ** NTT *)

Definition BitRev7 (i : Z) : Z :=
  fold_left (fun acc j => Z.lor acc (Z.shiftl (Z.land (Z.shiftr i (Z.of_nat j)) 1) (6 - Z.of_nat j))) (seq 0 7) 0.

(** The root of component [i]: zeta^(2 BitRev7(i) + 1). *)
Definition gamma (i : nat) : Z := zeta ^ (2 * BitRev7 (Z.of_nat i) + 1) mod q.

(** [f mod (X^2 - g)]: X^2 is replaced by [g]. *)
Fixpoint mod_X2 (g : Z) (f : list Z) : Z * Z :=
  match f with
  | [] => (0, 0)
  | a :: f => let '(p0, p1) := mod_X2 g f in (a + g * p1, p0)
  end.

Definition NTT (f : list Z) : list Z :=
  concat (map (fun i => let '(a, b) := mod_X2 (gamma i) f in [a mod q; b mod q]) (seq 0 128)).

(** Algorithm 10, one value of [len]: the butterflies of block [b] use zeta^BitRev7(i) for [i = 256 / len - 1 - b]. *)
Definition NTT_inv_stage (len : nat) (f : list Z) : list Z :=
  map (fun j =>
         if (j mod (2 * len) <? len)%nat then (rd f j + rd f (j + len)) mod q
         else zeta ^ BitRev7 (Z.of_nat (256 / len - 1 - j / (2 * len))) * (rd f j - rd f (j - len)) mod q) (seq 0 256).

Definition NTT_inv_lens : list nat := [2; 4; 8; 16; 32; 64; 128]%nat.

Definition NTT_inv (f : list Z) : list Z :=
  map (fun x => x * 3303 mod q) (fold_left (fun f len => NTT_inv_stage len f) NTT_inv_lens f).

(** Algorithms 12 and 11: the product in T_q, component by component. *)
Definition BaseCaseMultiply (a0 a1 b0 b1 g : Z) : Z * Z := ((a0 * b0 + a1 * b1 * g) mod q, (a0 * b1 + a1 * b0) mod q).

Definition MultiplyNTTs (f g : list Z) : list Z :=
  concat (map (fun i => let '(c0, c1) := BaseCaseMultiply (rd f (2 * i)) (rd f (2 * i + 1)) (rd g (2 * i)) (rd g (2 * i + 1)) (gamma i) in
                        [c0; c1]) (seq 0 128)).

(** The scalar product of two vectors over T_q. *)
Definition tq_dot (fs gs : list (list Z)) : list Z :=
  fold_right (fun fg acc => rq_add (MultiplyNTTs (fst fg) (snd fg)) acc) (repeat 0 256) (zip fs gs).

(** ** Compression (4.7), (4.8) *)

(** Nearest integer to [n / d]. *)
Definition round_div (n d : Z) : Z := (2 * n + d) / (2 * d).

Definition Compress (d : Z) (x : Z) : Z := round_div (2 ^ d * x) q mod 2 ^ d.
Definition Decompress (d : Z) (y : Z) : Z := round_div (q * y) (2 ^ d).

(** ** Byte encoding (Algorithms 5 and 6) *)

Definition int_bits (d : nat) (x : Z) : list bool := map (fun i => Z.testbit x (Z.of_nat i)) (seq 0 d).

Definition ByteEncode (d : nat) (F : list Z) : bytes :=
  bits_bytes (d * length F / 8) (concat (map (int_bits d) F)).

Fixpoint bits_ints (n d : nat) (b : list bool) : list Z :=
  match n with O => [] | S n => bits_byte (take d b) :: bits_ints n d (drop d b) end.

Definition ByteDecode (d : nat) (B : bytes) : list Z := bits_ints (8 * length B / d) d (bits B).

(** ** Sampling (Algorithms 7 and 8) *)

Definition count_bits (b : list bool) : Z := fold_right (fun b acc => Z.b2z b + acc) 0 b.

Fixpoint cbd_bits (n eta : nat) (b : list bool) : list Z :=
  match n with
  | O => []
  | S n => count_bits (take eta b) - count_bits (take eta (drop eta b)) :: cbd_bits n eta (drop (2 * eta) b)
  end.

Definition SamplePolyCBD (eta : nat) (B : bytes) : list Z := cbd_bits 256 eta (bits B).

(** The accepted values of a byte stream, in order: two 12-bit candidates from every three bytes. *)
Fixpoint accepted (B : bytes) : list Z :=
  match B with
  | c0 :: c1 :: c2 :: B =>
      let d1 := c0 + 256 * (c1 mod 16) in
      let d2 := c1 / 16 + 16 * c2 in
      (if d1 <? q then [d1] else []) ++ (if d2 <? q then [d2] else []) ++ accepted B
  | _ => []
  end.
