(* ===== verification/MlkemPoly.v ===== *)
(** * ML-KEM polynomial arithmetic

    Model of the portable code of [mlkem-native/mlkem/src/poly.c] and [poly.h], and of the constant-time helpers
    of [verify.h].  An [int16_t] is a [Z] in [-2^15, 2^15); every conversion to [int16_t] is written [i16].
    [int32_t] intermediates are truncated ([i32]); the specifications show that none of them overflows. *)

From stdpp Require Import base list numbers.
From Stdlib Require Import ZArith Lia.
From S2P Require Import Prelude.

#[local] Open Scope Z_scope.

Definition MLKEM_N : nat := 256.
Definition MLKEM_Q : Z := 3329.
Definition MLKEM_Q_HALF : Z := (MLKEM_Q + 1) / 2.
Definition MLKEM_UINT12_LIMIT : Z := 4096.
Definition MLK_NTT_BOUND : Z := 8 * MLKEM_Q.
Definition MLK_INVNTT_BOUND : Z := 8 * MLKEM_Q.

(** ** verify.h *)

Definition u16 (x : Z) : Z := Z.land x 0xffff.

(** [(int16_t)x]: the representative of [x] modulo 2^16 in [-2^15, 2^15). *)
Definition i16 (x : Z) : Z := u16 (x + 0x8000) - 0x8000.

Definition mlk_cast_uint16_to_int16 (x : Z) : Z := i16 x.
Definition mlk_cast_int32_to_uint16 (x : Z) : Z := Z.land x 0xffff.
Definition mlk_cast_int16_to_uint16 (x : Z) : Z := mlk_cast_int32_to_uint16 x.

Definition mlk_ct_cmask_neg_i16 (x : Z) : Z := mlk_cast_int32_to_uint16 (Z.shiftr x 16).
Definition mlk_ct_cmask_nonzero_u16 (x : Z) : Z := mlk_cast_int32_to_uint16 (Z.shiftr (- x) 16).
Definition mlk_ct_cmask_nonzero_u8 (x : Z) : Z := Z.land (mlk_ct_cmask_nonzero_u16 x) 0xff.

Definition mlk_ct_sel_int16 (a b cond : Z) : Z :=
  let au := mlk_cast_int16_to_uint16 a in
  let bu := mlk_cast_int16_to_uint16 b in
  let res := Z.lxor bu (Z.land (mlk_ct_cmask_nonzero_u16 cond) (Z.lxor au bu)) in
  mlk_cast_uint16_to_int16 res.

Definition mlk_ct_sel_uint8 (a b cond : Z) : Z := Z.lxor b (Z.land (mlk_ct_cmask_nonzero_u8 cond) (Z.lxor a b)).

Definition mlk_ct_memcmp (a b : bytes) (len : nat) : Z :=
  let '(r, s) := fold_left (fun '(r, s) i =>
    let x := Z.lxor (rd a i) (rd b i) in (Z.lor r x, Z.lxor s x)) (seq 0 len) (0, 0) in
  Z.lxor (Z.lxor (mlk_ct_cmask_nonzero_u8 r) s) s.

Definition mlk_ct_cmov_zero (r x : bytes) (len : nat) (b : Z) : bytes :=
  fold_left (fun r i => wr r i (mlk_ct_sel_uint8 (rd r i) (rd x i) b)) (seq 0 len) r.

(** ** Modular arithmetic *)

Definition mlk_montgomery_reduce (a : Z) : Z :=
  let QINV := 62209 in
  let a_reduced := mlk_cast_int32_to_uint16 a in
  let a_inverted := Z.land (u32 (a_reduced * QINV)) 0xffff in
  let t := mlk_cast_uint16_to_int16 a_inverted in
  let r := i32 (a - i32 (t * MLKEM_Q)) in
  i16 (Z.shiftr r 16).

Definition mlk_fqmul (a b : Z) : Z := mlk_montgomery_reduce (i32 (a * b)).

Definition mlk_barrett_reduce (a : Z) : Z :=
  let magic := 20159 in
  let t := Z.shiftr (i32 (i32 (magic * a) + Z.shiftl 1 25)) 26 in
  i16 (i32 (a - i32 (t * MLKEM_Q))).

Definition mlk_scalar_signed_to_unsigned_q (c : Z) : Z :=
  mlk_ct_sel_int16 (i16 (c + MLKEM_Q)) c (mlk_ct_cmask_neg_i16 c).

(** ** Polynomials *)

(** [mlk_poly] and [mlk_poly_mulcache]: the coefficient arrays, of [MLKEM_N] and [MLKEM_N / 2] elements.  The loops
    that update each coefficient from itself are maps. *)
Definition mlk_poly : Type := list Z.
Definition mlk_poly_mulcache : Type := list Z.

Definition mlk_poly_tomont (r : mlk_poly) : mlk_poly :=
  let f := 1353 in map (fun c => mlk_fqmul c f) r.

Definition mlk_poly_reduce (r : mlk_poly) : mlk_poly :=
  map (fun c => let t := mlk_barrett_reduce c in mlk_scalar_signed_to_unsigned_q t) r.

Definition mlk_poly_add (r b : mlk_poly) : mlk_poly := zip_with (fun x y => i16 (x + y)) r b.
Definition mlk_poly_sub (r b : mlk_poly) : mlk_poly := zip_with (fun x y => i16 (x - y)) r b.

Definition mlk_zetas : list Z :=
  [ -1044; -758;  -359;  -1517; 1493;  1422;  287;   202;  -171;  622;   1577;
    182;   962;   -1202; -1474; 1468;  573;   -1325; 264;  383;   -829;  1458;
    -1602; -130;  -681;  1017;  732;   608;   -1542; 411;  -205;  -1571; 1223;
    652;   -552;  1015;  -1293; 1491;  -282;  -1544; 516;  -8;    -320;  -666;
    -1618; -1162; 126;   1469;  -853;  -90;   -271;  830;  107;   -1421; -247;
    -951;  -398;  961;   -1508; -725;  448;   -1065; 677;  -1275; -1103; 430;
    555;   843;   -1251; 871;   1550;  105;   422;   587;  177;   -235;  -291;
    -460;  1574;  1653;  -246;  778;   1159;  -147;  -777; 1483;  -602;  1119;
    -1590; 644;   -872;  349;   418;   329;   -156;  -75;  817;   1097;  603;
    610;   1322;  -1285; -1465; 384;   -1215; -136;  1218; -1335; -874;  220;
    -1187; -1659; -1185; -1530; -1278; 794;   -1510; -854; -870;  478;   -108;
    -308;  996;   991;   958;   -1460; 1522;  1628 ].

Definition mlk_poly_mulcache_compute (a : mlk_poly) : mlk_poly_mulcache :=
  concat (map (fun i => [ mlk_fqmul (rd a (4 * i + 1)) (rd mlk_zetas (64 + i));
                          mlk_fqmul (rd a (4 * i + 3)) (i16 (- rd mlk_zetas (64 + i))) ]) (seq 0 (MLKEM_N / 4))).

(** The body of the loop over [j]. *)
Definition mlk_ntt_butterfly (zeta : Z) (len : nat) (r : mlk_poly) (j : nat) : mlk_poly :=
  let t := mlk_fqmul (rd r (j + len)) zeta in
  let r := wr r (j + len) (i16 (rd r j - t)) in
  wr r j (i16 (rd r j + t)).

Definition mlk_ntt_butterfly_block (r : mlk_poly) (zeta : Z) (start len : nat) : mlk_poly :=
  fold_left (mlk_ntt_butterfly zeta len) (seq start len) r.

(** [for (start = 0; start < MLKEM_N; start += 2 * len)] with [k++]: at most [MLKEM_N] passes. *)
Fixpoint mlk_ntt_layer_loop (fuel : nat) (r : mlk_poly) (start k len : nat) : mlk_poly :=
  match fuel with
  | O => r
  | S fuel =>
      if Nat.ltb start MLKEM_N
      then let zeta := rd mlk_zetas k in
           mlk_ntt_layer_loop fuel (mlk_ntt_butterfly_block r zeta start len) (start + 2 * len) (k + 1) len
      else r
  end.

Definition mlk_ntt_layer (r : mlk_poly) (layer : nat) : mlk_poly :=
  let k := Nat.shiftl 1 (layer - 1) in
  let len := Nat.shiftr MLKEM_N layer in
  mlk_ntt_layer_loop MLKEM_N r 0 k len.

Definition mlk_poly_ntt (p : mlk_poly) : mlk_poly := fold_left mlk_ntt_layer (seq 1 7) p.

Definition mlk_invntt_butterfly (zeta : Z) (len : nat) (r : mlk_poly) (j : nat) : mlk_poly :=
  let t := rd r j in
  let r := wr r j (mlk_barrett_reduce (i16 (t + rd r (j + len)))) in
  let r := wr r (j + len) (i16 (rd r (j + len) - t)) in
  wr r (j + len) (mlk_fqmul (rd r (j + len)) zeta).

Definition mlk_invntt_butterfly_block (r : mlk_poly) (zeta : Z) (start len : nat) : mlk_poly :=
  fold_left (mlk_invntt_butterfly zeta len) (seq start len) r.

Fixpoint mlk_invntt_layer_loop (fuel : nat) (r : mlk_poly) (start k len : nat) : mlk_poly :=
  match fuel with
  | O => r
  | S fuel =>
      if Nat.ltb start MLKEM_N
      then let zeta := rd mlk_zetas k in
           mlk_invntt_layer_loop fuel (mlk_invntt_butterfly_block r zeta start len) (start + 2 * len) (k - 1) len
      else r
  end.

Definition mlk_invntt_layer (r : mlk_poly) (layer : nat) : mlk_poly :=
  let len := Nat.shiftr MLKEM_N layer in
  let k := (Nat.shiftl 1 layer - 1)%nat in
  mlk_invntt_layer_loop MLKEM_N r 0 k len.

Definition mlk_poly_invntt_tomont (p : mlk_poly) : mlk_poly :=
  let f := 1441 in
  let r := map (fun c => mlk_fqmul c f) p in
  fold_left mlk_invntt_layer [7; 6; 5; 4; 3; 2; 1]%nat r.

(** ** Congruence modulo q *)

Definition cong (a b : Z) : Prop := (MLKEM_Q | a - b).
Declare Scope mlkem_scope.
Infix "=q" := cong (at level 70) : mlkem_scope.
#[local] Open Scope mlkem_scope.

#[export] Instance cong_equiv : Equivalence cong.
Proof.
  unfold cong. split.
  - intros x. rewrite Z.sub_diag. apply Z.divide_0_r.
  - intros x y [k H]. exists (- k). lia.
  - intros x y z [k H] [l H']. exists (k + l). lia.
Qed.

#[export] Instance cong_add : Proper (cong ==> cong ==> cong) Z.add.
Proof. intros a b [k H] c d [l H']. exists (k + l). lia. Qed.
#[export] Instance cong_sub : Proper (cong ==> cong ==> cong) Z.sub.
Proof. intros a b [k H] c d [l H']. exists (k - l). lia. Qed.
#[export] Instance cong_mul : Proper (cong ==> cong ==> cong) Z.mul.
Proof. intros a b [k H] c d [l H']. exists (k * c + b * l). lia. Qed.
#[export] Instance cong_opp : Proper (cong ==> cong) Z.opp.
Proof. intros a b [k H]. exists (- k). lia. Qed.

Lemma cong_eq a b : a = b -> a =q b.
Proof. now intros ->. Qed.

Lemma cong_mod a b : a =q b <-> a mod MLKEM_Q = b mod MLKEM_Q.
Proof.
  unfold cong. rewrite <- Z.mod_divide by discriminate. split; intros H.
  - replace a with (b + (a - b)) by lia. rewrite Z.add_mod, H, Z.add_0_r, Z.mod_mod by discriminate. reflexivity.
  - now rewrite Zminus_mod, H, Z.sub_diag.
Qed.

Lemma cong_dec_eq a b : ((a - b) mod MLKEM_Q =? 0) = true -> a =q b.
Proof. intros H. apply Z.eqb_eq in H. now apply Z.mod_divide. Qed.

(** 2^16 is invertible: its inverse is 169. *)
Lemma cong_R_inv a : a * 2 ^ 16 * 169 =q a.
Proof. rewrite <- Z.mul_assoc. rewrite <- (Z.mul_1_r a) at 2. apply cong_mul; [reflexivity | now apply cong_dec_eq]. Qed.

Lemma cong_cancel_R a b : a * 2 ^ 16 =q b * 2 ^ 16 -> a =q b.
Proof. intros H. rewrite <- (cong_R_inv a), H. apply cong_R_inv. Qed.

(** Equal representatives in a range of q values are equal. *)
Lemma cong_range_eq a b lo : lo <= a < lo + MLKEM_Q -> lo <= b < lo + MLKEM_Q -> a =q b -> a = b.
Proof. intros Ha Hb [k H]. unfold MLKEM_Q in *. nia. Qed.

(** ** Scalars *)

Lemma u16_mod x : u16 x = x mod 2 ^ 16.
Proof. unfold u16. apply (Z.land_ones x 16). lia. Qed.

Lemma i16_range x : - 2 ^ 15 <= i16 x < 2 ^ 15.
Proof. unfold i16. rewrite u16_mod. pose proof (Z.mod_pos_bound (x + 0x8000) (2 ^ 16)). lia. Qed.

Lemma i16_id x : - 2 ^ 15 <= x < 2 ^ 15 -> i16 x = x.
Proof. intros H. unfold i16. rewrite u16_mod, Z.mod_small; lia. Qed.

Lemma i16_mod x : exists k, i16 x = x + k * 2 ^ 16.
Proof.
  unfold i16. rewrite u16_mod. exists (- ((x + 0x8000) / 2 ^ 16)). pose proof (Z.div_mod (x + 0x8000) (2 ^ 16)). lia.
Qed.

(** Montgomery reduction is exact division of [a - t q] by 2^16. *)
Lemma montgomery_reduce_spec a : Z.abs a <= 2 ^ 31 - 1 - 2 ^ 15 * MLKEM_Q ->
  exists t, - 2 ^ 15 <= t < 2 ^ 15 /\ mlk_montgomery_reduce a * 2 ^ 16 = a - t * MLKEM_Q.
Proof.
  intros Ha. unfold mlk_montgomery_reduce.
  set (t := mlk_cast_uint16_to_int16 _). exists t.
  assert (Hr : - 2 ^ 15 <= t < 2 ^ 15) by apply i16_range. split; [exact Hr |].
  assert (Ht : exists k, t = a * 62209 + k * 2 ^ 16).
  { subst t. unfold mlk_cast_uint16_to_int16, mlk_cast_int32_to_uint16.
    change (Z.land a 0xffff) with (u16 a). change (Z.land ?x 0xffff) with (u16 x). rewrite u32_mod.
    rewrite Z.mod_small by (rewrite u16_mod; pose proof (Z.mod_pos_bound a (2 ^ 16)); lia).
    destruct (i16_mod (u16 (u16 a * 62209))) as [k ->]. rewrite !u16_mod.
    pose proof (Z.div_mod (a mod 2 ^ 16 * 62209) (2 ^ 16)). pose proof (Z.div_mod a (2 ^ 16)).
    exists (k - (a mod 2 ^ 16 * 62209) / 2 ^ 16 - a / 2 ^ 16 * 62209). lia. }
  destruct Ht as [k Hk]. clearbody t. rewrite (i32_id (t * MLKEM_Q)), i32_id by (unfold MLKEM_Q in *; lia).
  assert (E : a - t * MLKEM_Q = (- a * 3160 - k * MLKEM_Q) * 2 ^ 16) by (unfold MLKEM_Q in *; lia).
  rewrite E, Z.shiftr_div_pow2, Z.div_mul by lia. rewrite i16_id; [reflexivity |]. unfold MLKEM_Q in *. lia.
Qed.

Lemma montgomery_reduce_cong a : Z.abs a <= 2 ^ 31 - 1 - 2 ^ 15 * MLKEM_Q ->
  mlk_montgomery_reduce a * 2 ^ 16 =q a.
Proof. intros Ha. destruct (montgomery_reduce_spec a Ha) as (t & _ & ->). exists (- t). unfold MLKEM_Q. lia. Qed.

Lemma fqmul_spec a b : - 2 ^ 15 <= a < 2 ^ 15 -> Z.abs b < MLKEM_Q_HALF ->
  mlk_fqmul a b * 2 ^ 16 =q a * b /\ Z.abs (mlk_fqmul a b) < MLKEM_Q.
Proof.
  intros Ha Hb. change MLKEM_Q_HALF with 1665 in Hb.
  assert (H : Z.abs (a * b) <= 2 ^ 15 * 1664) by (rewrite Z.abs_mul; nia).
  unfold mlk_fqmul. rewrite i32_id by lia. split; [apply montgomery_reduce_cong; unfold MLKEM_Q; lia |].
  revert H. generalize (a * b). intros p H. unfold MLKEM_Q.
  destruct (montgomery_reduce_spec p) as (t & Ht & E); unfold MLKEM_Q in *; lia.
Qed.

Lemma barrett_reduce_spec a : - 2 ^ 15 <= a < 2 ^ 15 ->
  mlk_barrett_reduce a =q a /\ Z.abs (mlk_barrett_reduce a) < MLKEM_Q_HALF.
Proof.
  intros Ha. unfold mlk_barrett_reduce. rewrite (i32_id (20159 * a)), (i32_id (20159 * a + Z.shiftl 1 25)) by (change (Z.shiftl 1 25) with (2 ^ 25); lia). set (t := Z.shiftr _ _).
  assert (Ht : t * 2 ^ 26 <= 20159 * a + 2 ^ 25 < t * 2 ^ 26 + 2 ^ 26).
  { subst t. rewrite Z.shiftr_div_pow2 by lia. change (Z.shiftl 1 25) with (2 ^ 25).
    pose proof (Z.div_mod (20159 * a + 2 ^ 25) (2 ^ 26)). pose proof (Z.mod_pos_bound (20159 * a + 2 ^ 25) (2 ^ 26)). lia. }
  change MLKEM_Q_HALF with 1665. unfold MLKEM_Q in *.
  assert (Hb : Z.abs (a - t * 3329) < 1665) by lia.
  rewrite (i32_id (t * 3329)), (i32_id (a - t * 3329)), i16_id by lia. split; [exists (- t); unfold MLKEM_Q; lia | exact Hb].
Qed.

Lemma cmask_neg_i16_spec x : - 2 ^ 15 <= x < 2 ^ 15 -> mlk_ct_cmask_neg_i16 x = if x <? 0 then 0xffff else 0.
Proof.
  intros Hx. unfold mlk_ct_cmask_neg_i16, mlk_cast_int32_to_uint16. rewrite Z.shiftr_div_pow2 by lia.
  destruct (Z.ltb_spec x 0).
  - replace (x / 2 ^ 16) with (-1) by (apply (Z.div_unique x _ _ (x + 2 ^ 16)); lia). reflexivity.
  - now rewrite Z.div_small by lia.
Qed.

Lemma cmask_nonzero_u16_spec x : 0 <= x < 2 ^ 16 -> mlk_ct_cmask_nonzero_u16 x = if x =? 0 then 0 else 0xffff.
Proof.
  intros Hx. unfold mlk_ct_cmask_nonzero_u16, mlk_cast_int32_to_uint16. rewrite Z.shiftr_div_pow2 by lia.
  destruct (Z.eqb_spec x 0) as [-> | H]; [reflexivity |].
  replace (- x / 2 ^ 16) with (-1) by (apply (Z.div_unique (- x) _ _ (2 ^ 16 - x)); lia). reflexivity.
Qed.

Lemma cmask_nonzero_u8_spec x : 0 <= x < 2 ^ 8 -> mlk_ct_cmask_nonzero_u8 x = if x =? 0 then 0 else 0xff.
Proof. intros Hx. unfold mlk_ct_cmask_nonzero_u8. rewrite cmask_nonzero_u16_spec by lia. now case Z.eqb. Qed.

Lemma i16_u16 a : - 2 ^ 15 <= a < 2 ^ 15 -> i16 (u16 a) = a.
Proof.
  intros Ha. unfold i16. rewrite !u16_mod, Zplus_mod_idemp_l. rewrite Z.mod_small; lia.
Qed.

Lemma ct_sel_int16_spec a b cond : - 2 ^ 15 <= a < 2 ^ 15 -> - 2 ^ 15 <= b < 2 ^ 15 -> 0 <= cond < 2 ^ 16 ->
  mlk_ct_sel_int16 a b cond = if cond =? 0 then b else a.
Proof.
  intros Ha Hb Hc. unfold mlk_ct_sel_int16, mlk_cast_int16_to_uint16, mlk_cast_int32_to_uint16, mlk_cast_uint16_to_int16.
  rewrite cmask_nonzero_u16_spec by exact Hc. destruct (Z.eqb_spec cond 0).
  - rewrite Z.land_0_l, Z.lxor_0_r. now apply i16_u16.
  - replace (Z.lxor (Z.land b 65535) (Z.land 65535 (Z.lxor (Z.land a 65535) (Z.land b 65535)))) with (u16 a);
      [now apply i16_u16 |].
    apply Z.bits_inj'. intros i Hi. unfold u16. rewrite !Z.lxor_spec, !Z.land_spec, !Z.lxor_spec, !Z.land_spec.
    destruct (Z.testbit a i), (Z.testbit b i), (Z.testbit 65535 i); reflexivity.
Qed.

Lemma ct_sel_uint8_spec a b cond : is_u8 a -> is_u8 b -> is_u8 cond ->
  mlk_ct_sel_uint8 a b cond = if cond =? 0 then b else a.
Proof.
  intros Ha Hb Hc. unfold mlk_ct_sel_uint8. rewrite cmask_nonzero_u8_spec by exact Hc. case Z.eqb_spec; intros _.
  - now rewrite Z.land_0_l, Z.lxor_0_r.
  - apply Z.bits_inj'. intros i Hi. rewrite !Z.lxor_spec, !Z.land_spec, Z.lxor_spec.
    destruct (Z.ltb_spec i 8) as [H8 | H8].
    + assert (Z.testbit 255 i = true) as -> by (rewrite <- (Z.ones_spec_low 8 i) by lia; reflexivity).
      destruct (Z.testbit a i), (Z.testbit b i); reflexivity.
    + rewrite (testbit_u8_ge a i), (testbit_u8_ge b i) by auto. now rewrite andb_false_r.
Qed.

Lemma signed_to_unsigned_q_spec c : Z.abs c < MLKEM_Q ->
  mlk_scalar_signed_to_unsigned_q c =q c /\ 0 <= mlk_scalar_signed_to_unsigned_q c < MLKEM_Q.
Proof.
  intros Hc. unfold MLKEM_Q in *. unfold mlk_scalar_signed_to_unsigned_q, MLKEM_Q.
  rewrite cmask_neg_i16_spec by lia. rewrite i16_id by lia.
  destruct (Z.ltb_spec c 0); rewrite ct_sel_int16_spec by lia.
  - change (65535 =? 0) with false. cbv iota. split; [exists 1; unfold MLKEM_Q |]; lia.
  - change (0 =? 0) with true. cbv iota. split; [reflexivity | lia].
Qed.

Lemma reduce_coeff_spec c : - 2 ^ 15 <= c < 2 ^ 15 ->
  mlk_scalar_signed_to_unsigned_q (mlk_barrett_reduce c) = c mod MLKEM_Q.
Proof.
  intros Hc. destruct (barrett_reduce_spec c Hc) as [Hb Hr].
  destruct (signed_to_unsigned_q_spec (mlk_barrett_reduce c)) as [Hs Hq];
    [change MLKEM_Q_HALF with 1665 in Hr; unfold MLKEM_Q; lia |].
  apply (cong_range_eq _ _ 0); [exact Hq | now apply Z.mod_pos_bound |].
  rewrite Hs, Hb. symmetry. apply cong_mod. now rewrite Z.mod_mod.
Qed.
