(* ===== verification/MlkemNtt.v ===== *)
(** * Correctness of the number-theoretic transform *)

From stdpp Require Import base list numbers.
From Stdlib Require Import ZArith Lia.
From S2P Require Import Prelude Fips203 MlkemPoly.

#[local] Open Scope Z_scope.
#[local] Open Scope mlkem_scope.

(** ** Residues modulo X^2 - g *)

Definition cong2 (a b : Z * Z) : Prop := fst a =q fst b /\ snd a =q snd b.

#[export] Instance cong2_equiv : Equivalence cong2.
Proof.
  split; [split; reflexivity | |].
  - intros a b [H1 H2]. split; now symmetry.
  - intros a b c [H1 H2] [H3 H4]. split; etransitivity; eassumption.
Qed.

Lemma mod_X2_cong g l1 l2 : Forall2 cong l1 l2 -> cong2 (mod_X2 g l1) (mod_X2 g l2).
Proof.
  induction 1 as [|a b l1 l2 Hab Hl IH]; [reflexivity |]. cbn [mod_X2].
  destruct (mod_X2 g l1) as [p0 p1], (mod_X2 g l2) as [p0' p1']. destruct IH as [H0 H1]. cbn [fst snd] in *.
  split; cbn [fst snd]; [now rewrite Hab, H1 | exact H0].
Qed.

Lemma mod_X2_linear g c (u v : nat -> Z) n : forall s,
  mod_X2 g (map (fun i => u i + c * v i) (seq s n)) =
    (fst (mod_X2 g (map u (seq s n))) + c * fst (mod_X2 g (map v (seq s n))),
     snd (mod_X2 g (map u (seq s n))) + c * snd (mod_X2 g (map v (seq s n)))).
Proof.
  induction n as [|n IH]; intros s; [cbn; f_equal; lia |]. cbn [seq map mod_X2]. rewrite IH.
  destruct (mod_X2 g (map u _)) as [p0 p1], (mod_X2 g (map v _)) as [p0' p1']. cbn [fst snd]. f_equal; lia.
Qed.

Lemma mod_X2_app g m : forall l1 l2, length l1 = (2 * m)%nat ->
  mod_X2 g (l1 ++ l2) = (fst (mod_X2 g l1) + g ^ Z.of_nat m * fst (mod_X2 g l2),
                         snd (mod_X2 g l1) + g ^ Z.of_nat m * snd (mod_X2 g l2)).
Proof.
  induction m as [|m IH]; intros l1 l2 Hl.
  - destruct l1; [| discriminate]. cbn [app mod_X2 fst snd]. destruct (mod_X2 g l2). cbn [fst snd]. f_equal; lia.
  - destruct l1 as [|a [|b l1]]; try (cbn in Hl; lia). cbn [app mod_X2]. rewrite IH by (cbn in Hl; lia).
    destruct (mod_X2 g l1) as [p0 p1], (mod_X2 g l2) as [p0' p1']. cbn [fst snd].
    rewrite Nat2Z.inj_succ, Z.pow_succ_r by lia. f_equal; lia.
Qed.

(** ** In-place butterflies *)

(** One pass replaces the elements at [j] and [j + len] by functions of both. *)
Definition pair_step (f g : Z -> Z -> Z) (len : nat) (r : list Z) (j : nat) : list Z :=
  wr (wr r j (f (rd r j) (rd r (j + len)))) (j + len) (g (rd r j) (rd r (j + len))).

Definition paired (f g : Z -> Z -> Z) (r : list Z) (start len n i : nat) : Z :=
  if (start <=? i)%nat && (i <? start + n)%nat then f (rd r i) (rd r (i + len))
  else if (start + len <=? i)%nat && (i <? start + len + n)%nat then g (rd r (i - len)) (rd r i)
  else rd r i.

Lemma length_pair_fold f g len l : forall r, length (fold_left (pair_step f g len) l r) = length r.
Proof.
  induction l as [|j l IH]; intros r; [reflexivity |]. cbn [fold_left]. rewrite IH. unfold pair_step. now rewrite !length_wr.
Qed.

Lemma pair_fold_prefix f g r start len n : (n <= len)%nat -> (start + 2 * len <= length r)%nat -> forall i,
  rd (fold_left (pair_step f g len) (seq start n) r) i = paired f g r start len n i.
Proof.
  intros Hn Hl. induction n as [|n IH]; intros i.
  - unfold paired. cbn [seq fold_left].
    destruct (Nat.leb_spec start i), (Nat.ltb_spec i (start + 0)), (Nat.leb_spec (start + len) i),
      (Nat.ltb_spec i (start + len + 0)); cbn [andb]; try lia; reflexivity.
  - rewrite seq_S, fold_left_app. cbn [fold_left]. set (r1 := fold_left _ (seq start n) r) in *.
    assert (Hr1 : length r1 = length r) by apply length_pair_fold.
    assert (E1 : rd r1 (start + n) = rd r (start + n)).
    { rewrite IH by lia. unfold paired. destruct (Nat.ltb_spec (start + n) (start + n)), (Nat.leb_spec (start + len) (start + n));
        try lia; rewrite ?andb_false_r; reflexivity. }
    assert (E2 : rd r1 (start + n + len) = rd r (start + n + len)).
    { rewrite IH by lia. unfold paired. destruct (Nat.ltb_spec (start + n + len) (start + n)), (Nat.ltb_spec (start + n + len) (start + len + n));
        try lia; rewrite ?andb_false_r; reflexivity. }
    unfold pair_step. rewrite E1, E2.
    destruct (Nat.eq_dec i (start + n + len)) as [-> | Hi].
    { rewrite rd_wr_eq by (rewrite length_wr; lia). unfold paired.
      destruct (Nat.ltb_spec (start + n + len) (start + S n)), (Nat.leb_spec (start + len) (start + n + len)),
        (Nat.ltb_spec (start + n + len) (start + len + S n)); try lia; rewrite ?andb_false_r; cbn [andb].
      f_equal; f_equal; lia. }
    rewrite rd_wr_ne by lia. destruct (Nat.eq_dec i (start + n)) as [-> | Hi'].
    { rewrite rd_wr_eq by lia. unfold paired.
      destruct (Nat.leb_spec start (start + n)), (Nat.ltb_spec (start + n) (start + S n)); try lia. reflexivity. }
    rewrite rd_wr_ne by lia. rewrite IH by lia. unfold paired.
    destruct (Nat.leb_spec start i), (Nat.ltb_spec i (start + n)), (Nat.ltb_spec i (start + S n)),
      (Nat.leb_spec (start + len) i), (Nat.ltb_spec i (start + len + n)), (Nat.ltb_spec i (start + len + S n));
      cbn [andb]; try lia; reflexivity.
Qed.

Definition fwd_lo (z a b : Z) : Z := i16 (a + mlk_fqmul b z).
Definition fwd_hi (z a b : Z) : Z := i16 (a - mlk_fqmul b z).
Definition inv_lo (a b : Z) : Z := mlk_barrett_reduce (i16 (a + b)).
Definition inv_hi (z a b : Z) : Z := mlk_fqmul (i16 (b - a)) z.

Lemma wr_comm r i j x y : i <> j -> wr (wr r i x) j y = wr (wr r j y) i x.
Proof. intros H. unfold wr. now apply list_insert_insert_ne. Qed.

Lemma ntt_butterfly_pair zeta len r j : (0 < len)%nat -> (j + len < length r)%nat ->
  mlk_ntt_butterfly zeta len r j = pair_step (fwd_lo zeta) (fwd_hi zeta) len r j.
Proof.
  intros H0 Hj. unfold mlk_ntt_butterfly, pair_step, fwd_lo, fwd_hi. cbv zeta.
  rewrite (rd_wr_ne _ (j + len) j) by lia. apply wr_comm. lia.
Qed.

Lemma invntt_butterfly_pair zeta len r j : (0 < len)%nat -> (j + len < length r)%nat ->
  mlk_invntt_butterfly zeta len r j = pair_step inv_lo (inv_hi zeta) len r j.
Proof.
  intros H0 Hj. unfold mlk_invntt_butterfly, pair_step, inv_lo, inv_hi. cbv zeta.
  rewrite !(rd_wr_ne _ j (j + len)) by lia. rewrite rd_wr_eq by (rewrite length_wr; lia).
  unfold wr. now rewrite list_insert_insert_eq.
Qed.

Lemma fold_pairs step f g len start r : (start + 2 * len <= length r)%nat ->
  (forall r j, (j + len < length r)%nat -> step r j = pair_step f g len r j) ->
  fold_left step (seq start len) r = fold_left (pair_step f g len) (seq start len) r.
Proof.
  intros Hl Hs. assert (Hj : Forall (fun j => (j + len < length r)%nat) (seq start len)).
  { apply List.Forall_forall. intros j Hj. apply in_seq in Hj. lia. }
  clear Hl. revert r Hj. generalize (seq start len) as l. intros l.
  induction l as [|j l IH]; intros r Hj; [reflexivity |]. apply Forall_cons_1 in Hj as [Hj1 Hj]. cbn [fold_left].
  rewrite Hs by exact Hj1. apply IH. unfold pair_step. now rewrite !length_wr.
Qed.

(** ** Layers *)

Section Layer.
Context (block : list Z -> nat -> list Z) (f g : nat -> Z -> Z -> Z) (len : nat) (Hlen : (0 < len)%nat).
Context (Hblock : forall r b, (2 * len * b + 2 * len <= length r)%nat ->
  block r b = fold_left (pair_step (f b) (g b) len) (seq (2 * len * b) len) r).

Lemma length_blocks n r : (2 * len * n <= length r)%nat -> length (fold_left block (seq 0 n) r) = length r.
Proof.
  induction n as [|n IH]; intros Hn; [reflexivity |]. rewrite seq_S, fold_left_app. cbn [fold_left Nat.add].
  rewrite Hblock by (rewrite IH; lia). rewrite length_pair_fold. apply IH. lia.
Qed.

(** Element [i] after the blocks [0 .. n - 1]: it depends on the initial array only. *)
Definition layered (r : list Z) (i : nat) : Z :=
  let b := (i / (2 * len))%nat in
  if (i mod (2 * len) <? len)%nat then f b (rd r i) (rd r (i + len)) else g b (rd r (i - len)) (rd r i).

Lemma blocks_rd n r i : (2 * len * n <= length r)%nat ->
  rd (fold_left block (seq 0 n) r) i = if (i <? 2 * len * n)%nat then layered r i else rd r i.
Proof.
  revert i. induction n as [|n IH]; intros i Hn.
  { rewrite Nat.mul_0_r. reflexivity. }
  rewrite seq_S, fold_left_app. cbn [fold_left Nat.add]. set (r1 := fold_left block (seq 0 n) r) in *.
  assert (Hr1 : length r1 = length r) by (apply length_blocks; lia).
  rewrite Hblock by lia. rewrite pair_fold_prefix by lia. unfold paired.
  assert (Hhigh : forall j, (2 * len * n <= j)%nat -> rd r1 j = rd r j).
  { intros j Hj. rewrite IH by lia. destruct (Nat.ltb_spec j (2 * len * n)); [lia | reflexivity]. }
  destruct (Nat.ltb_spec i (2 * len * n)) as [Hi | Hi].
  - replace (i <? 2 * len * S n)%nat with true by (symmetry; apply Nat.ltb_lt; lia).
    destruct (Nat.leb_spec (2 * len * n) i), (Nat.leb_spec (2 * len * n + len) i); try lia. cbn [andb].
    rewrite IH by lia. destruct (Nat.ltb_spec i (2 * len * n)); [reflexivity | lia].
  - destruct (Nat.ltb_spec i (2 * len * S n)) as [Hi' | Hi'].
    + assert (Eb : (i / (2 * len) = n)%nat) by (symmetry; apply (Nat.div_unique i (2 * len) n (i - 2 * len * n)); lia).
      assert (Em : (i mod (2 * len) = i - 2 * len * n)%nat) by (symmetry; apply (Nat.mod_unique i (2 * len) n); lia).
      unfold layered. rewrite Eb, Em.
      destruct (Nat.leb_spec (2 * len * n) i); [| lia].
      destruct (Nat.ltb_spec i (2 * len * n + len)), (Nat.ltb_spec (i - 2 * len * n) len); try lia; cbn [andb].
      * now rewrite !Hhigh by lia.
      * destruct (Nat.leb_spec (2 * len * n + len) i), (Nat.ltb_spec i (2 * len * n + len + len)); try lia. cbn [andb].
        now rewrite !Hhigh by lia.
    + destruct (Nat.leb_spec (2 * len * n) i), (Nat.ltb_spec i (2 * len * n + len)),
        (Nat.ltb_spec i (2 * len * n + len + len)); try lia; rewrite ?andb_false_r; cbn [andb]; apply Hhigh; lia.
Qed.

End Layer.

Lemma ntt_layer_loop_fold k len n : (0 < len)%nat -> forall fuel r b, (n <= fuel)%nat -> (2 * len * (b + n) = 256)%nat ->
  mlk_ntt_layer_loop fuel r (2 * len * b) (k + b) len =
  fold_left (fun r b => mlk_ntt_butterfly_block r (rd mlk_zetas (k + b)) (2 * len * b) len) (seq b n) r.
Proof.
  intros Hlen. induction n as [|n IH]; intros fuel r b Hf Hb.
  - destruct fuel as [|fuel]; [reflexivity |]. cbn [mlk_ntt_layer_loop seq fold_left]. unfold MLKEM_N.
    destruct (Nat.ltb_spec (2 * len * b) 256); [lia | reflexivity].
  - destruct fuel as [|fuel]; [lia |]. cbn [mlk_ntt_layer_loop seq fold_left]. unfold MLKEM_N.
    destruct (Nat.ltb_spec (2 * len * b) 256); [| lia]. rewrite <- (IH fuel) by lia. f_equal; lia.
Qed.

Lemma invntt_layer_loop_fold k len n : (0 < len)%nat -> forall fuel r b, (n <= fuel)%nat -> (2 * len * (b + n) = 256)%nat ->
  mlk_invntt_layer_loop fuel r (2 * len * b) (k - b) len =
  fold_left (fun r b => mlk_invntt_butterfly_block r (rd mlk_zetas (k - b)) (2 * len * b) len) (seq b n) r.
Proof.
  intros Hlen. induction n as [|n IH]; intros fuel r b Hf Hb.
  - destruct fuel as [|fuel]; [reflexivity |]. cbn [mlk_invntt_layer_loop seq fold_left]. unfold MLKEM_N.
    destruct (Nat.ltb_spec (2 * len * b) 256); [lia | reflexivity].
  - destruct fuel as [|fuel]; [lia |]. cbn [mlk_invntt_layer_loop seq fold_left]. unfold MLKEM_N.
    destruct (Nat.ltb_spec (2 * len * b) 256); [| lia]. rewrite <- (IH fuel) by lia. f_equal; lia.
Qed.

Lemma ntt_layer_loop_0 k len n fuel r : (0 < len)%nat -> (n <= fuel)%nat -> (2 * len * n = 256)%nat ->
  mlk_ntt_layer_loop fuel r 0 k len =
  fold_left (fun r b => mlk_ntt_butterfly_block r (rd mlk_zetas (k + b)) (2 * len * b) len) (seq 0 n) r.
Proof.
  intros H0 Hf H. pose proof (ntt_layer_loop_fold k len n H0 fuel r 0 Hf H) as E.
  now rewrite Nat.mul_0_r, Nat.add_0_r in E.
Qed.

Lemma invntt_layer_loop_0 k len n fuel r : (0 < len)%nat -> (n <= fuel)%nat -> (2 * len * n = 256)%nat ->
  mlk_invntt_layer_loop fuel r 0 k len =
  fold_left (fun r b => mlk_invntt_butterfly_block r (rd mlk_zetas (k - b)) (2 * len * b) len) (seq 0 n) r.
Proof.
  intros H0 Hf H. pose proof (invntt_layer_loop_fold k len n H0 fuel r 0 Hf H) as E.
  now rewrite Nat.mul_0_r, Nat.sub_0_r in E.
Qed.

(** Layer [l] works on [2^(l-1)] blocks of [2^(9-l)] elements. *)
Definition nblocks (l : nat) : nat := (2 ^ (l - 1))%nat.
Definition blen (l : nat) : nat := (2 ^ (8 - l))%nat.

Lemma layer_shape l : (1 <= l <= 7)%nat ->
  (2 * blen l * nblocks l = 256)%nat /\ (0 < blen l)%nat /\ (nblocks l <= 64)%nat /\
  Nat.shiftl 1 (l - 1) = nblocks l /\ Nat.shiftl 1 l = (2 * nblocks l)%nat /\ Nat.shiftr MLKEM_N l = blen l.
Proof. intros H. do 8 (destruct l as [|l]; [try lia; vm_compute; lia |]). lia. Qed.

Lemma ntt_layer_rd l r i : (1 <= l <= 7)%nat -> length r = 256%nat -> (i < 256)%nat ->
  rd (mlk_ntt_layer r l) i =
  layered (fun b => fwd_lo (rd mlk_zetas (nblocks l + b))) (fun b => fwd_hi (rd mlk_zetas (nblocks l + b))) (blen l) r i.
Proof.
  intros Hl Hr Hi. destruct (layer_shape l Hl) as (H256 & H0 & H64 & Ek & _ & Elen).
  unfold mlk_ntt_layer. cbv zeta. rewrite Ek, Elen.
  rewrite (ntt_layer_loop_0 (nblocks l) (blen l) (nblocks l)) by (unfold MLKEM_N; lia).
  rewrite (blocks_rd _ (fun b => fwd_lo (rd mlk_zetas (nblocks l + b))) (fun b => fwd_hi (rd mlk_zetas (nblocks l + b))) (blen l)); try lia.
  - rewrite H256. now replace (i <? 256)%nat with true by (symmetry; now apply Nat.ltb_lt).
  - intros r' b Hb. apply fold_pairs; [lia |]. intros r'' j Hj. now apply ntt_butterfly_pair.
Qed.

Lemma invntt_layer_rd l r i : (1 <= l <= 7)%nat -> length r = 256%nat -> (i < 256)%nat ->
  rd (mlk_invntt_layer r l) i =
  layered (fun _ => inv_lo) (fun b => inv_hi (rd mlk_zetas (2 * nblocks l - 1 - b))) (blen l) r i.
Proof.
  intros Hl Hr Hi. destruct (layer_shape l Hl) as (H256 & H0 & H64 & _ & Ek & Elen).
  unfold mlk_invntt_layer. cbv zeta. rewrite Ek, Elen.
  rewrite (invntt_layer_loop_0 (2 * nblocks l - 1) (blen l) (nblocks l)) by (unfold MLKEM_N; lia).
  rewrite (blocks_rd _ (fun _ => inv_lo) (fun b => inv_hi (rd mlk_zetas (2 * nblocks l - 1 - b))) (blen l)); try lia.
  - rewrite H256. now replace (i <? 256)%nat with true by (symmetry; now apply Nat.ltb_lt).
  - intros r' b Hb. apply fold_pairs; [lia |]. intros r'' j Hj. now apply invntt_butterfly_pair.
Qed.

Lemma length_ntt_layer l r : (1 <= l <= 7)%nat -> length r = 256%nat -> length (mlk_ntt_layer r l) = 256%nat.
Proof.
  intros Hl Hr. destruct (layer_shape l Hl) as (H256 & H0 & H64 & Ek & _ & Elen).
  unfold mlk_ntt_layer. cbv zeta. rewrite Ek, Elen.
  rewrite (ntt_layer_loop_0 (nblocks l) (blen l) (nblocks l)) by (unfold MLKEM_N; lia).
  rewrite (length_blocks _ (fun b => fwd_lo (rd mlk_zetas (nblocks l + b))) (fun b => fwd_hi (rd mlk_zetas (nblocks l + b))) (blen l)); try lia.
  intros r' b Hb. apply fold_pairs; [lia |]. intros r'' j Hj. now apply ntt_butterfly_pair.
Qed.

Lemma length_invntt_layer l r : (1 <= l <= 7)%nat -> length r = 256%nat -> length (mlk_invntt_layer r l) = 256%nat.
Proof.
  intros Hl Hr. destruct (layer_shape l Hl) as (H256 & H0 & H64 & _ & Ek & Elen).
  unfold mlk_invntt_layer. cbv zeta. rewrite Ek, Elen.
  rewrite (invntt_layer_loop_0 (2 * nblocks l - 1) (blen l) (nblocks l)) by (unfold MLKEM_N; lia).
  rewrite (length_blocks _ (fun _ => inv_lo) (fun b => inv_hi (rd mlk_zetas (2 * nblocks l - 1 - b))) (blen l)); try lia.
  intros r' b Hb. apply fold_pairs; [lia |]. intros r'' j Hj. now apply invntt_butterfly_pair.
Qed.

(** ** Bounds *)

(** A polynomial with coefficients below [B] in absolute value. *)
Definition polyb (B : Z) (r : list Z) : Prop := length r = 256%nat /\ Forall (fun c => Z.abs c < B) r.

Lemma polyb_rd B r i : 0 < B -> polyb B r -> Z.abs (rd r i) < B.
Proof. intros HB [_ H]. apply (rd_Forall (fun c => Z.abs c < B)); [now rewrite Z.abs_0 | exact H]. Qed.

Lemma polyb_intro B r : length r = 256%nat -> (forall i, (i < 256)%nat -> Z.abs (rd r i) < B) -> polyb B r.
Proof.
  intros Hl H. split; [exact Hl |]. apply Forall_lookup. intros i x Hi.
  rewrite <- (rd_lookup r i x Hi). apply H. rewrite <- Hl. apply lookup_lt_Some in Hi. exact Hi.
Qed.

Lemma polyb_weaken B B' r : B <= B' -> polyb B r -> polyb B' r.
Proof. intros HB [Hl H]. split; [exact Hl |]. eapply Forall_impl; [| exact H]. cbn. intros; lia. Qed.

(** The zeta that position [m] of the table stands for: the table holds Montgomery form. *)
Definition zt (m : nat) : Z := rd mlk_zetas m * 169.

Lemma zetas_bound m : Z.abs (rd mlk_zetas m) < MLKEM_Q_HALF.
Proof.
  apply (rd_Forall (fun z => Z.abs z < MLKEM_Q_HALF)); [reflexivity |].
  apply List.Forall_forall.
  assert (H : forallb (fun z => Z.abs z <? MLKEM_Q_HALF) mlk_zetas = true) by (vm_compute; reflexivity).
  intros z Hz. apply Z.ltb_lt. now apply (proj1 (List.forallb_forall _ _) H).
Qed.

Lemma fqmul_zeta b m : - 2 ^ 15 <= b < 2 ^ 15 ->
  mlk_fqmul b (rd mlk_zetas m) =q b * zt m /\ Z.abs (mlk_fqmul b (rd mlk_zetas m)) < MLKEM_Q.
Proof.
  intros Hb. destruct (fqmul_spec b (rd mlk_zetas m) Hb (zetas_bound m)) as [H1 H2]. split; [| exact H2].
  rewrite <- (cong_R_inv (mlk_fqmul b (rd mlk_zetas m))), H1. unfold zt. now rewrite Z.mul_assoc.
Qed.

Lemma fwd_spec m a b B : 0 < B <= 8 * MLKEM_Q -> Z.abs a < B -> Z.abs b < B ->
  (fwd_lo (rd mlk_zetas m) a b =q a + zt m * b /\ Z.abs (fwd_lo (rd mlk_zetas m) a b) < B + MLKEM_Q) /\
  (fwd_hi (rd mlk_zetas m) a b =q a - zt m * b /\ Z.abs (fwd_hi (rd mlk_zetas m) a b) < B + MLKEM_Q).
Proof.
  intros HB Ha Hb. destruct (fqmul_zeta b m) as [H1 H2]; [unfold MLKEM_Q in *; lia |].
  unfold fwd_lo, fwd_hi. rewrite (Z.mul_comm (zt m)). unfold MLKEM_Q in *. rewrite !i16_id by lia.
  repeat split; [now rewrite H1 | lia | now rewrite H1 | lia].
Qed.

Lemma inv_spec m a b : Z.abs a < MLKEM_Q -> Z.abs b < MLKEM_Q ->
  (inv_lo a b =q a + b /\ Z.abs (inv_lo a b) < MLKEM_Q) /\
  (inv_hi (rd mlk_zetas m) a b =q zt m * (b - a) /\ Z.abs (inv_hi (rd mlk_zetas m) a b) < MLKEM_Q).
Proof.
  intros Ha Hb. unfold inv_lo, inv_hi. unfold MLKEM_Q in *. rewrite !i16_id by lia.
  destruct (barrett_reduce_spec (a + b)) as [H1 H2]; [lia |]. destruct (fqmul_zeta (b - a) m) as [H3 H4]; [lia |].
  change MLKEM_Q_HALF with 1665 in H2. unfold MLKEM_Q in H4. rewrite Z.mul_comm. repeat split; auto. lia.
Qed.

(** ** Forward transform *)

Section Layers.
Context (l : nat) (Hl : (1 <= l <= 7)%nat).

Lemma ntt_layer_step r : polyb (Z.of_nat l * MLKEM_Q) r ->
  polyb (Z.of_nat (l + 1) * MLKEM_Q) (mlk_ntt_layer r l) /\
  forall i, (i < 256)%nat ->
    rd (mlk_ntt_layer r l) i =q
      let z := zt (nblocks l + i / (2 * blen l)) in
      if (i mod (2 * blen l) <? blen l)%nat then rd r i + z * rd r (i + blen l) else rd r (i - blen l) - z * rd r i.
Proof.
  intros Hr. pose proof Hr as [Hlen _].
  assert (HB : 0 < Z.of_nat l * MLKEM_Q <= 8 * MLKEM_Q) by (unfold MLKEM_Q; lia).
  assert (Hrd : forall i, Z.abs (rd r i) < Z.of_nat l * MLKEM_Q) by (intros; apply polyb_rd; [lia | exact Hr]).
  assert (H : forall i, (i < 256)%nat -> Z.abs (rd (mlk_ntt_layer r l) i) < Z.of_nat (l + 1) * MLKEM_Q /\
    rd (mlk_ntt_layer r l) i =q
      let z := zt (nblocks l + i / (2 * blen l)) in
      if (i mod (2 * blen l) <? blen l)%nat then rd r i + z * rd r (i + blen l) else rd r (i - blen l) - z * rd r i).
  { intros i Hi. rewrite ntt_layer_rd by auto. unfold layered. cbv zeta.
    replace (Z.of_nat (l + 1) * MLKEM_Q) with (Z.of_nat l * MLKEM_Q + MLKEM_Q) by lia.
    pose proof (fwd_spec (nblocks l + i / (2 * blen l)) (rd r i) (rd r (i + blen l)) _ HB (Hrd _) (Hrd _)) as [[H1 H2] _].
    pose proof (fwd_spec (nblocks l + i / (2 * blen l)) (rd r (i - blen l)) (rd r i) _ HB (Hrd _) (Hrd _)) as [_ [H3 H4]].
    destruct (Nat.ltb _ _); split; assumption. }
  split; [apply polyb_intro; [now apply length_ntt_layer | apply H] | apply H].
Qed.

Lemma invntt_layer_step r : polyb MLKEM_Q r ->
  polyb MLKEM_Q (mlk_invntt_layer r l) /\
  forall i, (i < 256)%nat ->
    rd (mlk_invntt_layer r l) i =q
      if (i mod (2 * blen l) <? blen l)%nat then rd r i + rd r (i + blen l)
      else zt (2 * nblocks l - 1 - i / (2 * blen l)) * (rd r i - rd r (i - blen l)).
Proof.
  intros Hr. pose proof Hr as [Hlen _].
  assert (Hrd : forall i, Z.abs (rd r i) < MLKEM_Q) by (intros; apply polyb_rd; [reflexivity | exact Hr]).
  assert (H : forall i, (i < 256)%nat -> Z.abs (rd (mlk_invntt_layer r l) i) < MLKEM_Q /\
    rd (mlk_invntt_layer r l) i =q
      if (i mod (2 * blen l) <? blen l)%nat then rd r i + rd r (i + blen l)
      else zt (2 * nblocks l - 1 - i / (2 * blen l)) * (rd r i - rd r (i - blen l))).
  { intros i Hi. rewrite invntt_layer_rd by auto. unfold layered. cbv zeta.
    pose proof (inv_spec 0 (rd r i) (rd r (i + blen l)) (Hrd _) (Hrd _)) as [[H1 H2] _].
    pose proof (inv_spec (2 * nblocks l - 1 - i / (2 * blen l)) (rd r (i - blen l)) (rd r i) (Hrd _) (Hrd _)) as [_ [H3 H4]].
    destruct (Nat.ltb _ _); split; assumption. }
  split; [apply polyb_intro; [now apply length_invntt_layer | apply H] | apply H].
Qed.

End Layers.

#[local] Opaque mlk_ntt_layer mlk_invntt_layer.

(** ** The transform computes the residues *)

(** Component [i] lies in block [comp l i] after layer [l]. *)
Definition comp (l i : nat) : nat := (i / 2 ^ (7 - l))%nat.

Lemma Forall2_map_seq (P : Z -> Z -> Prop) u v n : forall s, (forall i, (s <= i < s + n)%nat -> P (u i) (v i)) ->
  Forall2 P (map u (seq s n)) (map v (seq s n)).
Proof.
  induction n as [|n IH]; intros s H; [constructor |]. cbn [seq map]. constructor; [apply H; lia |].
  apply IH. intros i Hi. apply H. lia.
Qed.

Lemma map_seq_shift {A} (u : nat -> A) s d n : map u (seq (s + d) n) = map (fun i => u (i + d)%nat) (seq s n).
Proof. revert s. induction n as [|n IH]; intros s; [reflexivity |]. cbn [seq map]. f_equal. apply (IH (S s)). Qed.

Lemma map_rd_seq (l : list Z) : map (rd l) (seq 0 (length l)) = l.
Proof.
  induction l as [|x l IH]; [reflexivity |]. cbn [length seq map]. f_equal.
  change 1%nat with (0 + 1)%nat. rewrite map_seq_shift. rewrite <- IH at 2. apply map_ext. intros i.
  now rewrite Nat.add_1_r.
Qed.

(** The residue of a block of [2 len] coefficients is that of its two halves combined at the root [w]. *)
Lemma mod_X2_halves g w r s m : g ^ Z.of_nat m =q w ->
  cong2 (mod_X2 g (map (rd r) (seq s (2 * (2 * m)))))
        (mod_X2 g (map (fun i => rd r i + w * rd r (i + 2 * m)) (seq s (2 * m)))).
Proof.
  intros Hw. replace (2 * (2 * m))%nat with (2 * m + 2 * m)%nat by lia. rewrite seq_app, map_app.
  rewrite (mod_X2_app g m) by (now rewrite length_map, length_seq). rewrite map_seq_shift, mod_X2_linear.
  split; cbn [fst snd]; now rewrite Hw.
Qed.

(** The two roots of each block, checked for every layer and component. *)
(** Powers of [zeta] and squares, reduced at every step. *)
Definition zeta_pow (n : nat) : Z := Nat.iter n (fun x => zeta * x mod MLKEM_Q) 1.
Definition sqr_iter (n : nat) (x : Z) : Z := Nat.iter n (fun x => x * x mod MLKEM_Q) x.

Lemma cong_reduce a : a mod MLKEM_Q =q a.
Proof. apply cong_mod, Zmod_mod. Qed.

Lemma zeta_pow_cong n : zeta_pow n =q zeta ^ Z.of_nat n.
Proof.
  induction n as [|n IH]; [reflexivity |]. unfold zeta_pow in *. cbn [Nat.iter nat_rect]. rewrite cong_reduce, IH.
  replace (Z.of_nat (S n)) with (Z.succ (Z.of_nat n)) by lia. rewrite Z.pow_succ_r by lia. reflexivity.
Qed.

Lemma sqr_iter_cong n x : sqr_iter n x =q x ^ Z.of_nat (2 ^ n).
Proof.
  induction n as [|n IH]; [change (x =q x ^ 1); now rewrite Z.pow_1_r |]. unfold sqr_iter in *. cbn [Nat.iter nat_rect]. rewrite cong_reduce, IH.
  rewrite <- Z.pow_add_r by lia. replace (Z.of_nat (2 ^ S n)) with (Z.of_nat (2 ^ n) + Z.of_nat (2 ^ n)); [reflexivity |].
  rewrite <- Nat2Z.inj_add. f_equal. cbn. lia.
Qed.

Lemma cong_pow n a b : a =q b -> a ^ Z.of_nat n =q b ^ Z.of_nat n.
Proof.
  intros H. induction n as [|n IH]; [reflexivity |].
  replace (Z.of_nat (S n)) with (Z.succ (Z.of_nat n)) by lia. rewrite !Z.pow_succ_r by lia. now apply cong_mul.
Qed.

Definition gamma_exp (i : nat) : nat := Z.to_nat (2 * BitRev7 (Z.of_nat i) + 1).

Lemma gamma_exp_ok : forallb (fun i => 0 <=? 2 * BitRev7 (Z.of_nat i) + 1) (seq 0 128) = true.
Proof. vm_compute. reflexivity. Qed.

Lemma gamma_zeta i : (i < 128)%nat -> gamma i =q zeta ^ Z.of_nat (gamma_exp i).
Proof.
  intros Hi. unfold gamma, gamma_exp. change q with MLKEM_Q. rewrite cong_reduce.
  pose proof gamma_exp_ok as H. rewrite List.forallb_forall in H. specialize (H i ltac:(apply in_seq; lia)). apply Z.leb_le in H.
  rewrite Z2Nat.id by exact H. reflexivity.
Qed.

Definition root_ok (i l : nat) (g : Z) : bool :=
  let z := zt (nblocks l + comp l i / 2) in
  let w := if Nat.even (comp l i) then z else - z in
  (sqr_iter (7 - l) g - w) mod MLKEM_Q =? 0.

Lemma roots_ok : forallb (fun i => let g := zeta_pow (gamma_exp i) in forallb (fun l => root_ok i l g) (seq 1 7)) (seq 0 128) = true.
Proof. vm_compute. reflexivity. Qed.

Lemma root_cong l i : (1 <= l <= 7)%nat -> (i < 128)%nat ->
  gamma i ^ Z.of_nat (2 ^ (7 - l)) =q
    (if Nat.even (comp l i) then zt (nblocks l + comp l i / 2) else - zt (nblocks l + comp l i / 2)).
Proof.
  intros Hl Hi. pose proof roots_ok as H. rewrite List.forallb_forall in H.
  specialize (H i ltac:(apply in_seq; lia)). cbv beta zeta in H. rewrite List.forallb_forall in H.
  specialize (H l ltac:(apply in_seq; lia)). apply cong_dec_eq in H. rewrite <- H, sqr_iter_cong.
  apply cong_pow. rewrite gamma_zeta by exact Hi. now rewrite zeta_pow_cong.
Qed.

Lemma blen_shape l : (1 <= l <= 7)%nat -> blen l = (2 * 2 ^ (7 - l))%nat /\ blen (l - 1) = (2 * blen l)%nat.
Proof.
  intros Hl. unfold blen. split.
  - replace (8 - l)%nat with (S (7 - l)) by lia. reflexivity.
  - replace (8 - (l - 1))%nat with (S (8 - l)) by lia. reflexivity.
Qed.

Lemma comp_shape l i : (1 <= l <= 7)%nat -> (i < 128)%nat ->
  comp (l - 1) i = (comp l i / 2)%nat /\ (blen l * comp l i + blen l <= 256)%nat.
Proof.
  intros Hl Hi. unfold comp. split.
  - replace (7 - (l - 1))%nat with (S (7 - l)) by lia. rewrite Nat.pow_succ_r', Nat.mul_comm, Nat.Div0.div_div. reflexivity.
  - destruct (blen_shape l Hl) as [-> _]. pose proof (Nat.Div0.div_mod i (2 ^ (7 - l))).
    assert (H7 : (2 ^ (7 - l) * 2 ^ l = 128)%nat) by (rewrite <- Nat.pow_add_r; now replace (7 - l + l)%nat with 7%nat by lia).
    assert (Hc : (i / 2 ^ (7 - l) < 2 ^ l)%nat) by (apply Nat.Div0.div_lt_upper_bound; lia). nia.
Qed.

(** Position [2 len b + j] is in block [b], in its lower half exactly when [j < len]. *)
Lemma block_pos len b j : (j < 2 * len)%nat ->
  ((2 * len * b + j) / (2 * len) = b)%nat /\ ((2 * len * b + j) mod (2 * len) = j)%nat.
Proof.
  intros Hj. split; [symmetry; apply (Nat.div_unique _ (2 * len) b j) | symmetry; apply (Nat.mod_unique _ (2 * len) b j)]; lia.
Qed.

Lemma ntt_layer_residue l r i : (1 <= l <= 7)%nat -> (i < 128)%nat -> polyb (Z.of_nat l * MLKEM_Q) r ->
  cong2 (mod_X2 (gamma i) (map (rd (mlk_ntt_layer r l)) (seq (blen l * comp l i) (blen l))))
        (mod_X2 (gamma i) (map (rd r) (seq (blen (l - 1) * comp (l - 1) i) (blen (l - 1))))).
Proof.
  intros Hl Hi Hr. destruct (ntt_layer_step l Hl r Hr) as [_ Hstep].
  destruct (comp_shape l i Hl Hi) as [Ec Hc]. destruct (blen_shape l Hl) as [El El'].
  rewrite Ec, El'. symmetry. rewrite El at 2.
  rewrite (mod_X2_halves _ _ _ _ _ (root_cong l i Hl Hi)). rewrite <- El.
  set (c := comp l i) in *. set (len := blen l) in *. set (z := zt (nblocks l + c / 2)) in *.
  pose proof (Nat.div2_odd c) as Hd. rewrite Nat.div2_div in Hd. pose proof (Nat.negb_odd c) as Ho.
  destruct (Nat.even c) eqn:Ev.
  - replace (Nat.odd c) with false in Hd by (destruct (Nat.odd c); [discriminate | reflexivity]). cbn [Nat.b2n] in Hd.
    replace (len * c)%nat with (2 * len * (c / 2))%nat by nia. apply mod_X2_cong, Forall2_map_seq. intros k Hk.
    replace k with (2 * len * (c / 2) + (k - 2 * len * (c / 2)))%nat by lia. set (j := (k - 2 * len * (c / 2))%nat).
    assert (Hj : (j < len)%nat) by (subst j; lia). symmetry. rewrite Hstep by nia. cbv zeta. fold len.
    destruct (block_pos len (c / 2) j ltac:(lia)) as [-> ->]. destruct (Nat.ltb_spec j len); [reflexivity | lia].
  - replace (Nat.odd c) with true in Hd by (destruct (Nat.odd c); [reflexivity | discriminate]). cbn [Nat.b2n] in Hd.
    replace (len * c)%nat with (2 * len * (c / 2) + len)%nat by nia. rewrite (map_seq_shift _ (2 * len * (c / 2)) len).
    apply mod_X2_cong, Forall2_map_seq. intros k Hk.
    replace k with (2 * len * (c / 2) + (k - 2 * len * (c / 2)))%nat by lia. set (j := (k - 2 * len * (c / 2))%nat).
    assert (Hj : (j < len)%nat) by (subst j; lia). symmetry. rewrite Hstep by nia. cbv zeta. fold len.
    rewrite <- Nat.add_assoc. destruct (block_pos len (c / 2) (j + len) ltac:(lia)) as [-> ->].
    destruct (Nat.ltb_spec (j + len) len); [lia |]. rewrite Nat.add_assoc, Nat.add_sub. fold z. apply cong_eq. lia.
Qed.

(** The array after the layers [1 .. l]. *)
Definition ntt_upto (f : list Z) (l : nat) : list Z := fold_left mlk_ntt_layer (seq 1 l) f.

Lemma ntt_upto_S f l : ntt_upto f (S l) = mlk_ntt_layer (ntt_upto f l) (S l).
Proof. unfold ntt_upto. now rewrite seq_S, fold_left_app. Qed.

Lemma ntt_upto_spec f l : polyb MLKEM_Q f -> (l <= 7)%nat ->
  polyb (Z.of_nat (l + 1) * MLKEM_Q) (ntt_upto f l) /\
  forall i, (i < 128)%nat ->
    cong2 (mod_X2 (gamma i) (map (rd (ntt_upto f l)) (seq (blen l * comp l i) (blen l)))) (mod_X2 (gamma i) f).
Proof.
  intros Hf. induction l as [|l IH]; intros Hl.
  - split; [exact Hf |]. intros i Hi. unfold comp, blen, ntt_upto. cbn [seq fold_left Nat.sub].
    rewrite (Nat.div_small i (2 ^ 7)) by (cbn; lia). rewrite Nat.mul_0_r.
    replace (map (rd f) (seq 0 (2 ^ 8))) with f; [reflexivity |].
    destruct Hf as [Hlen _]. change (2 ^ 8)%nat with 256%nat. rewrite <- Hlen. symmetry. apply map_rd_seq.
  - destruct (IH ltac:(lia)) as [Hb Hres]. rewrite ntt_upto_S.
    replace (l + 1)%nat with (S l) in Hb by lia.
    split.
    + destruct (ntt_layer_step (S l) ltac:(lia) _ Hb) as [H _]. exact H.
    + intros i Hi. rewrite (ntt_layer_residue (S l) _ i) by (auto; lia). rewrite <- (Hres i Hi).
      replace (S l - 1)%nat with l by lia. reflexivity.
Qed.

Lemma poly_ntt_upto f : mlk_poly_ntt f = ntt_upto f 7.
Proof. unfold mlk_poly_ntt, ntt_upto. reflexivity. Qed.

Lemma mod_X2_pair g a b : mod_X2 g [a; b] = (a, b).
Proof. cbn. f_equal; lia. Qed.

Lemma ntt_component f i : polyb MLKEM_Q f -> (i < 128)%nat ->
  cong2 (rd (mlk_poly_ntt f) (2 * i), rd (mlk_poly_ntt f) (2 * i + 1)) (mod_X2 (gamma i) f).
Proof.
  intros Hf Hi. destruct (ntt_upto_spec f 7 Hf) as [_ H]; [lia |]. specialize (H i Hi).
  unfold comp, blen in H. change (2 ^ (7 - 7))%nat with 1%nat in H. change (2 ^ (8 - 7))%nat with 2%nat in H.
  rewrite Nat.div_1_r in H. cbn [seq map] in H. rewrite mod_X2_pair in H. now rewrite poly_ntt_upto, Nat.add_1_r.
Qed.

Lemma ntt_bound f : polyb MLKEM_Q f -> polyb MLK_NTT_BOUND (mlk_poly_ntt f).
Proof. intros Hf. destruct (ntt_upto_spec f 7 Hf) as [H _]; [lia |]. now rewrite poly_ntt_upto. Qed.

#[local] Opaque mlk_poly_ntt gamma.

Lemma length_NTT f : length (NTT f) = 256%nat.
Proof.
  unfold NTT. generalize (gamma) as g. intros g. change 256%nat with (2 * length (seq 0 128))%nat.
  generalize (seq 0 128) as l. induction l as [|i l IH]; [reflexivity |]. cbn [map concat].
  rewrite length_app, IH. destruct (mod_X2 (g i) f). cbn [length]. lia.
Qed.

Lemma rd_concat_pairs (u v : nat -> Z) n i : (i < n)%nat ->
  rd (concat (map (fun i => [u i; v i]) (seq 0 n))) (2 * i) = u i /\
  rd (concat (map (fun i => [u i; v i]) (seq 0 n))) (2 * i + 1) = v i.
Proof.
  revert u v i. induction n as [|n IH]; intros u v i Hi; [lia |]. cbn [seq map concat].
  rewrite <- (seq_shift n 0), map_map. destruct i as [|i]; [split; reflexivity |].
  replace (2 * S i + 1)%nat with (S (S (2 * i + 1))) by lia. replace (2 * S i)%nat with (S (S (2 * i))) by lia.
  cbn [app]. unfold rd. cbn [nth]. apply (IH (fun i => u (S i)) (fun i => v (S i))). lia.
Qed.

Lemma NTT_rd f i : (i < 128)%nat ->
  rd (NTT f) (2 * i) = fst (mod_X2 (gamma i) f) mod q /\ rd (NTT f) (2 * i + 1) = snd (mod_X2 (gamma i) f) mod q.
Proof.
  intros Hi. unfold NTT.
  rewrite (map_ext _ (fun i => [fst (mod_X2 (gamma i) f) mod q; snd (mod_X2 (gamma i) f) mod q])).
  - apply (rd_concat_pairs (fun i => fst (mod_X2 (gamma i) f) mod q) (fun i => snd (mod_X2 (gamma i) f) mod q)). exact Hi.
  - intros j. destruct (mod_X2 (gamma j) f). reflexivity.
Qed.

#[local] Opaque NTT.

Lemma cong_mod_q x : x mod q =q x.
Proof. apply cong_mod. now apply Z.mod_mod. Qed.

Lemma ntt_cong_NTT f i : polyb MLKEM_Q f -> (i < 256)%nat -> rd (mlk_poly_ntt f) i =q rd (NTT f) i.
Proof.
  intros Hf Hi. destruct (ntt_component f (i / 2) Hf) as [H0 H1]; [apply Nat.Div0.div_lt_upper_bound; lia |].
  destruct (NTT_rd f (i / 2)) as [E0 E1]; [apply Nat.Div0.div_lt_upper_bound; lia |]. cbn [fst snd] in *.
  pose proof (Nat.div_mod_eq i 2) as Hd. pose proof (Nat.mod_upper_bound i 2 ltac:(lia)).
  assert (Ei : (i = 2 * (i / 2) \/ i = 2 * (i / 2) + 1)%nat) by lia.
  destruct Ei as [Ei | Ei]; rewrite Ei; [rewrite E0, H0 | rewrite E1, H1]; symmetry; apply cong_mod_q.
Qed.

(** ** Inverse transform *)

Lemma zeta_inv_ok : forallb (fun l => forallb (fun b =>
  (zt (2 * nblocks l - 1 - b) * zt (nblocks l + b) + 1) mod MLKEM_Q =? 0) (seq 0 (nblocks l))) (seq 1 7) = true.
Proof. vm_compute. reflexivity. Qed.

Lemma zeta_inv l b : (1 <= l <= 7)%nat -> (b < nblocks l)%nat -> zt (2 * nblocks l - 1 - b) * zt (nblocks l + b) =q -1.
Proof.
  intros Hl Hb. pose proof zeta_inv_ok as H. rewrite List.forallb_forall in H.
  specialize (H l ltac:(apply in_seq; lia)). cbv beta in H. rewrite List.forallb_forall in H.
  specialize (H b ltac:(apply in_seq; lia)). apply cong_dec_eq. rewrite <- H. now do 2 f_equal.
Qed.

(** An inverse layer undoes the layer, up to a factor 2. *)
Lemma invntt_layer_undo l r s k : (1 <= l <= 7)%nat -> polyb (Z.of_nat l * MLKEM_Q) r -> polyb MLKEM_Q s ->
  (forall i, (i < 256)%nat -> rd s i =q k * rd (mlk_ntt_layer r l) i) ->
  forall i, (i < 256)%nat -> rd (mlk_invntt_layer s l) i =q 2 * k * rd r i.
Proof.
  intros Hl Hr Hs H i Hi. destruct (ntt_layer_step l Hl r Hr) as [_ Hf]. destruct (invntt_layer_step l Hl s Hs) as [_ Hinv].
  destruct (layer_shape l Hl) as (H256 & H0 & _). rewrite Hinv by exact Hi. set (len := blen l) in *.
  pose proof (Nat.div_mod_eq i (2 * len)) as Hdm. pose proof (Nat.mod_upper_bound i (2 * len) ltac:(lia)) as Hmb.
  set (b := (i / (2 * len))%nat) in *. set (j := (i mod (2 * len))%nat) in *.
  assert (Hb : (b < nblocks l)%nat) by nia.
  destruct (Nat.ltb_spec j len) as [Hj | Hj].
  - rewrite (H i), (H (i + len)%nat), (Hf i), (Hf (i + len)%nat) by nia. cbv zeta.
    destruct (block_pos len b j ltac:(lia)) as [E1 E2]. destruct (block_pos len b (j + len) ltac:(lia)) as [E3 E4].
    replace (i + len)%nat with (2 * len * b + (j + len))%nat by lia. replace i with (2 * len * b + j)%nat by lia.
    rewrite E1, E2, E3, E4. destruct (Nat.ltb_spec j len), (Nat.ltb_spec (j + len) len); try lia.
    replace (2 * len * b + (j + len) - len)%nat with (2 * len * b + j)%nat by lia.
    replace (2 * len * b + j + len)%nat with (2 * len * b + (j + len))%nat by lia. apply cong_eq. lia.
  - rewrite (H i), (H (i - len)%nat), (Hf i), (Hf (i - len)%nat) by nia. cbv zeta.
    destruct (block_pos len b j ltac:(lia)) as [E1 E2]. destruct (block_pos len b (j - len) ltac:(lia)) as [E3 E4].
    replace (i - len)%nat with (2 * len * b + (j - len))%nat by lia. replace i with (2 * len * b + j)%nat by lia.
    rewrite E1, E2, E3, E4. destruct (Nat.ltb_spec j len), (Nat.ltb_spec (j - len) len); try lia.
    replace (2 * len * b + (j - len) + len)%nat with (2 * len * b + j)%nat by lia.
    set (x := rd r (2 * len * b + (j - len))). set (y := rd r (2 * len * b + j)).
    transitivity (-2 * k * y * (zt (2 * nblocks l - 1 - b) * zt (nblocks l + b))); [apply cong_eq; lia |].
    rewrite zeta_inv by auto. apply cong_eq. lia.
Qed.

Lemma fqmul_const b c : - 2 ^ 15 <= b < 2 ^ 15 -> Z.abs c < MLKEM_Q_HALF ->
  mlk_fqmul b c =q b * c * 169 /\ Z.abs (mlk_fqmul b c) < MLKEM_Q.
Proof.
  intros Hb Hc. destruct (fqmul_spec b c Hb Hc) as [H1 H2]. split; [| exact H2].
  now rewrite <- (cong_R_inv (mlk_fqmul b c)), H1.
Qed.

(** Coefficients of type [int16_t]. *)
Definition int16s (r : list Z) : Prop := length r = 256%nat /\ Forall (fun c => - 2 ^ 15 <= c < 2 ^ 15) r.

Lemma int16s_rd r i : int16s r -> - 2 ^ 15 <= rd r i < 2 ^ 15.
Proof. intros [_ H]. apply (rd_Forall (fun c => - 2 ^ 15 <= c < 2 ^ 15)); [lia | exact H]. Qed.

Lemma polyb_int16s B r : B <= 2 ^ 15 -> polyb B r -> int16s r.
Proof. intros HB [Hl H]. split; [exact Hl |]. eapply Forall_impl; [| exact H]. cbn beta. lia. Qed.

Lemma scale_spec c r : Z.abs c < MLKEM_Q_HALF -> int16s r ->
  polyb MLKEM_Q (map (fun x => mlk_fqmul x c) r) /\
  forall i, (i < 256)%nat -> rd (map (fun x => mlk_fqmul x c) r) i =q rd r i * c * 169.
Proof.
  intros Hc Hr. pose proof Hr as [Hl _].
  assert (H : forall i, (i < 256)%nat -> rd (map (fun x => mlk_fqmul x c) r) i = mlk_fqmul (rd r i) c)
    by (intros; apply rd_map; lia).
  split; [apply polyb_intro; [now rewrite length_map |] |]; intros i Hi; rewrite H by exact Hi;
    apply fqmul_const; auto using int16s_rd.
Qed.

(** A chain of steps, each of which undoes one step of [U] up to a factor 2. *)
Section Undo.
Context (inv : list Z -> nat -> list Z) (U : nat -> list Z).
Context (Hbound : forall l s, (1 <= l <= 7)%nat -> polyb MLKEM_Q s -> polyb MLKEM_Q (inv s l)).
Context (Hundo : forall l s k, (1 <= l <= 7)%nat -> polyb MLKEM_Q s ->
  (forall i, (i < 256)%nat -> rd s i =q k * rd (U l) i) -> forall i, (i < 256)%nat -> rd (inv s l) i =q 2 * k * rd (U (l - 1)) i).

Lemma chain_bound l s : Forall (fun k => (1 <= k <= 7)%nat) l -> polyb MLKEM_Q s -> polyb MLKEM_Q (fold_left inv l s).
Proof.
  revert s. induction l as [|k l IH]; intros s Hl Hs; [exact Hs |]. apply Forall_cons_1 in Hl as [Hk Hl]. cbn [fold_left].
  apply IH; [exact Hl |]. now apply Hbound.
Qed.

Lemma chain_undo : forall l s k, (l <= 7)%nat -> polyb MLKEM_Q s ->
  (forall i, (i < 256)%nat -> rd s i =q k * rd (U l) i) ->
  forall i, (i < 256)%nat -> rd (fold_left inv (rev (seq 1 l)) s) i =q 2 ^ Z.of_nat l * k * rd (U 0) i.
Proof.
  induction l as [|l IH]; intros s k Hl Hs H i Hi.
  - cbn [seq rev fold_left]. rewrite H by exact Hi. apply cong_eq. lia.
  - rewrite seq_S, rev_app_distr. cbn [rev app fold_left Nat.add].
    rewrite (IH (inv s (S l)) (2 * k)); [| lia | apply Hbound; [lia | exact Hs] | | exact Hi].
    + apply cong_eq. rewrite Nat2Z.inj_succ, Z.pow_succ_r by lia. lia.
    + intros j Hj. rewrite (Hundo (S l) s k) by (auto; lia). replace (S l - 1)%nat with l by lia. reflexivity.
Qed.

End Undo.

Lemma invntt_layer_bound l s : (1 <= l <= 7)%nat -> polyb MLKEM_Q s -> polyb MLKEM_Q (mlk_invntt_layer s l).
Proof. intros Hl Hs. exact (proj1 (invntt_layer_step l Hl s Hs)). Qed.

Lemma invntt_layer_undo_upto f : polyb MLKEM_Q f -> forall l s k, (1 <= l <= 7)%nat -> polyb MLKEM_Q s ->
  (forall i, (i < 256)%nat -> rd s i =q k * rd (ntt_upto f l) i) ->
  forall i, (i < 256)%nat -> rd (mlk_invntt_layer s l) i =q 2 * k * rd (ntt_upto f (l - 1)) i.
Proof.
  intros Hf l s k Hl Hs H. destruct l as [|l]; [lia |]. replace (S l - 1)%nat with l by lia.
  destruct (ntt_upto_spec f l Hf) as [Hb _]; [lia |]. replace (l + 1)%nat with (S l) in Hb by lia.
  apply (invntt_layer_undo (S l)); [exact Hl | exact Hb | exact Hs |]. intros i Hi. rewrite (H i Hi), ntt_upto_S. reflexivity.
Qed.

Lemma invntt_tomont_layers u :
  mlk_poly_invntt_tomont u = fold_left mlk_invntt_layer (rev (seq 1 7)) (map (fun c => mlk_fqmul c 1441) u).
Proof. reflexivity. Qed.

(** The range of the inverse transform, for every input. *)
Lemma invntt_bound u : int16s u -> polyb MLKEM_Q (mlk_poly_invntt_tomont u).
Proof.
  intros Hu. rewrite invntt_tomont_layers. apply chain_bound; [exact invntt_layer_bound | |].
  - apply List.Forall_forall. intros k Hk. apply in_rev, in_seq in Hk. lia.
  - now apply scale_spec.
Qed.

Lemma invntt_scaled f u k : polyb MLKEM_Q f -> int16s u ->
  (forall i, (i < 256)%nat -> rd u i =q k * rd (mlk_poly_ntt f) i) ->
  forall i, (i < 256)%nat -> rd (mlk_poly_invntt_tomont u) i =q 2 ^ 16 * k * rd f i.
Proof.
  intros Hf Hu H i Hi. rewrite invntt_tomont_layers.
  destruct (scale_spec 1441 u) as [Hb Hc]; [reflexivity | exact Hu |].
  rewrite (chain_undo mlk_invntt_layer (ntt_upto f) invntt_layer_bound (invntt_layer_undo_upto f Hf) 7 _ (k * 1441 * 169)
             ltac:(lia) Hb); [| | exact Hi].
  - change (2 ^ Z.of_nat 7) with 128. change (ntt_upto f 0) with f.
    transitivity ((128 * 1441 * 169) * k * rd f i); [apply cong_eq; lia |].
    apply cong_mul; [apply cong_mul |]; try reflexivity. now apply cong_dec_eq.
  - intros j Hj. rewrite Hc, H, poly_ntt_upto by exact Hj. apply cong_eq. lia.
Qed.

(** ** Multiplication in R_q *)

Lemma zeta_128 : zeta ^ 128 =q -1.
Proof. now apply cong_dec_eq. Qed.

(** [gamma i] is an odd power of [zeta]. *)
Lemma gamma_128 i : (i < 128)%nat -> gamma i ^ 128 =q -1.
Proof.
  intros Hi. rewrite (cong_pow 128 _ _ (gamma_zeta i Hi)). rewrite <- Z.pow_mul_r, Z.mul_comm, Z.pow_mul_r by lia.
  rewrite (cong_pow (gamma_exp i) _ _ zeta_128).
  assert (H : Nat.odd (gamma_exp i) = true).
  { pose proof gamma_exp_ok as H. rewrite List.forallb_forall in H. specialize (H i ltac:(apply in_seq; lia)). apply Z.leb_le in H.
    unfold gamma_exp. apply Nat.odd_spec. exists (Z.to_nat (BitRev7 (Z.of_nat i))). lia. }
  apply Nat.odd_spec in H as [k ->]. replace (Z.of_nat (2 * k + 1)) with (2 * Z.of_nat k + 1) by lia.
  rewrite Z.pow_add_r, Z.pow_mul_r by lia. change ((-1) ^ 2) with 1. rewrite Z.pow_1_l by lia. reflexivity.
Qed.

Lemma length_rq_mul f g : length g = 256%nat -> length (rq_mul f g) = 256%nat.
Proof.
  intros Hg. induction f as [|a f IH]; [reflexivity |]. cbn [rq_mul]. unfold mul_X.
  rewrite length_zip_with, length_map. cbn [length]. rewrite length_take. lia.
Qed.

Lemma mod_X2_mul_X g h : length h = 256%nat -> g ^ 128 =q -1 ->
  cong2 (mod_X2 g (mul_X h)) (g * snd (mod_X2 g h), fst (mod_X2 g h)).
Proof.
  intros Hl Hg. unfold mul_X. cbn [mod_X2].
  assert (E : h = take 255 h ++ [rd h 255]).
  { rewrite <- (take_drop 255 h) at 1. f_equal. rewrite (drop_S h (rd h 255) 255) by (apply rd_in_range; lia).
    now rewrite drop_ge by lia. }
  assert (Em : mod_X2 g h = mod_X2 g (take 255 h ++ [rd h 255])) by (now rewrite <- E). rewrite Em. clear E Em.
  destruct h as [|a h]; [discriminate |]. change (take 255 (a :: h)) with (a :: take 254 h). cbn [app mod_X2].
  rewrite (mod_X2_app g 127) by (rewrite length_take; cbn in Hl; lia).
  destruct (mod_X2 g (take 254 h)) as [p0 p1]. cbn [fst snd mod_X2].
  set (x := rd (a :: h) 255). split; cbn [fst snd].
  - transitivity (g * p0 + g ^ 128 * x); [rewrite Hg; apply cong_eq; lia |].
    change 128 with (Z.succ 127). rewrite Z.pow_succ_r by lia. apply cong_eq. change (Z.of_nat 127) with 127. lia.
  - apply cong_eq. lia.
Qed.

Lemma mod_X2_zip_add g u v : length u = length v ->
  cong2 (mod_X2 g (zip_with (fun x y => (x + y) mod q) u v))
        (fst (mod_X2 g u) + fst (mod_X2 g v), snd (mod_X2 g u) + snd (mod_X2 g v)).
Proof.
  revert v. induction u as [|x u IH]; intros [|y v] Hl; try discriminate; [reflexivity |]. cbn [zip_with mod_X2].
  specialize (IH v ltac:(cbn in Hl; lia)). destruct (mod_X2 g (zip_with _ u v)) as [p0 p1], (mod_X2 g u), (mod_X2 g v).
  destruct IH as [H0 H1]. cbn [fst snd] in *. split; cbn [fst snd]; [| exact H0].
  rewrite H1, cong_mod_q. apply cong_eq. lia.
Qed.

Lemma mod_X2_scale g a u : mod_X2 g (map (Z.mul a) u) = (a * fst (mod_X2 g u), a * snd (mod_X2 g u)).
Proof.
  induction u as [|x u IH]; [cbn; f_equal; lia |]. cbn [map mod_X2]. rewrite IH.
  destruct (mod_X2 g u). cbn [fst snd]. f_equal; lia.
Qed.

Lemma mod_X2_zeros g n : mod_X2 g (repeat 0 n) = (0, 0).
Proof. induction n as [|n IH]; [reflexivity |]. cbn [repeat mod_X2]. now rewrite IH, Z.mul_0_r. Qed.

(** Multiplication of residues: FIPS 203, Algorithm 12. *)
Definition mul2 (g : Z) (a b : Z * Z) : Z * Z :=
  (fst a * fst b + g * (snd a * snd b), fst a * snd b + snd a * fst b).

(** Reduction modulo X^2 - gamma is a ring homomorphism on R_q. *)
Lemma mod_X2_rq_mul g f h : g ^ 128 =q -1 -> length h = 256%nat ->
  cong2 (mod_X2 g (rq_mul f h)) (mul2 g (mod_X2 g f) (mod_X2 g h)).
Proof.
  intros Hg Hh. induction f as [|a f IH].
  - cbn [rq_mul mod_X2]. unfold mul2. rewrite mod_X2_zeros. split; apply cong_eq; cbn [fst snd]; lia.
  - cbn [rq_mul mod_X2]. assert (Hl : length (rq_mul f h) = 256%nat) by now apply length_rq_mul.
    rewrite mod_X2_zip_add by (rewrite length_map; unfold mul_X; cbn [length]; rewrite length_take; lia).
    rewrite mod_X2_scale. destruct (mod_X2_mul_X g (rq_mul f h) Hl Hg) as [M0 M1]. destruct IH as [H0 H1].
    destruct (mod_X2 g f) as [f0 f1], (mod_X2 g h) as [h0 h1]. unfold mul2 in *. cbn [fst snd] in *.
    split; cbn [fst snd].
    + rewrite M0, H1. apply cong_eq. lia.
    + rewrite M1, H0. apply cong_eq. lia.
Qed.

(** ** Claim *)

(** Canonical representatives. *)
Definition canon (r : list Z) : list Z := map (fun c => c mod q) r.

Lemma rd_canon r i : (i < length r)%nat -> rd (canon r) i = rd r i mod q.
Proof. intros Hi. unfold canon. now rewrite rd_map. Qed.

Lemma cong_mod_eq a b : a =q b -> a mod q = b mod q.
Proof. intros H. now apply cong_mod. Qed.

Lemma canon_ext u v : length u = length v -> (forall i, (i < length u)%nat -> rd u i =q rd v i) -> canon u = canon v.
Proof.
  intros Hl H. apply rd_ext; [unfold canon; now rewrite !length_map |]. unfold canon at 1. rewrite length_map. intros i Hi.
  rewrite !rd_canon by lia. apply cong_mod_eq. now apply H.
Qed.

Lemma canon_NTT f : canon (NTT f) = NTT f.
Proof.
  apply rd_ext; [unfold canon; now rewrite length_map |]. unfold canon at 1. rewrite length_map, length_NTT. intros i Hi.
  rewrite rd_canon by (now rewrite length_NTT).
  destruct (NTT_rd f (i / 2)) as [E0 E1]; [apply Nat.Div0.div_lt_upper_bound; lia |].
  pose proof (Nat.div_mod_eq i 2). pose proof (Nat.mod_upper_bound i 2 ltac:(lia)).
  assert (Ei : (i = 2 * (i / 2) \/ i = 2 * (i / 2) + 1)%nat) by lia.
  destruct Ei as [Ei | Ei]; rewrite Ei; [rewrite E0 | rewrite E1]; now apply Z.mod_mod.
Qed.

Lemma ntt_canon f : polyb MLKEM_Q f -> canon (mlk_poly_ntt f) = NTT f.
Proof.
  intros Hf. pose proof (ntt_bound f Hf) as [Hl _]. rewrite <- canon_NTT. apply canon_ext; [now rewrite length_NTT |].
  rewrite Hl. intros i Hi. now apply ntt_cong_NTT.
Qed.

(** C13. The number-theoretic transform is that of FIPS 203: for coefficients below q in absolute value,
    [mlk_poly_ntt] returns, modulo q, the 128 residues of the polynomial modulo X^2 - zeta^(2 BitRev7(i) + 1) in order, with
    coefficients below 8 q (so that no [int16_t] sum overflows), and [mlk_poly_invntt_tomont] inverts it up to the Montgomery factor
    2^16, with coefficients below q. *)
Theorem mlk_ntt_fips203 (f : mlk_poly) (Hf : polyb MLKEM_Q f) :
  canon (mlk_poly_ntt f) = NTT f /\ polyb MLK_NTT_BOUND (mlk_poly_ntt f) /\
  canon (mlk_poly_invntt_tomont (mlk_poly_ntt f)) = canon (map (Z.mul (2 ^ 16)) f) /\
  polyb MLKEM_Q (mlk_poly_invntt_tomont (mlk_poly_ntt f)).
Proof.
  assert (Hi : int16s (mlk_poly_ntt f)) by (apply (polyb_int16s MLK_NTT_BOUND); [discriminate | now apply ntt_bound]).
  pose proof (invntt_bound _ Hi) as Hb.
  split; [now apply ntt_canon |]. split; [now apply ntt_bound |]. split; [| exact Hb].
  destruct Hb as [Hl _]. pose proof Hf as [Hlf _]. apply canon_ext; [now rewrite length_map, Hl |]. rewrite Hl. intros i Hi256.
  rewrite (invntt_scaled f (mlk_poly_ntt f) 1 Hf Hi) by (try exact Hi256; intros; apply cong_eq; lia).
  rewrite rd_map by lia. apply cong_eq. lia.
Qed.

Lemma mlk_ntt_fips203_witness :
  let f := map (fun i => Z.of_nat i - 128) (seq 0 256) in
  polyb MLKEM_Q f /\ canon (mlk_poly_ntt f) = NTT f /\ take 2 (NTT f) = [2445; 2861].
Proof.
  intros f. assert (Hf : polyb MLKEM_Q f).
  { split; [reflexivity |]. apply List.Forall_forall. intros x Hx. apply in_map_iff in Hx as (i & <- & Hi). apply in_seq in Hi.
    unfold MLKEM_Q. lia. }
  split; [exact Hf |]. split; [exact (proj1 (mlk_ntt_fips203 f Hf)) | vm_compute; reflexivity].
Defined.
