(* ===== verification/MlkemCompress.v ===== *)
(** * ML-KEM compression and serialization

    Model of [mlkem-native/mlkem/src/compress.c] and of the scalar functions of [compress.h]. *)

From stdpp Require Import base list numbers.
From Stdlib Require Import ZArith Lia.
From S2P Require Import Prelude Fips202 Shake Fips203 MlkemPoly MlkemNtt.

#[local] Open Scope Z_scope.

(** ** Scalars *)

Definition mlk_scalar_compress_d1 (u : Z) : Z :=
  let d0 := u32 (u32 u * 1290168) in
  u8 (Z.shiftr (u32 (d0 + Z.shiftl 1 30)) 31).

Definition mlk_scalar_compress_d4 (u : Z) : Z :=
  let d0 := u32 (u32 u * 1290160) in
  u8 (Z.shiftr (u32 (d0 + Z.shiftl 1 27)) 28).

Definition mlk_scalar_decompress_d4 (u : Z) : Z := i16 (Z.shiftr (u32 (u32 (u * MLKEM_Q) + 8)) 4).

Definition mlk_scalar_compress_d5 (u : Z) : Z :=
  let d0 := u32 (u32 u * 1290176) in
  u8 (Z.shiftr (u32 (d0 + Z.shiftl 1 26)) 27).

Definition mlk_scalar_decompress_d5 (u : Z) : Z := i16 (Z.shiftr (u32 (u32 (u * MLKEM_Q) + 16)) 5).

Definition mlk_scalar_compress_d10 (u : Z) : Z :=
  let d0 := u64 (u64 u * 2642263040) in
  let d0 := Z.shiftr (u64 (d0 + Z.shiftl 1 32)) 33 in
  u16 (Z.land d0 0x3FF).

Definition mlk_scalar_decompress_d10 (u : Z) : Z := i16 (Z.shiftr (u32 (u32 (u * MLKEM_Q) + 512)) 10).

Definition mlk_scalar_compress_d11 (u : Z) : Z :=
  let d0 := u64 (u64 u * 5284526080) in
  let d0 := Z.shiftr (u64 (d0 + Z.shiftl 1 32)) 33 in
  u16 (Z.land d0 0x7FF).

Definition mlk_scalar_decompress_d11 (u : Z) : Z := i16 (Z.shiftr (u32 (u32 (u * MLKEM_Q) + 1024)) 11).

(** ** Packing one group *)

(** The bytes written by one pass of the loop of each [mlk_poly_compress_*] function, from the compressed
    coefficients [t]; and the values read back by one pass of each [mlk_poly_decompress_*] function, at [base]. *)
Definition pack_d4 (t : list Z) : bytes :=
  [ u8 (Z.lor (rd t 0) (Z.shiftl (rd t 1) 4)); u8 (Z.lor (rd t 2) (Z.shiftl (rd t 3) 4));
    u8 (Z.lor (rd t 4) (Z.shiftl (rd t 5) 4)); u8 (Z.lor (rd t 6) (Z.shiftl (rd t 7) 4)) ].

Definition pack_d10 (t : list Z) : bytes :=
  [ u8 (Z.land (Z.shiftr (rd t 0) 0) 0xFF);
    u8 (Z.lor (Z.shiftr (rd t 0) 8) (Z.land (Z.shiftl (rd t 1) 2) 0xFF));
    u8 (Z.lor (Z.shiftr (rd t 1) 6) (Z.land (Z.shiftl (rd t 2) 4) 0xFF));
    u8 (Z.lor (Z.shiftr (rd t 2) 4) (Z.land (Z.shiftl (rd t 3) 6) 0xFF));
    u8 (Z.shiftr (rd t 3) 2) ].

Definition unpack_d4 (base : bytes) : list Z :=
  [ Z.land (Z.shiftr (rd base 0) 0) 0xF; Z.land (Z.shiftr (rd base 0) 4) 0xF ].

Definition unpack_d10 (base : bytes) : list Z :=
  [ Z.land 0x3FF (Z.lor (Z.shiftr (rd base 0) 0) (Z.shiftl (rd base 1) 8));
    Z.land 0x3FF (Z.lor (Z.shiftr (rd base 1) 2) (Z.shiftl (rd base 2) 6));
    Z.land 0x3FF (Z.lor (Z.shiftr (rd base 2) 4) (Z.shiftl (rd base 3) 4));
    Z.land 0x3FF (Z.lor (Z.shiftr (rd base 3) 6) (Z.shiftl (rd base 4) 2)) ].

Definition pack_d5 (t : list Z) : bytes :=
  [ u8 (Z.land 0xFF (Z.lor (Z.shiftr (rd t 0) 0) (Z.shiftl (rd t 1) 5)));
    u8 (Z.land 0xFF (Z.lor (Z.lor (Z.shiftr (rd t 1) 3) (Z.shiftl (rd t 2) 2)) (Z.shiftl (rd t 3) 7)));
    u8 (Z.land 0xFF (Z.lor (Z.shiftr (rd t 3) 1) (Z.shiftl (rd t 4) 4)));
    u8 (Z.land 0xFF (Z.lor (Z.lor (Z.shiftr (rd t 4) 4) (Z.shiftl (rd t 5) 1)) (Z.shiftl (rd t 6) 6)));
    u8 (Z.land 0xFF (Z.lor (Z.shiftr (rd t 6) 2) (Z.shiftl (rd t 7) 3))) ].

Definition pack_d11 (t : list Z) : bytes :=
  [ u8 (Z.land (Z.shiftr (rd t 0) 0) 0xFF);
    u8 (Z.lor (Z.shiftr (rd t 0) 8) (Z.land (Z.shiftl (rd t 1) 3) 0xFF));
    u8 (Z.lor (Z.shiftr (rd t 1) 5) (Z.land (Z.shiftl (rd t 2) 6) 0xFF));
    u8 (Z.land (Z.shiftr (rd t 2) 2) 0xFF);
    u8 (Z.lor (Z.shiftr (rd t 2) 10) (Z.land (Z.shiftl (rd t 3) 1) 0xFF));
    u8 (Z.lor (Z.shiftr (rd t 3) 7) (Z.land (Z.shiftl (rd t 4) 4) 0xFF));
    u8 (Z.lor (Z.shiftr (rd t 4) 4) (Z.land (Z.shiftl (rd t 5) 7) 0xFF));
    u8 (Z.land (Z.shiftr (rd t 5) 1) 0xFF);
    u8 (Z.lor (Z.shiftr (rd t 5) 9) (Z.land (Z.shiftl (rd t 6) 2) 0xFF));
    u8 (Z.lor (Z.shiftr (rd t 6) 6) (Z.land (Z.shiftl (rd t 7) 5) 0xFF));
    u8 (Z.shiftr (rd t 7) 3) ].

Definition unpack_d5 (base : bytes) : list Z :=
  [ Z.land 0x1F (Z.shiftr (rd base 0) 0);
    Z.land 0x1F (Z.lor (Z.shiftr (rd base 0) 5) (Z.shiftl (rd base 1) 3));
    Z.land 0x1F (Z.shiftr (rd base 1) 2);
    Z.land 0x1F (Z.lor (Z.shiftr (rd base 1) 7) (Z.shiftl (rd base 2) 1));
    Z.land 0x1F (Z.lor (Z.shiftr (rd base 2) 4) (Z.shiftl (rd base 3) 4));
    Z.land 0x1F (Z.shiftr (rd base 3) 1);
    Z.land 0x1F (Z.lor (Z.shiftr (rd base 3) 6) (Z.shiftl (rd base 4) 2));
    Z.land 0x1F (Z.shiftr (rd base 4) 3) ].

Definition unpack_d11 (base : bytes) : list Z :=
  [ Z.land 0x7FF (Z.lor (Z.shiftr (rd base 0) 0) (Z.shiftl (rd base 1) 8));
    Z.land 0x7FF (Z.lor (Z.shiftr (rd base 1) 3) (Z.shiftl (rd base 2) 5));
    Z.land 0x7FF (Z.lor (Z.lor (Z.shiftr (rd base 2) 6) (Z.shiftl (rd base 3) 2)) (Z.shiftl (rd base 4) 10));
    Z.land 0x7FF (Z.lor (Z.shiftr (rd base 4) 1) (Z.shiftl (rd base 5) 7));
    Z.land 0x7FF (Z.lor (Z.shiftr (rd base 5) 4) (Z.shiftl (rd base 6) 4));
    Z.land 0x7FF (Z.lor (Z.lor (Z.shiftr (rd base 6) 7) (Z.shiftl (rd base 7) 1)) (Z.shiftl (rd base 8) 9));
    Z.land 0x7FF (Z.lor (Z.shiftr (rd base 8) 2) (Z.shiftl (rd base 9) 6));
    Z.land 0x7FF (Z.lor (Z.shiftr (rd base 9) 5) (Z.shiftl (rd base 10) 3)) ].

Definition pack_12 (t : list Z) : bytes :=
  let t0 := u16 (rd t 0) in
  let t1 := u16 (rd t 1) in
  [ u8 (Z.land t0 0xFF); u8 (Z.lor (Z.shiftr t0 8) (Z.land (Z.shiftl t1 4) 0xF0)); u8 (Z.shiftr t1 4) ].

Definition unpack_12 (base : bytes) : list Z :=
  let t0 := rd base 0 in
  let t1 := rd base 1 in
  let t2 := rd base 2 in
  [ i16 (Z.lor t0 (Z.land (Z.shiftl t1 8) 0xFFF)); i16 (Z.lor (Z.shiftr t1 4) (Z.shiftl t2 4)) ].

(** [msg[i] |= (uint8_t)(t << j)] for the eight bits, from zero; and the eight coefficients of one message byte. *)
Definition pack_msg (t : list Z) : bytes :=
  [ fold_left (fun acc j => Z.lor acc (u8 (Z.shiftl (rd t j) (Z.of_nat j)))) (seq 0 8) 0 ].

Definition unpack_msg (base : bytes) : list Z :=
  map (fun j => mlk_ct_sel_int16 MLKEM_Q_HALF 0 (Z.land (rd base 0) (u8 (Z.shiftl 1 (Z.of_nat j))))) (seq 0 8).

(** ** Polynomials *)

(** [n] coefficients and [w] bytes per pass, [m] passes. *)
Definition write_groups (n m : nat) (h : Z -> Z) (pack : list Z -> bytes) (a : mlk_poly) : bytes :=
  concat (map (fun i => pack (map (fun j => h (rd a (n * i + j))) (seq 0 n))) (seq 0 m)).
Definition read_groups (w m : nat) (h : Z -> Z) (unpack : bytes -> list Z) (a : bytes) : mlk_poly :=
  concat (map (fun i => map h (unpack (drop (w * i) a))) (seq 0 m)).

Definition mlk_poly_compress_d4 (a : mlk_poly) : bytes := write_groups 8 (MLKEM_N / 8) mlk_scalar_compress_d4 pack_d4 a.
Definition mlk_poly_compress_d10 (a : mlk_poly) : bytes := write_groups 4 (MLKEM_N / 4) mlk_scalar_compress_d10 pack_d10 a.
Definition mlk_poly_decompress_d4 (a : bytes) : mlk_poly := read_groups 1 (MLKEM_N / 2) mlk_scalar_decompress_d4 unpack_d4 a.
Definition mlk_poly_decompress_d10 (a : bytes) : mlk_poly := read_groups 5 (MLKEM_N / 4) mlk_scalar_decompress_d10 unpack_d10 a.
Definition mlk_poly_compress_d5 (a : mlk_poly) : bytes := write_groups 8 (MLKEM_N / 8) mlk_scalar_compress_d5 pack_d5 a.
Definition mlk_poly_compress_d11 (a : mlk_poly) : bytes := write_groups 8 (MLKEM_N / 8) mlk_scalar_compress_d11 pack_d11 a.
Definition mlk_poly_decompress_d5 (a : bytes) : mlk_poly := read_groups 5 (MLKEM_N / 8) mlk_scalar_decompress_d5 unpack_d5 a.
Definition mlk_poly_decompress_d11 (a : bytes) : mlk_poly := read_groups 11 (MLKEM_N / 8) mlk_scalar_decompress_d11 unpack_d11 a.
Definition mlk_poly_tobytes (a : mlk_poly) : bytes := write_groups 2 (MLKEM_N / 2) (fun x => x) pack_12 a.
Definition mlk_poly_frombytes (a : bytes) : mlk_poly := read_groups 3 (MLKEM_N / 2) (fun x => x) unpack_12 a.
Definition mlk_poly_frommsg (msg : bytes) : mlk_poly := read_groups 1 (MLKEM_N / 8) (fun x => x) unpack_msg msg.
Definition mlk_poly_tomsg (a : mlk_poly) : bytes := write_groups 8 (MLKEM_N / 8) mlk_scalar_compress_d1 pack_msg a.

(** ** Scalars against the reference *)

Lemma check_below (P : Z -> bool) n x : forallb P (map Z.of_nat (seq 0 n)) = true -> 0 <= x < Z.of_nat n -> P x = true.
Proof.
  intros H Hx. rewrite List.forallb_forall in H. apply H. apply in_map_iff. exists (Z.to_nat x). split; [lia |].
  apply in_seq. lia.
Qed.

Lemma scalar_compress_exact u : 0 <= u < q ->
  mlk_scalar_compress_d1 u = Compress 1 u /\ mlk_scalar_compress_d4 u = Compress 4 u /\ mlk_scalar_compress_d5 u = Compress 5 u /\
  mlk_scalar_compress_d10 u = Compress 10 u /\ mlk_scalar_compress_d11 u = Compress 11 u.
Proof.
  intros Hu. pose (P u := (mlk_scalar_compress_d1 u =? Compress 1 u) && (mlk_scalar_compress_d4 u =? Compress 4 u) &&
    (mlk_scalar_compress_d5 u =? Compress 5 u) && (mlk_scalar_compress_d10 u =? Compress 10 u) &&
    (mlk_scalar_compress_d11 u =? Compress 11 u)).
  assert (H : P u = true) by (apply (check_below P 3329); [vm_compute; reflexivity | exact Hu]). unfold P in H.
  rewrite !andb_true_iff, !Z.eqb_eq in H. tauto.
Qed.

Lemma decompress_exact d mul_c u : 0 < d <= 11 -> mul_c = 2 ^ (d - 1) -> 0 <= u < 2 ^ d ->
  i16 (Z.shiftr (u32 (u32 (u * MLKEM_Q) + mul_c)) d) = Decompress d u.
Proof.
  intros Hd -> Hu. assert (H11 : 2 ^ d <= 2 ^ 11) by (apply Z.pow_le_mono_r; lia).
  assert (Hh : 2 ^ d = 2 * 2 ^ (d - 1)) by (rewrite <- Z.pow_succ_r by lia; f_equal; lia).
  assert (Hp : 0 < 2 ^ (d - 1)) by (apply Z.pow_pos_nonneg; lia).
  rewrite !u32_mod, !Z.mod_small by (rewrite ?Z.mod_small by (unfold MLKEM_Q; nia); unfold MLKEM_Q; nia).
  rewrite Z.shiftr_div_pow2 by lia. unfold Decompress, round_div.
  replace (2 * (q * u) + 2 ^ d) with ((u * MLKEM_Q + 2 ^ (d - 1)) * 2) by (unfold MLKEM_Q, q; lia).
  rewrite (Z.mul_comm 2 (2 ^ d)), Z.div_mul_cancel_r by lia. apply i16_id.
  split; [apply (Z.le_trans _ 0); [lia | apply Z.div_pos; unfold MLKEM_Q; nia] |].
  apply Z.div_lt_upper_bound; [lia |]. unfold MLKEM_Q. nia.
Qed.

Lemma scalar_decompress_exact u :
  (0 <= u < 16 -> mlk_scalar_decompress_d4 u = Decompress 4 u) /\ (0 <= u < 32 -> mlk_scalar_decompress_d5 u = Decompress 5 u) /\
  (0 <= u < 1024 -> mlk_scalar_decompress_d10 u = Decompress 10 u) /\ (0 <= u < 2048 -> mlk_scalar_decompress_d11 u = Decompress 11 u).
Proof. repeat split; intros Hu; apply decompress_exact; (lia || reflexivity || exact Hu). Qed.

Lemma compress_d1_exact u : 0 <= u < q -> mlk_scalar_compress_d1 u = Compress (Z.of_nat 1) u.
Proof. intros Hu. pose proof (scalar_compress_exact u Hu) as H. exact (proj1 H). Qed.
Lemma compress_d4_exact u : 0 <= u < q -> mlk_scalar_compress_d4 u = Compress (Z.of_nat 4) u.
Proof. intros Hu. pose proof (scalar_compress_exact u Hu) as H. exact (proj1 (proj2 H)). Qed.
Lemma compress_d5_exact u : 0 <= u < q -> mlk_scalar_compress_d5 u = Compress (Z.of_nat 5) u.
Proof. intros Hu. pose proof (scalar_compress_exact u Hu) as H. exact (proj1 (proj2 (proj2 H))). Qed.
Lemma compress_d10_exact u : 0 <= u < q -> mlk_scalar_compress_d10 u = Compress (Z.of_nat 10) u.
Proof. intros Hu. pose proof (scalar_compress_exact u Hu) as H. exact (proj1 (proj2 (proj2 (proj2 H)))). Qed.
Lemma compress_d11_exact u : 0 <= u < q -> mlk_scalar_compress_d11 u = Compress (Z.of_nat 11) u.
Proof. intros Hu. pose proof (scalar_compress_exact u Hu) as H. exact (proj2 (proj2 (proj2 (proj2 H)))). Qed.
Lemma decompress_d4_exact u : 0 <= u < 2 ^ Z.of_nat 4 -> mlk_scalar_decompress_d4 u = Decompress (Z.of_nat 4) u.
Proof. intros Hu. pose proof (scalar_decompress_exact u) as H. exact ((proj1 H) Hu). Qed.
Lemma decompress_d5_exact u : 0 <= u < 2 ^ Z.of_nat 5 -> mlk_scalar_decompress_d5 u = Decompress (Z.of_nat 5) u.
Proof. intros Hu. pose proof (scalar_decompress_exact u) as H. exact ((proj1 (proj2 H)) Hu). Qed.
Lemma decompress_d10_exact u : 0 <= u < 2 ^ Z.of_nat 10 -> mlk_scalar_decompress_d10 u = Decompress (Z.of_nat 10) u.
Proof. intros Hu. pose proof (scalar_decompress_exact u) as H. exact ((proj1 (proj2 (proj2 H))) Hu). Qed.
Lemma decompress_d11_exact u : 0 <= u < 2 ^ Z.of_nat 11 -> mlk_scalar_decompress_d11 u = Decompress (Z.of_nat 11) u.
Proof. intros Hu. pose proof (scalar_decompress_exact u) as H. exact ((proj2 (proj2 (proj2 H))) Hu). Qed.

(** ** Bits of groups *)

Lemma testbit_bits_byte b k : Z.testbit (bits_byte b) (Z.of_nat k) = nth k b false.
Proof.
  revert k. induction b as [|x b IH]; intros [|k]; [apply Z.bits_0 | apply Z.bits_0 | |]; cbn [bits_byte fold_right nth]; fold (bits_byte b).
  - rewrite Z.add_comm. apply Z.testbit_0_r.
  - rewrite Nat2Z.inj_succ, Z.add_comm, Z.testbit_succ_r by lia. apply IH.
Qed.

Lemma bits_byte_range b : 0 <= bits_byte b < 2 ^ Z.of_nat (length b).
Proof.
  induction b as [|x b IH]; [cbn; lia |]. cbn [bits_byte fold_right length]. fold (bits_byte b).
  rewrite Nat2Z.inj_succ, Z.pow_succ_r by lia. destruct x; cbn [Z.b2z]; lia.
Qed.

Lemma testbit_above x d i : 0 <= x < 2 ^ d -> d <= i -> Z.testbit x i = false.
Proof.
  intros Hx Hi. destruct (Z.eq_dec x 0) as [-> | H0]; [apply Z.bits_0 |].
  assert (0 <= d) by (destruct (Z.lt_ge_cases d 0); [rewrite Z.pow_neg_r in Hx; lia | lia]).
  apply Z.bits_above_log2; [lia |]. apply (Z.lt_le_trans _ d); [apply Z.log2_lt_pow2; lia | exact Hi].
Qed.

Lemma bits_byte_int_bits d x : 0 <= x < 2 ^ Z.of_nat d -> bits_byte (int_bits d x) = x.
Proof.
  intros Hx. apply Z.bits_inj'. intros i Hi. rewrite <- (Z2Nat.id i), testbit_bits_byte by lia.
  set (k := Z.to_nat i). unfold int_bits. destruct (Nat.lt_ge_cases k d) as [Hk | Hk].
  - rewrite (nth_indep _ false (Z.testbit x (Z.of_nat 0))) by (rewrite length_map, length_seq; lia).
    rewrite (map_nth (fun i => Z.testbit x (Z.of_nat i))), seq_nth by lia. reflexivity.
  - rewrite nth_overflow by (rewrite length_map, length_seq; lia). symmetry. apply (testbit_above x (Z.of_nat d)); lia.
Qed.

Lemma land_range x n : 0 <= n -> 0 <= Z.land x (Z.ones n) < 2 ^ n.
Proof. intros Hn. rewrite Z.land_ones by exact Hn. apply Z.mod_pos_bound. apply Z.pow_pos_nonneg; lia. Qed.

(** A list of bytes is determined by its bits. *)
Lemma bytes_of_bits w l b : length l = w -> are_bytes l -> bits l = b -> l = bits_bytes w b.
Proof. intros <- Hl <-. symmetry. now apply bits_bytes_bits. Qed.

Lemma ints_of_bits d l b : Forall (fun x => 0 <= x < 2 ^ Z.of_nat d) l -> concat (map (int_bits d) l) = b ->
  l = bits_ints (length l) d b.
Proof.
  intros Hl <-. induction Hl as [|x l Hx Hl IH]; [reflexivity |]. cbn [map concat length bits_ints].
  assert (Hd : length (int_bits d x) = d) by (unfold int_bits; now rewrite length_map, length_seq).
  rewrite take_app_length', drop_app_length' by (symmetry; exact Hd). now rewrite bits_byte_int_bits, <- IH.
Qed.

(** One bit of a combination of shifted and masked values. *)
Ltac one_bit :=
  unfold u8, u16;
  repeat match goal with |- context [Z.of_nat ?k] => let v := eval vm_compute in (Z.of_nat k) in change (Z.of_nat k) with v end;
  repeat (rewrite Z.lor_spec || rewrite Z.land_spec || (rewrite Z.shiftr_spec by lia) || (rewrite Z.shiftl_spec by lia));
  repeat match goal with
  | |- context [?a + ?b] => let v := eval vm_compute in (a + b) in change (a + b) with v
  | |- context [?a - ?b] => let v := eval vm_compute in (a - b) in change (a - b) with v
  end;
  repeat match goal with
  | |- context [Z.testbit (Zpos ?p) ?i] => let v := eval vm_compute in (Z.testbit (Zpos p) i) in change (Z.testbit (Zpos p) i) with v
  | |- context [Z.testbit ?x (Zneg ?p)] => rewrite (Z.testbit_neg_r x (Zneg p)) by lia
  | H : 0 <= ?x < ?B |- context [Z.testbit ?x ?i] => rewrite (testbit_above x (Z.log2 B) i) by (first [exact H | vm_compute; congruence])
  end;
  rewrite ?andb_true_r, ?andb_true_l, ?andb_false_r, ?andb_false_l, ?orb_false_r, ?orb_false_l; reflexivity.

Ltac all_bits := repeat match goal with |- _ :: _ = _ :: _ => apply (f_equal2 cons); [one_bit |] end; try reflexivity.

Ltac list_of_length t Hl := do 12 (try (destruct t as [|? t]; try discriminate Hl)).

(** [t] of known length with bounded elements: the bits agree one by one. *)
Ltac group t Hl Ht defs :=
  list_of_length t Hl; clear Hl;
  repeat match goal with H : Forall _ (_ :: _) |- _ => apply Forall_cons_1 in H as [? H] end; clear Ht;
  repeat match goal with H : context [2 ^ Z.of_nat ?d] |- _ => let v := eval vm_compute in (2 ^ Z.of_nat d) in change (2 ^ Z.of_nat d) with v in H end;
  unfold is_u8 in *; defs; unfold bits, byte_bits, int_bits, rd; cbv zeta; cbn [map concat seq app nth]; all_bits.

Definition below (d : nat) (x : Z) : Prop := 0 <= x < 2 ^ Z.of_nat d.

Lemma pack_d4_bits t : length t = 8%nat -> Forall (below 4) t -> bits (pack_d4 t) = concat (map (int_bits 4) t).
Proof. unfold below. intros Hl Ht. group t Hl Ht ltac:(unfold pack_d4). Qed.
Lemma pack_d5_bits t : length t = 8%nat -> Forall (below 5) t -> bits (pack_d5 t) = concat (map (int_bits 5) t).
Proof. unfold below. intros Hl Ht. group t Hl Ht ltac:(unfold pack_d5). Qed.
Lemma pack_d10_bits t : length t = 4%nat -> Forall (below 10) t -> bits (pack_d10 t) = concat (map (int_bits 10) t).
Proof. unfold below. intros Hl Ht. group t Hl Ht ltac:(unfold pack_d10). Qed.
Lemma pack_d11_bits t : length t = 8%nat -> Forall (below 11) t -> bits (pack_d11 t) = concat (map (int_bits 11) t).
Proof. unfold below. intros Hl Ht. group t Hl Ht ltac:(unfold pack_d11). Qed.
Lemma pack_12_bits t : length t = 2%nat -> Forall (below 12) t -> bits (pack_12 t) = concat (map (int_bits 12) t).
Proof. unfold below. intros Hl Ht. group t Hl Ht ltac:(unfold pack_12). Qed.
Lemma pack_msg_bits t : length t = 8%nat -> Forall (below 1) t -> bits (pack_msg t) = concat (map (int_bits 1) t).
Proof. unfold below. intros Hl Ht. group t Hl Ht ltac:(unfold pack_msg; cbn [fold_left seq]). Qed.

Lemma unpack_d4_bits t : length t = 1%nat -> are_bytes t -> concat (map (int_bits 4) (unpack_d4 t)) = bits t.
Proof. unfold are_bytes. intros Hl Ht. group t Hl Ht ltac:(unfold unpack_d4). Qed.
Lemma unpack_d5_bits t : length t = 5%nat -> are_bytes t -> concat (map (int_bits 5) (unpack_d5 t)) = bits t.
Proof. unfold are_bytes. intros Hl Ht. group t Hl Ht ltac:(unfold unpack_d5). Qed.
Lemma unpack_d10_bits t : length t = 5%nat -> are_bytes t -> concat (map (int_bits 10) (unpack_d10 t)) = bits t.
Proof. unfold are_bytes. intros Hl Ht. group t Hl Ht ltac:(unfold unpack_d10). Qed.
Lemma unpack_d11_bits t : length t = 11%nat -> are_bytes t -> concat (map (int_bits 11) (unpack_d11 t)) = bits t.
Proof. unfold are_bytes. intros Hl Ht. group t Hl Ht ltac:(unfold unpack_d11). Qed.

(** The values of [unpack_12] fit [int16_t]. *)
Lemma unpack_12_plain t : are_bytes t ->
  unpack_12 t = [Z.lor (rd t 0) (Z.land (Z.shiftl (rd t 1) 8) 0xFFF); Z.lor (Z.shiftr (rd t 1) 4) (Z.shiftl (rd t 2) 4)].
Proof.
  intros Ht. unfold unpack_12. cbv zeta. pose proof (rd_is_u8 t 0 Ht). pose proof (rd_is_u8 t 1 Ht). pose proof (rd_is_u8 t 2 Ht).
  assert (forall x, 0 <= x < 2 ^ 12 -> i16 x = x) as Hid by (intros; apply i16_id; lia).
  unfold is_u8 in *. rewrite !Hid; [reflexivity | |]; apply bits_bound; try lia.
  - apply Z.lor_nonneg. split; [apply Z.shiftr_nonneg | apply Z.shiftl_nonneg]; lia.
  - intros i Hi. rewrite Z.lor_spec, Z.shiftr_spec, Z.shiftl_spec, !testbit_u8_ge by (unfold is_u8; lia). reflexivity.
  - apply Z.lor_nonneg. split; [lia | apply Z.land_nonneg; right; lia].
  - intros i Hi. rewrite Z.lor_spec, Z.land_spec, (testbit_u8_ge (rd t 0)) by (unfold is_u8; lia).
    rewrite (testbit_above 4095 12) by lia. now rewrite andb_false_r.
Qed.

Lemma unpack_12_bits t : length t = 3%nat -> are_bytes t -> concat (map (int_bits 12) (unpack_12 t)) = bits t.
Proof. intros Hl Ht. rewrite unpack_12_plain by exact Ht. unfold are_bytes in Ht. group t Hl Ht ltac:(idtac). Qed.

(** ** Polynomials against the reference *)

Lemma bits_concat L : bits (concat L) = concat (map bits L).
Proof. induction L as [|l L IH]; [reflexivity |]. cbn [concat map]. rewrite <- IH. unfold bits. now rewrite map_app, concat_app. Qed.

Lemma concat_map_concat {A B} (f : A -> list B) L : concat (map f (concat L)) = concat (map (fun l => concat (map f l)) L).
Proof. induction L as [|l L IH]; [reflexivity |]. cbn [concat map]. now rewrite map_app, concat_app, IH. Qed.

Lemma regroup {A} (h : Z -> A) n m : forall a, length a = (n * m)%nat ->
  concat (map (fun i => map (fun j => h (rd a (n * i + j))) (seq 0 n)) (seq 0 m)) = map h a.
Proof.
  induction m as [|m IH]; intros a Hl; [destruct a; [reflexivity | cbn in Hl; lia] |].
  cbn [seq map concat]. rewrite <- (seq_shift m 0), map_map.
  replace (map h a) with (map h (take n a) ++ map h (drop n a)) by (now rewrite <- map_app, take_drop). f_equal.
  - rewrite Nat.mul_0_r. rewrite <- (map_rd_seq (take n a)), map_map, length_take, Nat.min_l by lia.
    apply map_ext_in. intros j Hj. apply in_seq in Hj. cbn [Nat.add]. now rewrite rd_take by lia.
  - rewrite <- (IH (drop n a)) by (rewrite length_drop; lia). f_equal. apply map_ext. intros i. apply map_ext. intros j.
    rewrite rd_drop. do 2 f_equal. lia.
Qed.

Lemma groups_of_drop n m : forall a : list Z, length a = (n * m)%nat -> concat (map (fun i => take n (drop (n * i) a)) (seq 0 m)) = a.
Proof.
  intros a Hl. transitivity (map (fun x => x) a); [| apply map_id]. rewrite <- (regroup (fun x => x) n m a Hl). f_equal. apply map_ext_in. intros i Hi.
  apply in_seq in Hi. assert (Hn : (n <= length (drop (n * i) a))%nat) by (rewrite length_drop; nia).
  rewrite <- (map_rd_seq (take n (drop (n * i) a))). rewrite length_take, Nat.min_l by exact Hn.
  apply map_ext_in. intros j Hj. apply in_seq in Hj. rewrite rd_take by lia. now rewrite rd_drop.
Qed.

Lemma length_groups {A} (f : nat -> list A) w m : (forall i, length (f i) = w) -> forall s, length (concat (map f (seq s m))) = (w * m)%nat.
Proof. intros H. induction m as [|m IH]; intros s; [cbn; lia |]. cbn [seq map concat]. rewrite length_app, H, IH. lia. Qed.

Lemma write_groups_encode d n m w h pack a : (d * n = 8 * w)%nat -> length a = (n * m)%nat ->
  (forall t, length (pack t) = w /\ are_bytes (pack t)) ->
  (forall t, length t = n -> Forall (below d) t -> bits (pack t) = concat (map (int_bits d) t)) ->
  Forall (fun x => below d (h x)) a ->
  write_groups n m h pack a = ByteEncode d (map h a).
Proof.
  intros Hdn Hl Hp Hbits Hh. unfold ByteEncode. rewrite length_map, Hl.
  replace (d * (n * m) / 8)%nat with (w * m)%nat by (replace (d * (n * m))%nat with (w * m * 8)%nat by nia; rewrite Nat.div_mul; lia).
  unfold write_groups. apply bytes_of_bits.
  - apply length_groups. intros i. apply Hp.
  - apply Forall_concat, Forall_map, List.Forall_forall. intros i _. apply Hp.
  - rewrite bits_concat, map_map, <- (regroup h n m a Hl), concat_map_concat, map_map. f_equal. apply map_ext_in. intros i Hi.
    apply in_seq in Hi. apply Hbits; [now rewrite length_map, length_seq |].
    apply Forall_map, List.Forall_forall. intros j Hj. apply in_seq in Hj.
    assert (Hij : (n * i + j < length a)%nat) by nia. apply rd_in_range in Hij.
    exact (proj1 (Forall_lookup _ _) Hh _ _ Hij).
Qed.

Lemma read_groups_decode d n m w h unpack b : (0 < d)%nat -> (n * d = 8 * w)%nat -> length b = (w * m)%nat -> are_bytes b ->
  (forall t, unpack t = unpack (take w t)) ->
  (forall t, are_bytes t -> length (unpack t) = n /\ Forall (below d) (unpack t)) ->
  (forall t, length t = w -> are_bytes t -> concat (map (int_bits d) (unpack t)) = bits t) ->
  read_groups w m h unpack b = map h (ByteDecode d b).
Proof.
  intros Hd Hnd Hl Hb Hloc Hshape Hbits. unfold read_groups, ByteDecode.
  set (f i := unpack (take w (drop (w * i) b))).
  assert (Hsub : forall i, are_bytes (take w (drop (w * i) b))) by (intros; now apply Forall_take, Forall_drop).
  rewrite (map_ext _ (fun i => map h (f i))) by (intros i; subst f; cbv beta; now rewrite <- Hloc).
  rewrite <- (map_map f (map h)), <- concat_map. f_equal.
  assert (Hlen : length (concat (map f (seq 0 m))) = (8 * length b / d)%nat).
  { rewrite (length_groups f n) by (intros; apply Hshape, Hsub). rewrite Hl.
    replace (8 * (w * m))%nat with (n * m * d)%nat by nia. rewrite Nat.div_mul; lia. }
  rewrite <- Hlen. apply ints_of_bits.
  - apply Forall_concat, Forall_map, List.Forall_forall. intros i _. apply Hshape, Hsub.
  - rewrite concat_map_concat, map_map. rewrite (map_ext_in _ (fun i => bits (take w (drop (w * i) b)))).
    + rewrite <- map_map, <- bits_concat. now rewrite groups_of_drop.
    + intros i Hi. apply in_seq in Hi. apply Hbits; [rewrite length_take, length_drop; nia | apply Hsub].
Qed.

Ltac bytes_list := repeat (apply Forall_cons_2; [apply u8_range |]); apply Forall_nil_2.

Lemma pack_shapes t :
  (length (pack_d4 t) = 4%nat /\ are_bytes (pack_d4 t)) /\ (length (pack_d5 t) = 5%nat /\ are_bytes (pack_d5 t)) /\
  (length (pack_d10 t) = 5%nat /\ are_bytes (pack_d10 t)) /\ (length (pack_d11 t) = 11%nat /\ are_bytes (pack_d11 t)) /\
  (length (pack_12 t) = 3%nat /\ are_bytes (pack_12 t)).
Proof. repeat split; bytes_list. Qed.

Lemma lor_u8 a b : is_u8 a -> is_u8 b -> is_u8 (Z.lor a b).
Proof.
  intros Ha Hb. apply (bits_bound 8); [lia | unfold is_u8 in *; apply Z.lor_nonneg; lia |].
  intros i Hi. now rewrite Z.lor_spec, !testbit_u8_ge.
Qed.

Lemma pack_msg_shape t : length (pack_msg t) = 1%nat /\ are_bytes (pack_msg t).
Proof.
  split; [reflexivity |]. apply Forall_cons_2; [| apply Forall_nil_2]. cbn [fold_left seq].
  repeat apply lor_u8; try apply u8_range; unfold is_u8; lia.
Qed.

Ltac ones_list n := repeat (apply Forall_cons_2; [first [rewrite Z.land_comm; apply (land_range _ n) | apply (land_range _ n)]; lia |]); apply Forall_nil_2.

Lemma unpack_shapes t : 
  (length (unpack_d4 t) = 2%nat /\ Forall (below 4) (unpack_d4 t)) /\ (length (unpack_d5 t) = 8%nat /\ Forall (below 5) (unpack_d5 t)) /\
  (length (unpack_d10 t) = 4%nat /\ Forall (below 10) (unpack_d10 t)) /\ (length (unpack_d11 t) = 8%nat /\ Forall (below 11) (unpack_d11 t)).
Proof.
  unfold below. change (2 ^ Z.of_nat 4) with (2 ^ 4). change (2 ^ Z.of_nat 5) with (2 ^ 5).
  change (2 ^ Z.of_nat 10) with (2 ^ 10). change (2 ^ Z.of_nat 11) with (2 ^ 11).
  repeat split; [ones_list 4 | ones_list 5 | ones_list 10 | ones_list 11].
Qed.

(** Unsigned canonical coefficients. *)
Definition canonical (a : list Z) : Prop := length a = 256%nat /\ Forall (fun c => 0 <= c < q) a.

Lemma canonical_scalars (P : Z -> Prop) a : canonical a -> (forall u, 0 <= u < q -> P u) -> Forall P a.
Proof. intros [_ H] HP. eapply Forall_impl; [| exact H]. exact HP. Qed.

Lemma Compress_below d u : 0 <= Compress (Z.of_nat d) u < 2 ^ Z.of_nat d.
Proof. unfold Compress. apply Z.mod_pos_bound. apply Z.pow_pos_nonneg; lia. Qed.

Lemma map_canonical (h h' : Z -> Z) a : canonical a -> (forall u, 0 <= u < q -> h u = h' u) -> map h a = map h' a.
Proof.
  intros [_ H] He. apply map_ext_in. intros x Hx. apply He. rewrite List.Forall_forall in H. now apply H.
Qed.

Lemma compress_poly_encode d n m w h pack a : (d * n = 8 * w)%nat -> (n * m = 256)%nat -> canonical a ->
  (forall t, length (pack t) = w /\ are_bytes (pack t)) ->
  (forall t, length t = n -> Forall (below d) t -> bits (pack t) = concat (map (int_bits d) t)) ->
  (forall u, 0 <= u < q -> h u = Compress (Z.of_nat d) u) ->
  write_groups n m h pack a = ByteEncode d (map (Compress (Z.of_nat d)) a).
Proof.
  intros Hdn Hnm Ha Hp Hb Hh. rewrite (write_groups_encode d n m w); auto.
  - f_equal. now apply map_canonical.
  - rewrite Hnm. apply Ha.
  - apply canonical_scalars; [exact Ha |]. intros u Hu. rewrite Hh by exact Hu. apply Compress_below.
Qed.

Lemma ByteDecode_below d B : Forall (below d) (ByteDecode d B).
Proof.
  unfold ByteDecode. generalize (bits B) as b. generalize (8 * length B / d)%nat as n. induction n as [|n IH]; intros b; [apply Forall_nil_2 |].
  cbn [bits_ints]. apply Forall_cons_2; [| apply IH]. pose proof (bits_byte_range (take d b)). pose proof (length_take b d).
  unfold below. assert (2 ^ Z.of_nat (length (take d b)) <= 2 ^ Z.of_nat d) by (apply Z.pow_le_mono_r; lia). lia.
Qed.

Lemma decompress_poly_decode d n m w h unpack b : (0 < d)%nat -> (n * d = 8 * w)%nat -> length b = (w * m)%nat -> are_bytes b ->
  (forall t, unpack t = unpack (take w t)) ->
  (forall t, length (unpack t) = n /\ Forall (below d) (unpack t)) ->
  (forall t, length t = w -> are_bytes t -> concat (map (int_bits d) (unpack t)) = bits t) ->
  (forall u, below d u -> h u = Decompress (Z.of_nat d) u) ->
  read_groups w m h unpack b = map (Decompress (Z.of_nat d)) (ByteDecode d b).
Proof.
  intros Hd Hnd Hl Hb Hloc Hs Hbits Hh. rewrite (read_groups_decode d n m w); auto.
  apply map_ext_in. intros u Hu. apply Hh. pose proof (ByteDecode_below d b) as H. rewrite List.Forall_forall in H. now apply H.
Qed.

(** The bits of a message byte as coefficients. *)
Definition unpack_bits (base : bytes) : list Z := map Z.b2z (byte_bits (rd base 0)).

Lemma unpack_msg_bits t : are_bytes t -> unpack_msg t = map (Decompress 1) (unpack_bits t).
Proof.
  intros Ht. pose proof (rd_is_u8 t 0 Ht) as Hx. unfold unpack_msg, unpack_bits, byte_bits. rewrite !map_map. revert Hx.
  generalize (rd t 0) as x. intros x Hx. apply map_ext_in. intros j Hj. apply in_seq in Hj.
  pose (P x := forallb (fun j => mlk_ct_sel_int16 MLKEM_Q_HALF 0 (Z.land x (u8 (Z.shiftl 1 (Z.of_nat j)))) =?
                                 Decompress 1 (Z.b2z (Z.testbit x (Z.of_nat j)))) (seq 0 8)).
  assert (H : P x = true) by (apply byte_forall; [vm_compute; reflexivity | exact Hx]).
  unfold P in H. rewrite List.forallb_forall in H. apply Z.eqb_eq, H, in_seq. lia.
Qed.

Lemma frommsg_read msg : are_bytes msg -> mlk_poly_frommsg msg = read_groups 1 32 (Decompress 1) unpack_bits msg.
Proof.
  intros Hm. unfold mlk_poly_frommsg, read_groups. f_equal. apply map_ext. intros i. rewrite map_id.
  apply unpack_msg_bits. now apply Forall_drop.
Qed.

Ltac local_reads := intros t; unfold unpack_d4, unpack_d5, unpack_d10, unpack_d11, unpack_12, unpack_bits; rewrite !rd_take by lia; reflexivity.

Lemma frommsg_decode msg : length msg = 32%nat -> are_bytes msg -> mlk_poly_frommsg msg = map (Decompress 1) (ByteDecode 1 msg).
Proof.
  intros Hl Hm. rewrite frommsg_read by exact Hm. apply (decompress_poly_decode 1 8 32 1); try lia; auto.
  - local_reads.
  - intros t. split; [reflexivity |]. apply Forall_map, List.Forall_forall. intros [] _; cbn; unfold below; cbn; lia.
  - intros t Ht Htb. destruct t as [|x [|]]; try discriminate. unfold unpack_bits, rd. cbn [nth].
    unfold bits. cbn [map concat]. rewrite app_nil_r. unfold byte_bits. cbn [seq map].
    repeat match goal with |- context [Z.testbit x ?i] => destruct (Z.testbit x i) end; reflexivity.
Qed.

(** ** The two directions *)

Lemma tobytes_encode a : length a = 256%nat -> Forall (below 12) a -> mlk_poly_tobytes a = ByteEncode 12 a.
Proof.
  intros Hl Ha. unfold mlk_poly_tobytes. rewrite (write_groups_encode 12 2 128 3); auto using pack_12_bits; try lia.
  - now rewrite map_id.
  - intros t. apply pack_shapes.
Qed.

Lemma serialize_exact a : canonical a ->
  mlk_poly_tomsg a = ByteEncode 1 (map (Compress 1) a) /\
  mlk_poly_compress_d4 a = ByteEncode 4 (map (Compress 4) a) /\ mlk_poly_compress_d5 a = ByteEncode 5 (map (Compress 5) a) /\
  mlk_poly_compress_d10 a = ByteEncode 10 (map (Compress 10) a) /\ mlk_poly_compress_d11 a = ByteEncode 11 (map (Compress 11) a) /\
  mlk_poly_tobytes a = ByteEncode 12 a.
Proof.
  intros Ha. repeat split.
  - apply (compress_poly_encode 1 8 32 1); auto using pack_msg_shape, pack_msg_bits. exact compress_d1_exact.
  - apply (compress_poly_encode 4 8 32 4); auto using pack_d4_bits; [intros t; apply pack_shapes | exact compress_d4_exact].
  - apply (compress_poly_encode 5 8 32 5); auto using pack_d5_bits; [intros t; apply pack_shapes | exact compress_d5_exact].
  - apply (compress_poly_encode 10 4 64 5); auto using pack_d10_bits; [intros t; apply pack_shapes | exact compress_d10_exact].
  - apply (compress_poly_encode 11 8 32 11); auto using pack_d11_bits; [intros t; apply pack_shapes | exact compress_d11_exact].
  - apply tobytes_encode; [apply Ha |]. apply canonical_scalars; [exact Ha |]. unfold below, q. intros u Hu. cbn. lia.
Qed.

Lemma unpack_12_shape t : are_bytes t -> length (unpack_12 t) = 2%nat /\ Forall (below 12) (unpack_12 t).
Proof.
  intros Ht. split; [reflexivity |]. rewrite unpack_12_plain by exact Ht. pose proof (rd_is_u8 t 0 Ht). pose proof (rd_is_u8 t 1 Ht).
  pose proof (rd_is_u8 t 2 Ht). unfold below. change (2 ^ Z.of_nat 12) with (2 ^ 12).
  apply Forall_cons_2; [| apply Forall_cons_2; [| apply Forall_nil_2]]; apply bits_bound; try lia; unfold is_u8 in *.
  - apply Z.lor_nonneg. split; [lia | apply Z.land_nonneg; right; lia].
  - intros i Hi. rewrite Z.lor_spec, Z.land_spec, (testbit_u8_ge (rd t 0)) by (unfold is_u8; lia).
    rewrite (testbit_above 4095 12) by lia. now rewrite andb_false_r.
  - apply Z.lor_nonneg. split; [apply Z.shiftr_nonneg | apply Z.shiftl_nonneg]; lia.
  - intros i Hi. rewrite Z.lor_spec, Z.shiftr_spec, Z.shiftl_spec, !testbit_u8_ge by (unfold is_u8; lia). reflexivity.
Qed.

Lemma frombytes_decode b : are_bytes b -> length b = 384%nat -> mlk_poly_frombytes b = ByteDecode 12 b.
Proof.
  intros Hb Hl. unfold mlk_poly_frombytes. rewrite (read_groups_decode 12 2 128 3); auto using unpack_12_bits, unpack_12_shape; try lia.
  - apply map_id.
  - local_reads.
Qed.

Lemma deserialize_exact b : are_bytes b ->
  (length b = 32%nat -> mlk_poly_frommsg b = map (Decompress 1) (ByteDecode 1 b)) /\
  (length b = 128%nat -> mlk_poly_decompress_d4 b = map (Decompress 4) (ByteDecode 4 b)) /\
  (length b = 160%nat -> mlk_poly_decompress_d5 b = map (Decompress 5) (ByteDecode 5 b)) /\
  (length b = 320%nat -> mlk_poly_decompress_d10 b = map (Decompress 10) (ByteDecode 10 b)) /\
  (length b = 352%nat -> mlk_poly_decompress_d11 b = map (Decompress 11) (ByteDecode 11 b)) /\
  (length b = 384%nat -> mlk_poly_frombytes b = ByteDecode 12 b).
Proof.
  intros Hb. split; [intros; now apply frommsg_decode |]. repeat split; intros Hl.
  - apply (decompress_poly_decode 4 2 128 1); auto using unpack_d4_bits; try lia;
      [local_reads | intros; apply unpack_shapes | exact decompress_d4_exact].
  - apply (decompress_poly_decode 5 8 32 5); auto using unpack_d5_bits; try lia;
      [local_reads | intros; apply unpack_shapes | exact decompress_d5_exact].
  - apply (decompress_poly_decode 10 4 64 5); auto using unpack_d10_bits; try lia;
      [local_reads | intros; apply unpack_shapes | exact decompress_d10_exact].
  - apply (decompress_poly_decode 11 8 32 11); auto using unpack_d11_bits; try lia;
      [local_reads | intros; apply unpack_shapes | exact decompress_d11_exact].
  - now apply frombytes_decode.
Qed.

(** ** Encoding and decoding are inverse *)

Lemma bits_bits_bytes n b : length b = (8 * n)%nat -> bits (bits_bytes n b) = b.
Proof.
  revert b. induction n as [|n IH]; intros b Hl; [destruct b; [reflexivity | discriminate] |]. cbn [bits_bytes].
  change (bits (?x :: ?l)) with (byte_bits x ++ bits l). rewrite IH by (rewrite length_drop; lia).
  rewrite <- (take_drop 8 b) at 3. f_equal. do 8 (destruct b as [|? b]; [cbn in Hl; lia |]). cbn [take].
  unfold byte_bits. cbn [map seq]. rewrite !testbit_bits_byte. reflexivity.
Qed.

Lemma length_int_bits d x : length (int_bits d x) = d.
Proof. unfold int_bits. now rewrite length_map, length_seq. Qed.

Lemma length_int_bits_all d F : length (concat (map (int_bits d) F)) = (d * length F)%nat.
Proof. induction F as [|x F IH]; [cbn; lia |]. cbn [map concat length]. rewrite length_app, length_int_bits, IH. lia. Qed.

Lemma length_bits_bytes n b : length (bits_bytes n b) = n.
Proof. revert b. induction n as [|n IH]; intros b; [reflexivity |]. cbn [bits_bytes length]. now rewrite IH. Qed.

Lemma ByteDecode_Encode d F w : (0 < d)%nat -> (d * length F = 8 * w)%nat -> Forall (below d) F -> ByteDecode d (ByteEncode d F) = F.
Proof.
  intros Hd Hw HF. unfold ByteDecode, ByteEncode. rewrite Hw. rewrite (Nat.mul_comm 8 w), Nat.div_mul by lia.
  rewrite length_bits_bytes, bits_bits_bytes by (rewrite length_int_bits_all; lia).
  replace (8 * w / d)%nat with (length F) by (rewrite <- Hw, Nat.mul_comm, Nat.div_mul; lia).
  symmetry. now apply ints_of_bits.
Qed.

Lemma bits_ints_bits n d b : length b = (d * n)%nat -> concat (map (int_bits d) (bits_ints n d b)) = b.
Proof.
  revert b. induction n as [|n IH]; intros b Hl; [destruct b; [reflexivity | cbn in Hl; lia] |]. cbn [bits_ints map concat].
  rewrite IH by (rewrite length_drop; lia). rewrite <- (take_drop d b) at 3. f_equal.
  apply (nth_ext _ _ false false); rewrite length_int_bits; [rewrite length_take; lia |]. intros i Hi. unfold int_bits.
  rewrite (nth_indep _ false (Z.testbit (bits_byte (take d b)) (Z.of_nat 0))) by (rewrite length_map, length_seq; lia).
  rewrite (map_nth (fun i => Z.testbit _ (Z.of_nat i))), seq_nth by lia. apply testbit_bits_byte.
Qed.

Lemma length_bits_ints n d b : length (bits_ints n d b) = n.
Proof. revert b. induction n as [|n IH]; intros b; [reflexivity |]. cbn [bits_ints length]. now rewrite IH. Qed.

Lemma ByteEncode_Decode d B n : (0 < d)%nat -> (8 * length B = d * n)%nat -> are_bytes B -> ByteEncode d (ByteDecode d B) = B.
Proof.
  intros Hd Hn HB. unfold ByteEncode, ByteDecode. rewrite Hn, (Nat.mul_comm d n), Nat.div_mul by lia.
  rewrite length_bits_ints, bits_ints_bits by (rewrite length_bits; lia).
  replace (d * n / 8)%nat with (length B) by (rewrite <- Hn, Nat.mul_comm, Nat.div_mul; lia). now apply bits_bytes_bits.
Qed.


(** Distance modulo q. *)
Definition qdist (x y : Z) : Z := Z.min ((x - y) mod q) ((y - x) mod q).

Lemma decompress_compress_error x : 0 <= x < q ->
  qdist x (Decompress 4 (Compress 4 x)) <= 104 /\ qdist x (Decompress 5 (Compress 5 x)) <= 52 /\
  qdist x (Decompress 10 (Compress 10 x)) <= 2 /\ qdist x (Decompress 11 (Compress 11 x)) <= 1.
Proof.
  intros Hx. pose (P x := (qdist x (Decompress 4 (Compress 4 x)) <=? 104) && (qdist x (Decompress 5 (Compress 5 x)) <=? 52) &&
    (qdist x (Decompress 10 (Compress 10 x)) <=? 2) && (qdist x (Decompress 11 (Compress 11 x)) <=? 1)).
  assert (H : P x = true) by (apply (check_below P 3329); [vm_compute; reflexivity | exact Hx]). unfold P in H.
  rewrite !andb_true_iff, !Z.leb_le in H. tauto.
Qed.

(** Compress_d is a left inverse of Decompress_d, whose values are canonical. *)
Definition codec_ok (d : nat) : Prop :=
  forall y, below d y -> Compress (Z.of_nat d) (Decompress (Z.of_nat d) y) = y /\ 0 <= Decompress (Z.of_nat d) y < q.

Lemma codec_check d : forallb (fun y => (Compress (Z.of_nat d) (Decompress (Z.of_nat d) y) =? y) && (0 <=? Decompress (Z.of_nat d) y) &&
    (Decompress (Z.of_nat d) y <? q)) (map Z.of_nat (seq 0 (2 ^ d))) = true -> codec_ok d.
Proof.
  intros H y Hy. apply (check_below _ (2 ^ d) y) in H; [| unfold below in Hy; rewrite Nat2Z.inj_pow; exact Hy].
  rewrite !andb_true_iff, Z.eqb_eq, Z.leb_le, Z.ltb_lt in H. tauto.
Qed.

Lemma codec_1 : codec_ok 1. Proof. apply codec_check. vm_compute. reflexivity. Qed.
Lemma codec_4 : codec_ok 4. Proof. apply codec_check. vm_compute. reflexivity. Qed.
Lemma codec_5 : codec_ok 5. Proof. apply codec_check. vm_compute. reflexivity. Qed.
Lemma codec_10 : codec_ok 10. Proof. apply codec_check. vm_compute. reflexivity. Qed.
Lemma codec_11 : codec_ok 11. Proof. apply codec_check. vm_compute. reflexivity. Qed.

Lemma length_ByteDecode d B n : (0 < d)%nat -> (8 * length B = d * n)%nat -> length (ByteDecode d B) = n.
Proof. intros Hd Hn. unfold ByteDecode. rewrite length_bits_ints, Hn, Nat.mul_comm, Nat.div_mul; lia. Qed.

Lemma Decompress_canonical d b : codec_ok d -> (0 < d)%nat -> (8 * length b = d * 256)%nat ->
  canonical (map (Decompress (Z.of_nat d)) (ByteDecode d b)).
Proof.
  intros Hc Hd Hl. split; [rewrite length_map; now apply length_ByteDecode |]. apply Forall_map.
  eapply Forall_impl; [| apply (ByteDecode_below d)]. intros y Hy. now apply Hc.
Qed.

(** Lossy codecs: compressing what was decompressed. *)
Lemma codec_bytes d b : codec_ok d -> (0 < d)%nat -> are_bytes b -> (8 * length b = d * 256)%nat ->
  ByteEncode d (map (Compress (Z.of_nat d)) (map (Decompress (Z.of_nat d)) (ByteDecode d b))) = b.
Proof.
  intros Hc Hd Hb Hl. rewrite map_map, (map_ext_in _ (fun y => y)), map_id.
  - now apply (ByteEncode_Decode d b 256).
  - intros y Hy. pose proof (ByteDecode_below d b) as H. rewrite List.Forall_forall in H. now apply Hc, H.
Qed.

Lemma length_ByteEncode d F w : (d * length F = 8 * w)%nat -> length (ByteEncode d F) = w.
Proof. intros H. unfold ByteEncode. rewrite length_bits_bytes, H, Nat.mul_comm, Nat.div_mul; lia. Qed.

Lemma bits_bytes_bytes n b : are_bytes (bits_bytes n b).
Proof.
  revert b. induction n as [|n IH]; intros b; [apply Forall_nil_2 |]. cbn [bits_bytes]. apply Forall_cons_2; [| apply IH].
  pose proof (bits_byte_range (take 8 b)). assert (length (take 8 b) <= 8)%nat by (rewrite length_take; lia).
  assert (2 ^ Z.of_nat (length (take 8 b)) <= 2 ^ 8) by (apply Z.pow_le_mono_r; lia). unfold is_u8. lia.
Qed.

Lemma ByteEncode_bytes d F : are_bytes (ByteEncode d F).
Proof. apply bits_bytes_bytes. Qed.

(** Lossy codecs: decompressing what was compressed, within a distance. *)
Lemma codec_error d B a : (0 < d)%nat -> canonical a ->
  (forall x, 0 <= x < q -> qdist x (Decompress (Z.of_nat d) (Compress (Z.of_nat d) x)) <= B) ->
  Forall2 (fun x y => qdist x y <= B) a
    (map (Decompress (Z.of_nat d)) (ByteDecode d (ByteEncode d (map (Compress (Z.of_nat d)) a)))).
Proof.
  intros Hd [Hl Ha] HB. rewrite (ByteDecode_Encode d _ (32 * d)).
  - rewrite map_map. clear Hl. induction Ha as [|x a Hx Ha IH]; constructor; auto.
  - exact Hd.
  - rewrite length_map. lia.
  - apply Forall_map, List.Forall_forall. intros x _. apply Compress_below.
Qed.

Ltac split_serialize Ha :=
  let S := fresh in pose proof (serialize_exact _ Ha) as S; destruct S as (Emsg & E4 & E5 & E10 & E11 & E12).
Ltac split_deserialize Hb :=
  let S := fresh in pose proof (deserialize_exact _ Hb) as S; destruct S as (Dmsg & D4 & D5 & D10 & D11 & D12).

Lemma encode_decode a : canonical a ->
  mlk_poly_frombytes (mlk_poly_tobytes a) = a /\
  Forall2 (fun x y => qdist x y <= 104) a (mlk_poly_decompress_d4 (mlk_poly_compress_d4 a)) /\
  Forall2 (fun x y => qdist x y <= 52) a (mlk_poly_decompress_d5 (mlk_poly_compress_d5 a)) /\
  Forall2 (fun x y => qdist x y <= 2) a (mlk_poly_decompress_d10 (mlk_poly_compress_d10 a)) /\
  Forall2 (fun x y => qdist x y <= 1) a (mlk_poly_decompress_d11 (mlk_poly_compress_d11 a)).
Proof.
  intros Ha. pose proof Ha as [Hl _]. split_serialize Ha. rewrite E4, E5, E10, E11, E12.
  assert (Hlen : forall d h, length (ByteEncode d (map h a)) = (32 * d)%nat) by (intros; apply length_ByteEncode; rewrite length_map; lia).
  repeat split.
  - rewrite frombytes_decode by (auto using ByteEncode_bytes; apply length_ByteEncode; lia).
    apply (ByteDecode_Encode 12 a 384); try lia. apply canonical_scalars; [exact Ha |]. unfold below, q. intros u Hu. cbn. lia.
  - split_deserialize (ByteEncode_bytes 4 (map (Compress 4) a)). rewrite D4 by apply Hlen.
    apply (codec_error 4); [lia | exact Ha |]. intros x Hx. exact (proj1 (decompress_compress_error x Hx)).
  - split_deserialize (ByteEncode_bytes 5 (map (Compress 5) a)). rewrite D5 by apply Hlen.
    apply (codec_error 5); [lia | exact Ha |]. intros x Hx. exact (proj1 (proj2 (decompress_compress_error x Hx))).
  - split_deserialize (ByteEncode_bytes 10 (map (Compress 10) a)). rewrite D10 by apply Hlen.
    apply (codec_error 10); [lia | exact Ha |]. intros x Hx. exact (proj1 (proj2 (proj2 (decompress_compress_error x Hx)))).
  - split_deserialize (ByteEncode_bytes 11 (map (Compress 11) a)). rewrite D11 by apply Hlen.
    apply (codec_error 11); [lia | exact Ha |]. intros x Hx. exact (proj2 (proj2 (proj2 (decompress_compress_error x Hx)))).
Qed.

Lemma decode_encode b : are_bytes b ->
  (length b = 32%nat -> mlk_poly_tomsg (mlk_poly_frommsg b) = b) /\
  (length b = 128%nat -> mlk_poly_compress_d4 (mlk_poly_decompress_d4 b) = b) /\
  (length b = 160%nat -> mlk_poly_compress_d5 (mlk_poly_decompress_d5 b) = b) /\
  (length b = 320%nat -> mlk_poly_compress_d10 (mlk_poly_decompress_d10 b) = b) /\
  (length b = 352%nat -> mlk_poly_compress_d11 (mlk_poly_decompress_d11 b) = b) /\
  (length b = 384%nat -> mlk_poly_tobytes (mlk_poly_frombytes b) = b).
Proof.
  intros Hb. split_deserialize Hb. repeat split; intros Hl.
  - rewrite Dmsg by exact Hl. change (Decompress 1) with (Decompress (Z.of_nat 1)). split_serialize (Decompress_canonical 1 b codec_1 ltac:(lia) ltac:(lia)).
    rewrite Emsg. apply codec_bytes; auto using codec_1; lia.
  - rewrite D4 by exact Hl. change (Decompress 4) with (Decompress (Z.of_nat 4)). split_serialize (Decompress_canonical 4 b codec_4 ltac:(lia) ltac:(lia)).
    rewrite E4. apply codec_bytes; auto using codec_4; lia.
  - rewrite D5 by exact Hl. change (Decompress 5) with (Decompress (Z.of_nat 5)). split_serialize (Decompress_canonical 5 b codec_5 ltac:(lia) ltac:(lia)).
    rewrite E5. apply codec_bytes; auto using codec_5; lia.
  - rewrite D10 by exact Hl. change (Decompress 10) with (Decompress (Z.of_nat 10)). split_serialize (Decompress_canonical 10 b codec_10 ltac:(lia) ltac:(lia)).
    rewrite E10. apply codec_bytes; auto using codec_10; lia.
  - rewrite D11 by exact Hl. change (Decompress 11) with (Decompress (Z.of_nat 11)). split_serialize (Decompress_canonical 11 b codec_11 ltac:(lia) ltac:(lia)).
    rewrite E11. apply codec_bytes; auto using codec_11; lia.
  - rewrite D12 by exact Hl. rewrite tobytes_encode.
    + now apply (ByteEncode_Decode 12 b 256); [lia | lia |].
    + apply length_ByteDecode; lia.
    + apply ByteDecode_below.
Qed.

(** ** Claims *)

(** C21. ML-KEM serialization is that of FIPS 203.  On unsigned canonical polynomials the fixed-point compression
    functions (multiplication by a rounded reciprocal in wrapping unsigned arithmetic) followed by bit packing are
    ByteEncode_d o Compress_d for d = 1, 4, 5, 10, 11, and [mlk_poly_tobytes] is ByteEncode_12; on byte strings of the
    right length the decompression functions are Decompress_d o ByteDecode_d, and [mlk_poly_frombytes] reads the 12-bit
    values as they are (the standard's ByteDecode_12 reduces them modulo q afterwards). *)
Theorem mlk_serialization_fips203 :
  (forall a, canonical a ->
     mlk_poly_tomsg a = ByteEncode 1 (map (Compress 1) a) /\
     mlk_poly_compress_d4 a = ByteEncode 4 (map (Compress 4) a) /\ mlk_poly_compress_d5 a = ByteEncode 5 (map (Compress 5) a) /\
     mlk_poly_compress_d10 a = ByteEncode 10 (map (Compress 10) a) /\ mlk_poly_compress_d11 a = ByteEncode 11 (map (Compress 11) a) /\
     mlk_poly_tobytes a = ByteEncode 12 a) /\
  (forall b, are_bytes b ->
     (length b = 32%nat -> mlk_poly_frommsg b = map (Decompress 1) (ByteDecode 1 b)) /\
     (length b = 128%nat -> mlk_poly_decompress_d4 b = map (Decompress 4) (ByteDecode 4 b)) /\
     (length b = 160%nat -> mlk_poly_decompress_d5 b = map (Decompress 5) (ByteDecode 5 b)) /\
     (length b = 320%nat -> mlk_poly_decompress_d10 b = map (Decompress 10) (ByteDecode 10 b)) /\
     (length b = 352%nat -> mlk_poly_decompress_d11 b = map (Decompress 11) (ByteDecode 11 b)) /\
     (length b = 384%nat -> mlk_poly_frombytes b = ByteDecode 12 b)).
Proof. split; [exact serialize_exact | exact deserialize_exact]. Qed.

Lemma mlk_serialization_fips203_witness :
  let a := map (fun i => Z.of_nat (13 * i)) (seq 0 256) in
  mlk_poly_compress_d10 a = ByteEncode 10 (map (Compress 10) a) /\
  mlk_poly_decompress_d4 (repeat 0x21 128) = map (Decompress 4) (ByteDecode 4 (repeat 0x21 128)).
Proof.
  intros a. assert (Ha : canonical a).
  { split; [reflexivity |]. apply List.Forall_forall. intros x Hx. apply in_map_iff in Hx as (i & <- & Hi). apply in_seq in Hi.
    unfold q. lia. }
  split; [exact (proj1 (proj2 (proj2 (proj2 (proj1 mlk_serialization_fips203 a Ha))))) |].
  assert (Hb : are_bytes (repeat 0x21 128)) by (apply is_u8_dec_list; reflexivity).
  exact (proj1 (proj2 (proj2 mlk_serialization_fips203 _ Hb)) eq_refl).
Defined.

(** C22. Serialization round trips.  [mlk_poly_frombytes] inverts [mlk_poly_tobytes] on canonical polynomials and every
    384-byte string of 12-bit values is reproduced; decoding a message and encoding it again is the identity; the lossy codecs
    reproduce every compressed byte string, and return each coefficient of a canonical polynomial up to round(q / 2^(d+1))
    modulo q. *)
Theorem mlk_serialization_roundtrip :
  (forall a, canonical a ->
     mlk_poly_frombytes (mlk_poly_tobytes a) = a /\
     Forall2 (fun x y => qdist x y <= 104) a (mlk_poly_decompress_d4 (mlk_poly_compress_d4 a)) /\
     Forall2 (fun x y => qdist x y <= 52) a (mlk_poly_decompress_d5 (mlk_poly_compress_d5 a)) /\
     Forall2 (fun x y => qdist x y <= 2) a (mlk_poly_decompress_d10 (mlk_poly_compress_d10 a)) /\
     Forall2 (fun x y => qdist x y <= 1) a (mlk_poly_decompress_d11 (mlk_poly_compress_d11 a))) /\
  (forall b, are_bytes b ->
     (length b = 32%nat -> mlk_poly_tomsg (mlk_poly_frommsg b) = b) /\
     (length b = 128%nat -> mlk_poly_compress_d4 (mlk_poly_decompress_d4 b) = b) /\
     (length b = 160%nat -> mlk_poly_compress_d5 (mlk_poly_decompress_d5 b) = b) /\
     (length b = 320%nat -> mlk_poly_compress_d10 (mlk_poly_decompress_d10 b) = b) /\
     (length b = 352%nat -> mlk_poly_compress_d11 (mlk_poly_decompress_d11 b) = b) /\
     (length b = 384%nat -> mlk_poly_tobytes (mlk_poly_frombytes b) = b)).
Proof. split; [exact encode_decode | exact decode_encode]. Qed.

Lemma mlk_serialization_roundtrip_witness :
  let b := map (fun i => Z.of_nat i mod 256) (seq 7 320) in mlk_poly_compress_d10 (mlk_poly_decompress_d10 b) = b.
Proof.
  intros b. assert (Hb : are_bytes b) by (apply is_u8_dec_list; vm_compute; reflexivity).
  exact (proj1 (proj2 (proj2 (proj2 (proj2 mlk_serialization_roundtrip b Hb)))) eq_refl).
Defined.
