(* ===== verification/MlkemSampling.v ===== *)
(** * ML-KEM sampling

    Model of [mlkem-native/mlkem/src/sampling.c]: uniform sampling by rejection from SHAKE128, and the centered binomial
    distribution. *)

From stdpp Require Import base list numbers.
From Stdlib Require Import ZArith Lia.
From S2P Require Import Prelude Fips202 Keccak Shake ShakeX4 Fips203 MlkemPoly MlkemNtt MlkemCompress.

#[local] Open Scope Z_scope.

Definition MLK_XOF_RATE : nat := SHAKE128_RATE.

(** ** Rejection sampling *)

(** [while (ctr < target && pos + 3 <= buflen)]: every pass advances [pos] by 3. *)
Fixpoint mlk_rej_uniform_loop (fuel : nat) (r : list Z) (target ctr pos : nat) (buf : bytes) (buflen : nat) : list Z * nat :=
  match fuel with
  | O => (r, ctr)
  | S fuel =>
      if Nat.ltb ctr target && Nat.leb (pos + 3) buflen then
        let val0 := Z.land (Z.lor (Z.shiftr (rd buf (pos + 0)) 0) (Z.shiftl (rd buf (pos + 1)) 8)) 0xFFF in
        let val1 := Z.land (Z.lor (Z.shiftr (rd buf (pos + 1)) 4) (Z.shiftl (rd buf (pos + 2)) 4)) 0xFFF in
        let pos := (pos + 3)%nat in
        let '(r, ctr) := if val0 <? MLKEM_Q then (wr r ctr val0, (ctr + 1)%nat) else (r, ctr) in
        let '(r, ctr) := if Nat.ltb ctr target && (val1 <? MLKEM_Q) then (wr r ctr val1, (ctr + 1)%nat) else (r, ctr) in
        mlk_rej_uniform_loop fuel r target ctr pos buf buflen
      else (r, ctr)
  end.

Definition mlk_rej_uniform (r : list Z) (target offset : nat) (buf : bytes) (buflen : nat) : list Z * nat :=
  mlk_rej_uniform_loop buflen r target offset 0 buf buflen.

Definition MLKEM_GEN_MATRIX_NBLOCKS : nat :=
  Z.to_nat ((12 * Z.of_nat MLKEM_N / 8 * Z.shiftl 1 12 / MLKEM_Q + Z.of_nat MLK_XOF_RATE) / Z.of_nat MLK_XOF_RATE).

(** [while (ctr < MLKEM_N)], one more block a pass; [None] when [fuel] blocks were not enough. *)
Fixpoint mlk_rej_more (fuel : nat) (entry : mlk_poly) (ctr : nat) (state : bytes) : option mlk_poly :=
  if Nat.ltb ctr MLKEM_N then
    match fuel with
    | O => None
    | S fuel =>
        let '(buf, state) := mlk_shake128_squeezeblocks 1 state in
        let '(entry, ctr) := mlk_rej_uniform entry MLKEM_N ctr buf MLK_XOF_RATE in
        mlk_rej_more fuel entry ctr state
    end
  else Some entry.

Definition mlk_poly_rej_uniform (fuel : nat) (entry : mlk_poly) (seed : bytes) : option mlk_poly :=
  let state := mlk_shake128_absorb_once seed in
  let '(buf, state) := mlk_shake128_squeezeblocks MLKEM_GEN_MATRIX_NBLOCKS state in
  let buflen := (MLKEM_GEN_MATRIX_NBLOCKS * MLK_XOF_RATE)%nat in
  let '(entry, ctr) := mlk_rej_uniform entry MLKEM_N 0 buf buflen in
  mlk_rej_more fuel entry ctr state.

(** The four polynomials, their counters and the four states in step. *)
Definition mlk_rej_uniform_4 (vecs : list (mlk_poly * nat)) (bufs : list bytes) (buflen : nat) : list (mlk_poly * nat) :=
  zip_with (fun '(vec, ctr) buf => mlk_rej_uniform vec MLKEM_N ctr buf buflen) vecs bufs.

Fixpoint mlk_rej_more_x4 (fuel : nat) (vecs : list (mlk_poly * nat)) (statex : list bytes) : option (list mlk_poly) :=
  if existsb (fun '(_, ctr) => Nat.ltb ctr MLKEM_N) vecs then
    match fuel with
    | O => None
    | S fuel =>
        let '(bufs, statex) := mlk_shake128x4_squeezeblocks 1 statex in
        mlk_rej_more_x4 fuel (mlk_rej_uniform_4 vecs bufs MLK_XOF_RATE) statex
    end
  else Some (map fst vecs).

Definition mlk_poly_rej_uniform_x4 (fuel : nat) (vecs : list mlk_poly) (seed : list bytes) : option (list mlk_poly) :=
  let statex := mlk_shake128x4_absorb_once seed 34 in
  let '(bufs, statex) := mlk_shake128x4_squeezeblocks MLKEM_GEN_MATRIX_NBLOCKS statex in
  let buflen := (MLKEM_GEN_MATRIX_NBLOCKS * MLK_XOF_RATE)%nat in
  mlk_rej_more_x4 fuel (mlk_rej_uniform_4 (map (fun v => (v, 0%nat)) vecs) bufs buflen) statex.

(** ** Centered binomial distribution *)

Definition mlk_load32_littleendian (x : bytes) : Z :=
  Z.lor (Z.lor (Z.lor (rd x 0) (Z.shiftl (rd x 1) 8)) (Z.shiftl (rd x 2) 16)) (Z.shiftl (rd x 3) 24).

Definition mlk_poly_cbd2 (buf : bytes) : mlk_poly :=
  concat (map (fun i =>
    let t := mlk_load32_littleendian (drop (4 * i) buf) in
    let d := Z.land t 0x55555555 in
    let d := u32 (d + Z.land (Z.shiftr t 1) 0x55555555) in
    map (fun j =>
      let a := Z.land (Z.shiftr d (Z.of_nat (4 * j + 0))) 0x3 in
      let b := Z.land (Z.shiftr d (Z.of_nat (4 * j + 2))) 0x3 in
      i16 (a - b)) (seq 0 8)) (seq 0 (MLKEM_N / 8))).

Definition mlk_load24_littleendian (x : bytes) : Z :=
  Z.lor (Z.lor (rd x 0) (Z.shiftl (rd x 1) 8)) (Z.shiftl (rd x 2) 16).

Definition mlk_poly_cbd3 (buf : bytes) : mlk_poly :=
  concat (map (fun i =>
    let t := mlk_load24_littleendian (drop (3 * i) buf) in
    let d := Z.land t 0x00249249 in
    let d := u32 (d + Z.land (Z.shiftr t 1) 0x00249249) in
    let d := u32 (d + Z.land (Z.shiftr t 2) 0x00249249) in
    map (fun j =>
      let a := Z.land (Z.shiftr d (Z.of_nat (6 * j + 0))) 0x7 in
      let b := Z.land (Z.shiftr d (Z.of_nat (6 * j + 3))) 0x7 in
      i16 (a - b)) (seq 0 4)) (seq 0 (MLKEM_N / 4))).

(** ** Numbers given by their bits and digits *)

Lemma lor_shift a b n : 0 <= n -> 0 <= a < 2 ^ n -> Z.lor a (Z.shiftl b n) = a + b * 2 ^ n.
Proof.
  intros Hn Ha. assert (E : Z.land a (Z.shiftl b n) = 0).
  { apply Z.bits_inj'. intros i Hi. rewrite Z.land_spec, Z.bits_0, Z.shiftl_spec by exact Hi.
    destruct (Z.lt_ge_cases i n); [rewrite (Z.testbit_neg_r b) by lia; apply andb_false_r | now rewrite (testbit_above a n)]. }
  rewrite <- Z.lxor_lor by exact E. rewrite <- Z.add_nocarry_lxor by exact E. rewrite Z.shiftl_mul_pow2 by exact Hn. reflexivity.
Qed.

Lemma bits_byte_app b1 b2 : bits_byte (b1 ++ b2) = bits_byte b1 + 2 ^ Z.of_nat (length b1) * bits_byte b2.
Proof.
  induction b1 as [|x b1 IH]; [cbn [app length]; change (bits_byte []) with 0; change (2 ^ Z.of_nat 0) with 1; lia |].
  cbn [bits_byte fold_right app length]. fold (bits_byte b1). fold (bits_byte (b1 ++ b2)).
  rewrite IH, Nat2Z.inj_succ, Z.pow_succ_r by lia. lia.
Qed.

Lemma bits_cons x l : bits (x :: l) = byte_bits x ++ bits l.
Proof. reflexivity. Qed.

Lemma bits_byte_bytes l : are_bytes l -> bits_byte (bits l) = le64 l.
Proof.
  induction l as [|x l IH]; intros Hl; [reflexivity |]. apply Forall_cons_1 in Hl as [Hx Hl].
  rewrite bits_cons, bits_byte_app, bits_byte_bits, IH by assumption. reflexivity.
Qed.

Lemma load32_bits x : length x = 4%nat -> are_bytes x -> mlk_load32_littleendian x = bits_byte (bits x).
Proof.
  intros Hl Hx. rewrite bits_byte_bytes by exact Hx. list_of_length x Hl. clear Hl.
  unfold are_bytes in Hx. repeat match goal with H : Forall _ (_ :: _) |- _ => apply Forall_cons_1 in H as [? H] end.
  unfold is_u8 in *. unfold mlk_load32_littleendian, rd. cbn [nth].
  rewrite (lor_shift _ _ 8), (lor_shift _ _ 16), (lor_shift _ _ 24) by lia. cbn [le64 fold_right]. lia.
Qed.

Lemma load24_bits x : length x = 3%nat -> are_bytes x -> mlk_load24_littleendian x = bits_byte (bits x).
Proof.
  intros Hl Hx. rewrite bits_byte_bytes by exact Hx. list_of_length x Hl. clear Hl.
  unfold are_bytes in Hx. repeat match goal with H : Forall _ (_ :: _) |- _ => apply Forall_cons_1 in H as [? H] end.
  unfold is_u8 in *. unfold mlk_load24_littleendian, rd. cbn [nth].
  rewrite (lor_shift _ _ 8), (lor_shift _ _ 16) by lia. cbn [le64 fold_right]. lia.
Qed.

Lemma nth_drop_bool (b : list bool) k i : nth i (drop k b) false = nth (k + i) b false.
Proof. revert b. induction k as [|k IH]; intros b; [reflexivity |]. destruct b as [|x b]; [now destruct i |]. cbn [drop Nat.add nth]. apply IH. Qed.

Lemma shiftr_bits b k : Z.shiftr (bits_byte b) (Z.of_nat k) = bits_byte (drop k b).
Proof.
  apply Z.bits_inj'. intros i Hi. rewrite Z.shiftr_spec by exact Hi. rewrite <- (Z2Nat.id i) by exact Hi.
  rewrite <- Nat2Z.inj_add, !testbit_bits_byte, nth_drop_bool. f_equal. lia.
Qed.

Lemma nth_zip_andb (a b : list bool) i : nth i (zip_with andb a b) false = nth i a false && nth i b false.
Proof.
  revert b i. induction a as [|x a IH]; intros b i; [now destruct i |]. destruct b as [|y b]; [destruct i; cbn; now rewrite andb_false_r |].
  destruct i as [|i]; [reflexivity |]. exact (IH b i).
Qed.

Lemma land_bits a b : Z.land (bits_byte a) (bits_byte b) = bits_byte (zip_with andb a b).
Proof.
  apply Z.bits_inj'. intros i Hi. rewrite Z.land_spec. rewrite <- (Z2Nat.id i) by exact Hi.
  now rewrite !testbit_bits_byte, nth_zip_andb.
Qed.

(** Digits in base [B], least significant first. *)
Definition dig (B : Z) (l : list Z) : Z := fold_right (fun x acc => x + B * acc) 0 l.

Lemma dig_range B l : 0 < B -> Forall (fun x => 0 <= x < B) l -> 0 <= dig B l < B ^ Z.of_nat (length l).
Proof.
  intros HB Hl. induction Hl as [|x l Hx Hl IH]; [cbn; lia |]. cbn [dig fold_right length]. fold (dig B l).
  rewrite Nat2Z.inj_succ, Z.pow_succ_r by lia. nia.
Qed.

Lemma dig_digit B l k : 0 < B -> Forall (fun x => 0 <= x < B) l -> dig B l / B ^ Z.of_nat k mod B = nth k l 0.
Proof.
  intros HB Hl. revert k. induction Hl as [|x l Hx Hl IH]; intros k.
  - cbn [dig fold_right]. rewrite Z.div_0_l, Z.mod_0_l by (try apply Z.pow_nonzero; lia). now destruct k.
  - cbn [dig fold_right]. fold (dig B l). destruct k as [|k].
    + cbn [nth]. change (B ^ Z.of_nat 0) with 1. rewrite Z.div_1_r, Z.mul_comm, Z.mod_add, Z.mod_small by lia. reflexivity.
    + rewrite Nat2Z.inj_succ, Z.pow_succ_r by lia. rewrite <- Z.div_div by (try apply Z.pow_pos_nonneg; lia).
      rewrite Z.mul_comm, Z.div_add by lia. rewrite (Z.div_small x B Hx), Z.add_0_l. apply IH.
Qed.

(** ** The centered binomial distribution against the reference *)

Lemma count_bits_range b : 0 <= count_bits b <= Z.of_nat (length b).
Proof. induction b as [|x b IH]; [cbn; lia |]. cbn [count_bits fold_right length]. fold (count_bits b). destruct x; cbn [Z.b2z]; lia. Qed.

(** The bit counts of the groups of [eta] bits. *)
Fixpoint group_counts (n eta : nat) (b : list bool) : list Z :=
  match n with O => [] | S n => count_bits (take eta b) :: group_counts n eta (drop eta b) end.

Lemma group_counts_range n eta b B : Z.of_nat eta < B -> Forall (fun x => 0 <= x < B) (group_counts n eta b).
Proof.
  intros HB. revert b. induction n as [|n IH]; intros b; cbn [group_counts]; [apply Forall_nil_2 |].
  apply Forall_cons_2; [| apply IH]. pose proof (count_bits_range (take eta b)). pose proof (length_take b eta). lia.
Qed.

Lemma cbd_bits_counts n eta : forall b, cbd_bits n eta b =
  map (fun j => nth (2 * j) (group_counts (2 * n) eta b) 0 - nth (2 * j + 1) (group_counts (2 * n) eta b) 0) (seq 0 n).
Proof.
  induction n as [|n IH]; intros b; [reflexivity |]. replace (2 * S n)%nat with (S (S (2 * n))) by lia.
  cbn [cbd_bits group_counts seq map]. f_equal. rewrite <- (seq_shift n 0), map_map, IH.
  replace (drop (2 * eta) b) with (drop eta (drop eta b)) by (rewrite drop_drop; f_equal; lia).
  apply map_ext. intros j. replace (2 * S j)%nat with (S (S (2 * j))) by lia. reflexivity.
Qed.

(** Coefficient [j] of a group, from the counts packed in fields of [w] bits. *)
Lemma cbd_fields n eta w b : 0 < w -> Z.of_nat eta < 2 ^ w <= 8 ->
  map (fun j => i16 (Z.land (Z.shiftr (dig (2 ^ w) (group_counts (2 * n) eta b)) (w * Z.of_nat (2 * j))) (Z.ones w) -
                     Z.land (Z.shiftr (dig (2 ^ w) (group_counts (2 * n) eta b)) (w * Z.of_nat (2 * j + 1))) (Z.ones w))) (seq 0 n)
  = cbd_bits n eta b.
Proof.
  intros Hw HB. rewrite cbd_bits_counts. apply map_ext_in. intros j Hj. apply in_seq in Hj.
  assert (Hr : Forall (fun x => 0 <= x < 2 ^ w) (group_counts (2 * n) eta b)) by (apply group_counts_range; lia).
  assert (Hd : forall k, Z.land (Z.shiftr (dig (2 ^ w) (group_counts (2 * n) eta b)) (w * Z.of_nat k)) (Z.ones w)
                         = nth k (group_counts (2 * n) eta b) 0).
  { intros k. rewrite Z.land_ones, Z.shiftr_div_pow2, Z.pow_mul_r by lia. apply dig_digit; [lia | exact Hr]. }
  rewrite !Hd. apply i16_id.
  assert (Hn : forall k, 0 <= nth k (group_counts (2 * n) eta b) 0 < 8).
  { intros k. destruct (Nat.lt_ge_cases k (length (group_counts (2 * n) eta b))) as [Hk | Hk].
    - rewrite List.Forall_forall in Hr. specialize (Hr _ (nth_In _ 0 Hk)). lia.
    - rewrite nth_overflow by exact Hk. lia. }
  pose proof (Hn (2 * j)%nat). pose proof (Hn (2 * j + 1)%nat). lia.
Qed.

Ltac bool_list b Hl := do 33 (try (destruct b as [|? b]; try discriminate Hl)).

Lemma cbd2_word b : length b = 32%nat ->
  u32 (Z.land (bits_byte b) 0x55555555 + Z.land (Z.shiftr (bits_byte b) 1) 0x55555555) = dig 4 (group_counts 16 2 b).
Proof.
  intros Hl. change 0x55555555 with (bits_byte (concat (repeat [true; false] 16))). 
  rewrite (shiftr_bits b 1 : Z.shiftr (bits_byte b) 1 = _), !land_bits.
  pose proof (dig_range 4 (group_counts 16 2 b) ltac:(lia) (group_counts_range 16 2 b 4 ltac:(lia))) as Hr.
  replace (bits_byte _ + bits_byte _) with (dig 4 (group_counts 16 2 b)).
  - apply u32_id. unfold is_u32. exact Hr.
  - clear Hr. bool_list b Hl. cbn [repeat concat app zip_with drop take group_counts dig bits_byte fold_right count_bits].
    rewrite ?andb_true_r, ?andb_false_r. cbn [Z.b2z]. lia.
Qed.

Lemma cbd3_word b : length b = 24%nat ->
  u32 (u32 (Z.land (bits_byte b) 0x249249 + Z.land (Z.shiftr (bits_byte b) 1) 0x249249) + Z.land (Z.shiftr (bits_byte b) 2) 0x249249)
  = dig 8 (group_counts 8 3 b).
Proof.
  intros Hl. change 0x249249 with (bits_byte (concat (repeat [true; false; false] 8))).
  rewrite (shiftr_bits b 1 : Z.shiftr (bits_byte b) 1 = _), (shiftr_bits b 2 : Z.shiftr (bits_byte b) 2 = _), !land_bits.
  pose proof (dig_range 8 (group_counts 8 3 b) ltac:(lia) (group_counts_range 8 3 b 8 ltac:(lia))) as Hr.
  change (8 ^ Z.of_nat (length (group_counts 8 3 b))) with (2 ^ 24) in Hr.
  assert (E : bits_byte (zip_with andb b (concat (repeat [true; false; false] 8))) +
              bits_byte (zip_with andb (drop 1 b) (concat (repeat [true; false; false] 8))) +
              bits_byte (zip_with andb (drop 2 b) (concat (repeat [true; false; false] 8))) = dig 8 (group_counts 8 3 b)).
  { clear Hr. bool_list b Hl. cbn [repeat concat app zip_with drop take group_counts dig bits_byte fold_right count_bits].
    rewrite ?andb_true_r, ?andb_false_r. cbn [Z.b2z]. lia. }
  pose proof (fun l => proj1 (bits_byte_range l)) as Hpos. revert E.
  generalize (Hpos (zip_with andb b (concat (repeat [true; false; false] 8)))).
  generalize (Hpos (zip_with andb (drop 1 b) (concat (repeat [true; false; false] 8)))).
  generalize (Hpos (zip_with andb (drop 2 b) (concat (repeat [true; false; false] 8)))).
  generalize (bits_byte (zip_with andb b (concat (repeat [true; false; false] 8)))) as x.
  generalize (bits_byte (zip_with andb (drop 1 b) (concat (repeat [true; false; false] 8)))) as y.
  generalize (bits_byte (zip_with andb (drop 2 b) (concat (repeat [true; false; false] 8)))) as z.
  intros z y x Hz Hy Hx E. rewrite (u32_id (x + y)) by (unfold is_u32; lia). rewrite E. apply u32_id. unfold is_u32. lia.
Qed.

Lemma cbd_bits_app n1 n2 eta b1 b2 : length b1 = (2 * eta * n1)%nat ->
  cbd_bits (n1 + n2) eta (b1 ++ b2) = cbd_bits n1 eta b1 ++ cbd_bits n2 eta b2.
Proof.
  revert b1. induction n1 as [|n1 IH]; intros b1 Hl; [destruct b1; [reflexivity | cbn in Hl; lia] |].
  cbn [cbd_bits Nat.add app]. rewrite drop_app_le by lia. rewrite !take_app_le by (rewrite ?length_drop; lia).
  f_equal. rewrite drop_app_le by lia. apply IH. rewrite length_drop. lia.
Qed.

Lemma cbd_groups eta n w m (f : bytes -> list Z) : (8 * w = 2 * eta * n)%nat -> forall buf, length buf = (w * m)%nat -> are_bytes buf ->
  (forall x, length x = w -> are_bytes x -> f x = cbd_bits n eta (bits x)) ->
  concat (map (fun i => f (take w (drop (w * i) buf))) (seq 0 m)) = cbd_bits (n * m) eta (bits buf).
Proof.
  intros Hw buf Hl Hb Hf. revert buf Hl Hb. induction m as [|m IH]; intros buf Hl Hb; [now rewrite Nat.mul_0_r |].
  cbn [seq map concat]. rewrite <- (seq_shift m 0), map_map, Nat.mul_0_r, drop_0.
  rewrite (map_ext _ (fun i => f (take w (drop (w * i) (drop w buf))))) by (intros i; rewrite drop_drop; do 3 f_equal; lia).
  rewrite IH by (try (rewrite length_drop; lia); now apply Forall_drop).
  rewrite Hf by (try (rewrite length_take; lia); now apply Forall_take).
  replace (n * S m)%nat with (n + n * m)%nat by lia. rewrite <- cbd_bits_app by (rewrite length_bits, length_take; nia).
  f_equal. unfold bits. now rewrite <- concat_app, <- map_app, take_drop.
Qed.

Lemma cbd2_exact buf : length buf = 128%nat -> are_bytes buf -> mlk_poly_cbd2 buf = SamplePolyCBD 2 buf.
Proof.
  intros Hl Hb. unfold mlk_poly_cbd2, SamplePolyCBD.
  set (f x := cbd_bits 8 2 (bits x)). rewrite <- (cbd_groups 2 8 4 32 f) by auto. f_equal.
  apply map_ext_in. intros i Hi. apply in_seq in Hi. change (MLKEM_N / 8)%nat with 32%nat in Hi.
  assert (Hx : length (take 4 (drop (4 * i) buf)) = 4%nat) by (rewrite length_take, length_drop; lia).
  replace (mlk_load32_littleendian (drop (4 * i) buf)) with (mlk_load32_littleendian (take 4 (drop (4 * i) buf)))
    by (unfold mlk_load32_littleendian; now rewrite !rd_take by lia).
  rewrite load32_bits by (auto; now apply Forall_take, Forall_drop). unfold f.
  cbv zeta. rewrite cbd2_word by (rewrite length_bits, Hx; reflexivity).
  rewrite <- (cbd_fields 8 2 2) by lia. apply map_ext. intros j. change (Z.ones 2) with 3. change (2 ^ 2) with 4.
  change (2 * 8)%nat with 16%nat. do 5 f_equal; lia.
Qed.

Lemma cbd3_exact buf : length buf = 192%nat -> are_bytes buf -> mlk_poly_cbd3 buf = SamplePolyCBD 3 buf.
Proof.
  intros Hl Hb. unfold mlk_poly_cbd3, SamplePolyCBD.
  set (f x := cbd_bits 4 3 (bits x)). rewrite <- (cbd_groups 3 4 3 64 f) by auto. f_equal.
  apply map_ext_in. intros i Hi. apply in_seq in Hi. change (MLKEM_N / 4)%nat with 64%nat in Hi.
  assert (Hx : length (take 3 (drop (3 * i) buf)) = 3%nat) by (rewrite length_take, length_drop; lia).
  replace (mlk_load24_littleendian (drop (3 * i) buf)) with (mlk_load24_littleendian (take 3 (drop (3 * i) buf)))
    by (unfold mlk_load24_littleendian; now rewrite !rd_take by lia).
  rewrite load24_bits by (auto; now apply Forall_take, Forall_drop). unfold f.
  cbv zeta. rewrite cbd3_word by (rewrite length_bits, Hx; reflexivity).
  rewrite <- (cbd_fields 4 3 3) by lia. apply map_ext. intros j. change (Z.ones 3) with 7. change (2 ^ 3) with 8.
  change (2 * 4)%nat with 8%nat. do 5 f_equal; lia.
Qed.

Lemma SamplePolyCBD_bound eta B : polyb (Z.of_nat eta + 1) (SamplePolyCBD eta B).
Proof.
  unfold SamplePolyCBD. generalize (bits B) as b.
  assert (H : forall n b, length (cbd_bits n eta b) = n /\ Forall (fun c => Z.abs c < Z.of_nat eta + 1) (cbd_bits n eta b)).
  { induction n as [|n IH]; intros b; [split; [reflexivity | apply Forall_nil_2] |]. cbn [cbd_bits length].
    destruct (IH (drop (2 * eta) b)) as [H1 H2]. split; [now rewrite H1 |]. apply Forall_cons_2; [| exact H2].
    pose proof (count_bits_range (take eta b)). pose proof (count_bits_range (take eta (drop eta b))).
    pose proof (length_take b eta). pose proof (length_take (drop eta b) eta). lia. }
  intros b. exact (H 256%nat b).
Qed.

(** ** Rejection sampling against the reference *)

Lemma accepted_app b1 b2 n : length b1 = (3 * n)%nat -> accepted (b1 ++ b2) = accepted b1 ++ accepted b2.
Proof.
  revert b1. induction n as [|n IH]; intros b1 Hl; [destruct b1; [reflexivity | discriminate] |].
  destruct b1 as [|c0 [|c1 [|c2 b1]]]; try (cbn in Hl; lia). cbn [app accepted]. rewrite IH by (cbn in Hl; lia). now rewrite !app_assoc.
Qed.

Lemma accepted_range b : are_bytes b -> Forall (fun c => 0 <= c < q) (accepted b).
Proof.
  assert (H : forall n b, (length b <= n)%nat -> are_bytes b -> Forall (fun c => 0 <= c < q) (accepted b)).
  { clear b. induction n as [|n IH]; intros b Hl Hb; [destruct b; [apply Forall_nil_2 | cbn in Hl; lia] |].
    destruct b as [|c0 [|c1 [|c2 b]]]; try apply Forall_nil_2. cbn [accepted].
    apply Forall_cons_1 in Hb as [H0 Hb]. apply Forall_cons_1 in Hb as [H1 Hb]. apply Forall_cons_1 in Hb as [H2 Hb].
    unfold is_u8 in *. pose proof (Z.mod_pos_bound c1 16 ltac:(lia)). pose proof (Z.div_pos c1 16 ltac:(lia) ltac:(lia)).
    rewrite !Forall_app. repeat split; [| | apply IH; [cbn in Hl; lia | exact Hb]].
    - destruct (Z.ltb_spec (c0 + 256 * (c1 mod 16)) q); [apply Forall_singleton; lia | apply Forall_nil_2].
    - destruct (Z.ltb_spec (c1 / 16 + 16 * c2) q); [apply Forall_singleton; lia | apply Forall_nil_2]. }
  intros Hb. now apply (H (length b)).
Qed.

(** The two candidates of three bytes. *)
Lemma candidates c0 c1 c2 : is_u8 c0 -> is_u8 c1 -> is_u8 c2 ->
  Z.land (Z.lor (Z.shiftr c0 0) (Z.shiftl c1 8)) 0xFFF = c0 + 256 * (c1 mod 16) /\
  Z.land (Z.lor (Z.shiftr c1 4) (Z.shiftl c2 4)) 0xFFF = c1 / 16 + 16 * c2.
Proof.
  intros H0 H1 H2. unfold is_u8 in *. rewrite Z.shiftr_0_r.
  change 0xFFF with (Z.ones 12). rewrite !Z.land_ones by lia.
  assert (Hd : 0 <= c1 / 2 ^ 4 < 2 ^ 4) by (split; [apply Z.div_pos | apply Z.div_lt_upper_bound]; lia).
  rewrite (lor_shift c0 c1 8), Z.shiftr_div_pow2, (lor_shift (c1 / 2 ^ 4) c2 4) by lia.
  change (2 ^ 4) with 16. change (2 ^ 8) with 256. change (2 ^ 12) with (256 * 16). split.
  - rewrite Z.rem_mul_r by lia. rewrite Z.add_mod, Z.mod_mul, Z.add_0_r, Z.mod_mod, Z.mod_small, Z.div_add by lia.
    rewrite (Z.div_small c0) by lia. reflexivity.
  - change (2 ^ 4) with 16 in Hd. rewrite Z.mod_small; lia.
Qed.

(** The array [r] holds the values [A] (at most 256 of them) in front. *)
Definition filled (A : list Z) (r : list Z) (ctr : nat) : Prop :=
  length r = 256%nat /\ ctr = length (take 256 A) /\ take ctr r = take 256 A.

Lemma filled_push A r ctr v : (ctr < 256)%nat -> filled A r ctr -> filled (A ++ [v]) (wr r ctr v) (ctr + 1).
Proof.
  intros Hc (Hr & Hctr & Ht). rewrite length_take in Hctr. assert (HA : length A = ctr) by lia.
  repeat split; [now rewrite length_wr | rewrite length_take, length_app; cbn [length]; lia |].
  rewrite Nat.add_1_r, take_S_wr by lia. rewrite Ht, (take_ge A) by lia. symmetry. apply take_ge. rewrite length_app. cbn [length]. lia.
Qed.

Lemma filled_full A B r : filled A r 256 -> filled (A ++ B) r 256.
Proof.
  intros (Hr & Hctr & Ht). rewrite length_take in Hctr. repeat split; [exact Hr | rewrite length_take, length_app; lia |].
  rewrite Ht. symmetry. apply take_app_le. lia.
Qed.

Lemma filled_le A r ctr : filled A r ctr -> (ctr <= 256)%nat.
Proof. intros (_ & -> & _). rewrite length_take. lia. Qed.

Definition opt_value (v : Z) : list Z := if v <? q then [v] else [].

Lemma filled_candidate A r ctr v : filled A r ctr ->
  let '(r', ctr') := if Nat.ltb ctr 256 && (v <? MLKEM_Q) then (wr r ctr v, (ctr + 1)%nat) else (r, ctr) in
  filled (A ++ opt_value v) r' ctr'.
Proof.
  intros H. pose proof (filled_le _ _ _ H) as Hle. unfold opt_value. change MLKEM_Q with q.
  destruct (Nat.ltb_spec ctr 256), (v <? q); cbn [andb]; rewrite ?app_nil_r; auto using filled_push.
  replace ctr with 256%nat in * by lia. now apply filled_full.
Qed.

Lemma drop_3 (buf : bytes) pos : (pos + 3 <= length buf)%nat ->
  drop pos buf = rd buf (pos + 0) :: rd buf (pos + 1) :: rd buf (pos + 2) :: drop (pos + 3) buf.
Proof.
  intros H. rewrite (drop_S buf (rd buf (pos + 0)) pos) by (rewrite Nat.add_0_r; apply rd_in_range; lia).
  rewrite (drop_S buf (rd buf (pos + 1)) (S pos)) by (replace (S pos) with (pos + 1)%nat by lia; apply rd_in_range; lia).
  rewrite (drop_S buf (rd buf (pos + 2)) (S (S pos))) by (replace (S (S pos)) with (pos + 2)%nat by lia; apply rd_in_range; lia).
  do 4 f_equal. lia.
Qed.

Lemma rej_uniform_loop_filled K buf : length buf = (3 * K)%nat -> are_bytes buf -> forall fuel A r ctr k,
  (K - k <= fuel)%nat -> (k <= K)%nat -> filled A r ctr ->
  let '(r', ctr') := mlk_rej_uniform_loop fuel r 256 ctr (3 * k) buf (3 * K) in
  filled (A ++ accepted (drop (3 * k) buf)) r' ctr'.
Proof.
  intros Hl Hb. induction fuel as [|fuel IH]; intros A r ctr k Hf Hk HA; cbn [mlk_rej_uniform_loop].
  { replace k with K by lia. rewrite <- Hl, drop_all. cbn [accepted]. now rewrite app_nil_r. }
  pose proof (filled_le _ _ _ HA) as Hle.
  destruct (Nat.ltb_spec ctr 256) as [Hc | Hc]; cbn [andb].
  2: { replace ctr with 256%nat in * by lia. now apply filled_full. }
  destruct (Nat.leb_spec (3 * k + 3) (3 * K)) as [Hp | Hp].
  2: { replace k with K by lia. rewrite <- Hl, drop_all. cbn [accepted]. now rewrite app_nil_r. }
  rewrite (drop_3 buf (3 * k)) by lia. cbn [accepted].
  destruct (candidates (rd buf (3 * k + 0)) (rd buf (3 * k + 1)) (rd buf (3 * k + 2))) as [E0 E1]; try (now apply rd_is_u8).
  cbv zeta. rewrite E0, E1. set (v0 := rd buf (3 * k + 0) + _). set (v1 := rd buf (3 * k + 1) / 16 + _).
  change (if v0 <? q then [v0] else []) with (opt_value v0). change (if v1 <? q then [v1] else []) with (opt_value v1).
  rewrite !app_assoc.
  pose proof (filled_candidate A r ctr v0 HA) as F0.
  destruct (Nat.ltb_spec ctr 256) as [_ | ?]; [| lia]. cbn [andb] in F0.
  destruct (if v0 <? MLKEM_Q then _ else _) as [r1 ctr1].
  pose proof (filled_candidate _ r1 ctr1 v1 F0) as F1.
  destruct (if Nat.ltb ctr1 256 && _ then _ else _) as [r2 ctr2].
  specialize (IH _ r2 ctr2 (k + 1)%nat ltac:(lia) ltac:(lia) F1).
  replace (3 * (k + 1))%nat with (3 * k + 3)%nat in IH by lia. exact IH.
Qed.

Lemma rej_uniform_filled K buf A r ctr : length buf = (3 * K)%nat -> are_bytes buf -> filled A r ctr ->
  let '(r', ctr') := mlk_rej_uniform r MLKEM_N ctr buf (3 * K) in filled (A ++ accepted buf) r' ctr'.
Proof. intros Hl Hb HA. exact (rej_uniform_loop_filled K buf Hl Hb (3 * K) A r ctr 0 ltac:(lia) ltac:(lia) HA). Qed.

(** ** The XOF stream *)

(** [n] blocks of the SHAKE128 output on [seed]. *)
Definition xof (seed : bytes) (n : nat) : bytes := SHAKE128 seed (168 * n).

Lemma keccak_sponge_bytes r sfx m d : are_bytes (keccak_sponge r sfx m d).
Proof.
  apply Forall_take. assert (H : forall n S, are_bytes S -> are_bytes (squeeze n r S)).
  { induction n as [|n IH]; intros S HS; cbn [squeeze]; [now apply Forall_take |].
    apply Forall_app. split; [now apply Forall_take | apply IH, keccak_f_bytes]. }
  apply H. apply absorb_state; [apply length_zeros | apply zeros_bytes].
Qed.

Section Xof.
Context (seed : bytes) (Hseed : are_bytes seed).

(** The state after [n] blocks. *)
Definition xof_at (n : nat) (s : bytes) : Prop :=
  squeezing SHAKE128_RATE (mlk_shake128_absorb_once seed) (168 * n) s SHAKE128_RATE.

Lemma xof_init : xof_at 0 (mlk_shake128_absorb_once seed).
Proof. apply squeezing_init. unfold SHAKE128_RATE. lia. Qed.

Lemma xof_sub n k N : (n + k <= N)%nat ->
  let S0 := mlk_shake128_absorb_once seed in
  xof seed n ++ sub (squeeze N SHAKE128_RATE (keccak_f S0)) (168 * n) (168 * k) = xof seed (n + k).
Proof.
  intros HN S0. destruct (mlk_absorb_once_padded 168 ltac:(lia) seed _ _ Hseed domain_shake ltac:(lia)) as (Hl & Hb & E).
  unfold xof, SHAKE128, keccak_sponge. rewrite <- E. change SHAKE128_RATE with 168%nat.
  change (mlk_keccak_absorb_once 168 seed 31) with S0. set (S1 := keccak_f S0).
  assert (HS1 : length S1 = 200%nat) by apply length_keccak_f.
  rewrite <- (take_squeeze 168 ltac:(lia) (168 * n) N S1 HS1) by (rewrite Nat.mul_comm, Nat.div_mul; lia).
  rewrite <- (take_squeeze 168 ltac:(lia) (168 * (n + k)) N S1 HS1) by (rewrite Nat.mul_comm, Nat.div_mul; lia).
  unfold sub. rewrite take_take_drop. f_equal. lia.
Qed.

Lemma xof_blocks n k s : xof_at n s ->
  exists s', snd (mlk_shake128_squeezeblocks k s) = s' /\ xof_at (n + k) s' /\
    xof seed n ++ fst (mlk_shake128_squeezeblocks k s) = xof seed (n + k) /\
    length (fst (mlk_shake128_squeezeblocks k s)) = (168 * k)%nat /\ are_bytes (fst (mlk_shake128_squeezeblocks k s)).
Proof.
  intros Hs. destruct (mlk_absorb_once_padded 168 ltac:(lia) seed _ _ Hseed domain_shake ltac:(lia)) as (Hl & Hb & E).
  destruct (mlk_squeezeblocks_stream 168 ltac:(lia) _ (n + k) k Hl Hb (168 * n)%nat s ltac:(lia) Hs) as (s' & E' & Hs').
  unfold mlk_shake128_squeezeblocks. change SHAKE128_RATE with 168%nat in *. rewrite E'. cbn [fst snd].
  pose proof (xof_sub n k (n + k) ltac:(lia)) as Hx. cbv zeta in Hx. replace (k * 168)%nat with (168 * k)%nat by lia.
  exists s'. split; [reflexivity |]. split; [unfold xof_at; replace (168 * (n + k))%nat with (168 * n + k * 168)%nat by lia; exact Hs' |].
  split; [exact Hx |]. split.
  - apply length_sub. change SHAKE128_RATE with 168%nat. rewrite length_squeeze by (try apply length_keccak_f; lia). lia.
  - pose proof (keccak_sponge_bytes 168 [true; true; true; true] seed (168 * (n + k))) as Hby.
    unfold xof, SHAKE128 in Hx. rewrite <- Hx in Hby. apply Forall_app in Hby. tauto.
Qed.

Lemma length_xof n : length (xof seed n) = (168 * n)%nat.
Proof.
  destruct (xof_blocks 0 n _ xof_init) as (_ & _ & _ & E & Hl & _). change (0 + n)%nat with n in E. rewrite <- E.
  rewrite length_app, Hl. change (length (xof seed 0)) with 0%nat. lia.
Qed.

End Xof.

(** ** Sampling uniform polynomials *)

(** The coefficients that [n] blocks of the stream of [seed] yield. *)
Definition sampled (seed : bytes) (n : nat) : list Z := accepted (xof seed n).

(** The outcome with [n] blocks: the first 256 accepted values, if there are as many. *)
Definition SampleNTT (seed : bytes) (n : nat) : option mlk_poly :=
  if (256 <=? length (sampled seed n))%nat then Some (take 256 (sampled seed n)) else None.

Lemma sampled_more seed n k : are_bytes seed -> exists t, sampled seed (n + k) = sampled seed n ++ t.
Proof.
  intros Hs. destruct (mlk_absorb_once_padded 168 ltac:(lia) seed _ _ Hs domain_shake ltac:(lia)) as (Hl & Hb & _).
  exists (accepted (sub (squeeze (n + k) SHAKE128_RATE (keccak_f (mlk_shake128_absorb_once seed))) (168 * n) (168 * k))).
  unfold sampled. rewrite <- (xof_sub seed Hs n k (n + k)) by lia. apply (accepted_app _ _ (56 * n)). rewrite length_xof by exact Hs. lia.
Qed.

Lemma SampleNTT_full seed n k r : are_bytes seed -> filled (sampled seed n) r 256 -> SampleNTT seed (n + k) = Some r.
Proof.
  intros Hs (Hr & Hctr & Ht). rewrite length_take in Hctr. destruct (sampled_more seed n k Hs) as [t E].
  unfold SampleNTT. rewrite E, length_app. destruct (Nat.leb_spec 256 (length (sampled seed n) + length t)); [| lia].
  rewrite take_app_le by lia. rewrite <- Ht. now rewrite take_ge by lia.
Qed.

Lemma SampleNTT_short seed n r ctr : (ctr < 256)%nat -> filled (sampled seed n) r ctr -> SampleNTT seed n = None.
Proof.
  intros Hc (_ & Hctr & _). rewrite length_take in Hctr. unfold SampleNTT. destruct (Nat.leb_spec 256 (length (sampled seed n))); [lia | reflexivity].
Qed.

(** Reading [k] more blocks keeps the array filled with what the stream yields. *)
Lemma rej_blocks_filled seed n k s r ctr : are_bytes seed -> xof_at seed n s -> filled (sampled seed n) r ctr ->
  let '(buf, s') := mlk_shake128_squeezeblocks k s in
  let '(r', ctr') := mlk_rej_uniform r MLKEM_N ctr buf (k * MLK_XOF_RATE) in
  xof_at seed (n + k) s' /\ filled (sampled seed (n + k)) r' ctr'.
Proof.
  intros Hs Hx HA. destruct (xof_blocks seed Hs n k s Hx) as (s' & E1 & E2 & E3 & E4 & E5).
  destruct (mlk_shake128_squeezeblocks k s) as [buf s'']. cbn [fst snd] in *. subst s''.
  pose proof (rej_uniform_filled (56 * k) buf _ r ctr ltac:(lia) E5 HA) as H.
  replace (k * MLK_XOF_RATE)%nat with (3 * (56 * k))%nat by (unfold MLK_XOF_RATE, SHAKE128_RATE; lia).
  destruct (mlk_rej_uniform r MLKEM_N ctr buf _) as [r' ctr']. split; [exact E2 |].
  unfold sampled in *. rewrite <- E3, (accepted_app _ _ (56 * n)) by (rewrite length_xof by exact Hs; lia). exact H.
Qed.

Lemma rej_more_spec seed fuel : are_bytes seed -> forall n s r ctr, xof_at seed n s -> filled (sampled seed n) r ctr ->
  mlk_rej_more fuel r ctr s = SampleNTT seed (n + fuel).
Proof.
  intros Hs. induction fuel as [|fuel IH]; intros n s r ctr Hx HA; cbn [mlk_rej_more]; change MLKEM_N with 256%nat;
    pose proof (filled_le _ _ _ HA); destruct (Nat.ltb_spec ctr 256) as [Hc | Hc];
    try (replace ctr with 256%nat in HA by lia; symmetry; now apply (SampleNTT_full seed n)).
  - rewrite Nat.add_0_r. symmetry. now apply (SampleNTT_short seed n r ctr).
  - pose proof (rej_blocks_filled seed n 1 s r ctr Hs Hx HA) as H1.
    destruct (mlk_shake128_squeezeblocks 1 s) as [buf s']. change (1 * MLK_XOF_RATE)%nat with MLK_XOF_RATE in H1. change MLKEM_N with 256%nat in H1.
    destruct (mlk_rej_uniform r 256 ctr buf MLK_XOF_RATE) as [r' ctr']. destruct H1 as [H1 H2].
    rewrite (IH (n + 1)%nat s' r' ctr' H1 H2). f_equal. lia.
Qed.

Lemma filled_nil r : length r = 256%nat -> filled [] r 0.
Proof. intros H. repeat split. exact H. Qed.

Lemma poly_rej_uniform_spec fuel entry seed : length entry = 256%nat -> are_bytes seed ->
  mlk_poly_rej_uniform fuel entry seed = SampleNTT seed (3 + fuel).
Proof.
  intros He Hs. unfold mlk_poly_rej_uniform. change MLKEM_GEN_MATRIX_NBLOCKS with 3%nat.
  pose proof (rej_blocks_filled seed 0 3 _ entry 0 Hs (xof_init seed) (filled_nil entry He)) as H1.
  destruct (mlk_shake128_squeezeblocks 3 _) as [buf s]. destruct (mlk_rej_uniform entry MLKEM_N 0 buf _) as [r ctr].
  destruct H1 as [H1 H2]. exact (rej_more_spec seed fuel Hs 3 s r ctr H1 H2).
Qed.

(** ** Four at a time *)

Definition filled4 (n : nat) (seeds : list bytes) (vecs : list (mlk_poly * nat)) : Prop :=
  Forall2 (fun seed v => filled (sampled seed n) (fst v) (snd v)) seeds vecs.
Definition xof_at4 (n : nat) (seeds statex : list bytes) : Prop := Forall2 (fun seed s => xof_at seed n s) seeds statex.

Lemma rej_blocks_filled4 n k seeds : Forall are_bytes seeds -> forall statex vecs, xof_at4 n seeds statex -> filled4 n seeds vecs ->
  let '(bufs, statex') := mlk_shake128x4_squeezeblocks k statex in
  xof_at4 (n + k) seeds statex' /\ filled4 (n + k) seeds (mlk_rej_uniform_4 vecs bufs (k * MLK_XOF_RATE)).
Proof.
  intros Hs. unfold mlk_shake128x4_squeezeblocks. induction Hs as [|seed seeds Hseed Hs IH]; intros statex vecs Hx Hv.
  - inversion Hx; subst. inversion Hv; subst. rewrite squeezeblocks_x4_map. split; constructor.
  - inversion Hx as [|? s ? ss Hx1 Hx2]; subst. inversion Hv as [|? v ? vs Hv1 Hv2]; subst. specialize (IH ss vs Hx2 Hv2).
    pose proof (rej_blocks_filled seed n k s (fst v) (snd v) Hseed Hx1 Hv1) as H1.
    rewrite squeezeblocks_x4_map in *. cbn [map]. unfold mlk_shake128_squeezeblocks in H1. unfold mlk_rej_uniform_4 in *. cbn [zip_with].
    destruct v as [v c]. cbn [fst snd] in H1. destruct (mlk_keccak_squeezeblocks k s SHAKE128_RATE) as [buf s']. cbn [fst snd].
    destruct IH as [IH1 IH2]. destruct (mlk_rej_uniform v MLKEM_N c buf _) as [r' ctr']. destruct H1 as [H1 H2].
    split; constructor; auto.
Qed.

Definition SampleNTT4 (seeds : list bytes) (n : nat) : option (list mlk_poly) := mapM (fun seed => SampleNTT seed n) seeds.

Lemma SampleNTT4_done seeds vecs n k : Forall are_bytes seeds -> filled4 n seeds vecs ->
  existsb (fun '(_, ctr) => Nat.ltb ctr 256) vecs = false -> SampleNTT4 seeds (n + k) = Some (map fst vecs).
Proof.
  intros Hs Hv. induction Hv as [|seed v seeds vs Hv1 Hv2 IH]; intros He; [reflexivity |]. apply Forall_cons_1 in Hs as [Hs1 Hs].
  destruct v as [v c]. cbn [existsb] in He. apply orb_false_elim in He as [Hc He]. apply Nat.ltb_ge in Hc.
  cbn [fst snd] in Hv1. pose proof (filled_le _ _ _ Hv1). replace c with 256%nat in Hv1 by lia.
  unfold SampleNTT4 in *. cbn [mapM map fst]. rewrite (SampleNTT_full seed n k v Hs1 Hv1). cbn. now rewrite (IH Hs He).
Qed.

Lemma SampleNTT4_short seeds vecs n : filled4 n seeds vecs ->
  existsb (fun '(_, ctr) => Nat.ltb ctr 256) vecs = true -> SampleNTT4 seeds n = None.
Proof.
  intros Hv. induction Hv as [|seed v seeds vs Hv1 Hv2 IH]; intros He; [discriminate |].
  destruct v as [v c]. cbn [existsb] in He. unfold SampleNTT4 in *. cbn [mapM]. destruct (Nat.ltb_spec c 256) as [Hc | Hc].
  - now rewrite (SampleNTT_short seed n v c Hc Hv1).
  - cbn [orb] in He. destruct (SampleNTT seed n); [cbn; now rewrite (IH He) | reflexivity].
Qed.

Lemma rej_more_x4_spec seeds fuel : Forall are_bytes seeds -> forall n statex vecs, xof_at4 n seeds statex -> filled4 n seeds vecs ->
  mlk_rej_more_x4 fuel vecs statex = SampleNTT4 seeds (n + fuel).
Proof.
  intros Hs. induction fuel as [|fuel IH]; intros n statex vecs Hx HA; cbn [mlk_rej_more_x4]; change MLKEM_N with 256%nat;
    destruct (existsb _ vecs) eqn:He; try (symmetry; now apply SampleNTT4_done).
  - rewrite Nat.add_0_r. symmetry. now apply (SampleNTT4_short seeds vecs).
  - pose proof (rej_blocks_filled4 n 1 seeds Hs statex vecs Hx HA) as H1.
    destruct (mlk_shake128x4_squeezeblocks 1 statex) as [bufs statex']. destruct H1 as [H1 H2].
    change (1 * MLK_XOF_RATE)%nat with MLK_XOF_RATE in H2. rewrite (IH (n + 1)%nat statex' _ H1 H2). f_equal. lia.
Qed.

Lemma poly_rej_uniform_x4_spec fuel vecs seeds : length seeds = 4%nat -> length vecs = 4%nat -> Forall (fun v => length v = 256%nat) vecs ->
  Forall (fun s => length s = 34%nat) seeds -> Forall are_bytes seeds ->
  mlk_poly_rej_uniform_x4 fuel vecs seeds = SampleNTT4 seeds (3 + fuel).
Proof.
  intros H4 Hv4 Hv H34 Hs. unfold mlk_poly_rej_uniform_x4, mlk_shake128x4_absorb_once. change MLKEM_GEN_MATRIX_NBLOCKS with 3%nat.
  rewrite absorb_once_x4_map by assumption.
  assert (Hx : xof_at4 0 seeds (map (fun m => mlk_keccak_absorb_once SHAKE128_RATE m 31) seeds)).
  { clear. unfold xof_at4. induction seeds as [|s seeds IH]; constructor; [apply xof_init | exact IH]. }
  assert (HA : filled4 0 seeds (map (fun v => (v, 0%nat)) vecs)).
  { unfold filled4. clear - H4 Hv4 Hv. assert (Hl : length seeds = length vecs) by lia. clear H4 Hv4. revert vecs Hl Hv.
    induction seeds as [|s seeds IH]; intros [|v vecs] Hl Hv; try discriminate; constructor; apply Forall_cons_1 in Hv as [Hv1 Hv].
    - exact (filled_nil v Hv1).
    - apply IH; [cbn in Hl; lia | exact Hv]. }
  pose proof (rej_blocks_filled4 0 3 seeds Hs _ _ Hx HA) as H1.
  destruct (mlk_shake128x4_squeezeblocks 3 _) as [bufs statex]. destruct H1 as [H1 H2].
  exact (rej_more_x4_spec seeds fuel Hs 3 statex _ H1 H2).
Qed.

Lemma xof_bytes seed n : are_bytes (xof seed n).
Proof. apply keccak_sponge_bytes. Qed.

Lemma SampleNTT_canonical seed n p : SampleNTT seed n = Some p -> canonical p.
Proof.
  unfold SampleNTT. destruct (Nat.leb_spec 256 (length (sampled seed n))); [| discriminate]. intros [= <-].
  split; [rewrite length_take; lia |]. apply Forall_take, accepted_range, xof_bytes.
Qed.

Lemma SampleNTT_more seed n k p : are_bytes seed -> SampleNTT seed n = Some p -> SampleNTT seed (n + k) = Some p.
Proof.
  intros Hs. unfold SampleNTT. destruct (sampled_more seed n k Hs) as [t ->]. rewrite length_app.
  destruct (Nat.leb_spec 256 (length (sampled seed n))); [| discriminate]. intros [= <-].
  destruct (Nat.leb_spec 256 (length (sampled seed n) + length t)); [| lia]. now rewrite take_app_le by lia.
Qed.

(** ** Claims *)

(** C20. Rejection sampling of matrix entries terminates as soon as the XOF allows and returns what FIPS 203 prescribes.  With
    [3 + fuel] blocks of SHAKE128 output on the seed, [mlk_poly_rej_uniform] has not finished exactly when these blocks
    hold fewer than 256 accepted 12-bit candidates; otherwise it has returned the first 256 of them, all below q, whatever the
    polynomial held before, and more blocks would not change the result.  [mlk_poly_rej_uniform_x4], which squeezes four states in step
    until the slowest is done, returns the four results of the serial function. *)
Theorem mlk_rej_uniform_fips203 (fuel : nat) (entry : mlk_poly) (seed : bytes) (vecs : list mlk_poly) (seeds : list bytes)
  (Hentry : length entry = 256%nat) (Hseed : are_bytes seed)
  (Hvecs : length vecs = 4%nat /\ Forall (fun v => length v = 256%nat) vecs)
  (Hseeds : length seeds = 4%nat /\ Forall (fun s => length s = 34%nat) seeds /\ Forall are_bytes seeds) :
  (mlk_poly_rej_uniform fuel entry seed = None <-> (length (accepted (SHAKE128 seed (168 * (3 + fuel)))) < 256)%nat) /\
  (forall p, mlk_poly_rej_uniform fuel entry seed = Some p ->
     p = take 256 (accepted (SHAKE128 seed (168 * (3 + fuel)))) /\ canonical p /\
     forall k, mlk_poly_rej_uniform (fuel + k) entry seed = Some p) /\
  mlk_poly_rej_uniform_x4 fuel vecs seeds = mapM (mlk_poly_rej_uniform fuel entry) seeds.
Proof.
  destruct Hvecs as [Hv4 Hv]. destruct Hseeds as (H4 & H34 & Hs). split; [| split].
  - rewrite poly_rej_uniform_spec by assumption. unfold SampleNTT. fold (xof seed (3 + fuel)) (sampled seed (3 + fuel)).
    destruct (Nat.leb_spec 256 (length (sampled seed (3 + fuel)))); split; intros; (lia || discriminate || reflexivity).
  - intros p Hp. rewrite poly_rej_uniform_spec in Hp by assumption. split; [| split].
    + unfold SampleNTT in Hp. destruct (Nat.leb 256 _); [| discriminate]. now injection Hp as <-.
    + now apply (SampleNTT_canonical seed (3 + fuel)).
    + intros k. rewrite poly_rej_uniform_spec by assumption. rewrite Nat.add_assoc. now apply SampleNTT_more.
  - rewrite poly_rej_uniform_x4_spec by assumption. unfold SampleNTT4. clear H4 H34 Hv4 Hv.
    induction Hs as [|s seeds Hs1 Hs IH]; [reflexivity |]. cbn [mapM]. rewrite IH, poly_rej_uniform_spec by assumption. reflexivity.
Qed.

Lemma mlk_rej_uniform_fips203_witness :
  let seeds := [repeat 0 34; repeat 1 34; repeat 2 34; repeat 3 34] in
  match mlk_poly_rej_uniform 0 (zeros 256) (repeat 0 34) with Some p => canonical p | None => False end /\
  mlk_poly_rej_uniform_x4 1 (repeat (zeros 256) 4) seeds = mapM (mlk_poly_rej_uniform 1 (zeros 256)) seeds.
Proof.
  intros seeds. assert (Hb : Forall are_bytes seeds) by (repeat constructor; lia).
  assert (Hv : length (repeat (zeros 256) 4) = 4%nat /\ Forall (fun v => length v = 256%nat) (repeat (zeros 256) 4)) by (repeat constructor).
  assert (Hs : length seeds = 4%nat /\ Forall (fun s => length s = 34%nat) seeds /\ Forall are_bytes seeds) by (repeat split; auto; repeat constructor).
  assert (H0 : are_bytes (repeat 0 34)) by (apply is_u8_dec_list; reflexivity).
  split; [| exact (proj2 (proj2 (mlk_rej_uniform_fips203 1 (zeros 256) (repeat 0 34) _ seeds (length_zeros 256) H0 Hv Hs)))].
  pose proof (proj1 (proj2 (mlk_rej_uniform_fips203 0 (zeros 256) (repeat 0 34) _ seeds (length_zeros 256) H0 Hv Hs))) as H.
  destruct (mlk_poly_rej_uniform 0 (zeros 256) (repeat 0 34)) as [p|] eqn:E; [exact (proj1 (proj2 (H p eq_refl))) | vm_compute in E; discriminate].
Defined.

(** Noise sampling is that of FIPS 203: the word-parallel bit counts of [mlk_poly_cbd2] and [mlk_poly_cbd3] (masked sums in fields of 2
    and 3 bits of a 32-bit word) give SamplePolyCBD_2 and SamplePolyCBD_3 of the byte string: each coefficient is the number of ones among its
    first eta bits minus the number among the next eta, hence at most eta in absolute value. *)
Theorem mlk_cbd_fips203 (buf : bytes) (Hb : are_bytes buf) :
  (length buf = 128%nat -> mlk_poly_cbd2 buf = SamplePolyCBD 2 buf /\ polyb 3 (mlk_poly_cbd2 buf)) /\
  (length buf = 192%nat -> mlk_poly_cbd3 buf = SamplePolyCBD 3 buf /\ polyb 4 (mlk_poly_cbd3 buf)).
Proof.
  split; intros Hl.
  - rewrite cbd2_exact by assumption. split; [reflexivity | apply (SamplePolyCBD_bound 2)].
  - rewrite cbd3_exact by assumption. split; [reflexivity | apply (SamplePolyCBD_bound 3)].
Qed.

Lemma mlk_cbd_fips203_witness :
  mlk_poly_cbd2 (repeat 0xC5 128) = SamplePolyCBD 2 (repeat 0xC5 128) /\ take 2 (SamplePolyCBD 2 (repeat 0xC5 128)) = [0; -2].
Proof.
  assert (Hb : are_bytes (repeat 0xC5 128)) by (apply is_u8_dec_list; reflexivity).
  split; [exact (proj1 (proj1 (mlk_cbd_fips203 _ Hb) eq_refl)) | vm_compute; reflexivity].
Defined.
