(* ===== verification/MlkemRing.v ===== *)
(** * R_q through its residues

    A polynomial modulo q is determined by its 128 residues modulo X^2 - gamma(i), and the operations of the code on transformed
    polynomials are operations on residues.  This is the algebra behind the correctness of decryption. *)

From stdpp Require Import base list numbers.
From Stdlib Require Import ZArith Lia.
From S2P Require Import Prelude Fips203 MlkemPoly MlkemNtt.

#[local] Open Scope Z_scope.
#[local] Open Scope mlkem_scope.
#[local] Opaque mlk_ntt_layer mlk_invntt_layer gamma.

(** ** Transforming what was inverse-transformed *)

(** A layer undoes the inverse layer, up to a factor 2. *)
Lemma ntt_layer_redo l s t k : (1 <= l <= 7)%nat -> polyb MLKEM_Q s -> polyb (Z.of_nat l * MLKEM_Q) t ->
  (forall i, (i < 256)%nat -> rd t i =q k * rd (mlk_invntt_layer s l) i) ->
  forall i, (i < 256)%nat -> rd (mlk_ntt_layer t l) i =q 2 * k * rd s i.
Proof.
  intros Hl Hs Ht H i Hi. destruct (ntt_layer_step l Hl t Ht) as [_ Hf]. destruct (invntt_layer_step l Hl s Hs) as [_ Hinv].
  destruct (layer_shape l Hl) as (H256 & H0 & _). rewrite Hf by exact Hi. cbv zeta. set (len := blen l) in *.
  pose proof (Nat.div_mod_eq i (2 * len)) as Hdm. pose proof (Nat.mod_upper_bound i (2 * len) ltac:(lia)) as Hmb.
  set (b := (i / (2 * len))%nat) in *. set (j := (i mod (2 * len))%nat) in *.
  assert (Hb : (b < nblocks l)%nat) by nia. pose proof (zeta_inv l b Hl Hb) as Hz.
  destruct (Nat.ltb_spec j len) as [Hj | Hj].
  - rewrite (H i), (H (i + len)%nat), (Hinv i), (Hinv (i + len)%nat) by nia.
    destruct (block_pos len b j ltac:(lia)) as [E1 E2]. destruct (block_pos len b (j + len) ltac:(lia)) as [E3 E4].
    replace (i + len)%nat with (2 * len * b + (j + len))%nat by lia. replace i with (2 * len * b + j)%nat by lia.
    rewrite E2, E3, E4. destruct (Nat.ltb_spec j len), (Nat.ltb_spec (j + len) len); try lia.
    replace (2 * len * b + (j + len) - len)%nat with (2 * len * b + j)%nat by lia.
    replace (2 * len * b + j + len)%nat with (2 * len * b + (j + len))%nat by lia.
    set (x := rd s (2 * len * b + j)). set (y := rd s (2 * len * b + (j + len))).
    transitivity (k * (x + y) + k * (zt (2 * nblocks l - 1 - b) * zt (nblocks l + b)) * (y - x)); [apply cong_eq; lia |].
    rewrite Hz. apply cong_eq. lia.
  - rewrite (H i), (H (i - len)%nat), (Hinv i), (Hinv (i - len)%nat) by nia.
    destruct (block_pos len b j ltac:(lia)) as [E1 E2]. destruct (block_pos len b (j - len) ltac:(lia)) as [E3 E4].
    replace (i - len)%nat with (2 * len * b + (j - len))%nat by lia. replace i with (2 * len * b + j)%nat by lia.
    rewrite E1, E2, E4. destruct (Nat.ltb_spec j len), (Nat.ltb_spec (j - len) len); try lia.
    replace (2 * len * b + (j - len) + len)%nat with (2 * len * b + j)%nat by lia.
    set (x := rd s (2 * len * b + (j - len))). set (y := rd s (2 * len * b + j)).
    transitivity (k * (x + y) - k * (zt (2 * nblocks l - 1 - b) * zt (nblocks l + b)) * (y - x)); [apply cong_eq; lia |].
    rewrite Hz. apply cong_eq. lia.
Qed.

Section Redo.
Context (s7 : list Z) (Hs7 : polyb MLKEM_Q s7).

(** The array with the inverse layers [7 .. l + 1] applied. *)
Definition inv_from (l : nat) : list Z := fold_left mlk_invntt_layer (rev (seq (S l) (7 - l))) s7.

Lemma inv_from_step l : (l < 7)%nat -> inv_from l = mlk_invntt_layer (inv_from (S l)) (S l).
Proof.
  intros Hl. unfold inv_from. replace (7 - l)%nat with (S (7 - S l)) by lia. cbn [seq rev]. now rewrite fold_left_app.
Qed.

Lemma inv_from_bound l : polyb MLKEM_Q (inv_from l).
Proof.
  unfold inv_from. apply chain_bound; [exact invntt_layer_bound | | exact Hs7].
  apply List.Forall_forall. intros k Hk. apply in_rev, in_seq in Hk. lia.
Qed.

Lemma redo l : (l <= 7)%nat -> forall i, (i < 256)%nat -> rd (ntt_upto (inv_from 0) l) i =q 2 ^ Z.of_nat l * rd (inv_from l) i.
Proof.
  induction l as [|l IH]; intros Hl i Hi; [apply cong_eq; change (ntt_upto (inv_from 0) 0) with (inv_from 0); lia |].
  rewrite ntt_upto_S. destruct (ntt_upto_spec (inv_from 0) l (inv_from_bound 0)) as [Hb _]; [lia |].
  replace (l + 1)%nat with (S l) in Hb by lia.
  rewrite (ntt_layer_redo (S l) (inv_from (S l)) _ (2 ^ Z.of_nat l) ltac:(lia) (inv_from_bound (S l)) Hb).
  - rewrite Nat2Z.inj_succ, Z.pow_succ_r by lia. reflexivity.
  - intros j Hj. rewrite IH by (auto; lia). now rewrite <- inv_from_step by lia.
  - exact Hi.
Qed.

End Redo.

Lemma ntt_invntt u i : int16s u -> (i < 256)%nat -> rd (mlk_poly_ntt (mlk_poly_invntt_tomont u)) i =q 2 ^ 16 * rd u i.
Proof.
  intros Hu Hi. destruct (scale_spec 1441 u) as [Hb Hc]; [reflexivity | exact Hu |].
  rewrite invntt_tomont_layers, poly_ntt_upto.
  change (fold_left mlk_invntt_layer (rev (seq 1 7)) ?s) with (inv_from s 0).
  rewrite (redo _ Hb 7 ltac:(lia) i Hi). change (inv_from ?s 7) with s. rewrite Hc by exact Hi.
  change (2 ^ Z.of_nat 7) with 128. transitivity ((128 * 1441 * 169) * rd u i); [apply cong_eq; lia |].
  apply cong_mul; [now apply cong_dec_eq | reflexivity].
Qed.

(** ** Residues *)

(** Residue [i] of a polynomial, and component [i] of a transformed polynomial. *)
Definition res (i : nat) (f : list Z) : Z * Z := mod_X2 (gamma i) f.
Definition cmp (i : nat) (x : list Z) : Z * Z := (rd x (2 * i), rd x (2 * i + 1)).

Definition scale2 (k : Z) (a : Z * Z) : Z * Z := (k * fst a, k * snd a).
Definition add2 (a b : Z * Z) : Z * Z := (fst a + fst b, snd a + snd b).
Definition sub2 (a b : Z * Z) : Z * Z := (fst a - fst b, snd a - snd b).

#[export] Instance scale2_proper k : Proper (cong2 ==> cong2) (scale2 k).
Proof. intros a b [H0 H1]. split; cbn [scale2 fst snd]; [now rewrite H0 | now rewrite H1]. Qed.
#[export] Instance add2_proper : Proper (cong2 ==> cong2 ==> cong2) add2.
Proof. intros a b [H0 H1] c d [H2 H3]. split; cbn [add2 fst snd]; [now rewrite H0, H2 | now rewrite H1, H3]. Qed.
#[export] Instance sub2_proper : Proper (cong2 ==> cong2 ==> cong2) sub2.
Proof. intros a b [H0 H1] c d [H2 H3]. split; cbn [sub2 fst snd]; [now rewrite H0, H2 | now rewrite H1, H3]. Qed.
#[export] Instance mul2_proper g : Proper (cong2 ==> cong2 ==> cong2) (mul2 g).
Proof. intros a b [H0 H1] c d [H2 H3]. split; cbn [mul2 fst snd]; now rewrite H0, H1, H2, H3. Qed.

Lemma cmp_ntt f i : polyb MLKEM_Q f -> (i < 128)%nat -> cong2 (cmp i (mlk_poly_ntt f)) (res i f).
Proof. apply ntt_component. Qed.

Lemma cmp_cong x y i k : (forall j, (j < 256)%nat -> rd x j =q k * rd y j) -> (i < 128)%nat -> cong2 (cmp i x) (scale2 k (cmp i y)).
Proof. intros H Hi. split; cbn [cmp scale2 fst snd]; apply H; lia. Qed.

Lemma res_invntt u i : int16s u -> (i < 128)%nat -> cong2 (res i (mlk_poly_invntt_tomont u)) (scale2 (2 ^ 16) (cmp i u)).
Proof.
  intros Hu Hi. rewrite <- (cmp_ntt _ i (invntt_bound u Hu) Hi). apply cmp_cong; [| exact Hi]. intros j Hj. now apply ntt_invntt.
Qed.

Lemma res_cong f g i : Forall2 cong f g -> cong2 (res i f) (res i g).
Proof. apply mod_X2_cong. Qed.

Lemma rd_Forall2_cong f g : length f = length g -> (forall i, (i < length f)%nat -> rd f i =q rd g i) -> Forall2 cong f g.
Proof.
  revert g. induction f as [|a f IH]; intros [|b g] Hl H; try discriminate; constructor.
  - exact (H 0%nat ltac:(cbn; lia)).
  - apply IH; [cbn in Hl; lia |]. intros i Hi. exact (H (S i) ltac:(cbn; lia)).
Qed.

Lemma canon_cong f : Forall2 cong (canon f) f.
Proof. induction f as [|a f IH]; constructor; [apply cong_mod_q | exact IH]. Qed.

Lemma canon_polyb f : length f = 256%nat -> polyb MLKEM_Q (canon f).
Proof.
  intros Hl. split; [unfold canon; now rewrite length_map |]. apply Forall_map, List.Forall_forall. intros x _.
  pose proof (Z.mod_pos_bound x q ltac:(reflexivity)). change MLKEM_Q with q. lia.
Qed.

(** The residues determine the polynomial modulo q. *)
Lemma res_inj f g : length f = 256%nat -> length g = 256%nat ->
  (forall i, (i < 128)%nat -> cong2 (res i f) (res i g)) -> forall j, (j < 256)%nat -> rd f j =q rd g j.
Proof.
  intros Hf Hg H j Hj. set (f' := canon f). set (g' := canon g).
  assert (Hf' : polyb MLKEM_Q f') by now apply canon_polyb. assert (Hg' : polyb MLKEM_Q g') by now apply canon_polyb.
  assert (E : forall i, (i < 256)%nat -> rd (mlk_poly_ntt f') i =q 1 * rd (mlk_poly_ntt g') i).
  { intros i Hi. assert (Hi2 : (i / 2 < 128)%nat) by (apply Nat.Div0.div_lt_upper_bound; lia).
    assert (C : cong2 (cmp (i / 2) (mlk_poly_ntt f')) (cmp (i / 2) (mlk_poly_ntt g'))).
    { rewrite !cmp_ntt by assumption. rewrite (res_cong f' f), (res_cong g' g) by apply canon_cong. now apply H. }
    destruct C as [C0 C1]. cbn [cmp fst snd] in *. pose proof (Nat.div_mod_eq i 2) as Hd. pose proof (Nat.mod_upper_bound i 2 ltac:(lia)).
    assert (Ei : (i = 2 * (i / 2) \/ i = 2 * (i / 2) + 1)%nat) by lia. rewrite Z.mul_1_l. destruct Ei as [Ei | Ei]; rewrite Ei; assumption. }
  assert (Hi16 : int16s (mlk_poly_ntt f')) by (apply (polyb_int16s MLK_NTT_BOUND); [discriminate | now apply ntt_bound]).
  pose proof (invntt_scaled f' _ 1 Hf' Hi16 ltac:(intros; apply cong_eq; lia) j Hj) as E1.
  pose proof (invntt_scaled g' _ 1 Hg' Hi16 E j Hj) as E2.
  assert (E3 : rd f' j =q rd g' j) by (apply cong_cancel_R; transitivity (2 ^ 16 * 1 * rd f' j); [apply cong_eq; lia |];
    rewrite <- E1, E2; apply cong_eq; lia).
  unfold f', g' in E3. rewrite !rd_canon in E3 by lia. rewrite !cong_mod_q in E3. exact E3.
Qed.

(** ** Coefficient-wise operations *)

Section Coeffs.
Context (Bx By : Z) (HBx : 0 < Bx) (HBy : 0 < By) (Hsum : Bx + By <= 2 ^ 15 + 1) (x y : list Z) (Hx : polyb Bx x) (Hy : polyb By y).

Lemma poly_add_spec : polyb (Bx + By - 1) (mlk_poly_add x y) /\ forall i, (i < 256)%nat -> rd (mlk_poly_add x y) i = rd x i + rd y i.
Proof.
  pose proof Hx as [Hlx _]. pose proof Hy as [Hly _].
  assert (H : forall i, (i < 256)%nat -> rd (mlk_poly_add x y) i = rd x i + rd y i).
  { intros i Hi. unfold mlk_poly_add. rewrite rd_zip_with by lia. pose proof (polyb_rd Bx x i HBx Hx). pose proof (polyb_rd By y i HBy Hy).
    apply i16_id. lia. }
  split; [| exact H]. apply polyb_intro; [unfold mlk_poly_add; rewrite length_zip_with; lia |]. intros i Hi. rewrite H by exact Hi.
  pose proof (polyb_rd Bx x i HBx Hx). pose proof (polyb_rd By y i HBy Hy). lia.
Qed.

Lemma poly_sub_spec : polyb (Bx + By - 1) (mlk_poly_sub x y) /\ forall i, (i < 256)%nat -> rd (mlk_poly_sub x y) i = rd x i - rd y i.
Proof.
  pose proof Hx as [Hlx _]. pose proof Hy as [Hly _].
  assert (H : forall i, (i < 256)%nat -> rd (mlk_poly_sub x y) i = rd x i - rd y i).
  { intros i Hi. unfold mlk_poly_sub. rewrite rd_zip_with by lia. pose proof (polyb_rd Bx x i HBx Hx). pose proof (polyb_rd By y i HBy Hy).
    apply i16_id. lia. }
  split; [| exact H]. apply polyb_intro; [unfold mlk_poly_sub; rewrite length_zip_with; lia |]. intros i Hi. rewrite H by exact Hi.
  pose proof (polyb_rd Bx x i HBx Hx). pose proof (polyb_rd By y i HBy Hy). lia.
Qed.

End Coeffs.

(** Reduction gives the canonical representatives. *)
Lemma poly_reduce_canon x : int16s x -> mlk_poly_reduce x = canon x.
Proof.
  intros [_ H]. unfold mlk_poly_reduce, canon. apply map_ext_in. intros c Hc. rewrite List.Forall_forall in H. apply reduce_coeff_spec, H, Hc.
Qed.

Lemma canon_rd_cong x i : rd (canon x) i =q rd x i.
Proof.
  destruct (Nat.lt_ge_cases i (length x)) as [Hi | Hi]; [rewrite rd_canon by exact Hi; apply cong_mod_q |].
  apply cong_eq. unfold rd. rewrite !nth_overflow; [reflexivity | exact Hi | unfold canon; now rewrite length_map].
Qed.

Lemma canon_canonical x : length x = 256%nat -> length (canon x) = 256%nat /\ Forall (fun c => 0 <= c < q) (canon x).
Proof.
  intros Hl. split; [unfold canon; now rewrite length_map |]. apply Forall_map, List.Forall_forall. intros c _. now apply Z.mod_pos_bound.
Qed.

Lemma poly_tomont_spec x : int16s x -> polyb MLKEM_Q (mlk_poly_tomont x) /\
  forall i, (i < 256)%nat -> rd (mlk_poly_tomont x) i =q 2 ^ 16 * rd x i.
Proof.
  intros Hx. destruct (scale_spec 1353 x) as [Hb Hc]; [reflexivity | exact Hx |]. split; [exact Hb |].
  intros i Hi. unfold mlk_poly_tomont. cbv zeta. rewrite Hc by exact Hi. transitivity ((1353 * 169) * rd x i); [apply cong_eq; lia |].
  apply cong_mul; [now apply cong_dec_eq | reflexivity].
Qed.

(** ** Products of transformed polynomials *)

Lemma mulcache_spec b i : int16s b -> (i < 128)%nat ->
  rd (mlk_poly_mulcache_compute b) i =q gamma i * rd b (2 * i + 1) /\ Z.abs (rd (mlk_poly_mulcache_compute b) i) < MLKEM_Q.
Proof.
  intros Hb Hi. set (j := (i / 2)%nat). pose proof (Nat.div_mod_eq i 2) as Hd. pose proof (Nat.mod_upper_bound i 2 ltac:(lia)).
  assert (Hj : (j < 64)%nat) by (apply Nat.Div0.div_lt_upper_bound; lia).
  destruct (rd_concat_pairs (fun i => mlk_fqmul (rd b (4 * i + 1)) (rd mlk_zetas (64 + i)))
              (fun i => mlk_fqmul (rd b (4 * i + 3)) (i16 (- rd mlk_zetas (64 + i)))) 64 j Hj) as [E0 E1].
  pose proof (root_cong 7 i ltac:(lia) Hi) as Hroot. unfold comp in Hroot. change (2 ^ (7 - 7))%nat with 1%nat in Hroot.
  rewrite Nat.div_1_r in Hroot. change (Z.of_nat 1) with 1 in Hroot. rewrite Z.pow_1_r in Hroot. change (nblocks 7) with 64%nat in Hroot. fold j in Hroot.
  pose proof (zetas_bound (64 + j)) as Hz. change MLKEM_Q_HALF with 1665 in Hz.
  unfold mlk_poly_mulcache_compute. change (MLKEM_N / 4)%nat with 64%nat.
  assert (Ei : (i = 2 * j \/ i = 2 * j + 1)%nat) by lia. destruct Ei as [Ei | Ei].
  - replace (Nat.even i) with true in Hroot by (symmetry; apply Nat.even_spec; now exists j).
    rewrite <- Ei in E0. rewrite E0. replace (2 * i + 1)%nat with (4 * j + 1)%nat by lia.
    destruct (fqmul_zeta (rd b (4 * j + 1)) (64 + j) (int16s_rd b _ Hb)) as [H1 H2]. split; [| exact H2]. rewrite H1, Hroot. apply cong_eq. lia.
  - replace (Nat.even i) with false in Hroot by (symmetry; rewrite <- Nat.negb_odd; apply negb_false_iff, Nat.odd_spec; now exists j).
    rewrite <- Ei in E1. rewrite E1. replace (2 * i + 1)%nat with (4 * j + 3)%nat by lia. rewrite i16_id by lia.
    destruct (fqmul_const (rd b (4 * j + 3)) (- rd mlk_zetas (64 + j)) (int16s_rd b _ Hb)) as [H1 H2]; [change MLKEM_Q_HALF with 1665; lia |].
    split; [| exact H2]. rewrite H1, Hroot. unfold zt. apply cong_eq. lia.
Qed.
