(* ===== verification/MlkemIndcpa.v ===== *)
(** * ML-KEM public-key encryption

    Model of the portable code of [mlkem-native/mlkem/src/poly_k.c], [poly_k.h] and [indcpa.c] (K-PKE of FIPS 203) for the three parameter
    sets, without native backends.  The buffers of [MLK_ALLOC] are on the stack, so that allocation does not fail. *)

From stdpp Require Import base list numbers.
From Stdlib Require Import ZArith Lia.
From S2P Require Import Prelude Fips202 Keccak Shake ShakeX4 Fips203 MlkemPoly MlkemNtt MlkemCompress MlkemSampling.

#[local] Open Scope Z_scope.

Definition MLKEM_SYMBYTES : nat := 32.
Definition MLKEM_SSBYTES : nat := 32.
Definition MLKEM_POLYBYTES : nat := 384.
Definition MLKEM_ETA2 : nat := 2.

(** ** Symmetric primitives (symmetric.h) *)

Definition mlk_hash_h (input : bytes) : bytes := mlk_sha3_256 input.
Definition mlk_hash_g (input : bytes) : bytes := mlk_sha3_512 input.
Definition mlk_hash_j (input : bytes) : bytes := mlk_shake256 MLKEM_SYMBYTES input.
Definition mlk_prf_eta (eta : nat) (input : bytes) : bytes := mlk_shake256 (eta * MLKEM_N / 4) input.

Section Level.

(** [MLKEM_K]: 2, 3 or 4. *)
Context (MLKEM_K : nat).

Definition MLKEM_ETA1 : nat := if Nat.eqb MLKEM_K 2 then 3 else 2.
Definition MLKEM_DU : nat := if Nat.eqb MLKEM_K 4 then 11 else 10.
Definition MLKEM_DV : nat := if Nat.eqb MLKEM_K 4 then 5 else 4.
Definition MLKEM_POLYVECBYTES : nat := MLKEM_K * MLKEM_POLYBYTES.
Definition MLKEM_POLYCOMPRESSEDBYTES_DU : nat := if Nat.eqb MLKEM_K 4 then 352 else 320.
Definition MLKEM_POLYCOMPRESSEDBYTES_DV : nat := if Nat.eqb MLKEM_K 4 then 160 else 128.
Definition MLKEM_POLYVECCOMPRESSEDBYTES_DU : nat := MLKEM_K * MLKEM_POLYCOMPRESSEDBYTES_DU.
Definition MLKEM_INDCPA_MSGBYTES : nat := MLKEM_SYMBYTES.
Definition MLKEM_INDCPA_PUBLICKEYBYTES : nat := MLKEM_POLYVECBYTES + MLKEM_SYMBYTES.
Definition MLKEM_INDCPA_SECRETKEYBYTES : nat := MLKEM_POLYVECBYTES.
Definition MLKEM_INDCPA_BYTES : nat := MLKEM_POLYVECCOMPRESSEDBYTES_DU + MLKEM_POLYCOMPRESSEDBYTES_DV.

(** ** poly_k.h *)

Definition mlk_poly_compress_du (a : mlk_poly) : bytes :=
  if Nat.eqb MLKEM_DU 10 then mlk_poly_compress_d10 a else mlk_poly_compress_d11 a.
Definition mlk_poly_decompress_du (a : bytes) : mlk_poly :=
  if Nat.eqb MLKEM_DU 10 then mlk_poly_decompress_d10 a else mlk_poly_decompress_d11 a.
Definition mlk_poly_compress_dv (a : mlk_poly) : bytes :=
  if Nat.eqb MLKEM_DV 4 then mlk_poly_compress_d4 a else mlk_poly_compress_d5 a.
Definition mlk_poly_decompress_dv (a : bytes) : mlk_poly :=
  if Nat.eqb MLKEM_DV 4 then mlk_poly_decompress_d4 a else mlk_poly_decompress_d5 a.

(** ** poly_k.c *)

(** [mlk_polyvec], [mlk_polymat] and [mlk_polyvec_mulcache]: [MLKEM_K] rows. *)
Definition mlk_polyvec : Type := list mlk_poly.
Definition mlk_polymat : Type := list mlk_polyvec.
Definition mlk_polyvec_mulcache : Type := list mlk_poly_mulcache.

Definition mlk_polyvec_compress_du (a : mlk_polyvec) : bytes := concat (map mlk_poly_compress_du a).
Definition mlk_polyvec_decompress_du (a : bytes) : mlk_polyvec :=
  map (fun i => mlk_poly_decompress_du (sub a (i * MLKEM_POLYCOMPRESSEDBYTES_DU) MLKEM_POLYCOMPRESSEDBYTES_DU)) (seq 0 MLKEM_K).
Definition mlk_polyvec_tobytes (a : mlk_polyvec) : bytes := concat (map mlk_poly_tobytes a).
Definition mlk_polyvec_frombytes (a : bytes) : mlk_polyvec :=
  map (fun i => mlk_poly_frombytes (sub a (i * MLKEM_POLYBYTES) MLKEM_POLYBYTES)) (seq 0 MLKEM_K).
Definition mlk_polyvec_ntt (r : mlk_polyvec) : mlk_polyvec := map mlk_poly_ntt r.
Definition mlk_polyvec_invntt_tomont (r : mlk_polyvec) : mlk_polyvec := map mlk_poly_invntt_tomont r.

(** The two [int32_t] accumulators after a row, which contributes [a], [b] and its cache. *)
Definition mlk_basemul_acc (i : nat) (t : Z * Z) (row : mlk_poly * (mlk_poly * mlk_poly_mulcache)) : Z * Z :=
  let '(a, (b, b_cache)) := row in
  let t0 := i32 (fst t + i32 (rd a (2 * i + 1) * rd b_cache i)) in
  let t0 := i32 (t0 + i32 (rd a (2 * i) * rd b (2 * i))) in
  let t1 := i32 (snd t + i32 (rd a (2 * i) * rd b (2 * i + 1))) in
  let t1 := i32 (t1 + i32 (rd a (2 * i + 1) * rd b (2 * i))) in
  (t0, t1).

Definition mlk_polyvec_basemul_acc_montgomery_cached (a b : mlk_polyvec) (b_cache : mlk_polyvec_mulcache) : mlk_poly :=
  concat (map (fun i =>
    let t := fold_left (mlk_basemul_acc i) (zip a (zip b b_cache)) (0, 0) in
    [mlk_montgomery_reduce (fst t); mlk_montgomery_reduce (snd t)]) (seq 0 (MLKEM_N / 2))).

Definition mlk_polyvec_mulcache_compute (a : mlk_polyvec) : mlk_polyvec_mulcache := map mlk_poly_mulcache_compute a.
Definition mlk_polyvec_reduce (r : mlk_polyvec) : mlk_polyvec := map mlk_poly_reduce r.
Definition mlk_polyvec_add (r b : mlk_polyvec) : mlk_polyvec := zip_with mlk_poly_add r b.
Definition mlk_polyvec_tomont (r : mlk_polyvec) : mlk_polyvec := map mlk_poly_tomont r.

Definition mlk_poly_cbd_eta1 (buf : bytes) : mlk_poly := if Nat.eqb MLKEM_ETA1 2 then mlk_poly_cbd2 buf else mlk_poly_cbd3 buf.
Definition mlk_poly_cbd_eta2 (buf : bytes) : mlk_poly := mlk_poly_cbd2 buf.

(** The polynomials for the given nonces: three when the fourth output is NULL.  The serial PRF is used, since there is no native
    four-way Keccak. *)
Definition mlk_poly_getnoise_eta1_4x (seed : bytes) (nonces : list Z) : list mlk_poly :=
  map (fun nonce => mlk_poly_cbd_eta1 (mlk_prf_eta MLKEM_ETA1 (seed ++ [nonce]))) nonces.

Definition mlk_poly_getnoise_eta2 (seed : bytes) (nonce : Z) : mlk_poly :=
  mlk_poly_cbd_eta2 (mlk_prf_eta MLKEM_ETA2 (seed ++ [nonce])).

Definition mlk_poly_getnoise_eta1122_4x (seed : bytes) (nonce0 nonce1 nonce2 nonce3 : Z) : mlk_poly * mlk_poly * mlk_poly * mlk_poly :=
  (mlk_poly_cbd_eta1 (mlk_prf_eta MLKEM_ETA1 (seed ++ [nonce0])), mlk_poly_cbd_eta1 (mlk_prf_eta MLKEM_ETA1 (seed ++ [nonce1])),
   mlk_poly_cbd_eta2 (mlk_prf_eta MLKEM_ETA2 (seed ++ [nonce2])), mlk_poly_cbd_eta2 (mlk_prf_eta MLKEM_ETA2 (seed ++ [nonce3]))).

(** [#define mlk_poly_getnoise_eta2_4x mlk_poly_getnoise_eta1_4x], for [MLKEM_ETA1 == MLKEM_ETA2]. *)
Definition mlk_poly_getnoise_eta2_4x (seed : bytes) (nonces : list Z) : list mlk_poly := mlk_poly_getnoise_eta1_4x seed nonces.

(** ** indcpa.c *)

Definition mlk_pack_pk (pk : mlk_polyvec) (seed : bytes) : bytes := mlk_polyvec_tobytes pk ++ seed.
Definition mlk_unpack_pk (packedpk : bytes) : mlk_polyvec * bytes :=
  (mlk_polyvec_frombytes packedpk, sub packedpk MLKEM_POLYVECBYTES MLKEM_SYMBYTES).
Definition mlk_pack_sk (sk : mlk_polyvec) : bytes := mlk_polyvec_tobytes sk.
Definition mlk_unpack_sk (packedsk : bytes) : mlk_polyvec := mlk_polyvec_frombytes packedsk.
Definition mlk_pack_ciphertext (b : mlk_polyvec) (v : mlk_poly) : bytes := mlk_polyvec_compress_du b ++ mlk_poly_compress_dv v.
Definition mlk_unpack_ciphertext (c : bytes) : mlk_polyvec * mlk_poly :=
  (mlk_polyvec_decompress_du c, mlk_poly_decompress_dv (drop MLKEM_POLYVECCOMPRESSEDBYTES_DU c)).

(** Entry [i] of the matrix in row-major order: row [i / K], column [i mod K]. *)
Definition mlk_seed_ext (seed : bytes) (transposed : bool) (i : nat) : bytes :=
  let x := Z.of_nat (i / MLKEM_K) in
  let y := Z.of_nat (i mod MLKEM_K) in
  if transposed then seed ++ [x; y] else seed ++ [y; x].

(** [K * K / 4] batches of four, the rest one by one; the entries are sampled into uninitialized memory. *)
Definition mlk_gen_matrix (fuel : nat) (seed : bytes) (transposed : bool) : option mlk_polymat :=
  let n4 := (MLKEM_K * MLKEM_K / 4)%nat in
  batches ← mapM (fun b => mlk_poly_rej_uniform_x4 fuel (repeat (zeros 256) 4)
                             (map (fun j => mlk_seed_ext seed transposed (4 * b + j)) (seq 0 4))) (seq 0 n4);
  rest ← mapM (fun i => mlk_poly_rej_uniform fuel (zeros 256) (mlk_seed_ext seed transposed i))
           (seq (4 * n4) (MLKEM_K * MLKEM_K - 4 * n4));
  let entries := concat batches ++ rest in
  Some (map (fun i => take MLKEM_K (drop (i * MLKEM_K) entries)) (seq 0 MLKEM_K)).

Definition mlk_matvec_mul (a : mlk_polymat) (v : mlk_polyvec) (vc : mlk_polyvec_mulcache) : mlk_polyvec :=
  map (fun row => mlk_polyvec_basemul_acc_montgomery_cached row v vc) a.

Definition mlk_keypair_getnoise_eta1 (seed : bytes) : mlk_polyvec * mlk_polyvec :=
  if Nat.eqb MLKEM_K 2 then
    let r := mlk_poly_getnoise_eta1_4x seed [0; 1; 2; 3] in (take 2 r, drop 2 r)
  else if Nat.eqb MLKEM_K 3 then
    (mlk_poly_getnoise_eta1_4x seed [0; 1; 2], mlk_poly_getnoise_eta1_4x seed [3; 4; 5])
  else (mlk_poly_getnoise_eta1_4x seed [0; 1; 2; 3], mlk_poly_getnoise_eta1_4x seed [4; 5; 6; 7]).

Definition mlk_enc_getnoise_eta1_eta2 (coins : bytes) : mlk_polyvec * mlk_polyvec * mlk_poly :=
  if Nat.eqb MLKEM_K 2 then
    let '(sp0, sp1, ep0, ep1) := mlk_poly_getnoise_eta1122_4x coins 0 1 2 3 in
    ([sp0; sp1], [ep0; ep1], mlk_poly_getnoise_eta2 coins 4)
  else if Nat.eqb MLKEM_K 3 then
    let sp := mlk_poly_getnoise_eta1_4x coins [0; 1; 2] in
    let r := mlk_poly_getnoise_eta2_4x coins [3; 4; 5; 6] in (sp, take 3 r, nth 3 r [])
  else
    (mlk_poly_getnoise_eta1_4x coins [0; 1; 2; 3], mlk_poly_getnoise_eta2_4x coins [4; 5; 6; 7], mlk_poly_getnoise_eta2 coins 8).

(** [None] stands for a matrix entry that [fuel] further blocks did not complete. *)
Definition mlk_indcpa_keypair_derand (fuel : nat) (coins : bytes) : option (bytes * bytes) :=
  let buf := mlk_hash_g (take MLKEM_SYMBYTES coins ++ [Z.of_nat MLKEM_K]) in
  let publicseed := take MLKEM_SYMBYTES buf in
  let noiseseed := drop MLKEM_SYMBYTES buf in
  a ← mlk_gen_matrix fuel publicseed false;
  let '(skpv, e) := mlk_keypair_getnoise_eta1 noiseseed in
  let skpv := mlk_polyvec_ntt skpv in
  let e := mlk_polyvec_ntt e in
  let skpv_cache := mlk_polyvec_mulcache_compute skpv in
  let pkpv := mlk_matvec_mul a skpv skpv_cache in
  let pkpv := mlk_polyvec_tomont pkpv in
  let pkpv := mlk_polyvec_add pkpv e in
  let pkpv := mlk_polyvec_reduce pkpv in
  let skpv := mlk_polyvec_reduce skpv in
  Some (mlk_pack_pk pkpv publicseed, mlk_pack_sk skpv).

(** The vector and the polynomial that the ciphertext packs: [mlk_indcpa_enc] up to [mlk_pack_ciphertext]. *)
Definition mlk_indcpa_enc_bv (fuel : nat) (m pk coins : bytes) : option (mlk_polyvec * mlk_poly) :=
  let '(pkpv, seed) := mlk_unpack_pk pk in
  let k := mlk_poly_frommsg m in
  at_ ← mlk_gen_matrix fuel seed true;
  let '(sp, ep, epp) := mlk_enc_getnoise_eta1_eta2 coins in
  let sp := mlk_polyvec_ntt sp in
  let sp_cache := mlk_polyvec_mulcache_compute sp in
  let b := mlk_matvec_mul at_ sp sp_cache in
  let v := mlk_polyvec_basemul_acc_montgomery_cached pkpv sp sp_cache in
  let b := mlk_polyvec_invntt_tomont b in
  let v := mlk_poly_invntt_tomont v in
  let b := mlk_polyvec_add b ep in
  let v := mlk_poly_add v epp in
  let v := mlk_poly_add v k in
  let b := mlk_polyvec_reduce b in
  let v := mlk_poly_reduce v in
  Some (b, v).

Definition mlk_indcpa_enc (fuel : nat) (m pk coins : bytes) : option bytes :=
  '(b, v) ← mlk_indcpa_enc_bv fuel m pk coins;
  Some (mlk_pack_ciphertext b v).

Definition mlk_indcpa_dec (c sk : bytes) : bytes :=
  let '(b, v) := mlk_unpack_ciphertext c in
  let skpv := mlk_unpack_sk sk in
  let b := mlk_polyvec_ntt b in
  let b_cache := mlk_polyvec_mulcache_compute b in
  let sb := mlk_polyvec_basemul_acc_montgomery_cached skpv b b_cache in
  let sb := mlk_poly_invntt_tomont sb in
  let v := mlk_poly_sub v sb in
  let v := mlk_poly_reduce v in
  mlk_poly_tomsg v.

End Level.
