(* ===== verification/MlkemPke.v ===== *)
(** * Correctness of K-PKE

    Products in R_q as the code computes them, and decryption of what was encrypted. *)

From stdpp Require Import base list numbers.
From Stdlib Require Import ZArith Lia.
From S2P Require Import Prelude Fips202 Keccak Shake ShakeX4 Fips203 MlkemPoly MlkemNtt MlkemCompress MlkemSampling MlkemRing MlkemIndcpa.

#[local] Open Scope Z_scope.
#[local] Open Scope mlkem_scope.
#[local] Opaque mlk_ntt_layer mlk_invntt_layer gamma mlk_poly_ntt mlk_poly_invntt_tomont.

(** Lengths of vectors of polynomials, whatever the alias of their type. *)
Ltac plen := unfold mlk_polyvec, mlk_poly in *; lia.

(** ** Scalar products *)

(** 12-bit coefficients. *)
Definition uint12s (a : list Z) : Prop := length a = 256%nat /\ Forall (fun c => 0 <= c < 4096) a.

Lemma uint12s_rd a i : uint12s a -> 0 <= rd a i < 4096.
Proof. intros [_ H]. apply (rd_Forall (fun c => 0 <= c < 4096)); [lia | exact H]. Qed.

Lemma canonical_uint12s a : canonical a -> uint12s a.
Proof. intros [Hl H]. split; [exact Hl |]. eapply Forall_impl; [| exact H]. cbv beta. unfold q. lia. Qed.

(** Component [i] of the scalar product. *)
Definition dot (i : nat) (as_ bs : list (list Z)) : Z * Z :=
  fold_right (fun ab acc => add2 (mul2 (gamma i) (cmp i (fst ab)) (cmp i (snd ab))) acc) (0, 0) (zip as_ bs).

Lemma prod_bound x y : 0 <= x < 4096 -> - 2 ^ 15 <= y < 2 ^ 15 -> Z.abs (x * y) <= 2 ^ 27.
Proof. intros Hx Hy. rewrite Z.abs_mul. nia. Qed.

(** *** The accumulators do not overflow *)

(** A row's products and sums as exact integers, in the order of the code. *)
Definition row_values (i : nat) (t : Z * Z) (row : mlk_poly * (mlk_poly * mlk_poly_mulcache)) : list Z :=
  let '(a, (b, b_cache)) := row in
  let p0 := rd a (2 * i + 1) * rd b_cache i in
  let p1 := rd a (2 * i) * rd b (2 * i) in
  let p2 := rd a (2 * i) * rd b (2 * i + 1) in
  let p3 := rd a (2 * i + 1) * rd b (2 * i) in
  [p0; fst t + p0; p1; fst t + p0 + p1; p2; snd t + p2; p3; snd t + p2 + p3].

Definition in_int32 (x : Z) : Prop := - 2 ^ 31 <= x < 2 ^ 31.

(** The contract of [mlk_montgomery_reduce]. *)
Definition reducible (x : Z) : Prop := Z.abs x < 2 ^ 31 - 1 - 2 ^ 15 * MLKEM_Q.

(** Along the rows every product and sum is an [int32_t], and the final accumulators may be reduced. *)
Fixpoint no_overflow (i : nat) (t : Z * Z) (rows : list (mlk_poly * (mlk_poly * mlk_poly_mulcache))) : Prop :=
  match rows with
  | [] => reducible (fst t) /\ reducible (snd t)
  | row :: rows => Forall in_int32 (row_values i t row) /\ no_overflow i (mlk_basemul_acc i t row) rows
  end.

(** The accumulators are far enough from the ends of the range for [n] more rows. *)
Definition room (n : nat) (t : Z * Z) : Prop :=
  Z.abs (fst t) + Z.of_nat n * 2 ^ 28 <= 2 ^ 30 /\ Z.abs (snd t) + Z.of_nat n * 2 ^ 28 <= 2 ^ 30.

(** One row: exact, in range, and with room for the others. *)
Lemma row_spec i a b t n : (i < 128)%nat -> uint12s a -> int16s b -> room (S n) t ->
  let row := (a, (b, mlk_poly_mulcache_compute b)) in
  Forall in_int32 (row_values i t row) /\ room n (mlk_basemul_acc i t row) /\
  cong2 (mlk_basemul_acc i t row) (add2 t (mul2 (gamma i) (cmp i a) (cmp i b))).
Proof.
  intros Hi Ha Hb [R0 R1] row. destruct (mulcache_spec b i Hb Hi) as [Hc Hcb].
  pose proof (uint12s_rd a (2 * i) Ha) as A0. pose proof (uint12s_rd a (2 * i + 1) Ha) as A1.
  pose proof (int16s_rd b (2 * i) Hb) as B0. pose proof (int16s_rd b (2 * i + 1) Hb) as B1.
  pose proof (prod_bound _ (rd (mlk_poly_mulcache_compute b) i) A1 ltac:(unfold MLKEM_Q in Hcb; lia)) as P0.
  pose proof (prod_bound _ _ A0 B0) as P1. pose proof (prod_bound _ _ A0 B1) as P2. pose proof (prod_bound _ _ A1 B0) as P3.
  assert (HF : Forall in_int32 (row_values i t row)).
  { unfold row_values, row, in_int32. repeat (apply Forall_cons_2; [lia |]). apply Forall_nil_2. }
  split; [exact HF |]. unfold mlk_basemul_acc, row. cbv zeta. unfold room. cbn [fst snd].
  rewrite !(i32_id (rd _ _ * rd _ _)) by lia.
  rewrite (i32_id (fst t + _)), (i32_id (snd t + _)) by lia. rewrite !i32_id by lia.
  split; [lia |]. split; cbn [add2 mul2 cmp fst snd]; [rewrite Hc |]; apply cong_eq; lia.
Qed.

Lemma basemul_acc_spec i : (i < 128)%nat -> forall as_ bs t,
  Forall uint12s as_ -> Forall int16s bs -> length as_ = length bs -> room (length as_) t ->
  let rows := zip as_ (zip bs (map mlk_poly_mulcache_compute bs)) in
  let r := fold_left (mlk_basemul_acc i) rows t in
  cong2 r (add2 t (dot i as_ bs)) /\ room 0 r /\ no_overflow i t rows.
Proof.
  intros Hi. induction as_ as [|a as_ IH]; intros bs t Ha Hb Hl Hr; destruct bs as [|b bs]; try discriminate.
  - cbn. split; [split; apply cong_eq; unfold add2; cbn [fst snd]; lia |]. split; [exact Hr |].
    unfold reducible, MLKEM_Q. unfold room in Hr. cbn [length] in Hr. lia.
  - apply Forall_cons_1 in Ha as [Ha1 Ha]. apply Forall_cons_1 in Hb as [Hb1 Hb]. cbn [map zip zip_with fold_left length no_overflow] in *.
    destruct (row_spec i a b t _ Hi Ha1 Hb1 Hr) as (HF & Hr' & Hc). destruct (IH bs _ Ha Hb ltac:(lia) Hr') as (IH1 & IH2 & IH3).
    split; [| auto]. etransitivity; [exact IH1 |]. unfold dot. cbn [zip zip_with fold_right fst snd]. fold (dot i as_ bs).
    destruct (dot i as_ bs) as [d0 d1], Hc as [Hc0 Hc1]. split; cbn [add2 fst snd] in *; [rewrite Hc0 | rewrite Hc1]; apply cong_eq; lia.
Qed.

Lemma mul_169_spec t r : Z.abs t <= 2 ^ 30 -> r = mlk_montgomery_reduce t -> r =q 169 * t /\ - 2 ^ 15 <= r < 2 ^ 15.
Proof.
  intros Ht ->. split; [| apply i16_range]. assert (Hr : Z.abs t <= 2 ^ 31 - 1 - 2 ^ 15 * MLKEM_Q) by (unfold MLKEM_Q; lia).
  rewrite <- (cong_R_inv (mlk_montgomery_reduce t)), (montgomery_reduce_cong t Hr). apply cong_eq. lia.
Qed.

Lemma basemul_spec as_ bs : Forall uint12s as_ -> Forall int16s bs -> length as_ = length bs -> (length as_ <= 4)%nat ->
  let r := mlk_polyvec_basemul_acc_montgomery_cached as_ bs (map mlk_poly_mulcache_compute bs) in
  int16s r /\ forall i, (i < 128)%nat -> cong2 (cmp i r) (scale2 169 (dot i as_ bs)).
Proof.
  intros Ha Hb Hl H4 r.
  set (t i := fold_left (mlk_basemul_acc i) (zip as_ (zip bs (map mlk_poly_mulcache_compute bs))) (0, 0)).
  assert (Ht : forall i, (i < 128)%nat -> cong2 (t i) (dot i as_ bs) /\ Z.abs (fst (t i)) <= 2 ^ 30 /\ Z.abs (snd (t i)) <= 2 ^ 30).
  { intros i Hi. destruct (basemul_acc_spec i Hi as_ bs (0, 0) Ha Hb Hl) as (H & [H0 H1] & _); [unfold room; cbn [fst snd]; lia |].
    fold (t i) in H, H0, H1. split; [rewrite H; split; apply cong_eq; reflexivity |]. lia. }
  assert (Er : r = concat (map (fun i => [mlk_montgomery_reduce (fst (t i)); mlk_montgomery_reduce (snd (t i))]) (seq 0 128))) by reflexivity.
  assert (Hr : forall i, (i < 128)%nat -> rd r (2 * i) = mlk_montgomery_reduce (fst (t i)) /\ rd r (2 * i + 1) = mlk_montgomery_reduce (snd (t i))).
  { intros i Hi. rewrite Er. apply (rd_concat_pairs (fun i => mlk_montgomery_reduce (fst (t i))) (fun i => mlk_montgomery_reduce (snd (t i)))). exact Hi. }
  split.
  - split; [rewrite Er; rewrite (length_groups (fun i => [mlk_montgomery_reduce (fst (t i)); mlk_montgomery_reduce (snd (t i))]) 2); reflexivity |].
    rewrite Er. apply Forall_concat, Forall_map, List.Forall_forall. intros i _.
    apply Forall_cons_2; [apply i16_range | apply Forall_cons_2; [apply i16_range | apply Forall_nil_2]].
  - intros i Hi. destruct (Ht i Hi) as ([C0 C1] & B0 & B1). destruct (Hr i Hi) as [R0 R1].
    destruct (mul_169_spec _ _ B0 R0) as [M0 _]. destruct (mul_169_spec _ _ B1 R1) as [M1 _].
    split; cbn [cmp scale2 fst snd]; [rewrite M0, C0 | rewrite M1, C1]; reflexivity.
Qed.

(** The inverse transform of a scalar product: its residues are the scalar products of the components. *)
Lemma res_invntt_basemul as_ bs : Forall uint12s as_ -> Forall int16s bs -> length as_ = length bs -> (length as_ <= 4)%nat ->
  let r := mlk_poly_invntt_tomont (mlk_polyvec_basemul_acc_montgomery_cached as_ bs (map mlk_poly_mulcache_compute bs)) in
  polyb MLKEM_Q r /\ forall i, (i < 128)%nat -> cong2 (res i r) (dot i as_ bs).
Proof.
  intros Ha Hb Hl H4 r. destruct (basemul_spec as_ bs Ha Hb Hl H4) as [Hi16 Hc].
  split; [now apply invntt_bound |]. intros i Hi. unfold r. rewrite res_invntt, Hc by assumption.
  destruct (dot i as_ bs) as [d0 d1]. split; cbn [scale2 fst snd].
  - rewrite <- (cong_R_inv d0) at 2. apply cong_eq. lia.
  - rewrite <- (cong_R_inv d1) at 2. apply cong_eq. lia.
Qed.

(** ** The product in R_q *)

(** The scalar product of two vectors of polynomials. *)
Definition rq_dot (fs gs : list (list Z)) : list Z :=
  fold_right (fun fg acc => rq_add (rq_mul (fst fg) (snd fg)) acc) (repeat 0 256) (zip fs gs).

Definition dot_res (i : nat) (fs gs : list (list Z)) : Z * Z :=
  fold_right (fun fg acc => add2 (mul2 (gamma i) (res i (fst fg)) (res i (snd fg))) acc) (0, 0) (zip fs gs).

Lemma length_rq_dot fs gs : Forall (fun g => length g = 256%nat) gs -> length (rq_dot fs gs) = 256%nat.
Proof.
  unfold rq_dot. revert gs. induction fs as [|f fs IH]; intros gs Hg; [apply repeat_length |].
  destruct gs as [|g gs]; [apply repeat_length |]. apply Forall_cons_1 in Hg as [Hg1 Hg]. cbn [zip zip_with fold_right].
  unfold rq_add. rewrite length_zip_with. cbn [fst snd]. rewrite length_rq_mul, IH by assumption. reflexivity.
Qed.

Lemma res_rq_dot i fs gs : (i < 128)%nat -> Forall (fun g => length g = 256%nat) gs -> cong2 (res i (rq_dot fs gs)) (dot_res i fs gs).
Proof.
  intros Hi. unfold dot_res. revert gs. induction fs as [|f fs IH]; intros gs Hg.
  - unfold rq_dot, res. cbn [zip zip_with fold_right]. now rewrite mod_X2_zeros.
  - destruct gs as [|g gs]; [unfold rq_dot, res; cbn [zip zip_with fold_right]; now rewrite mod_X2_zeros |].
    apply Forall_cons_1 in Hg as [Hg1 Hg]. cbn [zip zip_with fold_right fst snd]. rewrite <- (IH gs Hg).
    change (rq_dot (f :: fs) (g :: gs)) with (rq_add (rq_mul f g) (rq_dot fs gs)).
    assert (Hl : length (rq_mul f g) = length (rq_dot fs gs)) by (rewrite length_rq_mul, length_rq_dot by assumption; reflexivity).
    unfold res at 1, rq_add. rewrite mod_X2_zip_add by exact Hl.
    pose proof (mod_X2_rq_mul (gamma i) f g (gamma_128 i Hi) Hg1) as [M0 M1]. split; cbn [add2 fst snd]; [rewrite M0 | rewrite M1]; reflexivity.
Qed.

(** Components of transformed vectors. *)
Lemma dot_ntt i as_ fs : (i < 128)%nat -> Forall (polyb MLKEM_Q) fs ->
  cong2 (dot i as_ (map mlk_poly_ntt fs))
        (fold_right (fun af acc => add2 (mul2 (gamma i) (cmp i (fst af)) (res i (snd af))) acc) (0, 0) (zip as_ fs)).
Proof.
  intros Hi. unfold dot. revert fs. induction as_ as [|a as_ IH]; intros fs Hf; [reflexivity |]. destruct fs as [|f fs]; [reflexivity |].
  apply Forall_cons_1 in Hf as [Hf1 Hf]. cbn [map zip zip_with fold_right fst snd]. rewrite (IH fs Hf), (cmp_ntt f i Hf1 Hi). reflexivity.
Qed.

Lemma dot_res_l i gs fs : (i < 128)%nat -> Forall (polyb MLKEM_Q) gs ->
  cong2 (fold_right (fun af acc => add2 (mul2 (gamma i) (cmp i (fst af)) (res i (snd af))) acc) (0, 0) (zip (map (fun g => canon (mlk_poly_ntt g)) gs) fs))
        (dot_res i gs fs).
Proof.
  intros Hi. unfold dot_res. revert fs. induction gs as [|g gs IH]; intros fs Hg; [reflexivity |]. destruct fs as [|f fs]; [reflexivity |].
  apply Forall_cons_1 in Hg as [Hg1 Hg]. cbn [map zip zip_with fold_right fst snd]. rewrite (IH fs Hg).
  assert (C : cong2 (cmp i (canon (mlk_poly_ntt g))) (res i g)).
  { rewrite <- (cmp_ntt g i Hg1 Hi). split; cbn [cmp fst snd]; apply canon_rd_cong. }
  now rewrite C.
Qed.

Lemma ntt_int16s f : polyb MLKEM_Q f -> int16s (mlk_poly_ntt f).
Proof. intros H. apply (polyb_int16s MLK_NTT_BOUND); [discriminate | now apply ntt_bound]. Qed.

Lemma reduce_ntt f : polyb MLKEM_Q f -> mlk_poly_reduce (mlk_poly_ntt f) = canon (mlk_poly_ntt f).
Proof. intros H. now apply poly_reduce_canon, ntt_int16s. Qed.

Lemma canon_uint12s x : length x = 256%nat -> uint12s (canon x).
Proof. intros H. apply canonical_uint12s. now apply canon_canonical. Qed.

Lemma polyb_length B f : polyb B f -> length f = 256%nat.
Proof. now intros [H _]. Qed.

(** C14. Multiplication by transforms is multiplication in R_q = Z_q[X]/(X^256 + 1): for vectors of at most four polynomials with coefficients
    below q in absolute value, transforming both, reducing the first transforms ([mlk_polyvec_reduce]), multiplying the components with the cached products of
    [mlk_polyvec_basemul_acc_montgomery_cached], transforming back with [mlk_poly_invntt_tomont] and reducing gives
    the canonical coefficients of the sum of the products, exactly.  Every product and every partial sum of the 32-bit accumulators is in the range of [int32_t]
    and the accumulators meet the contract of [mlk_montgomery_reduce]. *)
Theorem mlk_ntt_multiplication (fs gs : list mlk_poly) (Hf : Forall (polyb MLKEM_Q) fs) (Hg : Forall (polyb MLKEM_Q) gs)
  (Hlen : length fs = length gs) (H4 : (length fs <= 4)%nat) :
  let fhat := mlk_polyvec_reduce (mlk_polyvec_ntt fs) in
  let ghat := mlk_polyvec_ntt gs in
  mlk_poly_reduce (mlk_poly_invntt_tomont
    (mlk_polyvec_basemul_acc_montgomery_cached fhat ghat (mlk_polyvec_mulcache_compute ghat))) = canon (rq_dot fs gs) /\
  forall i, (i < 128)%nat -> no_overflow i (0, 0) (zip fhat (zip ghat (mlk_polyvec_mulcache_compute ghat))).
Proof.
  intros fhat ghat.
  assert (Ef : fhat = map (fun f => canon (mlk_poly_ntt f)) fs).
  { unfold fhat, mlk_polyvec_reduce, mlk_polyvec_ntt. rewrite map_map. apply map_ext_in. intros f Hin. rewrite List.Forall_forall in Hf.
    now apply reduce_ntt, Hf. }
  assert (Ha : Forall uint12s fhat).
  { rewrite Ef. apply Forall_map. eapply Forall_impl; [| exact Hf]. intros f H. apply canon_uint12s. now apply (polyb_length MLK_NTT_BOUND), ntt_bound. }
  assert (Hb : Forall int16s ghat).
  { unfold ghat, mlk_polyvec_ntt. apply Forall_map. eapply Forall_impl; [| exact Hg]. intros g H. now apply ntt_int16s. }
  assert (Hl : length fhat = length ghat) by (rewrite Ef; unfold ghat, mlk_polyvec_ntt; now rewrite !length_map).
  assert (Hl4 : (length fhat <= 4)%nat) by (rewrite Ef, length_map; exact H4).
  split; [| intros i Hi; apply (basemul_acc_spec i Hi fhat ghat (0, 0) Ha Hb Hl); unfold room; cbn [fst snd]; plen].
  destruct (res_invntt_basemul fhat ghat Ha Hb Hl Hl4) as [Hp Hr].
  unfold mlk_polyvec_mulcache_compute. set (r := mlk_poly_invntt_tomont _) in *.
  assert (Hg256 : Forall (fun g => length g = 256%nat) gs) by (eapply Forall_impl; [| exact Hg]; intros g H; now apply (polyb_length MLKEM_Q)).
  rewrite poly_reduce_canon by (apply (polyb_int16s MLKEM_Q); [discriminate | exact Hp]).
  pose proof (polyb_length _ _ Hp) as Hlr. pose proof (length_rq_dot fs gs Hg256) as Hld.
  apply canon_ext; [lia |]. rewrite Hlr. apply res_inj; [exact Hlr | exact Hld |]. intros i Hi.
  rewrite (Hr i Hi), res_rq_dot by assumption. unfold ghat, mlk_polyvec_ntt. rewrite dot_ntt by assumption. rewrite Ef. now apply dot_res_l.
Qed.

Lemma mlk_ntt_multiplication_witness :
  let f := map (fun i => Z.of_nat i) (seq 0 256) in
  let g := map (fun i => 3328 - Z.of_nat i) (seq 0 256) in
  mlk_poly_reduce (mlk_poly_invntt_tomont (mlk_polyvec_basemul_acc_montgomery_cached (mlk_polyvec_reduce (mlk_polyvec_ntt [f; g]))
    (mlk_polyvec_ntt [g; g]) (mlk_polyvec_mulcache_compute (mlk_polyvec_ntt [g; g])))) = canon (rq_dot [f; g] [g; g]) /\
  forall i, (i < 128)%nat -> no_overflow i (0, 0) (zip (mlk_polyvec_reduce (mlk_polyvec_ntt [f; g]))
    (zip (mlk_polyvec_ntt [g; g]) (mlk_polyvec_mulcache_compute (mlk_polyvec_ntt [g; g])))).
Proof.
  intros f g. assert (Hf : polyb MLKEM_Q f /\ polyb MLKEM_Q g).
  { split; (split; [reflexivity |]); apply List.Forall_forall; intros x Hx; apply in_map_iff in Hx as (i & <- & Hi); apply in_seq in Hi;
      unfold MLKEM_Q; lia. }
  destruct Hf as [Hf Hg]. clearbody f g.
  apply (mlk_ntt_multiplication [f; g] [g; g]); [exact (Forall_cons_2 _ _ _ Hf (Forall_cons_2 _ _ _ Hg (Forall_nil_2 _))) |
    exact (Forall_cons_2 _ _ _ Hg (Forall_cons_2 _ _ _ Hg (Forall_nil_2 _))) | reflexivity | cbn; lia].
Defined.
