(* ===== verification/MlkemCorrect.v ===== *)
(** * K-PKE decrypts what it encrypts

    The matrix and its transpose, sums of residues, the steps of key generation, encryption and decryption on residues, and the noise
    that decryption rounds away. *)

From stdpp Require Import base list numbers.
From Stdlib Require Import ZArith Lia.
From S2P Require Import Prelude Fips202 Keccak Shake ShakeX4 Fips203 MlkemPoly MlkemNtt MlkemCompress MlkemSampling MlkemRing MlkemIndcpa MlkemPke.

#[local] Open Scope Z_scope.
#[local] Open Scope mlkem_scope.
#[local] Opaque mlk_ntt_layer mlk_invntt_layer gamma mlk_poly_ntt mlk_poly_invntt_tomont.

(** ** The matrix *)

Lemma mapM_app {A B} (f : A -> option B) l1 l2 :
  mapM f (l1 ++ l2) = (k1 ← mapM f l1; k2 ← mapM f l2; Some (k1 ++ k2)).
Proof.
  induction l1 as [|x l1 IH]; cbn; [now destruct (mapM f l2) |]. destruct (f x) as [y|]; [cbn | reflexivity].
  rewrite IH. destruct (mapM f l1); cbn; [| reflexivity]. now destruct (mapM f l2).
Qed.

Lemma mapM_map {A B C} (g : A -> B) (f : B -> option C) l : mapM f (map g l) = mapM (fun x => f (g x)) l.
Proof. induction l as [|x l IH]; cbn; [reflexivity |]. now rewrite IH. Qed.

Lemma mapM_batches {B} (f : nat -> option B) w m : forall s,
  (bs ← mapM (fun b => mapM f (map (fun j => (w * b + j)%nat) (seq 0 w))) (seq s m); Some (concat bs)) = mapM f (seq (w * s) (w * m)).
Proof.
  induction m as [|m IH]; intros s; [now rewrite Nat.mul_0_r |].
  replace (w * S m)%nat with (w + w * m)%nat by lia. rewrite seq_app, mapM_app. replace (w * s + w)%nat with (w * S s)%nat by lia.
  rewrite <- IH. cbn [seq mapM]. change (mapM ?g (s :: seq (S s) m)) with (y ← g s; ys ← mapM g (seq (S s) m); Some (y :: ys)). cbv beta.
  replace (map (fun j => (w * s + j)%nat) (seq 0 w)) with (seq (w * s) w).
  - destruct (mapM f (seq (w * s) w)); cbn; [| reflexivity]. now destruct (mapM _ (seq (S s) m)).
  - symmetry. pose proof (fmap_add_seq (w * s) 0 w) as E. rewrite Nat.add_0_r in E. exact E.
Qed.

Section Matrix.
Context (K : nat) (HK : (2 <= K <= 4)%nat) (seed : bytes) (Hseed : are_bytes seed) (Hl32 : length seed = 32%nat) (fuel : nat).

(** Entry [i], in row-major order, with [3 + fuel] blocks of XOF output. *)
Definition matrix_entry (transposed : bool) (i : nat) : option mlk_poly := SampleNTT (mlk_seed_ext K seed transposed i) (3 + fuel).

Lemma seed_ext_bytes transposed i : (i < K * K)%nat ->
  are_bytes (mlk_seed_ext K seed transposed i) /\ length (mlk_seed_ext K seed transposed i) = 34%nat.
Proof.
  intros Hi. assert (Hx : (i / K < K)%nat) by (apply Nat.Div0.div_lt_upper_bound; lia).
  pose proof (Nat.mod_upper_bound i K ltac:(lia)) as Hy. unfold mlk_seed_ext.
  split; [| destruct transposed; rewrite length_app, Hl32; reflexivity].
  destruct transposed; unfold are_bytes; rewrite Forall_app; (split; [exact Hseed |]); repeat constructor; unfold is_u8; lia.
Qed.

Lemma gen_matrix_entries transposed : mlk_gen_matrix K fuel seed transposed =
  (entries ← mapM (matrix_entry transposed) (seq 0 (K * K)); Some (map (fun i => take K (drop (i * K) entries)) (seq 0 K))).
Proof.
  unfold mlk_gen_matrix. set (n4 := (K * K / 4)%nat).
  assert (H4 : (4 * n4 <= K * K)%nat) by (apply Nat.Div0.mul_div_le).
  set (g b := mapM (matrix_entry transposed) (map (fun j => (4 * b + j)%nat) (seq 0 4))).
  rewrite (Forall_mapM_ext _ g (seq 0 n4)).
  - rewrite (Forall_mapM_ext (fun i => mlk_poly_rej_uniform fuel (zeros 256) (mlk_seed_ext K seed transposed i)) (matrix_entry transposed)).
    + assert (E : seq 0 (K * K) = seq (4 * 0) (4 * n4) ++ seq (4 * n4) (K * K - 4 * n4)) by (rewrite <- (seq_app (4 * n4)); f_equal; lia).
      rewrite E, mapM_app, <- (mapM_batches _ 4 n4 0).
      change (fun b => mapM (matrix_entry transposed) (map (fun j => (4 * b + j)%nat) (seq 0 4))) with g. destruct (mapM g (seq 0 n4)) as [bs|]; [cbn | reflexivity].
      now destruct (mapM _ (seq (4 * n4) _)).
    + apply List.Forall_forall. intros i Hi. apply in_seq in Hi. destruct (seed_ext_bytes transposed i ltac:(lia)).
      apply poly_rej_uniform_spec; [reflexivity | assumption].
  - apply List.Forall_forall. intros b Hb. apply in_seq in Hb.
    assert (Hs : forall j, In j (seq 0 4) -> are_bytes (mlk_seed_ext K seed transposed (4 * b + j)) /\
      length (mlk_seed_ext K seed transposed (4 * b + j)) = 34%nat) by (intros j Hj; apply in_seq in Hj; apply seed_ext_bytes; lia).
    rewrite poly_rej_uniform_x4_spec; [| reflexivity | reflexivity | repeat constructor | |].
    + unfold SampleNTT4, g. rewrite !mapM_map. reflexivity.
    + apply Forall_map, List.Forall_forall. intros j Hj. now apply Hs.
    + apply Forall_map, List.Forall_forall. intros j Hj. now apply Hs.
Qed.

Lemma seed_ext_pos transposed x y : (y < K)%nat -> mlk_seed_ext K seed transposed (x * K + y) =
  seed ++ (if transposed then [Z.of_nat x; Z.of_nat y] else [Z.of_nat y; Z.of_nat x]).
Proof.
  intros Hy. unfold mlk_seed_ext. rewrite Nat.div_add_l, Nat.div_small, Nat.add_0_r by lia.
  rewrite Nat.add_comm, Nat.Div0.mod_add, Nat.mod_small by lia. now destruct transposed.
Qed.

(** The matrix has [K] rows of [K] canonical polynomials, sampled from the positions. *)
Lemma gen_matrix_some transposed a : mlk_gen_matrix K fuel seed transposed = Some a ->
  length a = K /\ (forall x, (x < K)%nat -> length (nth x a []) = K) /\
  forall x y, (x < K)%nat -> (y < K)%nat ->
    SampleNTT (mlk_seed_ext K seed transposed (x * K + y)) (3 + fuel) = Some (nth y (nth x a []) []).
Proof.
  rewrite gen_matrix_entries. intros H. apply bind_Some in H as (entries & He & [= <-]).
  pose proof (length_mapM _ _ _ He) as Hl. rewrite length_seq in Hl. apply mapM_Some_1 in He.
  assert (Hrow : forall x, (x < K)%nat -> nth x (map (fun i => take K (drop (i * K) entries)) (seq 0 K)) [] = take K (drop (x * K) entries)).
  { intros x Hx. rewrite (nth_indep _ [] (take K (drop (0 * K) entries))) by (rewrite length_map, length_seq; exact Hx).
    rewrite (map_nth (fun i => take K (drop (i * K) entries))), seq_nth by exact Hx. reflexivity. }
  split; [now rewrite length_map, length_seq |]. split.
  - intros x Hx. rewrite Hrow by exact Hx. rewrite length_take, length_drop. nia.
  - intros x y Hx Hy. rewrite Hrow by exact Hx.
    assert (Hxy : (x * K + y < K * K)%nat) by nia.
    destruct (lookup_lt_is_Some_2 entries (x * K + y)) as [p Hp]; [lia |].
    pose proof (Forall2_lookup_lr _ _ _ _ (x * K + y)%nat p He (proj2 (lookup_seq _ _ _ _) (conj eq_refl Hxy)) Hp) as Hs.
    unfold matrix_entry in Hs. cbv beta in Hs. rewrite Hs. f_equal. symmetry.
    apply nth_lookup_Some. rewrite lookup_take_lt by exact Hy. now rewrite lookup_drop.
Qed.

Lemma gen_matrix_exists transposed : (forall x y, (x < K)%nat -> (y < K)%nat ->
    is_Some (SampleNTT (mlk_seed_ext K seed transposed (x * K + y)) (3 + fuel))) -> is_Some (mlk_gen_matrix K fuel seed transposed).
Proof.
  intros H. rewrite gen_matrix_entries. assert (Hm : is_Some (mapM (matrix_entry transposed) (seq 0 (K * K)))).
  { apply mapM_is_Some_2, List.Forall_forall. intros i Hi. apply in_seq in Hi. cbn. unfold matrix_entry.
    pose proof (Nat.div_mod_eq i K) as Hd. replace i with (i / K * K + i mod K)%nat by lia.
    apply H; [apply Nat.Div0.div_lt_upper_bound; lia | apply Nat.mod_upper_bound; lia]. }
  destruct Hm as [e ->]. cbn. eauto.
Qed.

(** Sampling the transpose gives the transpose. *)
Lemma gen_matrix_transpose a : mlk_gen_matrix K fuel seed false = Some a ->
  exists at_, mlk_gen_matrix K fuel seed true = Some at_ /\
    forall x y, (x < K)%nat -> (y < K)%nat -> nth y (nth x at_ []) [] = nth x (nth y a []) [].
Proof.
  intros Ha. destruct (gen_matrix_some false a Ha) as (_ & _ & Hs).
  assert (Hswap : forall x y, (x < K)%nat -> (y < K)%nat ->
    SampleNTT (mlk_seed_ext K seed true (x * K + y)) (3 + fuel) = Some (nth x (nth y a []) [])).
  { intros x y Hx Hy. rewrite <- (Hs y x Hy Hx). now rewrite !seed_ext_pos. }
  destruct (gen_matrix_exists true) as [at_ Hat]; [intros x y Hx Hy; rewrite Hswap by assumption; eauto |].
  exists at_. split; [exact Hat |]. destruct (gen_matrix_some true at_ Hat) as (_ & _ & Ht).
  intros x y Hx Hy. pose proof (Ht x y Hx Hy) as E. rewrite Hswap in E by assumption. now injection E.
Qed.

End Matrix.

(** ** Sums of residues *)

Fixpoint sum2 (n : nat) (f : nat -> Z * Z) : Z * Z :=
  match n with O => (0, 0) | S n => add2 (f 0%nat) (sum2 n (fun j => f (S j))) end.

Ltac pair_ring := apply injective_projections; cbn [add2 sub2 mul2 scale2 fst snd]; ring.

Lemma add2_swap a b c d : add2 (add2 a b) (add2 c d) = add2 (add2 a c) (add2 b d). Proof. pair_ring. Qed.
Lemma mul2_comm g a b : mul2 g a b = mul2 g b a. Proof. pair_ring. Qed.
Lemma mul2_assoc g a b c : mul2 g (mul2 g a b) c = mul2 g a (mul2 g b c). Proof. pair_ring. Qed.
Lemma mul2_add_r g a b c : mul2 g a (add2 b c) = add2 (mul2 g a b) (mul2 g a c). Proof. pair_ring. Qed.
Lemma mul2_sub_r g a b c : mul2 g a (sub2 b c) = sub2 (mul2 g a b) (mul2 g a c). Proof. pair_ring. Qed.
Lemma mul2_zero_r g a : mul2 g a (0, 0) = (0, 0). Proof. pair_ring. Qed.

Lemma sum2_ext n : forall f h, (forall j, (j < n)%nat -> f j = h j) -> sum2 n f = sum2 n h.
Proof.
  induction n as [|n IH]; intros f h H; [reflexivity |]. cbn [sum2]. rewrite (H 0%nat) by lia. f_equal. apply IH. intros j Hj. apply H. lia.
Qed.

Lemma sum2_cong n : forall f h, (forall j, (j < n)%nat -> cong2 (f j) (h j)) -> cong2 (sum2 n f) (sum2 n h).
Proof.
  induction n as [|n IH]; intros f h H; [reflexivity |]. cbn [sum2]. rewrite (H 0%nat) by lia.
  rewrite (IH (fun j => f (S j)) (fun j => h (S j))) by (intros j Hj; apply H; lia). reflexivity.
Qed.

Lemma sum2_add n : forall f h, sum2 n (fun j => add2 (f j) (h j)) = add2 (sum2 n f) (sum2 n h).
Proof. induction n as [|n IH]; intros f h; [reflexivity |]. cbn [sum2]. rewrite IH. apply add2_swap. Qed.

Lemma sum2_sub n : forall f h, sum2 n (fun j => sub2 (f j) (h j)) = sub2 (sum2 n f) (sum2 n h).
Proof. induction n as [|n IH]; intros f h; [reflexivity |]. cbn [sum2]. rewrite IH. pair_ring. Qed.

Lemma sum2_mul g c n : forall f, mul2 g c (sum2 n f) = sum2 n (fun j => mul2 g c (f j)).
Proof. induction n as [|n IH]; intros f; [apply mul2_zero_r |]. cbn [sum2]. now rewrite mul2_add_r, IH. Qed.

Lemma sum2_zero n : sum2 n (fun _ => (0, 0)) = (0, 0).
Proof. induction n as [|n IH]; [reflexivity |]. cbn [sum2]. now rewrite IH. Qed.

Lemma sum2_swap m n : forall f, sum2 m (fun i => sum2 n (fun j => f i j)) = sum2 n (fun j => sum2 m (fun i => f i j)).
Proof.
  induction m as [|m IH]; intros f; [symmetry; apply sum2_zero |]. cbn [sum2].
  rewrite (IH (fun i j => f (S i) j)), <- sum2_add. reflexivity.
Qed.

(** (A s) . r = s . (A^T r). *)
Lemma sum2_adjoint g n (A : nat -> nat -> Z * Z) s r :
  sum2 n (fun a => mul2 g (sum2 n (fun j => mul2 g (A a j) (s j))) (r a)) =
  sum2 n (fun j => mul2 g (s j) (sum2 n (fun a => mul2 g (A a j) (r a)))).
Proof.
  rewrite (sum2_ext n _ (fun a => sum2 n (fun j => mul2 g (r a) (mul2 g (A a j) (s j))))) by (intros; now rewrite mul2_comm, sum2_mul).
  rewrite sum2_swap. apply sum2_ext. intros j _. rewrite sum2_mul. apply sum2_ext. intros a _. pair_ring.
Qed.

(** What decryption sees: the message and the noise. *)
Lemma decryption_identity g n (A : nat -> nat -> Z * Z) (t s e r e1 b u : nat -> Z * Z) e2 k v v' w :
  (forall a, (a < n)%nat -> cong2 (t a) (add2 (sum2 n (fun j => mul2 g (A a j) (s j))) (e a))) ->
  (forall j, (j < n)%nat -> cong2 (b j) (add2 (sum2 n (fun a => mul2 g (A a j) (r a))) (e1 j))) ->
  cong2 v (add2 (add2 (sum2 n (fun a => mul2 g (t a) (r a))) e2) k) ->
  cong2 w (sub2 v' (sum2 n (fun j => mul2 g (s j) (u j)))) ->
  cong2 w (add2 k (sub2 (add2 (sum2 n (fun a => mul2 g (e a) (r a))) (add2 e2 (sub2 v' v)))
                        (sum2 n (fun j => mul2 g (s j) (add2 (e1 j) (sub2 (u j) (b j))))))).
Proof.
  intros Ht Hb Hv Hw. rewrite Hw. clear Hw. set (As a := sum2 n (fun j => mul2 g (A a j) (s j))). set (Ar j := sum2 n (fun a => mul2 g (A a j) (r a))).
  assert (Hv2 : cong2 v (add2 (add2 (sum2 n (fun a => mul2 g (add2 (As a) (e a)) (r a))) e2) k)).
  { rewrite Hv. rewrite (sum2_cong n (fun a => mul2 g (t a) (r a)) (fun a => mul2 g (add2 (As a) (e a)) (r a))); [reflexivity |].
    intros a Ha. now rewrite (Ht a Ha). }
  rewrite (sum2_cong n (fun j => mul2 g (s j) (add2 (e1 j) (sub2 (u j) (b j))))
             (fun j => sub2 (mul2 g (s j) (u j)) (mul2 g (s j) (Ar j)))).
  2: { intros j Hj. rewrite (Hb j Hj). fold (Ar j). apply eq_subrelation; [typeclasses eauto |]. pair_ring. }
  rewrite Hv2, sum2_sub. replace (sum2 n (fun j => mul2 g (s j) (Ar j))) with (sum2 n (fun a => mul2 g (As a) (r a))) by apply sum2_adjoint.
  rewrite (sum2_ext n (fun a => mul2 g (add2 (As a) (e a)) (r a)) (fun a => add2 (mul2 g (As a) (r a)) (mul2 g (e a) (r a)))) by (intros; pair_ring).
  rewrite sum2_add. apply eq_subrelation; [typeclasses eauto |]. pair_ring.
Qed.

(** Scalar products as sums. *)
Lemma dot_sum i : forall as_ bs, length as_ = length bs ->
  dot i as_ bs = sum2 (length as_) (fun j => mul2 (gamma i) (cmp i (nth j as_ [])) (cmp i (nth j bs []))).
Proof.
  unfold dot. induction as_ as [|a as_ IH]; intros [|b bs] Hl; try discriminate; [reflexivity |]. cbn [zip zip_with fold_right length sum2 nth fst snd].
  f_equal. apply IH. now injection Hl.
Qed.

Lemma dot_res_sum i : forall fs gs, length fs = length gs ->
  dot_res i fs gs = sum2 (length fs) (fun j => mul2 (gamma i) (res i (nth j fs [])) (res i (nth j gs []))).
Proof.
  unfold dot_res. induction fs as [|a fs IH]; intros [|b gs] Hl; try discriminate; [reflexivity |]. cbn [zip zip_with fold_right length sum2 nth fst snd].
  f_equal. apply IH. now injection Hl.
Qed.

(** ** The steps of the scheme on residues *)

Lemma res_add i x y z : length x = 256%nat -> length y = 256%nat -> length z = 256%nat ->
  (forall j, (j < 256)%nat -> rd z j =q rd x j + rd y j) -> cong2 (res i z) (add2 (res i x) (res i y)).
Proof.
  intros Hx Hy Hz H. unfold res, add2. rewrite <- mod_X2_zip_add by lia. apply mod_X2_cong, rd_Forall2_cong.
  - rewrite length_zip_with. lia.
  - rewrite Hz. intros j Hj. rewrite rd_zip_with, cong_mod_q by lia. now apply H.
Qed.

Lemma res_sub i x y z : length x = 256%nat -> length y = 256%nat -> length z = 256%nat ->
  (forall j, (j < 256)%nat -> rd z j =q rd x j - rd y j) -> cong2 (res i z) (sub2 (res i x) (res i y)).
Proof.
  intros Hx Hy Hz H. rewrite (res_add i z y x); auto; [split; apply cong_eq; cbn [sub2 add2 fst snd]; lia |].
  intros j Hj. rewrite H by exact Hj. apply cong_eq. lia.
Qed.

Lemma length_canon x : length (canon x) = length x.
Proof. apply length_map. Qed.

Lemma canonical_polyb a : canonical a -> polyb MLKEM_Q a.
Proof. intros [Hl H]. split; [exact Hl |]. eapply Forall_impl; [| exact H]. cbv beta. change MLKEM_Q with q. lia. Qed.

Lemma canonical_uint12s_all l : Forall canonical l -> Forall uint12s l.
Proof. intros H. eapply Forall_impl; [exact canonical_uint12s | exact H]. Qed.

Section Rows.
Context (row fs : list mlk_poly) (Hrow : Forall uint12s row) (Hfs : Forall (polyb MLKEM_Q) fs).
Context (Hlen : length row = length fs) (H4 : (length row <= 4)%nat).

Let fhat : mlk_polyvec := mlk_polyvec_ntt fs.
Let prod : mlk_poly := mlk_polyvec_basemul_acc_montgomery_cached row fhat (mlk_polyvec_mulcache_compute fhat).

Lemma row_operands : Forall uint12s row /\ Forall int16s fhat /\ length row = length fhat.
Proof.
  split; [| split].
  - exact Hrow.
  - apply Forall_map. eapply Forall_impl; [| exact Hfs]. exact ntt_int16s.
  - unfold fhat, mlk_polyvec_ntt. rewrite length_map. exact Hlen.
Qed.

(** A row of [mlk_indcpa_keypair_derand]: the public vector. *)
Lemma keygen_row e : polyb MLKEM_Q e ->
  let t := mlk_poly_reduce (mlk_poly_add (mlk_poly_tomont prod) (mlk_poly_ntt e)) in
  canonical t /\ forall i, (i < 128)%nat -> cong2 (cmp i t) (add2 (dot i row fhat) (res i e)).
Proof.
  intros He t. destruct row_operands as (Ha & Hb & Hl). destruct (basemul_spec row fhat Ha Hb Hl H4) as [Hi16 Hc].
  destruct (poly_tomont_spec prod Hi16) as [Hm Hmc]. pose proof (ntt_bound e He) as Hn.
  destruct (poly_add_spec MLKEM_Q MLK_NTT_BOUND ltac:(reflexivity) ltac:(reflexivity) ltac:(discriminate) _ _ Hm Hn) as [Hs Hsc].
  assert (Et : t = canon (mlk_poly_add (mlk_poly_tomont prod) (mlk_poly_ntt e))).
  { apply poly_reduce_canon. apply (polyb_int16s (MLKEM_Q + MLK_NTT_BOUND - 1)); [discriminate | exact Hs]. }
  split; [rewrite Et; apply canon_canonical; now apply (polyb_length _ _ Hs) |]. intros i Hi. rewrite <- (cmp_ntt e i He Hi), Et.
  pose proof (Hc i Hi) as Hci. fold prod in Hci. destruct (dot i row fhat) as [d0 d1]. destruct Hci as [C0 C1].
  assert (R : forall x d, x =q 169 * d -> 2 ^ 16 * x =q d) by (intros x d ->; rewrite <- (cong_R_inv d) at 2; apply cong_eq; lia).
  split; cbn [cmp add2 scale2 fst snd] in *; rewrite canon_rd_cong, Hsc, Hmc by lia; now rewrite R by eassumption.
Qed.

Lemma product_residues : polyb MLKEM_Q (mlk_poly_invntt_tomont prod) /\
  forall i, (i < 128)%nat -> cong2 (res i (mlk_poly_invntt_tomont prod)) (dot i row fhat).
Proof. destruct row_operands as (Ha & Hb & Hl). exact (res_invntt_basemul row fhat Ha Hb Hl H4). Qed.

(** A row of [mlk_indcpa_enc]: the vector of the ciphertext. *)
Lemma enc_row e1 : polyb MLKEM_Q e1 ->
  let b := mlk_poly_reduce (mlk_poly_add (mlk_poly_invntt_tomont prod) e1) in
  canonical b /\ forall i, (i < 128)%nat -> cong2 (res i b) (add2 (dot i row fhat) (res i e1)).
Proof.
  intros He b. destruct product_residues as [Hp Hr].
  destruct (poly_add_spec MLKEM_Q MLKEM_Q ltac:(reflexivity) ltac:(reflexivity) ltac:(discriminate) _ _ Hp He) as [Hs Hsc].
  assert (Eb : b = canon (mlk_poly_add (mlk_poly_invntt_tomont prod) e1)) by (apply poly_reduce_canon;
    apply (polyb_int16s (MLKEM_Q + MLKEM_Q - 1)); [discriminate | exact Hs]).
  pose proof (polyb_length _ _ Hs) as Hsl. split; [rewrite Eb; now apply canon_canonical |]. intros i Hi. rewrite <- (Hr i Hi), Eb.
  apply res_add; [exact (polyb_length _ _ Hp) | exact (polyb_length _ _ He) | now rewrite length_canon |]. intros j Hj. rewrite canon_rd_cong, Hsc by exact Hj. reflexivity.
Qed.

(** The polynomial of the ciphertext. *)
Lemma enc_poly e2 k : polyb MLKEM_Q e2 -> polyb MLKEM_Q k ->
  let v := mlk_poly_reduce (mlk_poly_add (mlk_poly_add (mlk_poly_invntt_tomont prod) e2) k) in
  canonical v /\ forall i, (i < 128)%nat -> cong2 (res i v) (add2 (add2 (dot i row fhat) (res i e2)) (res i k)).
Proof.
  intros He Hk v. destruct product_residues as [Hp Hr].
  destruct (poly_add_spec MLKEM_Q MLKEM_Q ltac:(reflexivity) ltac:(reflexivity) ltac:(discriminate) _ _ Hp He) as [Hs Hsc].
  destruct (poly_add_spec (MLKEM_Q + MLKEM_Q - 1) MLKEM_Q ltac:(reflexivity) ltac:(reflexivity) ltac:(discriminate) _ _ Hs Hk) as [Hs2 Hsc2].
  set (s1 := mlk_poly_add (mlk_poly_invntt_tomont prod) e2) in *.
  assert (Ev : v = canon (mlk_poly_add s1 k)) by (apply poly_reduce_canon;
    apply (polyb_int16s (MLKEM_Q + MLKEM_Q - 1 + MLKEM_Q - 1)); [discriminate | exact Hs2]).
  pose proof (polyb_length _ _ Hs2) as Hsl. split; [rewrite Ev; now apply canon_canonical |]. intros i Hi. rewrite <- (Hr i Hi), Ev.
  rewrite (res_add i s1 k _ (polyb_length _ _ Hs) (polyb_length _ _ Hk)); [| now rewrite length_canon |
    intros j Hj; now rewrite canon_rd_cong, Hsc2 by exact Hj].
  rewrite (res_add i _ e2 s1 (polyb_length _ _ Hp) (polyb_length _ _ He) (polyb_length _ _ Hs)); [reflexivity |].
  intros j Hj. now rewrite Hsc by exact Hj.
Qed.

(** The polynomial that decryption rounds. *)
Lemma dec_poly v : polyb MLKEM_Q v ->
  let w := mlk_poly_reduce (mlk_poly_sub v (mlk_poly_invntt_tomont prod)) in
  canonical w /\ forall i, (i < 128)%nat -> cong2 (res i w) (sub2 (res i v) (dot i row fhat)).
Proof.
  intros Hv w. destruct product_residues as [Hp Hr].
  destruct (poly_sub_spec MLKEM_Q MLKEM_Q ltac:(reflexivity) ltac:(reflexivity) ltac:(discriminate) _ _ Hv Hp) as [Hs Hsc].
  assert (Ew : w = canon (mlk_poly_sub v (mlk_poly_invntt_tomont prod))) by (apply poly_reduce_canon;
    apply (polyb_int16s (MLKEM_Q + MLKEM_Q - 1)); [discriminate | exact Hs]).
  pose proof (polyb_length _ _ Hs) as Hsl. split; [rewrite Ew; now apply canon_canonical |]. intros i Hi. rewrite <- (Hr i Hi), Ew.
  apply res_sub; [exact (polyb_length _ _ Hv) | exact (polyb_length _ _ Hp) | now rewrite length_canon |]. intros j Hj. rewrite canon_rd_cong, Hsc by exact Hj. reflexivity.
Qed.

(** The scalar product of a row with a transformed vector, in terms of the residues of the vector. *)
Lemma dot_row i : (i < 128)%nat ->
  cong2 (dot i row fhat) (sum2 (length row) (fun j => mul2 (gamma i) (cmp i (nth j row [])) (res i (nth j fs [])))).
Proof.
  intros Hi. destruct row_operands as (_ & _ & Hl). rewrite dot_sum by exact Hl. apply sum2_cong. intros j Hj.
  unfold fhat, mlk_polyvec_ntt. rewrite (nth_indep (map mlk_poly_ntt fs) [] (mlk_poly_ntt [])) by (rewrite length_map; lia). rewrite map_nth.
  rewrite cmp_ntt; [reflexivity | | exact Hi]. rewrite List.Forall_forall in Hfs. apply Hfs, nth_In. lia.
Qed.

End Rows.

(** ** Shapes *)

Lemma length_keccak_sponge r sfx m d : (0 < r <= 200)%nat -> length (keccak_sponge r sfx m d) = d.
Proof.
  intros Hr. unfold keccak_sponge. assert (H : length (absorb r (padded r sfx m) (zeros 200)) = 200%nat) by (apply absorb_state; [apply length_zeros | apply zeros_bytes]).
  rewrite length_take, (length_squeeze r Hr _ _ H).
  pose proof (Nat.div_mod_eq d r). pose proof (Nat.mod_upper_bound d r ltac:(lia)). nia.
Qed.

Lemma hash_g_shape x : are_bytes x -> length (mlk_hash_g x) = 64%nat /\ are_bytes (mlk_hash_g x).
Proof.
  intros Hx. unfold mlk_hash_g, mlk_sha3_512, SHA3_512_RATE. rewrite (mlk_oneshot 72 ltac:(lia) x _ _ 64 Hx domain_sha3 ltac:(lia)).
  split; [apply length_keccak_sponge; lia | apply keccak_sponge_bytes].
Qed.

Lemma hash_h_shape x : are_bytes x -> length (mlk_hash_h x) = 32%nat /\ are_bytes (mlk_hash_h x).
Proof.
  intros Hx. unfold mlk_hash_h, mlk_sha3_256, SHA3_256_RATE. rewrite (mlk_oneshot 136 ltac:(lia) x _ _ 32 Hx domain_sha3 ltac:(lia)).
  split; [apply length_keccak_sponge; lia | apply keccak_sponge_bytes].
Qed.

Lemma shake256_shape n x : are_bytes x -> length (mlk_shake256 n x) = n /\ are_bytes (mlk_shake256 n x).
Proof.
  intros Hx. unfold mlk_shake256, SHAKE256_RATE. rewrite (mlk_oneshot 136 ltac:(lia) x _ _ n Hx domain_shake ltac:(lia)).
  split; [apply length_keccak_sponge; lia | apply keccak_sponge_bytes].
Qed.

Lemma snoc_bytes x b : are_bytes x -> 0 <= b < 256 -> are_bytes (x ++ [b]).
Proof. intros Hx Hb. apply Forall_app. split; [exact Hx | repeat constructor; unfold is_u8; lia]. Qed.

Section Shapes.
Context (K : nat) (HK : K = 2%nat \/ K = 3%nat \/ K = 4%nat).

(** Small coefficients: at most 3 in absolute value. *)
#[local] Abbreviation small := (polyb 4).

Lemma noise_eta1 seed n : are_bytes seed -> 0 <= n < 256 -> small (mlk_poly_cbd_eta1 K (mlk_prf_eta (MLKEM_ETA1 K) (seed ++ [n]))).
Proof.
  intros Hs Hn. destruct (shake256_shape (MLKEM_ETA1 K * MLKEM_N / 4) (seed ++ [n]) (snoc_bytes _ _ Hs Hn)) as [Hl Hb].
  unfold mlk_poly_cbd_eta1, mlk_prf_eta. destruct HK as [-> | [-> | ->]]; cbn [MLKEM_ETA1 Nat.eqb] in *.
  - rewrite cbd3_exact by assumption. apply (SamplePolyCBD_bound 3).
  - rewrite cbd2_exact by assumption. apply (polyb_weaken 3); [lia | apply (SamplePolyCBD_bound 2)].
  - rewrite cbd2_exact by assumption. apply (polyb_weaken 3); [lia | apply (SamplePolyCBD_bound 2)].
Qed.

Lemma noise_eta2 seed n : are_bytes seed -> 0 <= n < 256 -> small (mlk_poly_cbd_eta2 (mlk_prf_eta MLKEM_ETA2 (seed ++ [n]))).
Proof.
  intros Hs Hn. destruct (shake256_shape (MLKEM_ETA2 * MLKEM_N / 4) (seed ++ [n]) (snoc_bytes _ _ Hs Hn)) as [Hl Hb].
  unfold mlk_poly_cbd_eta2, mlk_prf_eta. rewrite cbd2_exact by assumption. apply (polyb_weaken 3); [lia | apply (SamplePolyCBD_bound 2)].
Qed.

Lemma noise_4x seed nonces : are_bytes seed -> Forall (fun n => 0 <= n < 256) nonces -> Forall small (mlk_poly_getnoise_eta1_4x K seed nonces).
Proof. intros Hs Hn. apply Forall_map. eapply Forall_impl; [| exact Hn]. intros n H. now apply noise_eta1. Qed.

Ltac small_consts := repeat (apply Forall_cons_2; [lia |]); apply Forall_nil_2.

Lemma keypair_noise_shape seed : are_bytes seed ->
  let '(s, e) := mlk_keypair_getnoise_eta1 K seed in
  length s = K /\ length e = K /\ Forall small s /\ Forall small e.
Proof.
  intros Hs. assert (H : forall ns, Forall (fun n => 0 <= n < 256) ns -> Forall small (mlk_poly_getnoise_eta1_4x K seed ns)) by (intros; now apply noise_4x).
  unfold mlk_keypair_getnoise_eta1. destruct HK as [-> | [-> | ->]]; cbn [Nat.eqb].
  - pose proof (H [0; 1; 2; 3] ltac:(small_consts)) as H'. split; [reflexivity |]. split; [reflexivity |]. split; [now apply Forall_take | now apply Forall_drop].
  - split; [reflexivity |]. split; [reflexivity |]. split; apply H; small_consts.
  - split; [reflexivity |]. split; [reflexivity |]. split; apply H; small_consts.
Qed.

Lemma enc_noise_shape seed : are_bytes seed ->
  let '(r, e1, e2) := mlk_enc_getnoise_eta1_eta2 K seed in
  length r = K /\ length e1 = K /\ Forall small r /\ Forall small e1 /\ small e2.
Proof.
  intros Hs. assert (H : forall ns, Forall (fun n => 0 <= n < 256) ns -> Forall small (mlk_poly_getnoise_eta1_4x K seed ns)) by (intros; now apply noise_4x).
  assert (H2 : forall n, 0 <= n < 256 -> small (mlk_poly_getnoise_eta2 seed n)) by (intros; now apply noise_eta2).
  pose proof (fun n Hs => noise_eta1 seed n Hs) as H1. unfold mlk_enc_getnoise_eta1_eta2, mlk_poly_getnoise_eta2_4x.
  destruct HK as [-> | [-> | ->]]; cbn [Nat.eqb]; cbv zeta.
  - unfold mlk_poly_getnoise_eta1122_4x. split; [reflexivity |]. split; [reflexivity |].
    split; [exact (Forall_cons_2 _ _ _ (H1 0 Hs ltac:(lia)) (Forall_cons_2 _ _ _ (H1 1 Hs ltac:(lia)) (Forall_nil_2 _))) |].
    split; [exact (Forall_cons_2 _ _ _ (H2 2 ltac:(lia)) (Forall_cons_2 _ _ _ (H2 3 ltac:(lia)) (Forall_nil_2 _))) | apply H2; lia].
  - pose proof (H [3; 4; 5; 6] ltac:(small_consts)) as H'. split; [reflexivity |]. split; [reflexivity |].
    split; [apply H; small_consts |]. split; [now apply Forall_take |].
    rewrite List.Forall_forall in H'. apply H', nth_In. apply Nat.leb_le. reflexivity.
  - split; [reflexivity |]. split; [reflexivity |]. split; [apply (H [0; 1; 2; 3]); small_consts |]. split; [apply (H [4; 5; 6; 7]); small_consts | apply (H2 8); lia].
Qed.

(** Rows of fixed width, read back. *)
Lemma read_rows {A B} (f : A -> bytes) (g : bytes -> B) w tail : forall vec, Forall (fun x => length (f x) = w) vec ->
  map (fun i => g (sub (concat (map f vec) ++ tail) (i * w) w)) (seq 0 (length vec)) = map (fun x => g (f x)) vec.
Proof.
  induction vec as [|x vec IH]; intros Hw; [reflexivity |]. apply Forall_cons_1 in Hw as [Hx Hw]. cbn [length seq map concat].
  rewrite <- (IH Hw). f_equal.
  - unfold sub. rewrite Nat.mul_0_l, drop_0, <- app_assoc. now rewrite take_app_length' by (now rewrite Hx).
  - rewrite <- seq_shift, map_map. apply map_ext. intros i. f_equal. unfold sub. f_equal.
    rewrite <- app_assoc, drop_app_ge by lia. f_equal. lia.
Qed.

Lemma tobytes_length a : canonical a -> length (mlk_poly_tobytes a) = 384%nat /\ are_bytes (mlk_poly_tobytes a).
Proof.
  intros Ha. pose proof Ha as [Hl _]. split_serialize Ha. rewrite E12. split; [apply length_ByteEncode; lia | apply ByteEncode_bytes].
Qed.

Lemma polyvec_frombytes_tobytes vec tail : length vec = K -> Forall canonical vec ->
  mlk_polyvec_frombytes K (mlk_polyvec_tobytes vec ++ tail) = vec.
Proof.
  intros Hl Hv. unfold mlk_polyvec_frombytes, mlk_polyvec_tobytes. rewrite <- Hl, read_rows.
  - rewrite <- (map_id vec) at 2. apply map_ext_in. intros a Ha. rewrite List.Forall_forall in Hv. now apply encode_decode, Hv.
  - eapply Forall_impl; [| exact Hv]. intros a Ha. now apply tobytes_length.
Qed.

Lemma length_polyvec_tobytes vec : length vec = K -> Forall canonical vec -> length (mlk_polyvec_tobytes vec) = MLKEM_POLYVECBYTES K.
Proof.
  intros Hl Hv. unfold mlk_polyvec_tobytes, MLKEM_POLYVECBYTES. rewrite <- Hl. clear Hl. induction Hv as [|a vec Ha Hv IH]; [reflexivity |].
  cbn [map concat length]. rewrite length_app, IH. rewrite (proj1 (tobytes_length a Ha)). unfold MLKEM_POLYBYTES. lia.
Qed.

(** The lossy codecs return canonical polynomials, and the compressed forms have their widths. *)
Lemma codec_shape d a : codec_ok d -> (0 < d)%nat -> canonical a ->
  length (ByteEncode d (map (Compress (Z.of_nat d)) a)) = (32 * d)%nat /\
  canonical (map (Decompress (Z.of_nat d)) (ByteDecode d (ByteEncode d (map (Compress (Z.of_nat d)) a)))).
Proof.
  intros Hc Hd [Hl _]. assert (E : length (ByteEncode d (map (Compress (Z.of_nat d)) a)) = (32 * d)%nat) by (apply length_ByteEncode; rewrite length_map; lia).
  split; [exact E |]. apply Decompress_canonical; auto. rewrite E. lia.
Qed.

Lemma du_shape a : canonical a -> length (mlk_poly_compress_du K a) = MLKEM_POLYCOMPRESSEDBYTES_DU K /\ are_bytes (mlk_poly_compress_du K a) /\
  canonical (mlk_poly_decompress_du K (mlk_poly_compress_du K a)).
Proof.
  intros Ha. split_serialize Ha. unfold mlk_poly_compress_du, mlk_poly_decompress_du, MLKEM_DU, MLKEM_POLYCOMPRESSEDBYTES_DU.
  destruct (codec_shape 10 a codec_10 ltac:(lia) Ha) as [L10 C10]. destruct (codec_shape 11 a codec_11 ltac:(lia) Ha) as [L11 C11].
  destruct (K =? 4)%nat; cbn [Nat.eqb]; rewrite ?E10, ?E11; (split; [assumption | split; [apply ByteEncode_bytes |]]).
  - split_deserialize (ByteEncode_bytes 11 (map (Compress 11) a)). rewrite D11 by exact L11. exact C11.
  - split_deserialize (ByteEncode_bytes 10 (map (Compress 10) a)). rewrite D10 by exact L10. exact C10.
Qed.

Lemma dv_shape a : canonical a -> length (mlk_poly_compress_dv K a) = MLKEM_POLYCOMPRESSEDBYTES_DV K /\ are_bytes (mlk_poly_compress_dv K a) /\
  canonical (mlk_poly_decompress_dv K (mlk_poly_compress_dv K a)).
Proof.
  intros Ha. split_serialize Ha. unfold mlk_poly_compress_dv, mlk_poly_decompress_dv, MLKEM_DV, MLKEM_POLYCOMPRESSEDBYTES_DV.
  destruct (codec_shape 4 a codec_4 ltac:(lia) Ha) as [L4 C4]. destruct (codec_shape 5 a codec_5 ltac:(lia) Ha) as [L5 C5].
  destruct (K =? 4)%nat; cbn [Nat.eqb]; rewrite ?E4, ?E5; (split; [assumption | split; [apply ByteEncode_bytes |]]).
  - split_deserialize (ByteEncode_bytes 5 (map (Compress 5) a)). rewrite D5 by exact L5. exact C5.
  - split_deserialize (ByteEncode_bytes 4 (map (Compress 4) a)). rewrite D4 by exact L4. exact C4.
Qed.

(** Unpacking what was packed: the ciphertext, through the codecs. *)
Definition requantize_du (a : mlk_poly) : mlk_poly := mlk_poly_decompress_du K (mlk_poly_compress_du K a).
Definition requantize_dv (a : mlk_poly) : mlk_poly := mlk_poly_decompress_dv K (mlk_poly_compress_dv K a).

Lemma polyvec_compress_shape b : length b = K -> Forall canonical b ->
  length (mlk_polyvec_compress_du K b) = MLKEM_POLYVECCOMPRESSEDBYTES_DU K /\ are_bytes (mlk_polyvec_compress_du K b).
Proof.
  intros Hl Hb. unfold mlk_polyvec_compress_du, MLKEM_POLYVECCOMPRESSEDBYTES_DU.
  replace (K * MLKEM_POLYCOMPRESSEDBYTES_DU K)%nat with (length b * MLKEM_POLYCOMPRESSEDBYTES_DU K)%nat by now rewrite Hl.
  clear Hl. induction Hb as [|a b Ha Hb IH]; [split; [reflexivity | apply Forall_nil_2] |].
  destruct IH as [I1 I2]. destruct (du_shape a Ha) as (L & B & _). cbn [map concat length]. split.
  - rewrite length_app, I1, L. lia.
  - apply Forall_app. now split.
Qed.

Lemma unpack_pack_ciphertext b v : length b = K -> Forall canonical b -> canonical v ->
  mlk_unpack_ciphertext K (mlk_pack_ciphertext K b v) = (map requantize_du b, requantize_dv v).
Proof.
  intros Hl Hb Hv. unfold mlk_unpack_ciphertext, mlk_pack_ciphertext. f_equal.
  - unfold mlk_polyvec_decompress_du, mlk_polyvec_compress_du. replace (seq 0 K) with (seq 0 (length b)) by now rewrite Hl.
    rewrite (read_rows (mlk_poly_compress_du K) (mlk_poly_decompress_du K)); [reflexivity |].
    eapply Forall_impl; [| exact Hb]. intros a Ha. exact (proj1 (du_shape a Ha)).
  - rewrite drop_app_length' by (symmetry; now apply polyvec_compress_shape). reflexivity.
Qed.

End Shapes.

#[local] Opaque mlk_hash_g mlk_gen_matrix mlk_polyvec_basemul_acc_montgomery_cached mlk_poly_reduce mlk_poly_add mlk_poly_sub mlk_poly_tomont.
#[local] Opaque mlk_poly_mulcache_compute mlk_poly_tobytes mlk_poly_frombytes mlk_keypair_getnoise_eta1 mlk_enc_getnoise_eta1_eta2 mlk_poly_frommsg.

(** ** Key generation and encryption *)

Lemma small_q f : polyb 4 f -> polyb MLKEM_Q f.
Proof. apply polyb_weaken. discriminate. Qed.

Section Correct.
Context (K : nat) (HK : K = 2%nat \/ K = 3%nat \/ K = 4%nat) (fuel : nat).

Definition publicseed (coins : bytes) : bytes := take MLKEM_SYMBYTES (mlk_hash_g (take MLKEM_SYMBYTES coins ++ [Z.of_nat K])).
Definition noiseseed (coins : bytes) : bytes := drop MLKEM_SYMBYTES (mlk_hash_g (take MLKEM_SYMBYTES coins ++ [Z.of_nat K])).

Lemma seeds_shape coins : are_bytes coins ->
  are_bytes (publicseed coins) /\ length (publicseed coins) = 32%nat /\ are_bytes (noiseseed coins).
Proof.
  intros Hc. assert (Hb : are_bytes (take MLKEM_SYMBYTES coins ++ [Z.of_nat K])) by (apply snoc_bytes; [now apply Forall_take | lia]).
  destruct (hash_g_shape _ Hb) as [Hl Hh]. unfold publicseed, noiseseed.
  split; [now apply Forall_take |]. split; [rewrite length_take, Hl; reflexivity | now apply Forall_drop].
Qed.

Lemma matrix_row seed transposed a x : are_bytes seed -> length seed = 32%nat -> mlk_gen_matrix K fuel seed transposed = Some a -> (x < K)%nat ->
  length a = K /\ length (nth x a []) = K /\ Forall canonical (nth x a []).
Proof.
  intros Hs Hl Ha Hx. destruct (gen_matrix_some K ltac:(lia) seed Hs Hl fuel transposed a Ha) as (H1 & H2 & H3).
  split; [exact H1 |]. split; [now apply H2 |]. apply (nth_Forall canonical _ []). intros y Hy. rewrite H2 in Hy by exact Hx.
  eapply SampleNTT_canonical. now apply H3.
Qed.

Lemma keypair_spec coins pk sk s e : are_bytes coins -> mlk_keypair_getnoise_eta1 K (noiseseed coins) = (s, e) ->
  mlk_indcpa_keypair_derand K fuel coins = Some (pk, sk) ->
  exists a t, mlk_gen_matrix K fuel (publicseed coins) false = Some a /\
    pk = mlk_polyvec_tobytes t ++ publicseed coins /\ sk = mlk_polyvec_tobytes (map (fun f => canon (mlk_poly_ntt f)) s) /\
    length t = K /\ Forall canonical t /\
    forall x i, (x < K)%nat -> (i < 128)%nat ->
      cong2 (cmp i (nth x t [])) (add2 (sum2 K (fun j => mul2 (gamma i) (cmp i (nth j (nth x a []) [])) (res i (nth j s [])))) (res i (nth x e []))).
Proof.
  intros Hc Hn H. destruct (seeds_shape coins Hc) as (Hs & Hl32 & Hns).
  pose proof (keypair_noise_shape K HK (noiseseed coins) Hns) as Hsh. rewrite Hn in Hsh. destruct Hsh as (Ls & Le & Hss & Hse).
  assert (Hsq : Forall (polyb MLKEM_Q) s) by (eapply Forall_impl; [exact small_q | exact Hss]).
  assert (Heq : Forall (polyb MLKEM_Q) e) by (eapply Forall_impl; [exact small_q | exact Hse]).
  unfold mlk_indcpa_keypair_derand in H. cbv zeta in H.
  change (take MLKEM_SYMBYTES (mlk_hash_g (take MLKEM_SYMBYTES coins ++ [Z.of_nat K]))) with (publicseed coins) in H.
  change (drop MLKEM_SYMBYTES (mlk_hash_g (take MLKEM_SYMBYTES coins ++ [Z.of_nat K]))) with (noiseseed coins) in H.
  rewrite Hn in H. apply bind_Some in H as (a & Ha & H). injection H as Epk Esk.
  set (row r := mlk_polyvec_basemul_acc_montgomery_cached r (mlk_polyvec_ntt s) (mlk_polyvec_mulcache_compute (mlk_polyvec_ntt s))).
  set (t := mlk_polyvec_reduce (mlk_polyvec_add (mlk_polyvec_tomont (mlk_matvec_mul a (mlk_polyvec_ntt s) (mlk_polyvec_mulcache_compute (mlk_polyvec_ntt s))))
              (mlk_polyvec_ntt e))) in *.
  destruct (matrix_row (publicseed coins) false a 0 Hs Hl32 Ha ltac:(lia)) as (La & _ & _).
  assert (Lt : length t = K).
  { unfold t, mlk_polyvec_reduce, mlk_polyvec_add, mlk_polyvec_tomont, mlk_matvec_mul, mlk_polyvec_ntt.
    rewrite length_map, length_zip_with, !length_map. lia. }
  assert (Et : forall x, (x < K)%nat -> nth x t [] = mlk_poly_reduce (mlk_poly_add (mlk_poly_tomont (row (nth x a []))) (mlk_poly_ntt (nth x e [])))).
  { intros x Hx. unfold t, mlk_polyvec_reduce, mlk_polyvec_add, mlk_polyvec_tomont, mlk_matvec_mul.
    rewrite (nth_map_lt mlk_poly_reduce _ _ []) by (rewrite length_zip_with; unfold mlk_polyvec_ntt; rewrite !length_map; lia).
    rewrite (nth_zip_with_lt mlk_poly_add _ _ _ [] []) by (unfold mlk_polyvec_ntt; rewrite !length_map; lia).
    rewrite (nth_map_lt mlk_poly_tomont _ _ []) by (rewrite length_map; lia). rewrite (nth_map_lt row _ _ []) by lia.
    change (nth x (mlk_polyvec_ntt e) []) with (nth x (map mlk_poly_ntt e) []). now rewrite (nth_map_lt mlk_poly_ntt e _ []) by lia. }
  assert (Hrow : forall x, (x < K)%nat -> canonical (nth x t []) /\ forall i, (i < 128)%nat ->
    cong2 (cmp i (nth x t [])) (add2 (dot i (nth x a []) (mlk_polyvec_ntt s)) (res i (nth x e [])))).
  { intros x Hx. rewrite Et by exact Hx. destruct (matrix_row (publicseed coins) false a x Hs Hl32 Ha Hx) as (_ & Lr & Cr).
    apply canonical_uint12s_all in Cr. apply keygen_row; auto; [lia.. |]. apply Forall_nth_lt; [exact Heq | lia]. }
  exists a, t. split; [exact Ha |]. split; [now rewrite <- Epk |]. split; [| split; [exact Lt | split]].
  - rewrite <- Esk. unfold mlk_pack_sk, mlk_polyvec_reduce, mlk_polyvec_ntt. f_equal. rewrite map_map. apply map_ext_in. intros f Hf.
    rewrite List.Forall_forall in Hsq. now apply reduce_ntt, Hsq.
  - apply (nth_Forall canonical _ []). intros x Hx. apply Hrow. rewrite <- Lt. exact Hx.
  - intros x i Hx Hi. destruct (Hrow x Hx) as [_ Hr]. rewrite (Hr i Hi). destruct (matrix_row (publicseed coins) false a x Hs Hl32 Ha Hx) as (_ & Lr & Cr).
    rewrite (dot_row (nth x a []) s (canonical_uint12s_all _ Cr) Hsq ltac:(lia) ltac:(lia) i Hi), Lr. reflexivity.
Qed.

Lemma enc_spec m (t : mlk_polyvec) seed coins r e1 e2 : are_bytes m -> length m = 32%nat -> are_bytes coins -> are_bytes seed -> length seed = 32%nat ->
  length t = K -> Forall canonical t -> mlk_enc_getnoise_eta1_eta2 K coins = (r, e1, e2) ->
  forall at_, mlk_gen_matrix K fuel seed true = Some at_ ->
  exists b v, mlk_indcpa_enc_bv K fuel m (mlk_polyvec_tobytes t ++ seed) coins = Some (b, v) /\
    length b = K /\ Forall canonical b /\ canonical v /\
    (forall j i, (j < K)%nat -> (i < 128)%nat ->
      cong2 (res i (nth j b [])) (add2 (sum2 K (fun x => mul2 (gamma i) (cmp i (nth x (nth j at_ []) [])) (res i (nth x r [])))) (res i (nth j e1 [])))) /\
    forall i, (i < 128)%nat ->
      cong2 (res i v) (add2 (add2 (sum2 K (fun x => mul2 (gamma i) (cmp i (nth x t [])) (res i (nth x r [])))) (res i e2)) (res i (mlk_poly_frommsg m))).
Proof.
  intros Hm Lm Hc Hs Ls Lt Ct Hn at_ Hat. pose proof (enc_noise_shape K HK coins Hc) as Hsh. rewrite Hn in Hsh. destruct Hsh as (Lr & Le1 & Sr & Se1 & Se2).
  assert (Hrq : Forall (polyb MLKEM_Q) r) by (eapply Forall_impl; [exact small_q | exact Sr]).
  assert (He1q : Forall (polyb MLKEM_Q) e1) by (eapply Forall_impl; [exact small_q | exact Se1]).
  assert (Hk : polyb MLKEM_Q (mlk_poly_frommsg m)).
  { rewrite frommsg_decode by assumption. apply canonical_polyb, (Decompress_canonical 1 m codec_1); lia. }
  set (k := mlk_poly_frommsg m) in *.
  set (row w := mlk_polyvec_basemul_acc_montgomery_cached w (mlk_polyvec_ntt r) (mlk_polyvec_mulcache_compute (mlk_polyvec_ntt r))).
  set (b := mlk_polyvec_reduce (mlk_polyvec_add (mlk_polyvec_invntt_tomont (map row at_)) e1)).
  set (v := mlk_poly_reduce (mlk_poly_add (mlk_poly_add (mlk_poly_invntt_tomont (row t)) e2) k)).
  destruct (matrix_row seed true at_ 0 Hs Ls Hat ltac:(lia)) as (La & _ & _).
  assert (Lb : length b = K) by (unfold b, mlk_polyvec_reduce, mlk_polyvec_add, mlk_polyvec_invntt_tomont; rewrite length_map, length_zip_with, !length_map; lia).
  assert (Eb : forall j, (j < K)%nat -> nth j b [] = mlk_poly_reduce (mlk_poly_add (mlk_poly_invntt_tomont (row (nth j at_ []))) (nth j e1 []))).
  { intros j Hj. unfold b, mlk_polyvec_reduce, mlk_polyvec_add, mlk_polyvec_invntt_tomont.
    rewrite (nth_map_lt mlk_poly_reduce _ _ []) by (rewrite length_zip_with, !length_map; lia).
    rewrite (nth_zip_with_lt mlk_poly_add _ _ _ [] []) by (rewrite ?length_map; lia).
    rewrite (nth_map_lt mlk_poly_invntt_tomont _ _ []) by (rewrite length_map; lia). now rewrite (nth_map_lt row _ _ []) by lia. }
  assert (Hrow : forall j, (j < K)%nat -> canonical (nth j b []) /\ forall i, (i < 128)%nat ->
    cong2 (res i (nth j b [])) (add2 (dot i (nth j at_ []) (mlk_polyvec_ntt r)) (res i (nth j e1 [])))).
  { intros j Hj. rewrite Eb by exact Hj. destruct (matrix_row seed true at_ j Hs Ls Hat Hj) as (_ & Lw & Cw).
    apply (enc_row (nth j at_ []) r (canonical_uint12s_all _ Cw) Hrq); [now rewrite Lw | rewrite Lw; lia |].
    apply Forall_nth_lt; [exact He1q | rewrite Le1; exact Hj]. }
  destruct (enc_poly t r (canonical_uint12s_all _ Ct) Hrq ltac:(lia) ltac:(lia) e2 k (small_q _ Se2) Hk) as [Cv Hv]. fold (row t) in Cv, Hv. fold v in Cv, Hv.
  exists b, v. split; [| split; [exact Lb | split; [| split; [exact Cv | split]]]].
  - unfold mlk_indcpa_enc_bv, mlk_unpack_pk. rewrite (polyvec_frombytes_tobytes K) by assumption.
    replace (sub (mlk_polyvec_tobytes t ++ seed) (MLKEM_POLYVECBYTES K) MLKEM_SYMBYTES) with seed.
    + rewrite Hat, Hn. reflexivity.
    + unfold sub. rewrite drop_app_length' by (symmetry; now apply length_polyvec_tobytes). symmetry. apply take_ge. rewrite Ls. reflexivity.
  - apply (nth_Forall canonical _ []). intros j Hj. apply Hrow. rewrite <- Lb. exact Hj.
  - intros j i Hj Hi. destruct (Hrow j Hj) as [_ Hr]. rewrite (Hr i Hi). destruct (matrix_row seed true at_ j Hs Ls Hat Hj) as (_ & Lw & Cw).
    rewrite (dot_row (nth j at_ []) r (canonical_uint12s_all _ Cw) Hrq ltac:(lia) ltac:(lia) i Hi), Lw. reflexivity.
  - intros i Hi. rewrite (Hv i Hi), (dot_row t r (canonical_uint12s_all _ Ct) Hrq ltac:(lia) ltac:(lia) i Hi), Lt. reflexivity.
Qed.

End Correct.

(** ** Decryption *)

Lemma canonical_rd a i : canonical a -> (i < 256)%nat -> 0 <= rd a i < 0 + MLKEM_Q.
Proof. intros [Hl H] Hi. apply (Forall_nth_lt (fun c => 0 <= c < q)); [exact H | lia]. Qed.

Lemma canonical_rq_add f g : length f = 256%nat -> length g = 256%nat -> canonical (rq_add f g).
Proof.
  intros Hf Hg. split; [unfold rq_add; rewrite length_zip_with; lia |].
  apply (nth_Forall _ _ 0). intros i Hi. unfold rq_add in *. rewrite length_zip_with in Hi.
  rewrite (nth_zip_with_lt (fun x y => (x + y) mod q) f g i 0 0) by lia. now apply Z.mod_pos_bound.
Qed.

Lemma length_rq_sub f g : length f = 256%nat -> length g = 256%nat -> length (rq_sub f g) = 256%nat.
Proof. intros Hf Hg. unfold rq_sub. rewrite length_zip_with. lia. Qed.

Lemma res_rq_add i f g : length f = 256%nat -> length g = 256%nat -> cong2 (res i (rq_add f g)) (add2 (res i f) (res i g)).
Proof. intros Hf Hg. apply mod_X2_zip_add. lia. Qed.

Lemma res_rq_sub i f g : length f = 256%nat -> length g = 256%nat -> cong2 (res i (rq_sub f g)) (sub2 (res i f) (res i g)).
Proof.
  intros Hf Hg. apply res_sub; auto using length_rq_sub. intros j Hj. unfold rq_sub. rewrite rd_zip_with by lia. apply cong_mod_q.
Qed.

Lemma canonical_rq_sub f g : length f = 256%nat -> length g = 256%nat -> canonical (rq_sub f g).
Proof.
  intros Hf Hg. split; [now apply length_rq_sub |].
  apply (nth_Forall _ _ 0). intros i Hi. unfold rq_sub in *. rewrite length_zip_with in Hi.
  rewrite (nth_zip_with_lt (fun x y => (x - y) mod q) f g i 0 0) by lia. now apply Z.mod_pos_bound.
Qed.

Lemma length_rq_add f g : length f = 256%nat -> length g = 256%nat -> length (rq_add f g) = 256%nat.
Proof. intros Hf Hg. now apply canonical_rq_add. Qed.

Section Decrypt.
Context (K : nat) (HK : K = 2%nat \/ K = 3%nat \/ K = 4%nat) (fuel : nat).

(** e . r + e2 + (v' - v) - s . (e1 + (u' - u)), for the secrets of the key pair and of the encryption and the rounding errors of the
    ciphertext. *)
Definition noise_of (s e r e1 : mlk_polyvec) (e2 : mlk_poly) (b : mlk_polyvec) (v : mlk_poly) : list Z :=
  rq_sub (rq_add (rq_dot e r) (rq_add e2 (rq_sub (requantize_dv K v) v)))
         (rq_dot s (zip_with rq_add e1 (zip_with rq_sub (map (requantize_du K) b) b))).

Definition pke_noise (coins m ecoins : bytes) : option (list Z) :=
  let '(s, e) := mlk_keypair_getnoise_eta1 K (noiseseed K coins) in
  let '(r, e1, e2) := mlk_enc_getnoise_eta1_eta2 K ecoins in
  '(pk, _) ← mlk_indcpa_keypair_derand K fuel coins;
  '(b, v) ← mlk_indcpa_enc_bv K fuel m pk ecoins;
  Some (noise_of s e r e1 e2 b v).

(** Between -832 and 831 modulo q. *)
Definition small_noise (noise : list Z) : bool := forallb (fun c => (c <=? 831) || (q - 832 <=? c)) noise.

(** Rounding recovers the message from a perturbation of at most about a quarter of q. *)
Lemma compress_perturbed y c : below 1 y -> 0 <= c < q -> (c <=? 831) || (q - 832 <=? c) = true ->
  Compress 1 ((Decompress 1 y + c) mod q) = y.
Proof.
  intros Hy Hc Hs. pose (P c := negb ((c <=? 831) || (q - 832 <=? c)) ||
    ((Compress 1 ((Decompress 1 0 + c) mod q) =? 0) && (Compress 1 ((Decompress 1 1 + c) mod q) =? 1))).
  assert (H : P c = true) by (apply (check_below P 3329); [vm_compute; reflexivity | exact Hc]). unfold P in H. rewrite Hs in H.
  cbn [negb orb] in H. apply andb_prop in H as [H0 H1]. apply Z.eqb_eq in H0, H1. unfold below in Hy. change (2 ^ Z.of_nat 1) with 2 in Hy.
  assert (E : y = 0 \/ y = 1) by lia. destruct E as [-> | ->]; assumption.
Qed.

Lemma compress_message ys noise : Forall (below 1) ys -> Forall (fun c => 0 <= c < q) noise -> length ys = length noise ->
  small_noise noise = true -> map (Compress 1) (rq_add (map (Decompress 1) ys) noise) = ys.
Proof.
  intros Hy. revert noise. induction Hy as [|y ys Hy1 Hy IH]; intros [|c noise] Hc Hl Hs; try discriminate; [reflexivity |].
  apply Forall_cons_1 in Hc as [Hc1 Hc]. apply andb_prop in Hs as [Hs1 Hs]. cbn [map rq_add zip_with].
  f_equal; [now apply compress_perturbed | apply IH; auto].
Qed.

Lemma tomsg_rounds m noise : are_bytes m -> length m = 32%nat -> canonical noise -> small_noise noise = true ->
  ByteEncode 1 (map (Compress 1) (rq_add (mlk_poly_frommsg m) noise)) = m.
Proof.
  intros Hm Lm [Ln Hn] Hs. rewrite frommsg_decode by assumption. rewrite compress_message; auto using ByteDecode_below.
  - apply (ByteEncode_Decode 1 m 256); [lia | rewrite Lm; reflexivity | exact Hm].
  - rewrite Ln. apply length_ByteDecode; [lia | rewrite Lm; reflexivity].
Qed.

Definition lengths256 (fs : list (list Z)) : Prop := Forall (fun f => length f = 256%nat) fs.

Lemma polyb_lengths B fs : Forall (polyb B) fs -> lengths256 fs.
Proof. intros H. eapply Forall_impl; [| exact H]. intros f. apply polyb_length. Qed.

Lemma canonical_lengths fs : Forall canonical fs -> lengths256 fs.
Proof. intros H. eapply Forall_impl; [| exact H]. now intros f [Hl _]. Qed.

Lemma lengths_zip (h : list Z -> list Z -> list Z) : (forall f g, length f = 256%nat -> length g = 256%nat -> length (h f g) = 256%nat) ->
  forall fs gs, lengths256 fs -> lengths256 gs -> lengths256 (zip_with h fs gs).
Proof.
  intros Hh fs gs Hf. revert gs. induction Hf as [|f fs Hf1 Hf IH]; intros [|g gs] Hg; try apply Forall_nil_2.
  apply Forall_cons_1 in Hg as [Hg1 Hg]. cbn [zip_with]. apply Forall_cons_2; [now apply Hh | now apply IH].
Qed.

Lemma noise_shape s e r e1 e2 b v : lengths256 r -> lengths256 e1 -> length e2 = 256%nat -> Forall canonical b -> canonical v ->
  canonical (noise_of s e r e1 e2 b v).
Proof.
  intros Hr He1 He2 Hb Hv. assert (Hv' : canonical (requantize_dv K v)) by exact (proj2 (proj2 (dv_shape K HK v Hv))). pose proof Hv as [Lv _]. pose proof Hv' as [Lv' _].
  assert (Hu : lengths256 (map (requantize_du K) b)).
  { apply Forall_map. eapply Forall_impl; [| exact Hb]. intros a Ha. destruct (du_shape K HK a Ha) as (_ & _ & C). apply C. }
  apply canonical_rq_sub.
  - apply length_rq_add; [now apply length_rq_dot |]. apply length_rq_add; [exact He2 | now apply length_rq_sub].
  - apply length_rq_dot. apply (lengths_zip rq_add length_rq_add); [exact He1 |].
    apply (lengths_zip rq_sub length_rq_sub); [exact Hu | now apply canonical_lengths].
Qed.

Lemma res_noise i (s e r e1 b : mlk_polyvec) e2 v : (i < 128)%nat -> length s = K -> length e = K -> length r = K -> length e1 = K -> length b = K ->
  lengths256 r -> lengths256 e1 -> length e2 = 256%nat -> Forall canonical b -> canonical v ->
  cong2 (res i (noise_of s e r e1 e2 b v))
    (sub2 (add2 (sum2 K (fun a => mul2 (gamma i) (res i (nth a e [])) (res i (nth a r []))))
                (add2 (res i e2) (sub2 (res i (requantize_dv K v)) (res i v))))
          (sum2 K (fun j => mul2 (gamma i) (res i (nth j s []))
                     (add2 (res i (nth j e1 [])) (sub2 (res i (requantize_du K (nth j b []))) (res i (nth j b []))))))).
Proof.
  unfold mlk_polyvec, mlk_poly in *. intros Hi Ls Le Lr Le1 Lb Hr He1 He2 Hb Hv. assert (Hv' : canonical (requantize_dv K v)) by exact (proj2 (proj2 (dv_shape K HK v Hv))).
  pose proof Hv as [Lv _]. pose proof Hv' as [Lv' _].
  assert (Hu : lengths256 (map (requantize_du K) b)).
  { apply Forall_map. eapply Forall_impl; [| exact Hb]. intros a Ha. destruct (du_shape K HK a Ha) as (_ & _ & C). apply C. }
  assert (Hbl := canonical_lengths b Hb). set (us := map (requantize_du K) b) in *. assert (Lu : length us = K) by (unfold us; rewrite length_map; exact Lb).
  set (w := zip_with rq_add e1 (zip_with rq_sub us b)).
  assert (Hzl : lengths256 (zip_with rq_sub us b)) by (apply (lengths_zip rq_sub length_rq_sub); assumption).
  assert (Hw : lengths256 w) by (apply (lengths_zip rq_add length_rq_add); assumption).
  assert (Lz : length (zip_with rq_sub us b) = K) by (rewrite length_zip_with; plen).
  assert (Lw : length w = K) by (unfold w; rewrite length_zip_with; plen).
  unfold noise_of. fold us. fold w.
  rewrite res_rq_sub, !res_rq_add, res_rq_sub, !res_rq_dot; auto using length_rq_sub, length_rq_add, length_rq_dot.
  rewrite (dot_res_sum i e r), (dot_res_sum i s w) by plen. rewrite Le, Ls.
  assert (E : cong2 (sum2 K (fun j => mul2 (gamma i) (res i (nth j s [])) (res i (nth j w []))))
     (sum2 K (fun j => mul2 (gamma i) (res i (nth j s []))
                     (add2 (res i (nth j e1 [])) (sub2 (res i (requantize_du K (nth j b []))) (res i (nth j b []))))))).
  { apply sum2_cong. intros j Hj. unfold w. rewrite (nth_zip_with_lt rq_add e1 _ j [] []) by plen.
    rewrite (nth_zip_with_lt rq_sub us b j [] []) by plen. unfold us at 1. rewrite (nth_map_lt (requantize_du K) b j []) by plen.
    assert (Hbj : length (nth j b []) = 256%nat) by (apply (Forall_nth_lt (fun f => length f = 256%nat)); [exact Hbl | rewrite Lb; exact Hj]).
    assert (Huj : length (requantize_du K (nth j b [])) = 256%nat).
    { destruct (du_shape K HK (nth j b [])) as (_ & _ & C); [apply Forall_nth_lt; [exact Hb | rewrite Lb; exact Hj] | apply C]. }
    assert (Hej : length (nth j e1 []) = 256%nat) by (apply (Forall_nth_lt (fun f => length f = 256%nat)); [exact He1 | rewrite Le1; exact Hj]).
    rewrite res_rq_add, res_rq_sub; auto using length_rq_sub. reflexivity. }
  now rewrite E.
Qed.

(** The transformed secret, packed and unpacked, times a vector. *)
Lemma dec_spec (s b : mlk_polyvec) v : length s = K -> length b = K -> Forall (polyb MLKEM_Q) s -> Forall canonical b -> canonical v ->
  exists w, mlk_indcpa_dec K (mlk_pack_ciphertext K b v) (mlk_polyvec_tobytes (map (fun f => canon (mlk_poly_ntt f)) s)) = mlk_poly_tomsg w /\
    canonical w /\ forall i, (i < 128)%nat ->
      cong2 (res i w) (sub2 (res i (requantize_dv K v))
        (sum2 K (fun j => mul2 (gamma i) (res i (nth j s [])) (res i (requantize_du K (nth j b [])))))).
Proof.
  intros Ls Lb Hs Hb Hv. set (shat := map (fun f => canon (mlk_poly_ntt f)) s : mlk_polyvec). set (us := map (requantize_du K) b).
  assert (Hv' : canonical (requantize_dv K v)) by exact (proj2 (proj2 (dv_shape K HK v Hv))).
  assert (Lsh : length shat = K) by (unfold shat; rewrite length_map; exact Ls).
  assert (Lu : length us = K) by (unfold us; rewrite length_map; exact Lb).
  assert (Hsh : Forall canonical shat).
  { apply Forall_map. eapply Forall_impl; [| exact Hs]. intros f Hf. apply canon_canonical. now apply (polyb_length MLK_NTT_BOUND), ntt_bound. }
  assert (Hu : Forall (polyb MLKEM_Q) us).
  { apply Forall_map. eapply Forall_impl; [| exact Hb]. intros a Ha. apply canonical_polyb. destruct (du_shape K HK a Ha) as (_ & _ & C). exact C. }
  destruct (dec_poly shat us (canonical_uint12s_all _ Hsh) Hu ltac:(plen) ltac:(plen) _ (canonical_polyb _ Hv')) as [Cw Hw].
  eexists. split; [| split; [exact Cw |]].
  - unfold mlk_indcpa_dec. rewrite unpack_pack_ciphertext by assumption. unfold mlk_unpack_sk.
    rewrite <- (app_nil_r (mlk_polyvec_tobytes shat)), (polyvec_frombytes_tobytes K) by assumption. reflexivity.
  - intros i Hi. rewrite (Hw i Hi), (dot_row shat us (canonical_uint12s_all _ Hsh) Hu ltac:(plen) ltac:(plen) i Hi).
    rewrite Lsh.
    assert (E : cong2 (sum2 K (fun j => mul2 (gamma i) (cmp i (nth j shat [])) (res i (nth j us []))))
      (sum2 K (fun j => mul2 (gamma i) (res i (nth j s [])) (res i (requantize_du K (nth j b [])))))).
    { apply sum2_cong. intros j Hj. unfold us, shat. rewrite (nth_map_lt (requantize_du K) b j []) by plen.
      rewrite (nth_map_lt (fun f => canon (mlk_poly_ntt f)) s j []) by plen.
      assert (Hsj : polyb MLKEM_Q (nth j s [])) by (apply Forall_nth_lt; [exact Hs | rewrite Ls; exact Hj]).
      assert (C : cong2 (cmp i (canon (mlk_poly_ntt (nth j s [])))) (res i (nth j s []))).
      { rewrite <- (cmp_ntt _ i Hsj Hi). split; cbn [cmp fst snd]; apply canon_rd_cong. }
      now rewrite C. }
    apply sub2_proper; [reflexivity | exact E].
Qed.

Lemma decrypt_exact coins m ecoins pk sk : are_bytes coins -> are_bytes m -> length m = 32%nat -> are_bytes ecoins ->
  mlk_indcpa_keypair_derand K fuel coins = Some (pk, sk) ->
  exists ct noise, mlk_indcpa_enc K fuel m pk ecoins = Some ct /\ pke_noise coins m ecoins = Some noise /\ canonical noise /\
    mlk_indcpa_dec K ct sk = ByteEncode 1 (map (Compress 1) (rq_add (mlk_poly_frommsg m) noise)).
Proof.
  intros Hc Hm Lm Hec Hkp. destruct (mlk_keypair_getnoise_eta1 K (noiseseed K coins)) as [s e] eqn:Hkn.
  destruct (mlk_enc_getnoise_eta1_eta2 K ecoins) as [[r e1] e2] eqn:Hen.
  destruct (seeds_shape K HK coins Hc) as (Hps & Lps & Hns).
  pose proof (keypair_noise_shape K HK _ Hns) as Hsh. rewrite Hkn in Hsh. destruct Hsh as (Ls & Le & Hss & Hse).
  pose proof (enc_noise_shape K HK _ Hec) as Hsh. rewrite Hen in Hsh. destruct Hsh as (Lr & Le1 & Sr & Se1 & Se2).
  destruct (keypair_spec K HK fuel coins pk sk s e Hc Hkn Hkp) as (a & t & Ha & -> & -> & Lt & Ct & Ht).
  destruct (gen_matrix_transpose K ltac:(lia) _ Hps Lps fuel a Ha) as (at_ & Hat & Htr).
  destruct (enc_spec K HK fuel m t _ ecoins r e1 e2 Hm Lm Hec Hps Lps Lt Ct Hen at_ Hat) as (b & v & Eenc & Lb & Cb & Cv & Hb & Hv).
  assert (Hsq : Forall (polyb MLKEM_Q) s) by (eapply Forall_impl; [exact small_q | exact Hss]).
  destruct (dec_spec s b v Ls Lb Hsq Cb Cv) as (w & Ew & Cw & Hw).
  pose proof (polyb_lengths _ _ Sr) as R256. pose proof (polyb_lengths _ _ Se1) as E256. pose proof (polyb_length _ _ Se2) as L2.
  assert (Cn : canonical (noise_of s e r e1 e2 b v)) by now apply noise_shape.
  exists (mlk_pack_ciphertext K b v), (noise_of s e r e1 e2 b v).
  split; [unfold mlk_indcpa_enc; now rewrite Eenc |]. split; [unfold pke_noise; rewrite Hkn, Hen, Hkp; cbv beta iota delta [mbind option_bind]; now rewrite Eenc |]. split; [exact Cn |].
  rewrite Ew. split_serialize Cw. rewrite Emsg. do 2 f_equal.
  assert (Lk : length (mlk_poly_frommsg m) = 256%nat).
  { rewrite frommsg_decode by assumption. apply (Decompress_canonical 1 m codec_1); [lia | rewrite Lm; reflexivity]. }
  pose proof Cw as [Lw _]. pose proof Cn as [Ln _].
  pose proof (canonical_rq_add (mlk_poly_frommsg m) _ Lk Ln) as Ca.
  apply rd_ext; [destruct Ca as [-> _]; exact Lw |]. intros j Hj. rewrite Lw in Hj.
  apply (cong_range_eq _ _ 0).
  - apply (canonical_rd w j Cw Hj).
  - apply (canonical_rd _ j Ca Hj).
  - apply res_inj; [exact Lw | apply Ca | | exact Hj]. intros i Hi. rewrite res_rq_add by assumption. rewrite res_noise by assumption.
    apply (decryption_identity (gamma i) K (fun x y => cmp i (nth y (nth x a []) [])) (fun x => cmp i (nth x t []))
             (fun j => res i (nth j s [])) (fun x => res i (nth x e [])) (fun x => res i (nth x r [])) (fun j => res i (nth j e1 []))
             (fun j => res i (nth j b [])) (fun j => res i (requantize_du K (nth j b [])))).
    + intros x Hx. now apply Ht.
    + intros y Hy. rewrite (Hb y i Hy Hi). rewrite (sum2_ext K _ (fun x => mul2 (gamma i) (cmp i (nth y (nth x a []) [])) (res i (nth x r []))));
        [reflexivity |]. intros x Hx. now rewrite Htr.
    + now apply Hv.
    + now apply Hw.
Qed.

End Decrypt.

(** ** Claims *)

(** C9. K-PKE decrypts correctly, for ML-KEM-512, -768 and -1024.  When key generation completes, encryption of any 32-byte message under its
    public key completes with the same number of XOF blocks (it samples the transpose of the same matrix), and what [mlk_indcpa_dec]
    returns is exactly the rounding of the message polynomial plus the noise e.r + e2 + dv - s.(e1 + du), where dv and du are the
    compression errors of the ciphertext; hence the message itself whenever every noise coefficient is between -832 and 831 modulo q.  This covers
    Montgomery and Barrett arithmetic, transforms, packing and compression as the code computes them, without overflow. *)
Theorem mlk_indcpa_decrypts (K : nat) (HK : K = 2%nat \/ K = 3%nat \/ K = 4%nat) (fuel : nat) (coins m ecoins pk sk : bytes)
  (Hcoins : are_bytes coins) (Hm : are_bytes m) (Hlen : length m = 32%nat) (Hecoins : are_bytes ecoins)
  (Hkey : mlk_indcpa_keypair_derand K fuel coins = Some (pk, sk)) :
  exists ct noise, mlk_indcpa_enc K fuel m pk ecoins = Some ct /\ pke_noise K fuel coins m ecoins = Some noise /\
    mlk_indcpa_dec K ct sk = ByteEncode 1 (map (Compress 1) (rq_add (mlk_poly_frommsg m) noise)) /\
    (small_noise noise = true -> mlk_indcpa_dec K ct sk = m).
Proof.
  destruct (decrypt_exact K HK fuel coins m ecoins pk sk Hcoins Hm Hlen Hecoins Hkey) as (ct & noise & He & Hn & Cn & Hd).
  exists ct, noise. repeat split; try assumption. intros Hs. rewrite Hd. now apply (tomsg_rounds K HK).
Qed.

Lemma mlk_indcpa_decrypts_witness :
  let coins := map (fun i => Z.of_nat i) (seq 0 32) in
  let m := map (fun i => Z.of_nat (7 * i)) (seq 0 32) in
  let ecoins := map (fun i => Z.of_nat (255 - i)) (seq 0 32) in
  exists pk sk ct, mlk_indcpa_keypair_derand 2 0 coins = Some (pk, sk) /\ mlk_indcpa_enc 2 0 m pk ecoins = Some ct /\ mlk_indcpa_dec 2 ct sk = m.
Proof.
  intros coins m ecoins.
  assert (Hs : match pke_noise 2 0 coins m ecoins with Some n => small_noise n | None => false end = true) by (vm_compute; reflexivity).
  destruct (mlk_indcpa_keypair_derand 2 0 coins) as [[pk sk]|] eqn:Hkey; [| unfold pke_noise in Hs; rewrite Hkey in Hs; vm_compute in Hs; discriminate Hs].
  destruct (mlk_indcpa_decrypts 2 (or_introl eq_refl) 0 coins m ecoins pk sk) as (ct & noise & He & Hn & _ & Hd);
    [apply is_u8_dec_list; reflexivity | apply is_u8_dec_list; reflexivity | reflexivity | apply is_u8_dec_list; reflexivity | exact Hkey |].
  exists pk, sk, ct. split; [reflexivity |]. split; [exact He |]. apply Hd. rewrite Hn in Hs. exact Hs.
Defined.
