(* ===== verification/MlkemSpec.v ===== *)
(** * K-PKE of FIPS 203

    The encryption scheme underneath ML-KEM as the standard writes it (Algorithms 13 to 15), over the reference arithmetic of
    [Fips203], and the proof that [indcpa.c] computes it. *)

From stdpp Require Import base list numbers.
From Stdlib Require Import ZArith Lia Setoid Morphisms.
From S2P Require Import Prelude Fips202 Keccak Shake ShakeX4 Fips203 MlkemPoly MlkemNtt MlkemCompress MlkemSampling MlkemRing MlkemIndcpa MlkemPke MlkemCorrect.

#[local] Open Scope Z_scope.
#[local] Open Scope mlkem_scope.

(** ** The scheme *)

Module K_PKE.
Section Scheme.
Context (K fuel : nat).

(** 4.1: the hash and pseudorandom functions. *)
Definition G (x : bytes) : bytes * bytes := (take 32 (SHA3_512 x), drop 32 (SHA3_512 x)).
Definition PRF (eta : nat) (s : bytes) (b : nat) : bytes := SHAKE256 (s ++ [Z.of_nat b]) (64 * eta).

(** Table 2. *)
Definition eta1 : nat := if Nat.eqb K 2 then 3 else 2.
Definition eta2 : nat := 2.
Definition du : nat := if Nat.eqb K 4 then 11 else 10.
Definition dv : nat := if Nat.eqb K 4 then 5 else 4.

(** The matrix: row [i], column [j] from the seed, [j] and [i]; [fuel] blocks of XOF output beyond the first three may be used. *)
Definition matrix (rho : bytes) : option (list (list (list Z))) :=
  mapM (fun i => mapM (fun j => SampleNTT (rho ++ [Z.of_nat j; Z.of_nat i]) (3 + fuel)) (seq 0 K)) (seq 0 K).
Definition column (A : list (list (list Z))) (j : nat) : list (list Z) := map (fun row => nth j row []) A.

(** [n] polynomials from the counter values [N], [N + 1], ... *)
Definition sample_vector (eta : nat) (s : bytes) (N n : nat) : list (list Z) :=
  map (fun b => SamplePolyCBD eta (PRF eta s b)) (seq N n).

(** Byte decoding modulo q. *)
Definition ByteDecode12 (B : bytes) : list Z := map (fun x => x mod q) (ByteDecode 12 B).
Definition decode_vector (B : bytes) : list (list Z) := map (fun i => ByteDecode12 (sub B (384 * i) 384)) (seq 0 K).

Definition encode_compressed (d : nat) (f : list Z) : bytes := ByteEncode d (map (Compress (Z.of_nat d)) f).
Definition decode_decompressed (d : nat) (B : bytes) : list Z := map (Decompress (Z.of_nat d)) (ByteDecode d B).

Definition KeyGen (d : bytes) : option (bytes * bytes) :=
  let '(rho, sigma) := G (d ++ [Z.of_nat K]) in
  A ← matrix rho;
  let s_hat := map NTT (sample_vector eta1 sigma 0 K) in
  let e_hat := map NTT (sample_vector eta1 sigma K K) in
  let t_hat := zip_with (fun row e => rq_add (tq_dot row s_hat) e) A e_hat in
  Some (concat (map (ByteEncode 12) t_hat) ++ rho, concat (map (ByteEncode 12) s_hat)).

Definition Encrypt (ek m r : bytes) : option bytes :=
  let t_hat := decode_vector ek in
  let rho := sub ek (384 * K) 32 in
  A ← matrix rho;
  let y_hat := map NTT (sample_vector eta1 r 0 K) in
  let e1 := sample_vector eta2 r K K in
  let e2 := SamplePolyCBD eta2 (PRF eta2 r (2 * K)) in
  let u := zip_with (fun j e => rq_add (NTT_inv (tq_dot (column A j) y_hat)) e) (seq 0 K) e1 in
  let mu := map (Decompress 1) (ByteDecode 1 m) in
  let v := rq_add (rq_add (NTT_inv (tq_dot t_hat y_hat)) e2) mu in
  Some (concat (map (encode_compressed du) u) ++ encode_compressed dv v).

Definition Decrypt (dk c : bytes) : bytes :=
  let u' := map (fun i => decode_decompressed du (sub c (32 * du * i) (32 * du))) (seq 0 K) in
  let v' := decode_decompressed dv (sub c (32 * du * K) (32 * dv)) in
  let s_hat := decode_vector dk in
  let w := rq_sub v' (NTT_inv (tq_dot s_hat (map NTT u'))) in
  ByteEncode 1 (map (Compress 1) w).

End Scheme.
End K_PKE.

(** ** The inverse transform *)

Lemma zt_table_ok : forallb (fun m => (zt m - zeta_pow (Z.to_nat (BitRev7 (Z.of_nat m)))) mod MLKEM_Q =? 0) (seq 0 128) = true.
Proof. vm_compute. reflexivity. Qed.

Lemma BitRev7_nonneg_ok : forallb (fun m => 0 <=? BitRev7 (Z.of_nat m)) (seq 0 128) = true.
Proof. vm_compute. reflexivity. Qed.

(** The table of the code, without its Montgomery factor, is zeta^BitRev7(m). *)
Lemma zt_zeta m : (m < 128)%nat -> zt m =q zeta ^ BitRev7 (Z.of_nat m).
Proof.
  intros Hm. pose proof zt_table_ok as H. rewrite List.forallb_forall in H. specialize (H m ltac:(apply in_seq; lia)).
  pose proof BitRev7_nonneg_ok as H0. rewrite List.forallb_forall in H0. specialize (H0 m ltac:(apply in_seq; lia)). apply Z.leb_le in H0.
  apply cong_dec_eq in H. rewrite H, zeta_pow_cong, Z2Nat.id by exact H0. reflexivity.
Qed.

Lemma length_NTT_inv_stage len f : length (NTT_inv_stage len f) = 256%nat.
Proof. unfold NTT_inv_stage. now rewrite length_map, length_seq. Qed.

(** A layer of the code is a stage of the algorithm, up to a common factor. *)
Lemma invntt_layer_stage l s f k : (1 <= l <= 7)%nat -> polyb MLKEM_Q s ->
  (forall i, (i < 256)%nat -> rd s i =q k * rd f i) ->
  forall i, (i < 256)%nat -> rd (mlk_invntt_layer s l) i =q k * rd (NTT_inv_stage (blen l) f) i.
Proof.
  intros Hl Hs H i Hi. destruct (invntt_layer_step l Hl s Hs) as [_ Hstep]. rewrite (Hstep i Hi).
  destruct (layer_shape l Hl) as (Hn & Hb & _). unfold NTT_inv_stage. rewrite rd_map_seq by exact Hi.
  assert (Hq : (i / (2 * blen l) < nblocks l)%nat) by (apply Nat.Div0.div_lt_upper_bound; lia).
  assert (E : (256 / blen l = 2 * nblocks l)%nat) by (rewrite <- Hn; replace (2 * blen l * nblocks l)%nat with (2 * nblocks l * blen l)%nat by lia; apply Nat.div_mul; lia).
  rewrite E. destruct (Nat.ltb_spec (i mod (2 * blen l)) (blen l)) as [Hlo | Hhi].
  - assert (Hi2 : (i + blen l < 256)%nat).
    { pose proof (Nat.div_mod_eq i (2 * blen l)). nia. }
    rewrite (H i Hi), (H _ Hi2). rewrite cong_mod_q. apply cong_eq. ring.
  - assert (Hm : (2 * nblocks l - 1 - i / (2 * blen l) < 128)%nat) by (destruct (layer_shape l Hl) as (_ & _ & H64 & _); lia).
    rewrite (H i Hi), (H (i - blen l)%nat ltac:(lia)), (zt_zeta _ Hm). rewrite cong_mod_q. apply cong_eq. ring.
Qed.

Lemma invntt_layers_stages k ls : Forall (fun l => (1 <= l <= 7)%nat) ls -> forall s f, polyb MLKEM_Q s ->
  (forall i, (i < 256)%nat -> rd s i =q k * rd f i) ->
  forall i, (i < 256)%nat -> rd (fold_left mlk_invntt_layer ls s) i =q k * rd (fold_left (fun f len => NTT_inv_stage len f) (map blen ls) f) i.
Proof.
  induction 1 as [|l ls Hl Hls IH]; intros s f Hs H; [exact H |]. cbn [fold_left map]. apply IH.
  - now apply invntt_layer_bound.
  - now apply invntt_layer_stage.
Qed.

Lemma stages_layers : NTT_inv_lens = map blen (rev (seq 1 7)).
Proof. reflexivity. Qed.

Lemma length_stages f ls : ls <> [] -> length (fold_left (fun f len => NTT_inv_stage len f) ls f) = 256%nat.
Proof.
  revert f. induction ls as [|l ls IH]; intros f H; [easy |]. cbn [fold_left]. destruct ls as [|l2 ls]; [apply length_NTT_inv_stage | now apply IH].
Qed.

Lemma length_NTT_inv f : length (NTT_inv f) = 256%nat.
Proof. unfold NTT_inv. rewrite length_map. now apply length_stages. Qed.

Lemma scaled_by_3303 F i : length F = 256%nat -> (i < 256)%nat ->
  1441 * 169 * rd F i =q 2 ^ 16 * rd (map (fun x => x * 3303 mod q) F) i.
Proof.
  intros LF Hi. rewrite (rd_map (fun x => x * 3303 mod q)) by lia. rewrite (cong_mod_q (rd F i * 3303)).
  assert (E : 1441 * 169 =q 2 ^ 16 * 3303) by now apply cong_dec_eq. rewrite E. apply cong_eq. ring.
Qed.

Lemma invntt_stages u i : int16s u -> (i < 256)%nat ->
  rd (mlk_poly_invntt_tomont u) i =q 1441 * 169 * rd (fold_left (fun f len => NTT_inv_stage len f) NTT_inv_lens u) i.
Proof.
  intros Hu Hi. destruct (scale_spec 1441 u ltac:(reflexivity) Hu) as [Hp Hc].
  assert (HF : Forall (fun l => (1 <= l <= 7)%nat) (rev (seq 1 7))) by (apply List.Forall_forall; intros l Hl; apply in_rev, in_seq in Hl; lia).
  assert (Hk : forall j, (j < 256)%nat -> rd (map (fun c => mlk_fqmul c 1441) u) j =q 1441 * 169 * rd u j).
  { intros j Hj. etransitivity; [exact (Hc j Hj) |]. apply cong_eq. ring. }
  rewrite invntt_tomont_layers, stages_layers. exact (invntt_layers_stages (1441 * 169) (rev (seq 1 7)) HF _ u Hp Hk i Hi).
Qed.

Lemma NTT_inv_scaled u i : (i < 256)%nat ->
  1441 * 169 * rd (fold_left (fun f len => NTT_inv_stage len f) NTT_inv_lens u) i =q 2 ^ 16 * rd (NTT_inv u) i.
Proof. intros Hi. unfold NTT_inv. apply scaled_by_3303; [apply length_stages; discriminate | exact Hi]. Qed.

(** The inverse transform of the code is that of the standard in Montgomery form. *)
Lemma invntt_NTT_inv u i : int16s u -> (i < 256)%nat -> rd (mlk_poly_invntt_tomont u) i =q 2 ^ 16 * rd (NTT_inv u) i.
Proof. intros Hu Hi. exact (transitivity (invntt_stages u i Hu Hi) (NTT_inv_scaled u i Hi)). Qed.

Lemma res_scale i k f : res i (map (Z.mul k) f) = scale2 k (res i f).
Proof. apply mod_X2_scale. Qed.

Lemma scale2_R_inj a b : cong2 (scale2 (2 ^ 16) a) (scale2 (2 ^ 16) b) -> cong2 a b.
Proof.
  assert (R : forall x y, 2 ^ 16 * x =q 2 ^ 16 * y -> x =q y).
  { intros x y E. rewrite <- (cong_R_inv x), <- (cong_R_inv y), !(Z.mul_comm _ (2 ^ 16)), E. reflexivity. }
  intros [C0 C1]. split; now apply R.
Qed.

Lemma res_NTT_inv u i : int16s u -> (i < 128)%nat -> cong2 (res i (NTT_inv u)) (cmp i u).
Proof.
  intros Hu Hi. pose proof (res_invntt u i Hu Hi) as H. pose proof (length_NTT_inv u) as L.
  pose proof (polyb_length _ _ (invntt_bound u Hu)) as L2. pose proof (fun j => invntt_NTT_inv u j Hu) as HN.
  set (N := NTT_inv u) in *. set (c := mlk_poly_invntt_tomont u) in *. clearbody N c.
  assert (C : Forall2 cong c (map (Z.mul (2 ^ 16)) N)).
  { apply rd_Forall2_cong; [rewrite length_map; lia |]. intros j Hj. rewrite rd_map by lia. apply HN. lia. }
  apply scale2_R_inj. rewrite <- H, <- res_scale. symmetry. now apply res_cong.
Qed.

(** ** Arithmetic in T_q *)

Lemma canon_id a : Forall (fun c => 0 <= c < q) a -> canon a = a.
Proof.
  intros H. unfold canon. rewrite <- (map_id a) at 2. apply map_ext_in. intros c Hc. rewrite List.Forall_forall in H. apply Z.mod_small, H, Hc.
Qed.

Lemma canonical_eq x y : canonical x -> canonical y -> (forall j, (j < 256)%nat -> rd x j =q rd y j) -> x = y.
Proof.
  intros [Lx Hx] [Ly Hy] H. rewrite <- (canon_id x Hx), <- (canon_id y Hy). apply canon_ext; [lia |]. intros j Hj. apply H. lia.
Qed.

Lemma canonical_res_eq x y : canonical x -> canonical y -> (forall i, (i < 128)%nat -> cong2 (res i x) (res i y)) -> x = y.
Proof. intros Hx Hy H. apply canonical_eq; [assumption.. |]. apply res_inj; [apply Hx | apply Hy | exact H]. Qed.

Lemma canonical_cmp_eq x y : canonical x -> canonical y -> (forall i, (i < 128)%nat -> cong2 (cmp i x) (cmp i y)) -> x = y.
Proof.
  intros Hx Hy H. apply canonical_eq; [assumption.. |]. intros j Hj. destruct (H (j / 2)%nat ltac:(apply Nat.Div0.div_lt_upper_bound; lia)) as [H0 H1].
  cbn [cmp fst snd] in H0, H1. pose proof (Nat.div_mod_eq j 2). pose proof (Nat.mod_upper_bound j 2 ltac:(lia)).
  destruct (Nat.eq_dec (j mod 2) 0); [replace j with (2 * (j / 2))%nat by lia | replace j with (2 * (j / 2) + 1)%nat by lia]; assumption.
Qed.

Lemma MultiplyNTTs_pairs f g : MultiplyNTTs f g =
  concat (map (fun i => [fst (mul2 (gamma i) (cmp i f) (cmp i g)) mod q; snd (mul2 (gamma i) (cmp i f) (cmp i g)) mod q]) (seq 0 128)).
Proof.
  unfold MultiplyNTTs. f_equal. apply map_ext. intros i. unfold BaseCaseMultiply, mul2, cmp. cbn [fst snd]. f_equal. f_equal. ring.
Qed.

Lemma canonical_MultiplyNTTs f g : canonical (MultiplyNTTs f g).
Proof.
  rewrite MultiplyNTTs_pairs. split.
  - rewrite (length_groups (fun i => [fst (mul2 (gamma i) (cmp i f) (cmp i g)) mod q; snd (mul2 (gamma i) (cmp i f) (cmp i g)) mod q]) 2); reflexivity.
  - apply Forall_concat, Forall_map, List.Forall_forall. intros i _.
    apply Forall_cons_2; [now apply Z.mod_pos_bound | apply Forall_cons_2; [now apply Z.mod_pos_bound | apply Forall_nil_2]].
Qed.

Lemma cmp_MultiplyNTTs i f g : (i < 128)%nat -> cong2 (cmp i (MultiplyNTTs f g)) (mul2 (gamma i) (cmp i f) (cmp i g)).
Proof.
  intros Hi. rewrite MultiplyNTTs_pairs.
  destruct (rd_concat_pairs (fun i => fst (mul2 (gamma i) (cmp i f) (cmp i g)) mod q) (fun i => snd (mul2 (gamma i) (cmp i f) (cmp i g)) mod q) 128 i Hi) as [E0 E1].
  split; [change (rd (concat (map (fun i => [fst (mul2 (gamma i) (cmp i f) (cmp i g)) mod q; snd (mul2 (gamma i) (cmp i f) (cmp i g)) mod q]) (seq 0 128))) (2 * i)
                  =q fst (mul2 (gamma i) (cmp i f) (cmp i g))); rewrite E0
         | change (rd (concat (map (fun i => [fst (mul2 (gamma i) (cmp i f) (cmp i g)) mod q; snd (mul2 (gamma i) (cmp i f) (cmp i g)) mod q]) (seq 0 128))) (2 * i + 1)
                  =q snd (mul2 (gamma i) (cmp i f) (cmp i g))); rewrite E1]; apply cong_mod_q.
Qed.

Lemma rd_rq_add f g j : length f = 256%nat -> length g = 256%nat -> (j < 256)%nat -> rd (rq_add f g) j =q rd f j + rd g j.
Proof. intros Hf Hg Hj. unfold rq_add. rewrite rd_zip_with by lia. apply cong_mod_q. Qed.

Lemma cmp_rq_add i f g : (i < 128)%nat -> length f = 256%nat -> length g = 256%nat -> cong2 (cmp i (rq_add f g)) (add2 (cmp i f) (cmp i g)).
Proof. intros Hi Hf Hg. split; cbn [cmp add2 fst snd]; apply rd_rq_add; lia. Qed.

Lemma canonical_tq_dot fs gs : canonical (tq_dot fs gs).
Proof.
  unfold tq_dot. revert gs. induction fs as [|f fs IH]; intros [|g gs]; cbn [zip zip_with fold_right];
    try (split; [apply repeat_length | apply List.Forall_forall; intros x Hx; apply repeat_spec in Hx; subst x; easy]).
  apply canonical_rq_add; [apply canonical_MultiplyNTTs | apply IH].
Qed.

Lemma cmp_tq_dot i fs gs : (i < 128)%nat -> cong2 (cmp i (tq_dot fs gs)) (dot i fs gs).
Proof.
  intros Hi. unfold dot. revert gs. induction fs as [|f fs IH]; intros gs.
  - split; cbn [cmp fst snd zip zip_with fold_right tq_dot]; unfold tq_dot; cbn [zip zip_with fold_right]; unfold rd; rewrite nth_repeat; reflexivity.
  - destruct gs as [|g gs].
    + split; cbn [cmp fst snd zip zip_with fold_right]; unfold tq_dot; cbn [zip zip_with fold_right]; unfold rd; rewrite nth_repeat; reflexivity.
    + change (tq_dot (f :: fs) (g :: gs)) with (rq_add (MultiplyNTTs f g) (tq_dot fs gs)). cbn [zip zip_with fold_right fst snd].
      rewrite cmp_rq_add by (exact Hi || apply canonical_MultiplyNTTs || apply canonical_tq_dot). now rewrite cmp_MultiplyNTTs, (IH gs) by exact Hi.
Qed.

Lemma cmp_canon i x : cong2 (cmp i (canon x)) (cmp i x).
Proof. split; cbn [cmp fst snd]; apply canon_rd_cong. Qed.

Lemma dot_canon i as_ bs : cong2 (dot i (map canon as_) (map canon bs)) (dot i as_ bs).
Proof.
  unfold dot. revert bs. induction as_ as [|a as_ IH]; intros [|b bs]; try reflexivity. cbn [map zip zip_with fold_right fst snd].
  now rewrite (IH bs), !cmp_canon.
Qed.

Lemma NTT_canon_all fs : Forall (polyb MLKEM_Q) fs -> map NTT fs = map canon (mlk_polyvec_ntt fs).
Proof.
  intros H. unfold mlk_polyvec_ntt. rewrite map_map. apply map_ext_in. intros f Hf. rewrite List.Forall_forall in H. symmetry. now apply ntt_canon, H.
Qed.

Lemma canonical_int16s x : canonical x -> int16s x.
Proof. intros H. apply (polyb_int16s MLKEM_Q); [discriminate | now apply canonical_polyb]. Qed.

(** ** The steps of the scheme *)

Section RowSpecs.
Context (row fs : list mlk_poly) (Hrow : Forall uint12s row) (Hfs : Forall (polyb MLKEM_Q) fs).
Context (Hlen : length row = length fs) (H4 : (length row <= 4)%nat).

Let fhat : mlk_polyvec := mlk_polyvec_ntt fs.
Let prod : mlk_poly := mlk_polyvec_basemul_acc_montgomery_cached row fhat (mlk_polyvec_mulcache_compute fhat).
Let D : list Z := tq_dot (map canon row) (map NTT fs).

Lemma cmp_D i : (i < 128)%nat -> cong2 (cmp i D) (dot i row fhat).
Proof. intros Hi. unfold D. rewrite cmp_tq_dot by exact Hi. rewrite NTT_canon_all by exact Hfs. apply dot_canon. Qed.

Lemma res_D i : (i < 128)%nat -> cong2 (res i (NTT_inv D)) (dot i row fhat).
Proof. intros Hi. rewrite res_NTT_inv by (exact Hi || apply canonical_int16s, canonical_tq_dot). now apply cmp_D. Qed.

Lemma length_inv_D : length (NTT_inv D) = 256%nat.
Proof. apply length_NTT_inv. Qed.

Lemma keygen_row_spec e : polyb MLKEM_Q e ->
  mlk_poly_reduce (mlk_poly_add (mlk_poly_tomont prod) (mlk_poly_ntt e)) = rq_add D (NTT e).
Proof.
  intros He. destruct (keygen_row row fs Hrow Hfs Hlen H4 e He) as [Hc Hr].
  assert (LD : length D = 256%nat) by apply canonical_tq_dot. pose proof (ntt_canon e He) as En.
  assert (LN : length (NTT e) = 256%nat) by (rewrite <- En, length_canon; apply (polyb_length MLK_NTT_BOUND), ntt_bound, He).
  apply canonical_cmp_eq; [exact Hc | now apply canonical_rq_add |]. intros i Hi. etransitivity; [exact (Hr i Hi) |].
  rewrite (cmp_rq_add i D (NTT e) Hi LD LN), (cmp_D i Hi). rewrite <- En, cmp_canon, (cmp_ntt e i He Hi). reflexivity.
Qed.

Lemma enc_row_spec e1 : polyb MLKEM_Q e1 -> mlk_poly_reduce (mlk_poly_add (mlk_poly_invntt_tomont prod) e1) = rq_add (NTT_inv D) e1.
Proof.
  intros He. destruct (enc_row row fs Hrow Hfs Hlen H4 e1 He) as [Hc Hr]. pose proof length_inv_D as LD. pose proof (polyb_length _ _ He) as Le.
  apply canonical_res_eq; [exact Hc | now apply canonical_rq_add |]. intros i Hi. etransitivity; [exact (Hr i Hi) |].
  now rewrite (res_rq_add i (NTT_inv D) e1 LD Le), (res_D i Hi).
Qed.

Lemma enc_poly_spec e2 k : polyb MLKEM_Q e2 -> polyb MLKEM_Q k ->
  mlk_poly_reduce (mlk_poly_add (mlk_poly_add (mlk_poly_invntt_tomont prod) e2) k) = rq_add (rq_add (NTT_inv D) e2) k.
Proof.
  intros He Hk. destruct (enc_poly row fs Hrow Hfs Hlen H4 e2 k He Hk) as [Hc Hr]. pose proof length_inv_D as LD.
  pose proof (polyb_length _ _ He) as Le. pose proof (polyb_length _ _ Hk) as Lk. pose proof (length_rq_add _ _ LD Le) as La.
  apply canonical_res_eq; [exact Hc | now apply canonical_rq_add |]. intros i Hi. etransitivity; [exact (Hr i Hi) |].
  now rewrite (res_rq_add i _ k La Lk), (res_rq_add i (NTT_inv D) e2 LD Le), (res_D i Hi).
Qed.

Lemma dec_poly_spec v : polyb MLKEM_Q v -> mlk_poly_reduce (mlk_poly_sub v (mlk_poly_invntt_tomont prod)) = rq_sub v (NTT_inv D).
Proof.
  intros Hv. destruct (dec_poly row fs Hrow Hfs Hlen H4 v Hv) as [Hc Hr]. pose proof length_inv_D as LD. pose proof (polyb_length _ _ Hv) as Lv.
  apply canonical_res_eq; [exact Hc | now apply canonical_rq_sub |]. intros i Hi. etransitivity; [exact (Hr i Hi) |].
  now rewrite (res_rq_sub i v (NTT_inv D) Lv LD), (res_D i Hi).
Qed.

End RowSpecs.

(** ** Hashes, noise and the matrix *)

Lemma hash_G x : are_bytes x -> mlk_hash_g x = SHA3_512 x.
Proof. intros Hx. unfold mlk_hash_g, mlk_sha3_512, SHA3_512_RATE. exact (mlk_oneshot 72 ltac:(lia) x _ _ 64 Hx domain_sha3 ltac:(lia)). Qed.
Lemma hash_H x : are_bytes x -> mlk_hash_h x = SHA3_256 x.
Proof. intros Hx. unfold mlk_hash_h, mlk_sha3_256, SHA3_256_RATE. exact (mlk_oneshot 136 ltac:(lia) x _ _ 32 Hx domain_sha3 ltac:(lia)). Qed.
Lemma hash_J x : are_bytes x -> mlk_hash_j x = SHAKE256 x 32.
Proof. intros Hx. unfold mlk_hash_j, mlk_shake256, SHAKE256_RATE. exact (mlk_oneshot 136 ltac:(lia) x _ _ 32 Hx domain_shake ltac:(lia)). Qed.

Lemma prf_spec eta x : are_bytes x -> mlk_prf_eta eta x = SHAKE256 x (64 * eta).
Proof.
  intros Hx. unfold mlk_prf_eta, mlk_shake256, SHAKE256_RATE, MLKEM_N. replace (eta * 256 / 4)%nat with (64 * eta)%nat.
  - exact (mlk_oneshot 136 ltac:(lia) x _ _ _ Hx domain_shake ltac:(lia)).
  - replace (eta * 256)%nat with (64 * eta * 4)%nat by lia. now rewrite Nat.div_mul.
Qed.

Section Sampling.
Context (K : nat) (HK : K = 2%nat \/ K = 3%nat \/ K = 4%nat) (fuel : nat).

Lemma noise1_spec seed b : are_bytes seed -> (b < 256)%nat ->
  mlk_poly_cbd_eta1 K (mlk_prf_eta (MLKEM_ETA1 K) (seed ++ [Z.of_nat b])) = SamplePolyCBD (K_PKE.eta1 K) (K_PKE.PRF (K_PKE.eta1 K) seed b).
Proof.
  intros Hs Hb. assert (Hx : are_bytes (seed ++ [Z.of_nat b])) by (apply snoc_bytes; [exact Hs | lia]).
  destruct (shake256_shape (64 * MLKEM_ETA1 K) _ Hx) as [Hl Hy].
  assert (E : mlk_shake256 (64 * MLKEM_ETA1 K) (seed ++ [Z.of_nat b]) = SHAKE256 (seed ++ [Z.of_nat b]) (64 * MLKEM_ETA1 K)).
  { unfold mlk_shake256, SHAKE256_RATE. exact (mlk_oneshot 136 ltac:(lia) _ _ _ _ Hx domain_shake ltac:(lia)). }
  rewrite E in Hl, Hy. rewrite prf_spec by exact Hx. unfold K_PKE.PRF, K_PKE.eta1, mlk_poly_cbd_eta1.
  unfold MLKEM_ETA1 in *. destruct HK as [-> | [-> | ->]]; cbn [Nat.eqb] in *; [apply cbd3_exact | apply cbd2_exact | apply cbd2_exact]; assumption.
Qed.

Lemma noise2_spec seed b : are_bytes seed -> (b < 256)%nat ->
  mlk_poly_cbd_eta2 (mlk_prf_eta MLKEM_ETA2 (seed ++ [Z.of_nat b])) = SamplePolyCBD K_PKE.eta2 (K_PKE.PRF K_PKE.eta2 seed b).
Proof.
  intros Hs Hb. assert (Hx : are_bytes (seed ++ [Z.of_nat b])) by (apply snoc_bytes; [exact Hs | lia]).
  destruct (shake256_shape 128 _ Hx) as [Hl Hy].
  assert (E : mlk_shake256 128 (seed ++ [Z.of_nat b]) = SHAKE256 (seed ++ [Z.of_nat b]) 128).
  { unfold mlk_shake256, SHAKE256_RATE. exact (mlk_oneshot 136 ltac:(lia) _ _ _ _ Hx domain_shake ltac:(lia)). }
  rewrite E in Hl, Hy. rewrite prf_spec by exact Hx. apply cbd2_exact; assumption.
Qed.

Lemma noise_4x_spec seed N n : are_bytes seed -> (N + n <= 256)%nat ->
  mlk_poly_getnoise_eta1_4x K seed (map Z.of_nat (seq N n)) = K_PKE.sample_vector (K_PKE.eta1 K) seed N n.
Proof.
  intros Hs Hn. unfold mlk_poly_getnoise_eta1_4x, K_PKE.sample_vector. rewrite map_map. apply map_ext_in. intros b Hb. apply in_seq in Hb.
  apply noise1_spec; [exact Hs | lia].
Qed.

Lemma keypair_noise_spec seed : are_bytes seed ->
  mlk_keypair_getnoise_eta1 K seed = (K_PKE.sample_vector (K_PKE.eta1 K) seed 0 K, K_PKE.sample_vector (K_PKE.eta1 K) seed K K).
Proof.
  intros Hs. rewrite <- !noise_4x_spec by (exact Hs || lia). unfold mlk_keypair_getnoise_eta1, mlk_poly_getnoise_eta1_4x.
  destruct HK as [-> | [-> | ->]]; reflexivity.
Qed.

Lemma enc_noise_spec seed : are_bytes seed ->
  mlk_enc_getnoise_eta1_eta2 K seed =
    (K_PKE.sample_vector (K_PKE.eta1 K) seed 0 K, K_PKE.sample_vector K_PKE.eta2 seed K K,
     SamplePolyCBD K_PKE.eta2 (K_PKE.PRF K_PKE.eta2 seed (2 * K))).
Proof.
  intros Hs. unfold mlk_enc_getnoise_eta1_eta2. pose proof (noise2_spec seed (2 * K) Hs ltac:(lia)) as N2. rewrite <- N2.
  pose proof (noise_4x_spec seed) as N4. pose proof (noise2_spec seed) as N1. destruct HK as [EK | [EK | EK]]; subst K.
  - rewrite <- N4 by (exact Hs || lia). unfold K_PKE.sample_vector. cbn [seq map]. rewrite <- !N1 by (exact Hs || lia). reflexivity.
  - change (K_PKE.sample_vector K_PKE.eta2) with (K_PKE.sample_vector (K_PKE.eta1 3)). rewrite <- !N4 by (exact Hs || lia). reflexivity.
  - change (K_PKE.sample_vector K_PKE.eta2) with (K_PKE.sample_vector (K_PKE.eta1 4)). rewrite <- !N4 by (exact Hs || lia). reflexivity.
Qed.

Lemma concat_rows {A} k (bs : list (list A)) : Forall (fun b => length b = k) bs ->
  map (fun i => take k (drop (i * k) (concat bs))) (seq 0 (length bs)) = bs.
Proof.
  induction 1 as [|b bs Hb1 Hb IH]; [reflexivity |]. cbn [length seq map concat].
  f_equal; [rewrite drop_0; now apply take_app_length' |]. rewrite <- seq_shift, map_map. etransitivity; [| exact IH]. apply map_ext. intros i.
  f_equal. replace (S i * k)%nat with (length b + i * k)%nat by lia. apply drop_app_add.
Qed.

Context (seed : bytes) (Hseed : are_bytes seed) (Hl32 : length seed = 32%nat).

Lemma gen_matrix_spec : mlk_gen_matrix K fuel seed false = K_PKE.matrix K fuel seed.
Proof.
  assert (HK' : (2 <= K <= 4)%nat) by lia.
  rewrite (gen_matrix_entries K HK' seed Hseed Hl32 fuel false). pose proof (mapM_batches (matrix_entry K seed fuel false) K K 0) as Eb. rewrite Nat.mul_0_r in Eb. rewrite <- Eb. clear Eb.
  unfold K_PKE.matrix.
  rewrite (Forall_mapM_ext _ (fun i => mapM (fun j => SampleNTT (seed ++ [Z.of_nat j; Z.of_nat i]) (3 + fuel)) (seq 0 K)) (seq 0 K)).
  - destruct (mapM _ (seq 0 K)) as [bs|] eqn:E; [| reflexivity]. cbn. f_equal. pose proof (length_mapM _ _ _ E) as El. rewrite length_seq in El. etransitivity; [| apply (concat_rows K bs)]; [now rewrite <- El |].
    apply mapM_Some_1 in E. apply List.Forall_forall. intros b Hb. apply list_elem_of_In in Hb. apply list_elem_of_lookup_1 in Hb as [x Hx].
    destruct (Forall2_lookup_r _ _ _ _ _ E Hx) as (y & _ & Hy). cbv beta in Hy. apply length_mapM in Hy. now rewrite length_seq in Hy.
  - apply List.Forall_forall. intros b Hb. apply in_seq in Hb. rewrite mapM_map. apply Forall_mapM_ext, List.Forall_forall. intros j Hj. apply in_seq in Hj.
    unfold matrix_entry. f_equal. rewrite Nat.mul_comm. apply seed_ext_pos; lia.
Qed.

Lemma matrix_shape A : K_PKE.matrix K fuel seed = Some A ->
  length A = K /\ (forall x, (x < K)%nat -> length (nth x A []) = K /\ Forall canonical (nth x A [])).
Proof.
  rewrite <- gen_matrix_spec. intros HA. split; [now destruct (gen_matrix_some K ltac:(lia) seed Hseed Hl32 fuel false A HA) |].
  intros x Hx. now destruct (matrix_row K HK fuel seed false A x Hseed Hl32 HA Hx) as (_ & H1 & H2).
Qed.

Lemma gen_matrix_true : mlk_gen_matrix K fuel seed true =
  (A ← K_PKE.matrix K fuel seed; Some (map (K_PKE.column A) (seq 0 K))).
Proof.
  assert (HK' : (2 <= K <= 4)%nat) by lia. rewrite <- gen_matrix_spec. destruct (mlk_gen_matrix K fuel seed false) as [A|] eqn:EA.
  - destruct (gen_matrix_transpose K HK' seed Hseed Hl32 fuel A EA) as (at_ & Et & Hat). rewrite Et. cbn. f_equal.
    destruct (gen_matrix_some K HK' seed Hseed Hl32 fuel true at_ Et) as (La & Lr & _).
    destruct (gen_matrix_some K HK' seed Hseed Hl32 fuel false A EA) as (LA & _).
    apply (nth_ext _ _ [] []); [rewrite length_map, length_seq; exact La |]. intros x Hx0.
    assert (Hx : (x < K)%nat) by (rewrite <- La; exact Hx0). clear Hx0.
    rewrite (nth_map_lt (K_PKE.column A) _ _ 0%nat) by (rewrite length_seq; exact Hx). rewrite seq_nth by exact Hx. cbn [Nat.add].
    unfold K_PKE.column. apply (nth_ext _ _ [] []); [rewrite length_map; etransitivity; [exact (Lr x Hx) | symmetry; exact LA] |]. intros y Hy0.
    assert (Hy : (y < K)%nat) by (rewrite <- (Lr x Hx); exact Hy0). clear Hy0.
    rewrite (nth_map_lt (fun row => nth x row []) A y []) by (eapply Nat.lt_le_trans; [exact Hy | apply Nat.eq_le_incl; symmetry; exact LA]). now apply Hat.
  - destruct (mlk_gen_matrix K fuel seed true) as [at_|] eqn:Et; [exfalso | reflexivity].
    destruct (gen_matrix_some K HK' seed Hseed Hl32 fuel true at_ Et) as (_ & _ & Hs).
    destruct (gen_matrix_exists K HK' seed Hseed Hl32 fuel false) as [A HA]; [| congruence].
    intros x y Hx Hy. rewrite seed_ext_pos by lia. specialize (Hs y x Hy Hx). rewrite seed_ext_pos in Hs by lia. rewrite Hs. eauto.
Qed.

End Sampling.

(** ** indcpa.c computes K-PKE *)

Lemma canon_canonical_all l : Forall canonical l -> map canon l = l.
Proof. intros H. rewrite <- (map_id l) at 2. apply map_ext_in. intros x Hx. rewrite List.Forall_forall in H. apply canon_id, H, Hx. Qed.

Lemma keygen_rows s A : Forall (polyb MLKEM_Q) s -> (length s <= 4)%nat -> Forall (fun row => length row = length s /\ Forall canonical row) A ->
  forall e, Forall (polyb MLKEM_Q) e ->
  mlk_polyvec_reduce (mlk_polyvec_add (mlk_polyvec_tomont (mlk_matvec_mul A (mlk_polyvec_ntt s) (mlk_polyvec_mulcache_compute (mlk_polyvec_ntt s)))) (mlk_polyvec_ntt e))
  = zip_with (fun row e => rq_add (tq_dot row (map NTT s)) e) A (map NTT e).
Proof.
  intros Hs H4. induction 1 as [|row A [Lr Cr] HA IH]; intros e He; [reflexivity |]. destruct e as [|e0 e]; [reflexivity |].
  apply Forall_cons_1 in He as [He0 He].
  cbn [mlk_polyvec_reduce mlk_polyvec_add mlk_polyvec_tomont mlk_matvec_mul map zip_with].
  change (mlk_polyvec_ntt (e0 :: e)) with (mlk_poly_ntt e0 :: mlk_polyvec_ntt e). cbn [zip_with map]. f_equal; [| exact (IH e He)].
  rewrite (keygen_row_spec row s (canonical_uint12s_all _ Cr) Hs Lr (eq_ind_r (fun n => (n <= 4)%nat) H4 Lr) e0 He0). now rewrite canon_canonical_all by exact Cr.
Qed.

Lemma enc_rows s A : Forall (polyb MLKEM_Q) s -> (length s <= 4)%nat -> Forall (fun row => length row = length s /\ Forall canonical row) A ->
  forall e, Forall (polyb MLKEM_Q) e ->
  mlk_polyvec_reduce (mlk_polyvec_add (mlk_polyvec_invntt_tomont (mlk_matvec_mul A (mlk_polyvec_ntt s) (mlk_polyvec_mulcache_compute (mlk_polyvec_ntt s)))) e)
  = zip_with (fun row e => rq_add (NTT_inv (tq_dot row (map NTT s))) e) A e.
Proof.
  intros Hs H4. induction 1 as [|row A [Lr Cr] HA IH]; intros e He; [reflexivity |]. destruct e as [|e0 e]; [reflexivity |].
  apply Forall_cons_1 in He as [He0 He].
  cbn [mlk_polyvec_reduce mlk_polyvec_add mlk_polyvec_invntt_tomont mlk_matvec_mul map zip_with]. f_equal; [| exact (IH e He)].
  rewrite (enc_row_spec row s (canonical_uint12s_all _ Cr) Hs Lr (eq_ind_r (fun n => (n <= 4)%nat) H4 Lr) e0 He0). now rewrite canon_canonical_all by exact Cr.
Qed.

Lemma tobytes_spec t : Forall canonical t -> mlk_polyvec_tobytes t = concat (map (ByteEncode 12) t).
Proof.
  intros H. unfold mlk_polyvec_tobytes. f_equal. apply map_ext_in. intros f Hf. rewrite List.Forall_forall in H.
  now destruct (serialize_exact f (H f Hf)) as (_ & _ & _ & _ & _ & ?).
Qed.

Lemma canonical_zip_add {A} (F : A -> list Z) : (forall r, length (F r) = 256%nat) ->
  forall rs es, Forall (fun e => length e = 256%nat) es -> Forall canonical (zip_with (fun r e => rq_add (F r) e) rs es).
Proof.
  intros HF. induction rs as [|r rs IH]; intros [|e es] He; try apply Forall_nil_2. apply Forall_cons_1 in He as [He0 He].
  apply Forall_cons_2; [apply canonical_rq_add; [apply HF | exact He0] | now apply IH].
Qed.

Section Scheme.
Context (K : nat) (HK : K = 2%nat \/ K = 3%nat \/ K = 4%nat) (fuel : nat).

Lemma matrix_rows rho A : are_bytes rho -> length rho = 32%nat -> K_PKE.matrix K fuel rho = Some A ->
  Forall (fun row => length row = K /\ Forall canonical row) A.
Proof.
  intros Hr Lr HA. destruct (matrix_shape K HK fuel rho Hr Lr A HA) as [LA Hrow]. apply (nth_Forall _ _ []). intros x Hx. apply Hrow. lia.
Qed.

Lemma matrix_columns rho A : are_bytes rho -> length rho = 32%nat -> K_PKE.matrix K fuel rho = Some A ->
  Forall (fun row => length row = K /\ Forall canonical row) (map (K_PKE.column A) (seq 0 K)).
Proof.
  intros Hr Lr HA. destruct (matrix_shape K HK fuel rho Hr Lr A HA) as [LA _]. pose proof (matrix_rows rho A Hr Lr HA) as Hrow.
  apply Forall_map, List.Forall_forall. intros j Hj. apply in_seq in Hj. unfold K_PKE.column. split; [now rewrite length_map |].
  apply Forall_map. eapply Forall_impl; [| exact Hrow]. cbv beta. intros row [L C]. apply Forall_nth_lt; [exact C | lia].
Qed.

Lemma HK4 : (K <= 4)%nat.
Proof. lia. Qed.

Lemma KeyGen_core rho sigma : are_bytes rho -> length rho = 32%nat -> are_bytes sigma ->
  (a ← mlk_gen_matrix K fuel rho false;
   let '(skpv, e) := mlk_keypair_getnoise_eta1 K sigma in
   Some (mlk_pack_pk (mlk_polyvec_reduce (mlk_polyvec_add (mlk_polyvec_tomont
           (mlk_matvec_mul a (mlk_polyvec_ntt skpv) (mlk_polyvec_mulcache_compute (mlk_polyvec_ntt skpv)))) (mlk_polyvec_ntt e))) rho,
         mlk_pack_sk (mlk_polyvec_reduce (mlk_polyvec_ntt skpv)))) =
  (A ← K_PKE.matrix K fuel rho;
   Some (concat (map (ByteEncode 12) (zip_with (fun row e => rq_add (tq_dot row (map NTT (K_PKE.sample_vector (K_PKE.eta1 K) sigma 0 K))) e) A
           (map NTT (K_PKE.sample_vector (K_PKE.eta1 K) sigma K K)))) ++ rho,
         concat (map (ByteEncode 12) (map NTT (K_PKE.sample_vector (K_PKE.eta1 K) sigma 0 K))))).
Proof.
  intros Hp Lp Hn. rewrite gen_matrix_spec by assumption.
  destruct (K_PKE.matrix K fuel rho) as [A|] eqn:HA; [| reflexivity]. cbn [mbind option_bind].
  pose proof (keypair_noise_shape K HK sigma Hn) as Hsh. rewrite (keypair_noise_spec K HK sigma Hn) in *.
  set (s := K_PKE.sample_vector _ _ 0 K) in *. set (e := K_PKE.sample_vector _ _ K K) in *. clearbody s e. destruct Hsh as (Ls & Le & Hs & He).
  assert (Hsq : Forall (polyb MLKEM_Q) s) by (eapply Forall_impl; [exact small_q | exact Hs]).
  assert (Heq : Forall (polyb MLKEM_Q) e) by (eapply Forall_impl; [exact small_q | exact He]).
  assert (HA' : Forall (fun row => length row = length s /\ Forall canonical row) A)
    by exact (eq_ind_r (fun n => Forall (fun row => length row = n /\ Forall canonical row) A) (matrix_rows rho A Hp Lp HA) Ls).
  rewrite (keygen_rows s A Hsq (eq_ind_r (fun n => (n <= 4)%nat) HK4 Ls) HA' e Heq). f_equal. unfold mlk_pack_pk, mlk_pack_sk. f_equal.
  - rewrite tobytes_spec; [reflexivity |]. apply canonical_zip_add; [intros row; apply canonical_tq_dot |].
    rewrite NTT_canon_all by exact Heq. apply Forall_map, Forall_map. eapply Forall_impl; [| exact Heq]. intros f Hf.
    rewrite length_canon. exact (polyb_length _ _ (ntt_bound f Hf)).
  - rewrite tobytes_spec.
    + rewrite NTT_canon_all by exact Hsq. f_equal. f_equal. unfold mlk_polyvec_reduce, mlk_polyvec_ntt. rewrite !map_map. apply map_ext_in.
      intros f Hf. rewrite List.Forall_forall in Hsq. now apply reduce_ntt, Hsq.
    + unfold mlk_polyvec_reduce, mlk_polyvec_ntt. rewrite map_map. apply Forall_map. eapply Forall_impl; [| exact Hsq]. intros f Hf. cbv beta.
      rewrite reduce_ntt by exact Hf. apply canon_canonical. exact (polyb_length _ _ (ntt_bound f Hf)).
Qed.

Lemma symbytes : MLKEM_SYMBYTES = 32%nat.
Proof. reflexivity. Qed.

Lemma KeyGen_refines coins : are_bytes coins -> mlk_indcpa_keypair_derand K fuel coins = K_PKE.KeyGen K fuel (take 32 coins).
Proof.
  intros Hc. destruct (seeds_shape K HK coins Hc) as (Hp & Lp & Hn).
  assert (Hb : are_bytes (take 32 coins ++ [Z.of_nat K])) by (apply snoc_bytes; [now apply Forall_take | lia]).
  revert Hp Lp Hn. unfold publicseed, noiseseed, mlk_indcpa_keypair_derand, K_PKE.KeyGen, K_PKE.G. rewrite symbytes, hash_G by exact Hb.
  generalize (SHA3_512 (take 32 coins ++ [Z.of_nat K])). intros h Hp Lp Hn. exact (KeyGen_core (take 32 h) (drop 32 h) Hp Lp Hn).
Qed.

Lemma are_bytes_sub (b : bytes) o n : are_bytes b -> are_bytes (sub b o n).
Proof. intros H. unfold sub. now apply Forall_take, Forall_drop. Qed.

Lemma frombytes_spec b : are_bytes b -> (384 * K <= length b)%nat ->
  let t := mlk_polyvec_frombytes K b in
  length t = K /\ Forall uint12s t /\ map canon t = K_PKE.decode_vector K b.
Proof.
  intros Hb Hl t. assert (E : t = map (fun i => ByteDecode 12 (sub b (384 * i) 384)) (seq 0 K)).
  { apply map_ext_in. intros i Hi. apply in_seq in Hi. change MLKEM_POLYBYTES with 384%nat. rewrite (Nat.mul_comm i). apply frombytes_decode.
    - now apply are_bytes_sub.
    - rewrite length_sub; nia. }
  split; [| split].
  - unfold t, mlk_polyvec_frombytes. now rewrite length_map, length_seq.
  - rewrite E. apply Forall_map, List.Forall_forall. intros i Hi. apply in_seq in Hi. split; [| exact (ByteDecode_below 12 _)].
    apply length_ByteDecode; [lia |]. rewrite length_sub; nia.
  - rewrite E. unfold K_PKE.decode_vector. now rewrite map_map.
Qed.

Lemma compress_du_spec a : canonical a -> mlk_poly_compress_du K a = K_PKE.encode_compressed (K_PKE.du K) a.
Proof.
  intros Ha. destruct (serialize_exact a Ha) as (_ & _ & _ & H10 & H11 & _). unfold mlk_poly_compress_du, MLKEM_DU, K_PKE.du, K_PKE.encode_compressed.
  destruct (Nat.eqb K 4); [exact H11 | exact H10].
Qed.

Lemma compress_dv_spec a : canonical a -> mlk_poly_compress_dv K a = K_PKE.encode_compressed (K_PKE.dv K) a.
Proof.
  intros Ha. destruct (serialize_exact a Ha) as (_ & H4 & H5 & _). unfold mlk_poly_compress_dv, MLKEM_DV, K_PKE.dv, K_PKE.encode_compressed.
  destruct (Nat.eqb K 4); [exact H5 | exact H4].
Qed.

Lemma decompress_du_spec b : are_bytes b -> length b = (32 * K_PKE.du K)%nat ->
  mlk_poly_decompress_du K b = K_PKE.decode_decompressed (K_PKE.du K) b /\ canonical (mlk_poly_decompress_du K b).
Proof.
  intros Hb Hl. destruct (deserialize_exact b Hb) as (_ & _ & _ & H10 & H11 & _).
  assert (E : mlk_poly_decompress_du K b = K_PKE.decode_decompressed (K_PKE.du K) b).
  { unfold mlk_poly_decompress_du, MLKEM_DU, K_PKE.du, K_PKE.decode_decompressed in *. destruct (Nat.eqb K 4); [exact (H11 Hl) | exact (H10 Hl)]. }
  split; [exact E |]. rewrite E. unfold K_PKE.decode_decompressed, K_PKE.du in *.
  destruct (Nat.eqb K 4); apply Decompress_canonical; try lia; [exact codec_11 | exact codec_10].
Qed.

Lemma decompress_dv_spec b : are_bytes b -> length b = (32 * K_PKE.dv K)%nat ->
  mlk_poly_decompress_dv K b = K_PKE.decode_decompressed (K_PKE.dv K) b /\ canonical (mlk_poly_decompress_dv K b).
Proof.
  intros Hb Hl. destruct (deserialize_exact b Hb) as (_ & H4 & H5 & _).
  assert (E : mlk_poly_decompress_dv K b = K_PKE.decode_decompressed (K_PKE.dv K) b).
  { unfold mlk_poly_decompress_dv, MLKEM_DV, K_PKE.dv, K_PKE.decode_decompressed in *. destruct (Nat.eqb K 4); [exact (H5 Hl) | exact (H4 Hl)]. }
  split; [exact E |]. rewrite E. unfold K_PKE.decode_decompressed, K_PKE.dv in *.
  destruct (Nat.eqb K 4); apply Decompress_canonical; try lia; [exact codec_5 | exact codec_4].
Qed.

(** The message as a polynomial. *)
Lemma frommsg_spec m : are_bytes m -> length m = 32%nat ->
  mlk_poly_frommsg m = map (Decompress 1) (ByteDecode 1 m) /\ polyb MLKEM_Q (mlk_poly_frommsg m).
Proof.
  intros Hm Lm. rewrite frommsg_decode by assumption. split; [reflexivity |]. apply canonical_polyb, (Decompress_canonical 1 m codec_1); lia.
Qed.

Lemma zip_with_map_l {A B C D} (f : B -> C -> D) (g : A -> B) l k : zip_with f (map g l) k = zip_with (fun x y => f (g x) y) l k.
Proof. revert k. induction l as [|x l IH]; intros [|y k]; try reflexivity. cbn. now rewrite IH. Qed.

Lemma encode_rows b : Forall canonical b -> mlk_polyvec_compress_du K b = concat (map (K_PKE.encode_compressed (K_PKE.du K)) b).
Proof.
  intros H. unfold mlk_polyvec_compress_du. f_equal. apply map_ext_in. intros x Hx. rewrite List.Forall_forall in H. now apply compress_du_spec, H.
Qed.

Lemma Encrypt_refines m ek r : are_bytes m -> length m = 32%nat -> are_bytes ek -> length ek = (384 * K + 32)%nat -> are_bytes r ->
  mlk_indcpa_enc K fuel m ek r = K_PKE.Encrypt K fuel ek m r.
Proof.
  intros Hm Lm Hek Lek Hr. destruct (frombytes_spec ek Hek ltac:(lia)) as (Lt & Ht & Et). destruct (frommsg_spec m Hm Lm) as [Em Hk].
  assert (Es : sub ek (MLKEM_POLYVECBYTES K) MLKEM_SYMBYTES = sub ek (384 * K) 32).
  { unfold MLKEM_POLYVECBYTES. change MLKEM_POLYBYTES with 384%nat. change MLKEM_SYMBYTES with 32%nat. now rewrite (Nat.mul_comm K). }
  unfold mlk_indcpa_enc, mlk_indcpa_enc_bv, mlk_unpack_pk, K_PKE.Encrypt. rewrite Es, <- Et.
  assert (Hs : are_bytes (sub ek (384 * K) 32)) by now apply are_bytes_sub.
  assert (Ls : length (sub ek (384 * K) 32) = 32%nat) by (rewrite length_sub; lia).
  set (t := mlk_polyvec_frombytes K ek) in *. set (rho := sub ek (384 * K) 32) in *. clearbody t rho.
  pose proof (enc_noise_shape K HK r Hr) as Hsh. rewrite (enc_noise_spec K HK r Hr) in *.
  set (y := K_PKE.sample_vector _ r 0 K) in *. set (e1 := K_PKE.sample_vector _ r K K) in *. set (e2 := SamplePolyCBD _ _) in *.
  clearbody y e1 e2. destruct Hsh as (Ly & Le1 & Sy & Se1 & Se2).
  assert (Hy : Forall (polyb MLKEM_Q) y) by (eapply Forall_impl; [exact small_q | exact Sy]).
  assert (He1 : Forall (polyb MLKEM_Q) e1) by (eapply Forall_impl; [exact small_q | exact Se1]).
  rewrite <- Em. set (k := mlk_poly_frommsg m) in *. clearbody k.
  rewrite gen_matrix_true by assumption. destruct (K_PKE.matrix K fuel rho) as [A|] eqn:HA; [| reflexivity]. cbn [mbind option_bind].
  pose proof (eq_ind_r (fun n => Forall (fun row => length row = n /\ Forall canonical row) (map (K_PKE.column A) (seq 0 K))) (matrix_columns rho A Hs Ls HA) Ly) as HA'. cbv beta in HA'.
  assert (Hb : Forall canonical (zip_with (fun row e => rq_add (NTT_inv (tq_dot row (map NTT y))) e) (map (K_PKE.column A) (seq 0 K)) e1)).
  { apply canonical_zip_add; [intros row; apply length_NTT_inv |]. eapply Forall_impl; [| exact He1]. intros f Hf. exact (polyb_length _ _ Hf). }
  rewrite (enc_rows y _ Hy (eq_ind_r (fun n => (n <= 4)%nat) HK4 Ly) HA' e1 He1).
  rewrite (enc_poly_spec t y Ht Hy (eq_trans Lt (eq_sym Ly)) (eq_ind_r (fun n => (n <= 4)%nat) HK4 Lt) e2 k (small_q _ Se2) Hk).
  f_equal. unfold mlk_pack_ciphertext. f_equal.
  - rewrite encode_rows by exact Hb. now rewrite zip_with_map_l.
  - apply compress_dv_spec, canonical_rq_add; [| exact (polyb_length _ _ Hk)].
    apply length_rq_add; [apply length_NTT_inv | exact (polyb_length _ _ Se2)].
Qed.

Lemma Decrypt_refines c dk : are_bytes c -> length c = (32 * (K_PKE.du K * K + K_PKE.dv K))%nat -> are_bytes dk -> (384 * K <= length dk)%nat ->
  mlk_indcpa_dec K c dk = K_PKE.Decrypt K dk c.
Proof.
  intros Hc Lc Hdk Ldk. destruct (frombytes_spec dk Hdk Ldk) as (Lt & Ht & Et).
  assert (Du : MLKEM_POLYCOMPRESSEDBYTES_DU K = (32 * K_PKE.du K)%nat) by (unfold MLKEM_POLYCOMPRESSEDBYTES_DU, K_PKE.du; now destruct (Nat.eqb K 4)).
  assert (Eu : mlk_polyvec_decompress_du K c = map (fun i => K_PKE.decode_decompressed (K_PKE.du K) (sub c (32 * K_PKE.du K * i) (32 * K_PKE.du K))) (seq 0 K) /\
               Forall canonical (mlk_polyvec_decompress_du K c)).
  { unfold mlk_polyvec_decompress_du. rewrite Du.
    assert (Hi : forall i, In i (seq 0 K) -> are_bytes (sub c (i * (32 * K_PKE.du K)) (32 * K_PKE.du K)) /\
                                           length (sub c (i * (32 * K_PKE.du K)) (32 * K_PKE.du K)) = (32 * K_PKE.du K)%nat).
    { intros i Hi. apply in_seq in Hi. split; [now apply are_bytes_sub | rewrite length_sub; nia]. }
    split.
    - apply map_ext_in. intros i Hin. destruct (Hi i Hin) as [B L]. rewrite (Nat.mul_comm (32 * K_PKE.du K) i). exact (proj1 (decompress_du_spec _ B L)).
    - apply Forall_map, List.Forall_forall. intros i Hin. destruct (Hi i Hin) as [B L]. exact (proj2 (decompress_du_spec _ B L)). }
  destruct Eu as [Eu Hu].
  assert (Ev : drop (MLKEM_POLYVECCOMPRESSEDBYTES_DU K) c = sub c (32 * K_PKE.du K * K) (32 * K_PKE.dv K)).
  { unfold MLKEM_POLYVECCOMPRESSEDBYTES_DU, sub. rewrite Du, (Nat.mul_comm K). rewrite (take_ge (drop _ c)); [reflexivity |]. rewrite length_drop. lia. }
  destruct (decompress_dv_spec (sub c (32 * K_PKE.du K * K) (32 * K_PKE.dv K))) as [Ev2 Hv]; [now apply are_bytes_sub | rewrite length_sub; lia |].
  assert (Lu : length (mlk_polyvec_decompress_du K c) = K) by (unfold mlk_polyvec_decompress_du; now rewrite length_map, length_seq).
  unfold mlk_indcpa_dec, mlk_unpack_ciphertext, mlk_unpack_sk, K_PKE.Decrypt. cbv zeta. rewrite Ev, <- Ev2, <- Eu, <- Et.
  set (u := mlk_polyvec_decompress_du K c) in *. set (v := mlk_poly_decompress_dv K _) in *. set (t := mlk_polyvec_frombytes K dk) in *. clearbody u v t.
  assert (Hq : Forall (polyb MLKEM_Q) u) by (eapply Forall_impl; [exact canonical_polyb | exact Hu]).
  rewrite (dec_poly_spec t u Ht Hq (eq_trans Lt (eq_sym Lu)) (eq_ind_r (fun n => (n <= 4)%nat) HK4 Lt) v (canonical_polyb v Hv)).
  pose proof (canonical_rq_sub v (NTT_inv (tq_dot (map canon t) (map NTT u))) (proj1 Hv) (length_NTT_inv _)) as Hw.
  exact (proj1 (serialize_exact _ Hw)).
Qed.

End Scheme.

(** C4. [indcpa.c] implements K-PKE of FIPS 203, for the three parameter sets and with the reference arithmetic of the standard (transforms modulo X^2 - gamma
    and Algorithm 10, products of Algorithm 11, SamplePolyCBD and SampleNTT on SHAKE streams, ByteEncode/ByteDecode and Compress/Decompress):
    [mlk_indcpa_keypair_derand] returns the keys of K-PKE.KeyGen (Algorithm 13), [mlk_indcpa_enc] the ciphertext of K-PKE.Encrypt (14) for every
    encryption key, canonical or not, and [mlk_indcpa_dec] the message of K-PKE.Decrypt (15) for every key and ciphertext of the right size; where the matrix needs more than the allowed
    number of XOF blocks, both sides are unfinished. *)
Theorem mlk_indcpa_fips203 (K : nat) (HK : K = 2%nat \/ K = 3%nat \/ K = 4%nat) (fuel : nat) :
  (forall coins, are_bytes coins -> mlk_indcpa_keypair_derand K fuel coins = K_PKE.KeyGen K fuel (take 32 coins)) /\
  (forall m ek r, are_bytes m -> length m = 32%nat -> are_bytes ek -> length ek = MLKEM_INDCPA_PUBLICKEYBYTES K -> are_bytes r ->
     mlk_indcpa_enc K fuel m ek r = K_PKE.Encrypt K fuel ek m r) /\
  (forall c dk, are_bytes c -> length c = MLKEM_INDCPA_BYTES K -> are_bytes dk -> length dk = MLKEM_INDCPA_SECRETKEYBYTES K ->
     mlk_indcpa_dec K c dk = K_PKE.Decrypt K dk c).
Proof.
  split; [now apply KeyGen_refines |]. split.
  - intros m ek r Hm Lm Hek Lek Hr. apply Encrypt_refines; try assumption. rewrite Lek. destruct HK as [-> | [-> | ->]]; reflexivity.
  - intros c dk Hc Lc Hdk Ldk. apply Decrypt_refines; try assumption; [rewrite Lc | rewrite Ldk]; destruct HK as [-> | [-> | ->]]; try reflexivity; apply Nat.le_refl.
Qed.

Lemma mlk_indcpa_fips203_witness :
  (2 = 2 \/ 2 = 3 \/ 2 = 4)%nat /\ mlk_indcpa_keypair_derand 2 0 (zeros 32) = K_PKE.KeyGen 2 0 (zeros 32) /\
  mlk_indcpa_enc 2 0 (zeros 32) (zeros 800) (zeros 32) = K_PKE.Encrypt 2 0 (zeros 800) (zeros 32) (zeros 32) /\
  mlk_indcpa_dec 2 (zeros 768) (zeros 768) = K_PKE.Decrypt 2 (zeros 768) (zeros 768).
Proof.
  split; [now left |]. destruct (mlk_indcpa_fips203 2 (or_introl eq_refl) 0) as (H1 & H2 & H3).
  split; [exact (H1 (zeros 32) (zeros_bytes 32)) |].
  split; [exact (H2 (zeros 32) (zeros 800) (zeros 32) (zeros_bytes 32) (length_zeros 32) (zeros_bytes 800) (length_zeros 800) (zeros_bytes 32)) |].
  exact (H3 (zeros 768) (zeros 768) (zeros_bytes 768) (length_zeros 768) (zeros_bytes 768) (length_zeros 768)).
Defined.
