(* ===== verification/MlkemKem.v ===== *)
(** * The ML-KEM key encapsulation mechanism

    Model of [mlkem-native/mlkem/src/kem.c]: the deterministic interface, with the buffers it writes, and its relation to FIPS 203.  The
    build does not define [MLK_CONFIG_KEYGEN_PCT], so that [mlk_check_pct] skips the test.  A result [None] stands for rejection sampling that [fuel]
    further XOF blocks did not complete. *)

From stdpp Require Import base list numbers.
From Stdlib Require Import ZArith Lia.
From S2P Require Import Prelude Fips202 Keccak Shake ShakeX4 Fips203 MlkemPoly MlkemNtt MlkemCompress MlkemSampling MlkemRing MlkemIndcpa MlkemPke MlkemCorrect MlkemSpec.

#[local] Open Scope Z_scope.

Definition MLK_ERR_FAIL : Z := -1.
Definition MLK_ERR_OUT_OF_MEMORY : Z := -2.
Definition MLK_ERR_RNG_FAIL : Z := -3.

Section Kem.
Context (K : nat).

Definition MLKEM_INDCCA_PUBLICKEYBYTES : nat := MLKEM_INDCPA_PUBLICKEYBYTES K.
Definition MLKEM_INDCCA_SECRETKEYBYTES : nat :=
  MLKEM_INDCPA_SECRETKEYBYTES K + MLKEM_INDCPA_PUBLICKEYBYTES K + 2 * MLKEM_SYMBYTES.
Definition MLKEM_INDCCA_CIPHERTEXTBYTES : nat := MLKEM_INDCPA_BYTES K.

Definition mlk_kem_check_pk (pk : bytes) : Z :=
  let p := mlk_polyvec_frombytes K pk in
  let p := mlk_polyvec_reduce p in
  let p_reencoded := mlk_polyvec_tobytes p in
  if mlk_ct_memcmp pk p_reencoded (MLKEM_POLYVECBYTES K) =? 0 then 0 else MLK_ERR_FAIL.

Definition mlk_kem_check_sk (sk : bytes) : Z :=
  let test := mlk_hash_h (sub sk (MLKEM_INDCPA_SECRETKEYBYTES K) MLKEM_INDCCA_PUBLICKEYBYTES) in
  if mlk_ct_memcmp (drop (MLKEM_INDCCA_SECRETKEYBYTES - 2 * MLKEM_SYMBYTES) sk) test MLKEM_SYMBYTES =? 0 then 0 else MLK_ERR_FAIL.

Definition mlk_check_pct (pk sk : bytes) : Z := 0.

(** Return value, and the buffers [pk] and [sk] afterwards. *)
Definition mlk_kem_keypair_derand (fuel : nat) (pk sk coins : bytes) : option (Z * (bytes * bytes)) :=
  '(pk', sk') ← mlk_indcpa_keypair_derand K fuel coins;
  let pk := blit pk 0 pk' in
  let sk := blit sk 0 sk' in
  let sk := blit sk (MLKEM_INDCPA_SECRETKEYBYTES K) (take MLKEM_INDCCA_PUBLICKEYBYTES pk) in
  let sk := blit sk (MLKEM_INDCCA_SECRETKEYBYTES - 2 * MLKEM_SYMBYTES) (mlk_hash_h (take MLKEM_INDCCA_PUBLICKEYBYTES pk)) in
  let sk := blit sk (MLKEM_INDCCA_SECRETKEYBYTES - MLKEM_SYMBYTES) (sub coins MLKEM_SYMBYTES MLKEM_SYMBYTES) in
  let ret := mlk_check_pct pk sk in
  if negb (ret =? 0) then Some (ret, (blit pk 0 (zeros MLKEM_INDCCA_PUBLICKEYBYTES), blit sk 0 (zeros MLKEM_INDCCA_SECRETKEYBYTES)))
  else Some (ret, (pk, sk)).

(** Return value, and the buffers [ct] and [ss] afterwards. *)
Definition mlk_kem_enc_derand (fuel : nat) (ct ss pk coins : bytes) : option (Z * (bytes * bytes)) :=
  let ret := mlk_kem_check_pk pk in
  if negb (ret =? 0) then Some (ret, (ct, ss))
  else
    let buf := take MLKEM_SYMBYTES coins ++ mlk_hash_h (take MLKEM_INDCCA_PUBLICKEYBYTES pk) in
    let kr := mlk_hash_g buf in
    ct' ← mlk_indcpa_enc K fuel (take MLKEM_SYMBYTES buf) pk (drop MLKEM_SYMBYTES kr);
    Some (0, (blit ct 0 ct', blit ss 0 (take MLKEM_SYMBYTES kr))).

(** Return value, and the buffer [ss] afterwards. *)
Definition mlk_kem_dec (fuel : nat) (ss ct sk : bytes) : option (Z * bytes) :=
  let pk := sub sk (MLKEM_INDCPA_SECRETKEYBYTES K) MLKEM_INDCCA_PUBLICKEYBYTES in
  let ret := mlk_kem_check_sk sk in
  if negb (ret =? 0) then Some (ret, ss)
  else
    let buf := mlk_indcpa_dec K ct sk ++ sub sk (MLKEM_INDCCA_SECRETKEYBYTES - 2 * MLKEM_SYMBYTES) MLKEM_SYMBYTES in
    let kr := mlk_hash_g buf in
    tmp ← mlk_indcpa_enc K fuel (take MLKEM_SYMBYTES buf) pk (drop MLKEM_SYMBYTES kr);
    let fail := mlk_ct_memcmp ct tmp MLKEM_INDCCA_CIPHERTEXTBYTES in
    let tmp := sub sk (MLKEM_INDCCA_SECRETKEYBYTES - MLKEM_SYMBYTES) MLKEM_SYMBYTES ++ take MLKEM_INDCCA_CIPHERTEXTBYTES ct in
    let ss := blit ss 0 (mlk_hash_j tmp) in
    Some (0, mlk_ct_cmov_zero ss kr MLKEM_SYMBYTES fail).

End Kem.

(** ** Constant-time comparison and selection *)

Lemma lor_zero a b : Z.lor a b = 0 <-> a = 0 /\ b = 0.
Proof. apply Z.lor_eq_0_iff. Qed.

Lemma memcmp_fold a b l : are_bytes a -> are_bytes b -> forall r s, is_u8 r -> 
  let '(r', s') := fold_left (fun '(r, s) i => let x := Z.lxor (rd a i) (rd b i) in (Z.lor r x, Z.lxor s x)) l (r, s) in
  is_u8 r' /\ (r' = 0 <-> r = 0 /\ Forall (fun i => rd a i = rd b i) l).
Proof.
  intros Ha Hb. induction l as [|i l IH]; intros r s Hr; cbn [fold_left].
  - split; [exact Hr |]. split; [intros ->; split; [reflexivity | apply Forall_nil_2] | now intros [-> _]].
  - assert (Hx : is_u8 (Z.lxor (rd a i) (rd b i))) by (apply lxor_u8; now apply rd_is_u8).
    specialize (IH (Z.lor r (Z.lxor (rd a i) (rd b i))) (Z.lxor s (Z.lxor (rd a i) (rd b i))) (lor_u8 _ _ Hr Hx)). cbv zeta.
    destruct (fold_left _ l _) as [r' s']. destruct IH as [I1 I2]. split; [exact I1 |]. rewrite I2, lor_zero. split.
    + intros [[H1 H2] H3]. split; [exact H1 |]. apply Forall_cons_2; [now apply Z.lxor_eq | exact H3].
    + intros [H1 H2]. apply Forall_cons_1 in H2 as [H2 H3]. rewrite H2, Z.lxor_nilpotent. auto.
Qed.

Lemma take_rd_eq a b n : (n <= length a)%nat -> (n <= length b)%nat -> Forall (fun i => rd a i = rd b i) (seq 0 n) <-> take n a = take n b.
Proof.
  intros Ha Hb. split.
  - intros H. apply rd_ext; rewrite !length_take; [lia |]. intros i Hi. rewrite List.Forall_forall in H.
    rewrite !rd_take by lia. apply H, in_seq. lia.
  - intros H. apply List.Forall_forall. intros i Hi. apply in_seq in Hi.
    rewrite <- (rd_take a n i), <- (rd_take b n i) by lia. now rewrite H.
Qed.

Lemma ct_memcmp_spec a b n : are_bytes a -> are_bytes b -> (n <= length a)%nat -> (n <= length b)%nat ->
  is_u8 (mlk_ct_memcmp a b n) /\ (mlk_ct_memcmp a b n = 0 <-> take n a = take n b).
Proof.
  intros Ha Hb Hn Hm. unfold mlk_ct_memcmp. pose proof (memcmp_fold a b (seq 0 n) Ha Hb 0 0 ltac:(unfold is_u8; lia)) as H.
  destruct (fold_left _ (seq 0 n) (0, 0)) as [r s]. destruct H as [Hr H]. rewrite Z.lxor_assoc, Z.lxor_nilpotent, Z.lxor_0_r.
  rewrite cmask_nonzero_u8_spec by exact Hr. rewrite <- take_rd_eq by assumption.
  destruct (Z.eqb_spec r 0) as [E | E]; (split; [unfold is_u8; lia |]); [tauto |]. split; [discriminate |]. intros Hf. tauto.
Qed.

Lemma cmov_zero_fold x c : are_bytes x -> is_u8 c -> forall n r, are_bytes r -> (n <= length r)%nat ->
  mlk_ct_cmov_zero r x n c = if c =? 0 then map (fun i => if (i <? n)%nat then rd x i else rd r i) (seq 0 (length r)) else r.
Proof.
  intros Hx Hc. unfold mlk_ct_cmov_zero. induction n as [|n IH]; intros r Hr Hn.
  - cbn [seq fold_left]. destruct (c =? 0); [| reflexivity]. apply rd_ext; [now rewrite length_map, length_seq |]. intros i Hi.
    now rewrite rd_map_seq by exact Hi.
  - rewrite seq_S, fold_left_app. rewrite (IH r Hr) by lia. cbn [fold_left Nat.add].
    destruct (Z.eqb_spec c 0) as [-> | E].
    + rewrite rd_map_seq by lia. rewrite Nat.ltb_irrefl. rewrite ct_sel_uint8_spec by (auto using rd_is_u8). cbn [Z.eqb].
      apply rd_ext; [rewrite length_wr, !length_map, !length_seq; reflexivity |]. rewrite length_wr, length_map, length_seq. intros i Hi.
      rewrite rd_map_seq by exact Hi. destruct (Nat.eq_dec i n) as [-> | Hin].
      * rewrite rd_wr_eq by (rewrite length_map, length_seq; exact Hi). now destruct (Nat.ltb_spec n (S n)); [| lia].
      * rewrite rd_wr_ne by congruence. rewrite rd_map_seq by exact Hi. destruct (Nat.ltb_spec i n), (Nat.ltb_spec i (S n)); try reflexivity; lia.
    + rewrite ct_sel_uint8_spec by (auto using rd_is_u8). destruct (Z.eqb_spec c 0); [contradiction |]. apply list_insert_id, rd_in_range. lia.
Qed.

(** The destination becomes the source exactly when the condition is zero. *)
Lemma ct_cmov_zero_spec r x c n : are_bytes x -> are_bytes r -> is_u8 c -> length r = n -> (n <= length x)%nat ->
  mlk_ct_cmov_zero r x n c = if c =? 0 then take n x else r.
Proof.
  intros Hx Hr Hc Hl Hn. rewrite cmov_zero_fold by (auto; lia). destruct (c =? 0); [| reflexivity].
  apply rd_ext; [rewrite length_map, length_seq, length_take; lia |]. rewrite length_map, length_seq. intros i Hi.
  rewrite rd_map_seq, rd_take by lia. now destruct (Nat.ltb_spec i n); [| lia].
Qed.

(** ** The hash functions *)

(** ** Shapes of what the code writes, whatever it reads *)

#[local] Opaque mlk_hash_g mlk_hash_h mlk_hash_j mlk_gen_matrix mlk_polyvec_basemul_acc_montgomery_cached mlk_poly_reduce mlk_poly_add mlk_poly_sub
  mlk_poly_mulcache_compute mlk_poly_ntt mlk_poly_invntt_tomont mlk_ct_memcmp mlk_ct_cmov_zero.

Lemma write_groups_shape n m h pack w a : (forall t, length (pack t) = w /\ are_bytes (pack t)) ->
  length (write_groups n m h pack a) = (w * m)%nat /\ are_bytes (write_groups n m h pack a).
Proof.
  intros Hp. unfold write_groups. split; [apply length_groups; intros i; apply Hp |]. apply Forall_concat, Forall_map, List.Forall_forall. intros i _. apply Hp.
Qed.

Lemma tomsg_shape a : length (mlk_poly_tomsg a) = 32%nat /\ are_bytes (mlk_poly_tomsg a).
Proof. exact (write_groups_shape 8 32 mlk_scalar_compress_d1 pack_msg 1 a pack_msg_shape). Qed.

Lemma tobytes_shape a : length (mlk_poly_tobytes a) = 384%nat /\ are_bytes (mlk_poly_tobytes a).
Proof. apply (write_groups_shape 2 128 (fun x => x) pack_12 3 a). intros t. destruct (pack_shapes t) as (P4 & P5 & P10 & P11 & P12). exact P12. Qed.

Lemma rows_shape (f : mlk_poly -> bytes) w (vec : mlk_polyvec) : (forall a, length (f a) = w /\ are_bytes (f a)) ->
  length (concat (map f vec)) = (length vec * w)%nat /\ are_bytes (concat (map f vec)).
Proof.
  intros Hf. induction vec as [|a vec [IH1 IH2]]; [split; [reflexivity | apply Forall_nil_2] |]. cbn [map concat length]. destruct (Hf a) as [H1 H2].
  rewrite length_app, IH1, H1. split; [lia | apply Forall_app; now split].
Qed.

Section KemShapes.
Context (K : nat) (HK : K = 2%nat \/ K = 3%nat \/ K = 4%nat).

Lemma compress_du_shape a : length (mlk_poly_compress_du K a) = MLKEM_POLYCOMPRESSEDBYTES_DU K /\ are_bytes (mlk_poly_compress_du K a).
Proof.
  unfold mlk_poly_compress_du, MLKEM_DU, MLKEM_POLYCOMPRESSEDBYTES_DU. destruct (K =? 4)%nat; cbn [Nat.eqb].
  - apply (write_groups_shape 8 32 mlk_scalar_compress_d11 pack_d11 11 a). intros t. destruct (pack_shapes t) as (P4 & P5 & P10 & P11 & P12). exact P11.
  - apply (write_groups_shape 4 64 mlk_scalar_compress_d10 pack_d10 5 a). intros t. destruct (pack_shapes t) as (P4 & P5 & P10 & P11 & P12). exact P10.
Qed.

Lemma compress_dv_shape a : length (mlk_poly_compress_dv K a) = MLKEM_POLYCOMPRESSEDBYTES_DV K /\ are_bytes (mlk_poly_compress_dv K a).
Proof.
  unfold mlk_poly_compress_dv, MLKEM_DV, MLKEM_POLYCOMPRESSEDBYTES_DV. destruct (K =? 4)%nat; cbn [Nat.eqb].
  - apply (write_groups_shape 8 32 mlk_scalar_compress_d5 pack_d5 5 a). intros t. destruct (pack_shapes t) as (P4 & P5 & P10 & P11 & P12). exact P5.
  - apply (write_groups_shape 8 32 mlk_scalar_compress_d4 pack_d4 4 a). intros t. destruct (pack_shapes t) as (P4 & P5 & P10 & P11 & P12). exact P4.
Qed.

Lemma gen_matrix_rows fuel seed tr a : mlk_gen_matrix K fuel seed tr = Some a -> length a = K.
Proof.
  #[local] Transparent mlk_gen_matrix. unfold mlk_gen_matrix. intros H. apply bind_Some in H as (b & _ & H). apply bind_Some in H as (r & _ & [= <-]).
  now rewrite length_map, length_seq.
Qed.
#[local] Opaque mlk_gen_matrix.

Lemma enc_noise_length coins : length (snd (fst (mlk_enc_getnoise_eta1_eta2 K coins))) = K.
Proof. unfold mlk_enc_getnoise_eta1_eta2. destruct HK as [-> | [-> | ->]]; reflexivity. Qed.

(** A ciphertext has its length, for every public key. *)
Lemma enc_ct_shape fuel m pk coins ct : mlk_indcpa_enc K fuel m pk coins = Some ct ->
  length ct = MLKEM_INDCPA_BYTES K /\ are_bytes ct.
Proof.
  unfold mlk_indcpa_enc, mlk_indcpa_enc_bv, mlk_unpack_pk. intros H. apply bind_Some in H as ([b v] & H & [= <-]).
  apply bind_Some in H as (a & Ha & H). pose proof (enc_noise_length coins) as Le. pose proof (gen_matrix_rows _ _ _ _ Ha) as La.
  destruct (mlk_enc_getnoise_eta1_eta2 K coins) as [[r e1] e2]. cbn [fst snd] in Le. apply (inj Some) in H.
  assert (Eb : fst (b, v) = b) by reflexivity. rewrite <- H in Eb. cbv beta iota delta [fst] in Eb.
  assert (Lb : length b = K).
  { rewrite <- Eb. unfold mlk_polyvec_reduce, mlk_polyvec_add, mlk_polyvec_invntt_tomont, mlk_matvec_mul.
    rewrite length_map, length_zip_with, !length_map. plen. }
  unfold mlk_pack_ciphertext, mlk_polyvec_compress_du. destruct (rows_shape (mlk_poly_compress_du K) _ b compress_du_shape) as [L1 B1].
  destruct (compress_dv_shape v) as [L2 B2]. split; [| apply Forall_app; now split].
  rewrite length_app, L1, L2, Lb. reflexivity.
Qed.

Lemma keypair_shape fuel coins pk sk : are_bytes coins -> mlk_indcpa_keypair_derand K fuel coins = Some (pk, sk) ->
  length pk = MLKEM_INDCPA_PUBLICKEYBYTES K /\ length sk = MLKEM_INDCPA_SECRETKEYBYTES K /\ are_bytes pk /\ are_bytes sk.
Proof.
  intros Hc H. destruct (mlk_keypair_getnoise_eta1 K (noiseseed K coins)) as [s e] eqn:Hn.
  destruct (keypair_spec K HK fuel coins pk sk s e Hc Hn H) as (a & t & _ & -> & -> & Lt & _ & _).
  destruct (seeds_shape K HK coins Hc) as (Hp & Lp & Hns). pose proof (keypair_noise_shape K HK _ Hns) as Hsh. rewrite Hn in Hsh. destruct Hsh as (Ls & _).
  destruct (rows_shape mlk_poly_tobytes 384 t tobytes_shape) as [L1 B1].
  destruct (rows_shape mlk_poly_tobytes 384 (map (fun f => canon (mlk_poly_ntt f)) s) tobytes_shape) as [L2 B2].
  unfold mlk_polyvec_tobytes. rewrite length_app, L1, L2, Lp, length_map.
  split; [unfold MLKEM_INDCPA_PUBLICKEYBYTES, MLKEM_POLYVECBYTES, MLKEM_POLYBYTES, MLKEM_SYMBYTES; plen |].
  split; [unfold MLKEM_INDCPA_SECRETKEYBYTES, MLKEM_POLYVECBYTES, MLKEM_POLYBYTES; plen |]. split; [apply Forall_app; now split | exact B2].
Qed.

(** Only the first part of the secret key is read. *)
Lemma sub_app_l (a b : bytes) o n : (o + n <= length a)%nat -> sub (a ++ b) o n = sub a o n.
Proof. intros H. unfold sub. rewrite drop_app_le by lia. apply take_app_le. rewrite length_drop. lia. Qed.

Lemma frombytes_tail b tail : length b = MLKEM_POLYVECBYTES K -> mlk_polyvec_frombytes K (b ++ tail) = mlk_polyvec_frombytes K b.
Proof.
  intros Hl. unfold mlk_polyvec_frombytes. apply map_ext_in. intros i Hi. apply in_seq in Hi. f_equal. apply sub_app_l.
  rewrite Hl. unfold MLKEM_POLYVECBYTES. nia.
Qed.

Lemma dec_tail ct sk tail : length sk = MLKEM_INDCPA_SECRETKEYBYTES K -> mlk_indcpa_dec K ct (sk ++ tail) = mlk_indcpa_dec K ct sk.
Proof. intros Hl. unfold mlk_indcpa_dec, mlk_unpack_sk. now rewrite frombytes_tail. Qed.

End KemShapes.

(** ** FIPS 203, 6 and 7: the mechanism in terms of K-PKE and the hash functions *)

Module ML_KEM.
Section Spec.
Context (K : nat) (fuel : nat).

Definition G : bytes -> bytes * bytes := K_PKE.G.
Definition H (x : bytes) : bytes := SHA3_256 x.
Definition J (x : bytes) : bytes := SHAKE256 x 32.

Definition KeyGen_internal (d z : bytes) : option (bytes * bytes) :=
  '(ek, dk) ← K_PKE.KeyGen K fuel d;
  Some (ek, dk ++ ek ++ H ek ++ z).

Definition Encaps_internal (ek m : bytes) : option (bytes * bytes) :=
  let '(k, r) := G (m ++ H ek) in
  c ← K_PKE.Encrypt K fuel ek m r;
  Some (k, c).

Definition dk_PKE (dk : bytes) : bytes := take (384 * K) dk.
Definition ek_PKE (dk : bytes) : bytes := sub dk (384 * K) (384 * K + 32).
Definition dk_h (dk : bytes) : bytes := sub dk (768 * K + 32) 32.
Definition dk_z (dk : bytes) : bytes := sub dk (768 * K + 64) 32.

(** With implicit rejection. *)
Definition Decaps_internal (dk c : bytes) : option bytes :=
  let m' := K_PKE.Decrypt K (dk_PKE dk) c in
  let '(k', r') := G (m' ++ dk_h dk) in
  c' ← K_PKE.Encrypt K fuel (ek_PKE dk) m' r';
  Some (if bool_decide (c = c') then k' else J (dk_z dk ++ c)).

(** 7.2, modulus check: every 12-bit value is below q.  7.3, hash check. *)
Definition modulus_check (ek : bytes) : bool :=
  forallb (fun i => forallb (fun c => c <? q) (ByteDecode 12 (sub ek (384 * i) 384))) (seq 0 K).
Definition hash_check (dk : bytes) : bool := bool_decide (H (ek_PKE dk) = dk_h dk).

End Spec.
End ML_KEM.

(** ** The modulus check *)

Section Checks.
Context (K : nat) (HK : K = 2%nat \/ K = 3%nat \/ K = 4%nat).

Lemma below12_range F : Forall (below 12) F -> Forall (fun c => 0 <= c < 4096) F.
Proof. intros H. exact H. Qed.

(** Re-encoding a reduced 384-byte block. *)
Lemma reencode_block b : are_bytes b -> length b = 384%nat ->
  mlk_poly_tobytes (mlk_poly_reduce (mlk_poly_frombytes b)) = b <-> forallb (fun c => c <? q) (ByteDecode 12 b) = true.
Proof.
  intros Hb Hl. rewrite frombytes_decode by assumption. set (p := ByteDecode 12 b).
  assert (Hp : Forall (below 12) p) by apply ByteDecode_below.
  assert (Lp : length p = 256%nat) by (apply length_ByteDecode; [lia | rewrite Hl; reflexivity]).
  assert (Er : mlk_poly_reduce p = canon p).
  { apply poly_reduce_canon. split; [exact Lp |]. eapply Forall_impl; [| exact Hp]. unfold below. change (2 ^ Z.of_nat 12) with 4096. cbv beta. lia. }
  rewrite Er. rewrite forallb_forall. split.
  - intros E c Hc. pose proof (canon_canonical p Lp) as Cp. destruct (encode_decode (canon p) Cp) as [Ed _].
    rewrite E, frombytes_decode in Ed by assumption. fold p in Ed. destruct Cp as [_ Cp]. rewrite <- Ed, List.Forall_forall in Cp.
    apply Z.ltb_lt, Cp, Hc.
  - intros H. rewrite canon_id.
    + unfold p. rewrite <- (frombytes_decode b) by assumption. exact (proj2 (proj2 (proj2 (proj2 (proj2 (decode_encode b Hb))))) Hl).
    + apply List.Forall_forall. intros c Hc. rewrite List.Forall_forall in Hp. pose proof (Hp c Hc) as H0. specialize (H c Hc). apply Z.ltb_lt in H.
      unfold below in H0. lia.
Qed.

Lemma blocks_eq (w : nat) : forall (f : nat -> bytes) n (b : bytes), (forall i, length (f i) = w) -> length b = (n * w)%nat -> 
  concat (map f (seq 0 n)) = b <-> forall i, (i < n)%nat -> f i = sub b (i * w) w.
Proof.
  intros f n. revert f. induction n as [|n IH]; intros f b Hf Hl.
  - destruct b; [| discriminate]. split; [lia | reflexivity].
  - cbn [seq map concat]. rewrite <- seq_shift, map_map. rewrite <- (take_drop w b) at 1.
    assert (Ht : length (take w b) = w) by (rewrite length_take; lia).
    assert (Hsub : forall i, sub b (S i * w) w = sub (drop w b) (i * w) w) by (intros i; unfold sub; rewrite drop_drop; reflexivity).
    split.
    + intros E. apply app_inj_1 in E as [E1 E2]; [| rewrite Hf, Ht; reflexivity].
      rewrite (IH (fun i => f (S i)) (drop w b)) in E2 by (auto; rewrite length_drop; lia).
      intros [|i] Hi; [rewrite E1; reflexivity |]. rewrite Hsub. apply E2. lia.
    + intros H. f_equal; [rewrite (H 0%nat) by lia; reflexivity |]. apply IH; [auto | rewrite length_drop; lia |]. intros i Hi.
      rewrite <- Hsub. apply H. lia.
Qed.

Lemma check_pk_spec pk : are_bytes pk -> length pk = MLKEM_INDCCA_PUBLICKEYBYTES K ->
  mlk_kem_check_pk K pk = if ML_KEM.modulus_check K pk then 0 else MLK_ERR_FAIL.
Proof.
  intros Hb Hl. unfold mlk_kem_check_pk.
  set (f i := mlk_poly_tobytes (mlk_poly_reduce (mlk_poly_frombytes (sub pk (i * 384) 384)))).
  assert (E : mlk_polyvec_tobytes (mlk_polyvec_reduce (mlk_polyvec_frombytes K pk)) = concat (map f (seq 0 K))).
  { unfold mlk_polyvec_tobytes, mlk_polyvec_reduce, mlk_polyvec_frombytes. now rewrite !map_map. }
  rewrite E.
  assert (Lf : forall i, length (f i) = 384%nat) by (intros; apply tobytes_shape).
  assert (Lc : length (concat (map f (seq 0 K))) = MLKEM_POLYVECBYTES K).
  { rewrite (length_groups f 384) by exact Lf. unfold MLKEM_POLYVECBYTES, MLKEM_POLYBYTES. lia. }
  assert (Bc : are_bytes (concat (map f (seq 0 K)))).
  { apply Forall_concat, Forall_map, List.Forall_forall. intros i _. apply tobytes_shape. }
  assert (Hpl : (MLKEM_POLYVECBYTES K <= length pk)%nat) by (rewrite Hl; unfold MLKEM_INDCCA_PUBLICKEYBYTES, MLKEM_INDCPA_PUBLICKEYBYTES; lia).
  destruct (ct_memcmp_spec pk _ (MLKEM_POLYVECBYTES K) Hb Bc Hpl ltac:(lia)) as [_ Hm]. rewrite (take_ge (concat _)) in Hm by lia.
  assert (Hiff : mlk_ct_memcmp pk (concat (map f (seq 0 K))) (MLKEM_POLYVECBYTES K) = 0 <-> ML_KEM.modulus_check K pk = true).
  { rewrite Hm. unfold ML_KEM.modulus_check. rewrite forallb_forall.
    assert (Hlt : length (take (MLKEM_POLYVECBYTES K) pk) = (K * 384)%nat) by (rewrite length_take; unfold MLKEM_POLYVECBYTES, MLKEM_POLYBYTES in *; lia).
    assert (Hs : forall i, (i < K)%nat -> sub (take (MLKEM_POLYVECBYTES K) pk) (i * 384) 384 = sub pk (i * 384) 384).
    { intros i Hi. unfold sub. rewrite skipn_firstn_comm, take_take. f_equal. unfold MLKEM_POLYVECBYTES, MLKEM_POLYBYTES. nia. }
    assert (Hblk : forall i, (i < K)%nat -> are_bytes (sub pk (i * 384) 384) /\ length (sub pk (i * 384) 384) = 384%nat).
    { intros i Hi. split; [now apply Forall_take, Forall_drop |]. apply length_sub. unfold MLKEM_POLYVECBYTES, MLKEM_POLYBYTES in *. nia. }
    split.
    - intros Heq i Hi. apply in_seq in Hi. symmetry in Heq. rewrite (blocks_eq 384 f K _ Lf Hlt) in Heq.
      rewrite Nat.mul_comm. apply reencode_block; [apply Hblk; lia | apply Hblk; lia |]. rewrite <- Hs by lia. rewrite <- (Heq i) at 2 by lia.
      unfold f. now rewrite Hs by lia.
    - intros Hc. symmetry. apply (blocks_eq 384 f K _ Lf Hlt). intros i Hi. rewrite Hs by exact Hi. apply reencode_block; [now apply Hblk.. |].
      rewrite Nat.mul_comm. apply Hc, in_seq. lia. }
  destruct (Z.eqb_spec (mlk_ct_memcmp pk (concat (map f (seq 0 K))) (MLKEM_POLYVECBYTES K)) 0) as [E0 | E0].
  - apply Hiff in E0. now rewrite E0.
  - destruct (ML_KEM.modulus_check K pk) eqn:Em; [| reflexivity]. exfalso. now apply E0, Hiff.
Qed.

End Checks.

(** ** The operations against the standard *)

Lemma blit_head d s : (length s <= length d)%nat -> blit d 0 s = s ++ drop (length s) d.
Proof. reflexivity. Qed.

Lemma blit_all d s : length s = length d -> blit d 0 s = s.
Proof. intros H. rewrite blit_head by lia. now rewrite drop_ge, app_nil_r by lia. Qed.

Section Refine.
Context (K : nat) (HK : K = 2%nat \/ K = 3%nat \/ K = 4%nat) (fuel : nat).

#[local] Opaque mlk_indcpa_keypair_derand mlk_indcpa_enc mlk_indcpa_dec.

Lemma sizes : MLKEM_INDCPA_SECRETKEYBYTES K = (384 * K)%nat /\ MLKEM_INDCPA_PUBLICKEYBYTES K = (384 * K + 32)%nat /\
  MLKEM_INDCCA_PUBLICKEYBYTES K = (384 * K + 32)%nat /\ MLKEM_INDCCA_SECRETKEYBYTES K = (768 * K + 96)%nat /\ MLKEM_SYMBYTES = 32%nat.
Proof.
  unfold MLKEM_INDCCA_PUBLICKEYBYTES, MLKEM_INDCCA_SECRETKEYBYTES, MLKEM_INDCPA_SECRETKEYBYTES, MLKEM_INDCPA_PUBLICKEYBYTES, MLKEM_POLYVECBYTES,
    MLKEM_POLYBYTES, MLKEM_SYMBYTES. lia.
Qed.

Lemma dec_msg_shape ct sk : length (mlk_indcpa_dec K ct sk) = 32%nat /\ are_bytes (mlk_indcpa_dec K ct sk).
Proof.
  #[local] Transparent mlk_indcpa_dec. unfold mlk_indcpa_dec. destruct (mlk_unpack_ciphertext K ct) as [b v]. apply tomsg_shape.
Qed.
#[local] Opaque mlk_indcpa_dec.

(** The standard's functions, with K-PKE computed by the code. *)
Lemma KeyGen_code coins z : are_bytes coins -> ML_KEM.KeyGen_internal K fuel (take 32 coins) z =
  ('(ek, dk) ← mlk_indcpa_keypair_derand K fuel coins; Some (ek, dk ++ ek ++ ML_KEM.H ek ++ z)).
Proof. intros Hc. unfold ML_KEM.KeyGen_internal. now rewrite (KeyGen_refines K HK fuel coins Hc). Qed.

Lemma G_bytes x : are_bytes (snd (ML_KEM.G x)).
Proof. unfold ML_KEM.G, K_PKE.G, SHA3_512. cbn [snd]. apply Forall_drop, keccak_sponge_bytes. Qed.

Lemma Encaps_code ek m : are_bytes ek -> length ek = (384 * K + 32)%nat -> are_bytes m -> length m = 32%nat ->
  ML_KEM.Encaps_internal K fuel ek m =
  (let '(k, r) := ML_KEM.G (m ++ ML_KEM.H ek) in c ← mlk_indcpa_enc K fuel m ek r; Some (k, c)).
Proof.
  intros He Le Hm Lm. unfold ML_KEM.Encaps_internal. pose proof (G_bytes (m ++ ML_KEM.H ek)) as Hr. destruct (ML_KEM.G (m ++ ML_KEM.H ek)) as [k r].
  now rewrite (Encrypt_refines K HK fuel m ek r).
Qed.

Lemma ciphertext_size : MLKEM_INDCCA_CIPHERTEXTBYTES K = (32 * (K_PKE.du K * K + K_PKE.dv K))%nat.
Proof. destruct HK as [-> | [-> | ->]]; reflexivity. Qed.

Lemma Decaps_code dk c : are_bytes dk -> length dk = MLKEM_INDCCA_SECRETKEYBYTES K -> are_bytes c -> length c = MLKEM_INDCCA_CIPHERTEXTBYTES K ->
  ML_KEM.Decaps_internal K fuel dk c =
  (let m' := mlk_indcpa_dec K c (ML_KEM.dk_PKE K dk) in
   let '(k', r') := ML_KEM.G (m' ++ ML_KEM.dk_h K dk) in
   c' ← mlk_indcpa_enc K fuel m' (ML_KEM.ek_PKE K dk) r';
   Some (if bool_decide (c = c') then k' else ML_KEM.J (ML_KEM.dk_z K dk ++ c))).
Proof.
  intros Hd Ld Hc Lc. destruct sizes as (S1 & S2 & S3 & S4 & S5). unfold ML_KEM.Decaps_internal.
  assert (Hp : are_bytes (ML_KEM.dk_PKE K dk)) by now apply Forall_take. assert (He : are_bytes (ML_KEM.ek_PKE K dk)) by now apply are_bytes_sub.
  assert (Lp : length (ML_KEM.dk_PKE K dk) = (384 * K)%nat) by (unfold ML_KEM.dk_PKE; rewrite length_take; lia).
  assert (Le : length (ML_KEM.ek_PKE K dk) = (384 * K + 32)%nat) by (unfold ML_KEM.ek_PKE; rewrite length_sub; lia).
  rewrite <- (Decrypt_refines K HK c (ML_KEM.dk_PKE K dk) Hc (eq_trans Lc ciphertext_size) Hp ltac:(lia)).
  destruct (dec_msg_shape c (ML_KEM.dk_PKE K dk)) as [Lm Hm]. set (m := mlk_indcpa_dec K c (ML_KEM.dk_PKE K dk)) in *. clearbody m. cbv zeta.
  pose proof (G_bytes (m ++ ML_KEM.dk_h K dk)) as Hr. destruct (ML_KEM.G (m ++ ML_KEM.dk_h K dk)) as [k r].
  now rewrite (Encrypt_refines K HK fuel m (ML_KEM.ek_PKE K dk) r).
Qed.

Lemma keygen_refines pk0 sk0 coins : are_bytes coins -> length coins = 64%nat ->
  length pk0 = MLKEM_INDCCA_PUBLICKEYBYTES K -> length sk0 = MLKEM_INDCCA_SECRETKEYBYTES K ->
  mlk_kem_keypair_derand K fuel pk0 sk0 coins =
    (r ← ML_KEM.KeyGen_internal K fuel (take 32 coins) (drop 32 coins); Some (0, r)).
Proof.
  intros Hc Lc Lp Ls. destruct sizes as (S1 & S2 & S3 & S4 & S5). rewrite KeyGen_code by exact Hc. unfold mlk_kem_keypair_derand.
  destruct (mlk_indcpa_keypair_derand K fuel coins) as [[pk sk]|] eqn:E; [| reflexivity]. cbv beta iota delta [mbind option_bind mlk_check_pct]. cbv zeta.
  destruct (keypair_shape K HK fuel coins pk sk Hc E) as (L1 & L2 & B1 & B2). rewrite (blit_all pk0 pk) by lia. rewrite take_ge by lia.
  rewrite hash_H by exact B1. cbn [Z.eqb negb]. do 3 f_equal.
  destruct (hash_h_shape pk B1) as [Lh _]. rewrite hash_H in Lh by exact B1. unfold ML_KEM.H.
  rewrite (blit_head sk0 sk) by lia. rewrite (blit_app sk _ pk) by lia.
  rewrite (app_assoc sk pk), (blit_app (sk ++ pk)) by (rewrite length_app; lia).
  rewrite (app_assoc (sk ++ pk)), (blit_app ((sk ++ pk) ++ SHA3_256 pk)) by (rewrite !length_app; lia).
  rewrite S5. replace (sub coins 32 32) with (drop 32 coins) by (unfold sub; rewrite take_ge; [reflexivity | rewrite length_drop; lia]).
  rewrite (drop_ge (drop (length (SHA3_256 pk)) _)) by (rewrite !length_drop; lia). now rewrite app_nil_r, <- !app_assoc.
Qed.

Lemma enc_refines ct0 ss0 pk coins : are_bytes coins -> length coins = 32%nat -> are_bytes pk -> length pk = MLKEM_INDCCA_PUBLICKEYBYTES K ->
  length ct0 = MLKEM_INDCCA_CIPHERTEXTBYTES K -> length ss0 = 32%nat ->
  mlk_kem_enc_derand K fuel ct0 ss0 pk coins =
    if ML_KEM.modulus_check K pk then '(k, c) ← ML_KEM.Encaps_internal K fuel pk coins; Some (0, (c, k)) else Some (MLK_ERR_FAIL, (ct0, ss0)).
Proof.
  intros Hc Lc Hp Lp Lct Lss. destruct sizes as (S1 & S2 & S3 & S4 & S5). unfold mlk_kem_enc_derand. rewrite check_pk_spec by assumption.
  destruct (ML_KEM.modulus_check K pk); [| reflexivity]. cbn [negb Z.eqb]. cbv zeta.
  rewrite S5, (take_ge coins), (take_ge pk) by lia. rewrite take_app_length' by (symmetry; exact Lc). rewrite (hash_H pk Hp).
  destruct (hash_h_shape pk Hp) as [Lh Bh]. rewrite (hash_H pk Hp) in Lh, Bh.
  assert (Hb : are_bytes (coins ++ SHA3_256 pk)) by (apply Forall_app; now split).
  destruct (hash_g_shape _ Hb) as [Lg _]. rewrite (hash_G _ Hb) in *. rewrite Encaps_code by (assumption || lia). unfold ML_KEM.G, K_PKE.G, ML_KEM.H.
  destruct (mlk_indcpa_enc K fuel coins pk (drop 32 (SHA3_512 (coins ++ SHA3_256 pk)))) as [ct|] eqn:E; [| reflexivity].
  cbv beta iota delta [mbind option_bind]. destruct (enc_ct_shape K HK _ _ _ _ _ E) as [Lct' _].
  rewrite (blit_all ct0) by (rewrite Lct', Lct; reflexivity). rewrite (blit_all ss0); [reflexivity |]. rewrite length_take, Lg, Lss. reflexivity.
Qed.

Lemma dk_parts dk : length dk = MLKEM_INDCCA_SECRETKEYBYTES K ->
  dk = ML_KEM.dk_PKE K dk ++ drop (384 * K) dk /\ length (ML_KEM.dk_PKE K dk) = (384 * K)%nat.
Proof.
  intros Hl. destruct sizes as (S1 & S2 & S3 & S4 & S5). split; [symmetry; apply take_drop |]. unfold ML_KEM.dk_PKE. rewrite length_take. lia.
Qed.

Lemma dec_prefix ct dk : length dk = MLKEM_INDCCA_SECRETKEYBYTES K -> mlk_indcpa_dec K ct dk = mlk_indcpa_dec K ct (ML_KEM.dk_PKE K dk).
Proof.
  intros Hl. destruct (dk_parts dk Hl) as [E L]. rewrite E at 1. apply dec_tail; [exact HK |]. destruct sizes as (-> & _). exact L.
Qed.

Lemma check_sk_spec dk : are_bytes dk -> length dk = MLKEM_INDCCA_SECRETKEYBYTES K ->
  mlk_kem_check_sk K dk = if ML_KEM.hash_check K dk then 0 else MLK_ERR_FAIL.
Proof.
  intros Hb Hl. destruct sizes as (S1 & S2 & S3 & S4 & S5). unfold mlk_kem_check_sk, ML_KEM.hash_check. rewrite S1, S3, S4, S5.
  fold (ML_KEM.ek_PKE K dk). assert (Be : are_bytes (ML_KEM.ek_PKE K dk)) by now apply Forall_take, Forall_drop.
  rewrite (hash_H _ Be). destruct (hash_h_shape _ Be) as [Lh Bh]. rewrite (hash_H _ Be) in Lh, Bh.
  set (tail := drop (768 * K + 96 - 2 * 32) dk). assert (Bt : are_bytes tail) by now apply Forall_drop.
  assert (Lt : length tail = 64%nat) by (unfold tail; rewrite length_drop; lia).
  destruct (ct_memcmp_spec tail (SHA3_256 (ML_KEM.ek_PKE K dk)) 32 Bt Bh ltac:(lia) ltac:(lia)) as [_ Hm].
  rewrite (take_ge (SHA3_256 _)) in Hm by lia.
  assert (Et : take 32 tail = ML_KEM.dk_h K dk) by (unfold tail, ML_KEM.dk_h, sub; do 2 f_equal; lia). rewrite Et in Hm. unfold ML_KEM.H.
  destruct (Z.eqb_spec (mlk_ct_memcmp tail (SHA3_256 (ML_KEM.ek_PKE K dk)) 32) 0) as [E0 | E0]; case_bool_decide as D; try reflexivity; exfalso.
  - apply D. symmetry. now apply Hm.
  - apply E0, Hm. now symmetry.
Qed.

Lemma dec_refines ss0 ct dk : are_bytes ct -> length ct = MLKEM_INDCCA_CIPHERTEXTBYTES K -> are_bytes dk ->
  length dk = MLKEM_INDCCA_SECRETKEYBYTES K -> length ss0 = 32%nat ->
  mlk_kem_dec K fuel ss0 ct dk =
    if ML_KEM.hash_check K dk then k ← ML_KEM.Decaps_internal K fuel dk ct; Some (0, k) else Some (MLK_ERR_FAIL, ss0).
Proof.
  intros Hc Lc Hd Ld Ls. destruct sizes as (S1 & S2 & S3 & S4 & S5). unfold mlk_kem_dec. rewrite check_sk_spec by assumption.
  destruct (ML_KEM.hash_check K dk); [| reflexivity]. cbn [negb Z.eqb]. cbv zeta. rewrite S1, S3, S4, S5. fold (ML_KEM.ek_PKE K dk).
  rewrite dec_prefix by exact Ld. set (m := mlk_indcpa_dec K ct (ML_KEM.dk_PKE K dk)).
  destruct (dec_msg_shape ct (ML_KEM.dk_PKE K dk)) as [Lm Bm]. fold m in Lm, Bm.
  replace (sub dk (768 * K + 96 - 2 * 32) 32) with (ML_KEM.dk_h K dk) by (unfold ML_KEM.dk_h; f_equal; lia).
  replace (sub dk (768 * K + 96 - 32) 32) with (ML_KEM.dk_z K dk) by (unfold ML_KEM.dk_z; f_equal; lia).
  assert (Bh : are_bytes (ML_KEM.dk_h K dk)) by now apply Forall_take, Forall_drop.
  assert (Bz : are_bytes (ML_KEM.dk_z K dk)) by now apply Forall_take, Forall_drop.
  assert (Bb : are_bytes (m ++ ML_KEM.dk_h K dk)) by (apply Forall_app; now split).
  rewrite take_app_length' by (symmetry; exact Lm). destruct (hash_g_shape _ Bb) as [Lg Bg]. rewrite (hash_G _ Bb) in *.
  rewrite Decaps_code by assumption. cbv zeta. fold m. unfold ML_KEM.G, K_PKE.G. set (g := SHA3_512 (m ++ ML_KEM.dk_h K dk)) in *.
  destruct (mlk_indcpa_enc K fuel m (ML_KEM.ek_PKE K dk) (drop 32 g)) as [c'|] eqn:E; [| reflexivity]. cbv beta iota delta [mbind option_bind].
  destruct (enc_ct_shape K HK _ _ _ _ _ E) as [Lc' Bc']. unfold MLKEM_INDCCA_CIPHERTEXTBYTES in *. rewrite (take_ge ct) by lia.
  assert (Bj : are_bytes (ML_KEM.dk_z K dk ++ ct)) by (apply Forall_app; now split). rewrite hash_J by exact Bj.
  assert (Lj : length (SHAKE256 (ML_KEM.dk_z K dk ++ ct) 32) = 32%nat) by (apply length_keccak_sponge; lia).
  assert (BJ : are_bytes (SHAKE256 (ML_KEM.dk_z K dk ++ ct) 32)) by apply keccak_sponge_bytes.
  rewrite (blit_all ss0) by lia. destruct (ct_memcmp_spec ct c' (MLKEM_INDCPA_BYTES K) Hc Bc' ltac:(lia) ltac:(lia)) as [Hu Hm].
  rewrite (take_ge ct), (take_ge c') in Hm by lia. rewrite ct_cmov_zero_spec by (auto; lia). unfold ML_KEM.J.
  destruct (Z.eqb_spec (mlk_ct_memcmp ct c' (MLKEM_INDCPA_BYTES K)) 0) as [E0 | E0]; case_bool_decide as D; try reflexivity; exfalso; tauto.
Qed.

End Refine.

(** ** Encapsulation and decapsulation agree *)

Section Agree.
Context (K : nat) (HK : K = 2%nat \/ K = 3%nat \/ K = 4%nat) (fuel : nat).

#[local] Opaque mlk_indcpa_keypair_derand mlk_indcpa_enc mlk_indcpa_dec.

(** The decryption noise of an encapsulation with randomness [m] to the key pair from [coins]. *)
Definition kem_noise (coins m : bytes) : option (list Z) :=
  '(pk, _) ← mlk_indcpa_keypair_derand K fuel coins;
  pke_noise K fuel coins m (drop 32 (mlk_hash_g (m ++ mlk_hash_h pk))).

Lemma generated_pk_valid coins pk sk : are_bytes coins -> mlk_indcpa_keypair_derand K fuel coins = Some (pk, sk) -> ML_KEM.modulus_check K pk = true.
Proof.
  intros Hc H. destruct (keypair_shape K HK fuel coins pk sk Hc H) as (L1 & _ & B1 & _).
  assert (E : mlk_kem_check_pk K pk = 0).
  { destruct (mlk_keypair_getnoise_eta1 K (noiseseed K coins)) as [s e] eqn:Hn.
    destruct (keypair_spec K HK fuel coins pk sk s e Hc Hn H) as (a & t & _ & Ep & _ & Lt & Ct & _).
    unfold mlk_kem_check_pk.
    replace (mlk_polyvec_frombytes K pk) with t by (rewrite Ep; symmetry; now apply (polyvec_frombytes_tobytes K)).
    assert (Er : mlk_polyvec_reduce t = t).
    { unfold mlk_polyvec_reduce. rewrite <- (map_id t) at 2. apply map_ext_in. intros f Hf. rewrite List.Forall_forall in Ct. pose proof (Ct f Hf) as Cf.
      rewrite poly_reduce_canon; [now apply canon_id, Cf |]. apply (polyb_int16s MLKEM_Q); [discriminate | now apply canonical_polyb]. }
    rewrite Er. assert (Ltb := length_polyvec_tobytes K HK t Lt Ct). destruct (rows_shape mlk_poly_tobytes 384 t tobytes_shape) as [_ Bt].
    destruct (ct_memcmp_spec pk (mlk_polyvec_tobytes t) (MLKEM_POLYVECBYTES K) B1 Bt) as [_ Hm];
      [rewrite L1; unfold MLKEM_INDCPA_PUBLICKEYBYTES; lia | lia |].
    replace (mlk_ct_memcmp pk (mlk_polyvec_tobytes t) (MLKEM_POLYVECBYTES K)) with 0; [reflexivity |]. symmetry. apply Hm.
    rewrite Ep, take_app_length', (take_ge (mlk_polyvec_tobytes t)) by lia. reflexivity. }
  rewrite check_pk_spec in E by assumption. now destruct (ML_KEM.modulus_check K pk).
Qed.

Lemma dk_layout dk pk h z : length dk = (384 * K)%nat -> length pk = (384 * K + 32)%nat -> length h = 32%nat -> length z = 32%nat ->
  let sk := dk ++ pk ++ h ++ z in
  ML_KEM.dk_PKE K sk = dk /\ ML_KEM.ek_PKE K sk = pk /\ ML_KEM.dk_h K sk = h /\ ML_KEM.dk_z K sk = z.
Proof.
  intros L1 L2 L3 L4 sk. unfold sk, ML_KEM.dk_PKE, ML_KEM.ek_PKE, ML_KEM.dk_h, ML_KEM.dk_z.
  split; [now apply take_app_length' |]. split; [apply sub_app_mid; lia |]. split.
  - rewrite (app_assoc dk). apply sub_app_mid; rewrite ?length_app; lia.
  - rewrite <- (app_nil_r z) at 1. rewrite (app_assoc dk), (app_assoc (dk ++ pk)). apply sub_app_mid; rewrite ?length_app; lia.
Qed.

Lemma kem_agree coins m pk sk : are_bytes coins -> length coins = 64%nat -> are_bytes m -> length m = 32%nat ->
  ML_KEM.KeyGen_internal K fuel (take 32 coins) (drop 32 coins) = Some (pk, sk) ->
  ML_KEM.modulus_check K pk = true /\ ML_KEM.hash_check K sk = true /\ are_bytes pk /\ are_bytes sk /\
  length pk = MLKEM_INDCCA_PUBLICKEYBYTES K /\ length sk = MLKEM_INDCCA_SECRETKEYBYTES K /\
  exists c k k' noise, ML_KEM.Encaps_internal K fuel pk m = Some (k, c) /\ kem_noise coins m = Some noise /\
    ML_KEM.Decaps_internal K fuel sk c = Some k' /\ (small_noise noise = true -> k' = k).
Proof.
  intros Hc Lc Hm Lm H. destruct (sizes K HK) as (S1 & S2 & S3 & S4 & S5). rewrite KeyGen_code in H by assumption.
  destruct (mlk_indcpa_keypair_derand K fuel coins) as [[ek dk]|] eqn:E; [| discriminate].
  cbv beta iota delta [mbind option_bind] in H. injection H as <- Esk.
  destruct (keypair_shape K HK fuel coins ek dk Hc E) as (L1 & L2 & B1 & B2). destruct (hash_h_shape ek B1) as [Lh Bh].
  assert (Eh : ML_KEM.H ek = mlk_hash_h ek) by (symmetry; exact (hash_H ek B1)). rewrite Eh in Esk.
  destruct (dk_layout dk ek (mlk_hash_h ek) (drop 32 coins) ltac:(lia) ltac:(lia) Lh ltac:(rewrite length_drop; lia)) as (P1 & P2 & P3 & P4).
  rewrite Esk in P1, P2, P3, P4.
  assert (Bsk : are_bytes sk) by (rewrite <- Esk; unfold are_bytes; rewrite !Forall_app; repeat split; auto; now apply Forall_drop).
  assert (Lsk : length sk = MLKEM_INDCCA_SECRETKEYBYTES K) by (rewrite <- Esk, !length_app, length_drop; lia).
  split; [now apply (generated_pk_valid coins ek dk) |]. split; [unfold ML_KEM.hash_check; rewrite P2, P3, Eh; now apply bool_decide_eq_true_2 |].
  split; [exact B1 |]. split; [exact Bsk |]. split; [lia |]. split; [exact Lsk |].
  assert (Bg : are_bytes (m ++ mlk_hash_h ek)) by (apply Forall_app; now split). destruct (hash_g_shape _ Bg) as [Lg Bgo].
  set (r := drop 32 (mlk_hash_g (m ++ mlk_hash_h ek))). assert (Br : are_bytes r) by now apply Forall_drop.
  destruct (decrypt_exact K HK fuel coins m r ek dk Hc Hm Lm Br E) as (c & noise & Ec & En & Cn & Ed).
  set (m' := mlk_indcpa_dec K c dk). destruct (dec_msg_shape K c dk) as [Lm' Bm']. fold m' in Lm', Bm'.
  assert (Bg' : are_bytes (m' ++ mlk_hash_h ek)) by exact (Forall_app_2 _ _ _ Bm' Bh). destruct (hash_g_shape _ Bg') as [_ Bgo'].
  set (r' := drop 32 (mlk_hash_g (m' ++ mlk_hash_h ek))). assert (Br' : are_bytes r') by now apply Forall_drop.
  destruct (decrypt_exact K HK fuel coins m' r' ek dk Hc Bm' Lm' Br' E) as (c' & _ & Ec' & _).
  exists c, (take 32 (mlk_hash_g (m ++ mlk_hash_h ek))),
    (if bool_decide (c = c') then take 32 (mlk_hash_g (m' ++ mlk_hash_h ek)) else ML_KEM.J (drop 32 coins ++ c)), noise. split; [| split; [| split]].
  - rewrite Encaps_code by (assumption || lia). unfold ML_KEM.G, K_PKE.G. rewrite Eh, <- (hash_G _ Bg). fold r. now rewrite Ec.
  - unfold kem_noise. rewrite E. exact En.
  - destruct (enc_ct_shape K HK _ _ _ _ _ Ec) as [Lct Bct]. rewrite Decaps_code by assumption. rewrite P1, P2, P3, P4. cbv zeta. fold m'. unfold ML_KEM.G, K_PKE.G. rewrite <- (hash_G _ Bg'). fold r'. now rewrite Ec'.
  - intros Hs. assert (Em : m' = m) by (unfold m'; rewrite Ed; now apply (tomsg_rounds K HK)).
    assert (Ecc : c' = c) by (unfold r' in Ec'; rewrite Em in Ec'; fold r in Ec'; congruence). rewrite Em, Ecc. now rewrite bool_decide_eq_true_2.
Qed.

End Agree.

(** ** Claims *)

(** C3. [kem.c] implements FIPS 203, over K-PKE with the reference arithmetic of the standard.  For buffers of the parameter set's sizes, [mlk_kem_keypair_derand] returns the
    encapsulation key and the decapsulation key dk || ek || H(ek) || z of KeyGen_internal; [mlk_kem_enc_derand] refuses with MLK_ERR_FAIL, leaving its
    buffers alone, exactly when some 12-bit coefficient of the key is not below q, and otherwise returns the result of
    Encaps_internal; [mlk_kem_dec] refuses exactly when the hash of the embedded key does not match, and otherwise returns the result of
    Decaps_internal with its implicit rejection (the constant-time comparison and selection pick K' when the re-encryption equals the
    ciphertext and J(z || c) when not).  A run that has not finished sampling stays unfinished on both sides. *)
Theorem mlk_kem_fips203 (K : nat) (HK : K = 2%nat \/ K = 3%nat \/ K = 4%nat) (fuel : nat) :
  (forall pk sk coins, are_bytes coins -> length coins = 64%nat ->
     length pk = MLKEM_INDCCA_PUBLICKEYBYTES K -> length sk = MLKEM_INDCCA_SECRETKEYBYTES K ->
     mlk_kem_keypair_derand K fuel pk sk coins =
       (r ← ML_KEM.KeyGen_internal K fuel (take 32 coins) (drop 32 coins); Some (0, r))) /\
  (forall ct ss pk coins, are_bytes coins -> length coins = 32%nat -> are_bytes pk -> length pk = MLKEM_INDCCA_PUBLICKEYBYTES K ->
     length ct = MLKEM_INDCCA_CIPHERTEXTBYTES K -> length ss = 32%nat ->
     mlk_kem_enc_derand K fuel ct ss pk coins =
       if ML_KEM.modulus_check K pk then '(k, c) ← ML_KEM.Encaps_internal K fuel pk coins; Some (0, (c, k)) else Some (MLK_ERR_FAIL, (ct, ss))) /\
  (forall ss ct sk, are_bytes ct -> length ct = MLKEM_INDCCA_CIPHERTEXTBYTES K -> are_bytes sk ->
     length sk = MLKEM_INDCCA_SECRETKEYBYTES K -> length ss = 32%nat ->
     mlk_kem_dec K fuel ss ct sk =
       if ML_KEM.hash_check K sk then k ← ML_KEM.Decaps_internal K fuel sk ct; Some (0, k) else Some (MLK_ERR_FAIL, ss)).
Proof.
  repeat split; intros; [now apply keygen_refines | now apply enc_refines | now apply dec_refines].
Qed.

Lemma mlk_kem_fips203_witness :
  mlk_kem_enc_derand 2 0 (zeros 768) (zeros 32) (replicate 800 255) (replicate 32 1) = Some (MLK_ERR_FAIL, (zeros 768, zeros 32)) /\
  mlk_kem_dec 3 0 (zeros 32) (zeros 1088) (zeros 2400) = Some (MLK_ERR_FAIL, zeros 32).
Proof.
  destruct (mlk_kem_fips203 2 (or_introl eq_refl) 0) as (_ & He & _). destruct (mlk_kem_fips203 3 (or_intror (or_introl eq_refl)) 0) as (_ & _ & Hd).
  split.
  - rewrite He; [| apply is_u8_dec_list; reflexivity | reflexivity | apply is_u8_dec_list; vm_compute; reflexivity | reflexivity | reflexivity | reflexivity].
    replace (ML_KEM.modulus_check 2 (replicate 800 255)) with false by (vm_compute; reflexivity). reflexivity.
  - rewrite Hd; [| apply is_u8_dec_list; vm_compute; reflexivity | reflexivity | apply is_u8_dec_list; vm_compute; reflexivity | reflexivity | reflexivity].
    replace (ML_KEM.hash_check 3 (zeros 2400)) with false by (vm_compute; reflexivity). reflexivity.
Defined.

(** C5. Both sides of ML-KEM obtain the same secret.  When key generation completes, encapsulation to the public key is accepted and completes, and
    decapsulation of its ciphertext with the secret key succeeds and returns the encapsulated secret, provided the decryption
    noise of this key and message is between -832 and 831 modulo q in every coefficient (the event whose failure FIPS 203 bounds by 2^-138 and less);
    the noise is a function of the coins and is computed by [kem_noise]. *)
Theorem mlk_kem_roundtrip (K : nat) (HK : K = 2%nat \/ K = 3%nat \/ K = 4%nat) (fuel : nat) (coins m pk0 sk0 ct0 ss0 ss1 pk sk : bytes)
  (Hcoins : are_bytes coins) (Hlc : length coins = 64%nat) (Hm : are_bytes m) (Hlm : length m = 32%nat)
  (Hpk : length pk0 = MLKEM_INDCCA_PUBLICKEYBYTES K) (Hsk : length sk0 = MLKEM_INDCCA_SECRETKEYBYTES K)
  (Hct : length ct0 = MLKEM_INDCCA_CIPHERTEXTBYTES K) (Hss : length ss0 = 32%nat) (Hss1 : length ss1 = 32%nat)
  (Hkey : mlk_kem_keypair_derand K fuel pk0 sk0 coins = Some (0, (pk, sk))) :
  exists ct ss noise, mlk_kem_enc_derand K fuel ct0 ss0 pk m = Some (0, (ct, ss)) /\ kem_noise K fuel coins m = Some noise /\
    (small_noise noise = true -> mlk_kem_dec K fuel ss1 ct sk = Some (0, ss)).
Proof.
  rewrite keygen_refines in Hkey by assumption. apply bind_Some in Hkey as ([pk' sk'] & Hk & [= -> ->]).
  destruct (kem_agree K HK fuel coins m pk sk Hcoins Hlc Hm Hlm Hk) as (Cp & Cs & Bp & Bs & Lp & Ls & c & k & k' & noise & He & Hn & Hd & Hsame).
  exists c, k, noise. rewrite enc_refines, Cp, He by assumption. split; [reflexivity |]. split; [exact Hn |]. intros Hs.
  rewrite (Encaps_code K HK fuel pk m Bp (eq_trans Lp (proj1 (proj2 (proj2 (sizes K HK))))) Hm Hlm) in He. destruct (ML_KEM.G (m ++ ML_KEM.H pk)) as [k1 r1]. apply bind_Some in He as (c1 & Hc1 & [= <- <-]).
  destruct (enc_ct_shape K HK _ _ _ _ _ Hc1) as [Lc Bc]. rewrite dec_refines, Cs, Hd by assumption.
  now rewrite (Hsame Hs).
Qed.

(** The noise condition as one test; it implies that key generation has finished. *)
Definition kem_noise_small (K fuel : nat) (seed m : bytes) : bool :=
  match kem_noise K fuel seed m with Some n => small_noise n | None => false end.

Lemma kem_noise_small_key K fuel seed m : K = 2%nat \/ K = 3%nat \/ K = 4%nat -> are_bytes seed -> kem_noise_small K fuel seed m = true ->
  exists ek dk, ML_KEM.KeyGen_internal K fuel (take 32 seed) (drop 32 seed) = Some (ek, dk) /\
    forall noise, kem_noise K fuel seed m = Some noise -> small_noise noise = true.
Proof.
  unfold kem_noise_small. intros HK Hb Hs. destruct (ML_KEM.KeyGen_internal K fuel (take 32 seed) (drop 32 seed)) as [[ek dk]|] eqn:Hkey.
  - exists ek, dk. split; [reflexivity |]. intros noise Hn. now rewrite Hn in Hs.
  - exfalso. rewrite KeyGen_code in Hkey by assumption. unfold kem_noise in Hs.
    now destruct (mlk_indcpa_keypair_derand K fuel seed) as [[p s]|].
Qed.

Definition demo_seed : bytes := map (fun i => Z.of_nat i) (seq 0 64).
Definition demo_message : bytes := replicate 32 0x55.

Lemma demo_seed_bytes : are_bytes demo_seed.
Proof. now apply is_u8_dec_list. Qed.

Lemma demo_noise_small : kem_noise_small 2 1 demo_seed demo_message = true.
Proof. vm_compute. reflexivity. Qed.

Lemma mlk_kem_roundtrip_witness :
  exists pk sk ct ss, mlk_kem_keypair_derand 2 1 (zeros 800) (zeros 1632) demo_seed = Some (0, (pk, sk)) /\
    mlk_kem_enc_derand 2 1 (zeros 768) (zeros 32) pk demo_message = Some (0, (ct, ss)) /\ mlk_kem_dec 2 1 (zeros 32) ct sk = Some (0, ss).
Proof.
  destruct (kem_noise_small_key 2 1 _ _ (or_introl eq_refl) demo_seed_bytes demo_noise_small) as (pk & sk & Hkey & Hsmall).
  assert (Hrun : mlk_kem_keypair_derand 2 1 (zeros 800) (zeros 1632) demo_seed = Some (0, (pk, sk))).
  { rewrite (keygen_refines 2 (or_introl eq_refl) 1 (zeros 800) (zeros 1632) demo_seed), Hkey; [reflexivity | ..];
      [apply is_u8_dec_list | ..]; reflexivity. }
  destruct (mlk_kem_roundtrip 2 (or_introl eq_refl) 1 demo_seed demo_message (zeros 800) (zeros 1632) (zeros 768) (zeros 32) (zeros 32) pk sk)
    as (ct & ss & noise & He & Hn & Hd);
    [apply is_u8_dec_list; reflexivity | reflexivity | apply is_u8_dec_list; reflexivity | reflexivity | reflexivity | reflexivity | reflexivity |
     reflexivity | reflexivity | exact Hrun |].
  exists pk, sk, ct, ss. split; [exact Hrun |]. split; [exact He |]. apply Hd, Hsmall, Hn.
Defined.
