(* ===== verification/MlkemWrapper.v ===== *)
(** * The ML-KEM interface of the module

    Model of [qudo-mlkem/src/mlkem_wrapper.c], [mlkem_rand.c] and of the randomized part of [kem.c], in the build
    that is part of the module ([QUDO_COMBINED_BUILD]) without run-time dispatch to native backends: gates, service indicator, random numbers from the module's generator,
    pairwise consistency test, wiping of failed key pairs. *)

From stdpp Require Import base list numbers strings relations.
From Stdlib Require Import ZArith Lia.
From S2P Require Import Prelude Aes CtrDrbg World AuditLog State Rand RandService Algs Pct Services.
From S2P Require Import Fips202 Fips203 MlkemCompress MlkemIndcpa MlkemCorrect MlkemSpec MlkemKem.

#[local] Open Scope Z_scope.

Definition QUDO_KEM_SUCCESS : Z := 0.
Definition QUDO_KEM_ERROR : Z := -1.
Definition QUDO_KEM_ERROR_INVALID_ARG : Z := -2.
Definition QUDO_KEM_ERROR_RNG : Z := -5.
Definition QUDO_KEM_ERROR_VERIFY : Z := -6.
Definition QUDO_KEM_ERROR_CRYPTO : Z := -9.
Definition QUDO_KEM_ERROR_BUFFER_TOO_SMALL : Z := -13.

Definition QUDO_KEM_512 : Z := 1.
Definition QUDO_KEM_768 : Z := 3.
Definition QUDO_KEM_1024 : Z := 5.

Definition QUDO_KEM_alg_mlkem_512 : string := "ML-KEM-512".
Definition QUDO_KEM_alg_mlkem_768 : string := "ML-KEM-768".
Definition QUDO_KEM_alg_mlkem_1024 : string := "ML-KEM-1024".
Definition QUDO_KEM_SEED_BYTES : nat := 64.

(** The parameter set that the switches and the function pointers of a level select. *)
Definition level_k (level : Z) : option nat :=
  if level =? QUDO_KEM_512 then Some 2%nat else if level =? QUDO_KEM_768 then Some 3%nat
  else if level =? QUDO_KEM_1024 then Some 4%nat else None.

Definition get_public_key_size (level : Z) : nat :=
  match level_k level with Some K => MLKEM_INDCCA_PUBLICKEYBYTES K | None => 0 end.
Definition get_secret_key_size (level : Z) : nat :=
  match level_k level with Some K => MLKEM_INDCCA_SECRETKEYBYTES K | None => 0 end.
Definition get_ciphertext_size (level : Z) : nat :=
  match level_k level with Some K => MLKEM_INDCCA_CIPHERTEXTBYTES K | None => 0 end.

(** The static templates. *)
Definition mlkem_512_kem : QUDO_KEM := mk_kem QUDO_KEM_alg_mlkem_512 QUDO_KEM_512 800 1632 768 32.
Definition mlkem_768_kem : QUDO_KEM := mk_kem QUDO_KEM_alg_mlkem_768 QUDO_KEM_768 1184 2400 1088 32.
Definition mlkem_1024_kem : QUDO_KEM := mk_kem QUDO_KEM_alg_mlkem_1024 QUDO_KEM_1024 1568 3168 1568 32.

Definition template_by_name (algorithm_name : string) : option QUDO_KEM :=
  if strcasecmp_eq algorithm_name QUDO_KEM_alg_mlkem_512 then Some mlkem_512_kem
  else if strcasecmp_eq algorithm_name QUDO_KEM_alg_mlkem_768 then Some mlkem_768_kem
  else if strcasecmp_eq algorithm_name QUDO_KEM_alg_mlkem_1024 then Some mlkem_1024_kem
  else None.

Definition template_by_level (level : Z) : option QUDO_KEM :=
  if level =? QUDO_KEM_512 then Some mlkem_512_kem else if level =? QUDO_KEM_768 then Some mlkem_768_kem
  else if level =? QUDO_KEM_1024 then Some mlkem_1024_kem else None.

(** A computation that may not have finished. *)
Definition lift {A} (o : option A) : M A := fun w => match o with Some a => Some (a, w) | None => None end.

(** Two buffers of the caller, and what a call makes of them. *)
Definition buffers : Type := option bytes * option bytes.

Definition status (rc : Z) : Z := if rc =? 0 then QUDO_KEM_SUCCESS else QUDO_KEM_ERROR_CRYPTO.

Section Wrapper.
Context {E : Env} {B : BuildConfig} (I : AesImpl) (fuel : nat).

(** ** mlkem_rand.c *)

Definition QUDO_KEM_randombytes_init : M Z := mret QUDO_KEM_SUCCESS.

Definition QUDO_KEM_randombytes (out : option bytes) (outlen : nat) : M (Z * option bytes) :=
  match out with
  | None => mret (QUDO_KEM_ERROR, out)
  | Some _ =>
      if Nat.eqb outlen 0 then mret (QUDO_KEM_ERROR, out)
      else
        ready ← qudo_fips_rand_is_ready;
        if ready =? 0 then mret (QUDO_KEM_ERROR, out)
        else
          r ← qudo_fips_rand_bytes I out outlen;
          let '(rc, out) := r in
          if negb (rc =? 0) then mret (QUDO_KEM_ERROR, out) else mret (QUDO_KEM_SUCCESS, out)
  end.

Definition QUDO_KEM_randombytes_cleanup : M unit := mret tt.

Definition QUDO_KEM_randombytes_test : M Z :=
  r ← QUDO_KEM_randombytes (Some (zeros 32)) 32;
  let '(rc, test_buf) := r in
  if negb (rc =? QUDO_KEM_SUCCESS) then mret QUDO_KEM_ERROR
  else if bool_decide (test_buf = Some (zeros 32)) then mret QUDO_KEM_ERROR
  else mret QUDO_KEM_SUCCESS.

(** On a buffer on the stack; its contents after a failure are not used. *)
Definition randombytes (outlen : nat) : M (Z * bytes) :=
  r ← QUDO_KEM_randombytes (Some (zeros outlen)) outlen;
  let '(rc, out) := r in
  mret (rc, match out with Some b => b | None => [] end).

(** ** kem.c: the randomized interface *)

Definition mlk_kem_keypair (K : nat) (pk sk : bytes) : M (Z * (bytes * bytes)) :=
  r ← randombytes (2 * MLKEM_SYMBYTES);
  let '(rc, coins) := r in
  if negb (rc =? 0) then mret (MLK_ERR_RNG_FAIL, (pk, sk)) else lift (mlk_kem_keypair_derand K fuel pk sk coins).

Definition mlk_kem_enc (K : nat) (ct ss pk : bytes) : M (Z * (bytes * bytes)) :=
  r ← randombytes MLKEM_SYMBYTES;
  let '(rc, coins) := r in
  if negb (rc =? 0) then mret (MLK_ERR_RNG_FAIL, (ct, ss)) else lift (mlk_kem_enc_derand K fuel ct ss pk coins).

(** ** mlkem_wrapper.c: one function per operation and level *)

Definition qudo_mlkem_keypair (K : nat) (pk sk : bytes) : M (Z * (bytes * bytes)) :=
  r ← mlk_kem_keypair K pk sk; let '(rc, bufs) := r in mret (status rc, bufs).

Definition qudo_mlkem_keypair_derand (K : nat) (pk sk : bytes) (seed_out : option bytes) : M (Z * (bytes * bytes) * option bytes) :=
  r ← randombytes 64;
  let '(rc, seed) := r in
  if negb (rc =? QUDO_KEM_SUCCESS) then mret (QUDO_KEM_ERROR_RNG, (pk, sk), seed_out)
  else
    r ← lift (mlk_kem_keypair_derand K fuel pk sk seed);
    let '(rc, bufs) := r in
    let seed_out := match seed_out with Some o => if rc =? 0 then Some (blit o 0 seed) else Some o | None => None end in
    mret (status rc, bufs, seed_out).

Definition qudo_mlkem_keypair_from_seed (K : nat) (pk sk seed : bytes) : M (Z * (bytes * bytes)) :=
  r ← lift (mlk_kem_keypair_derand K fuel pk sk seed); let '(rc, bufs) := r in mret (status rc, bufs).

Definition qudo_mlkem_encaps (K : nat) (ct ss pk : bytes) : M (Z * (bytes * bytes)) :=
  r ← mlk_kem_enc K ct ss pk; let '(rc, bufs) := r in mret (status rc, bufs).

Definition qudo_mlkem_encaps_derand (K : nat) (ct ss pk randomness : bytes) : M (Z * (bytes * bytes)) :=
  r ← lift (mlk_kem_enc_derand K fuel ct ss pk randomness); let '(rc, bufs) := r in mret (status rc, bufs).

Definition qudo_mlkem_decaps (K : nat) (ss ct sk : bytes) : M (Z * bytes) :=
  r ← lift (mlk_kem_dec K fuel ss ct sk); let '(rc, ss) := r in mret (status rc, ss).

(** ** Life cycle *)

(** The mutex is free whenever a call begins, so that taking it does not wait. *)
Definition QUDO_KEM_init : M Z :=
  st ← gets (fun w => g_mlkem_init_state (w_alg w));
  if st =? 2 then mret QUDO_KEM_SUCCESS
  else
    rc ← QUDO_KEM_randombytes_init;
    ok ← (if negb (rc =? QUDO_KEM_SUCCESS) then mret false
          else rc ← QUDO_KEM_randombytes_test; mret (rc =? QUDO_KEM_SUCCESS));
    if negb ok then mret QUDO_KEM_ERROR_RNG
    else _ ← modify (on_alg (set_g_mlkem_init_state 2)); mret QUDO_KEM_SUCCESS.

Definition QUDO_KEM_cleanup : M unit :=
  st ← gets (fun w => g_mlkem_init_state (w_alg w));
  when (st =? 2) (_ ← QUDO_KEM_randombytes_cleanup; modify (on_alg (set_g_mlkem_init_state 0))).

Definition QUDO_KEM_is_initialized : M bool :=
  st ← gets (fun w => g_mlkem_init_state (w_alg w)); mret (st =? 2).

(** ** Gates *)

Definition QUDO_FIPS_GATE {A} (err : A) (m : M A) : M A :=
  if QUDO_FIPS_MODULE then ok ← qudo_pqc_is_running_or_selftest; if negb ok then mret err else m else m.

Definition QUDO_FIPS_IND_CHECK {A} (kem_ptr : option QUDO_KEM) (err : A) (m : M A) : M A :=
  if QUDO_FIPS_MODULE then
    match kem_ptr with
    | None => m
    | Some kem =>
        ready ← qudo_fips_rand_is_ready;
        if ready =? 0 then
          _ ← qudo_audit_log QUDO_SEV_ERROR QUDO_ERR_DRBG_NOT_SEEDED QUDO_AUDIT_COMP_INDICATOR "DRBG not ready";
          mret err
        else
          r ← qudo_pqc_check_security_level (Some (kem_algorithm_name kem)) (Some (mk_ind 1 qudo_fips_ind_get_default_strict));
          if fst r =? 0 then mret err else m
    end
  else m.

(** ** Objects *)

(** Objects are copies of the templates, with an indicator that the operations do not read. *)
(** A copy of the template; its indicator field, which nothing reads, is left out. *)
Definition kem_object (template : option QUDO_KEM) : M (option QUDO_KEM) :=
  match template with
  | None => mret None
  | Some t => ok ← qudo_malloc 1; mret (if ok : bool then Some t else None)
  end.

Definition ensure_init (m : M (option QUDO_KEM)) : M (option QUDO_KEM) :=
  st ← gets (fun w => g_mlkem_init_state (w_alg w));
  if negb (st =? 2) then rc ← QUDO_KEM_init; if negb (rc =? QUDO_KEM_SUCCESS) then mret None else m
  else m.

Definition QUDO_KEM_new (algorithm_name : option string) : M (option QUDO_KEM) :=
  QUDO_FIPS_GATE None
    (ensure_init match algorithm_name with None => mret None | Some n => kem_object (template_by_name n) end).

Definition QUDO_KEM_new_by_level (level : Z) : M (option QUDO_KEM) :=
  QUDO_FIPS_GATE None (ensure_init (kem_object (template_by_level level))).

(** ** Encapsulation and decapsulation *)

Definition QUDO_KEM_encaps (kem : option QUDO_KEM) (ciphertext shared_secret public_key : option bytes) : M (Z * buffers) :=
  QUDO_FIPS_GATE (QUDO_KEM_ERROR, (ciphertext, shared_secret))
    (QUDO_FIPS_IND_CHECK kem (QUDO_KEM_ERROR, (ciphertext, shared_secret))
      match kem, ciphertext, shared_secret, public_key with
      | Some kem, Some ct, Some ss, Some pk =>
          match level_k (kem_security_level kem) with
          | Some K => r ← qudo_mlkem_encaps K ct ss pk; let '(rc, (ct, ss)) := r in mret (rc, (Some ct, Some ss))
          | None => mret (QUDO_KEM_ERROR_INVALID_ARG, (ciphertext, shared_secret))
          end
      | _, _, _, _ => mret (QUDO_KEM_ERROR_INVALID_ARG, (ciphertext, shared_secret))
      end).

Definition QUDO_KEM_encaps_derand (kem : option QUDO_KEM) (ciphertext shared_secret public_key randomness : option bytes) : M (Z * buffers) :=
  QUDO_FIPS_GATE (QUDO_KEM_ERROR, (ciphertext, shared_secret))
    (QUDO_FIPS_IND_CHECK kem (QUDO_KEM_ERROR, (ciphertext, shared_secret))
      match kem, ciphertext, shared_secret, public_key, randomness with
      | Some kem, Some ct, Some ss, Some pk, Some rnd =>
          match level_k (kem_security_level kem) with
          | Some K => r ← qudo_mlkem_encaps_derand K ct ss pk rnd; let '(rc, (ct, ss)) := r in mret (rc, (Some ct, Some ss))
          | None => mret (QUDO_KEM_ERROR_INVALID_ARG, (ciphertext, shared_secret))
          end
      | _, _, _, _, _ => mret (QUDO_KEM_ERROR_INVALID_ARG, (ciphertext, shared_secret))
      end).

Definition QUDO_KEM_decaps (kem : option QUDO_KEM) (shared_secret ciphertext secret_key : option bytes) : M (Z * option bytes) :=
  QUDO_FIPS_GATE (QUDO_KEM_ERROR, shared_secret)
    (QUDO_FIPS_IND_CHECK kem (QUDO_KEM_ERROR, shared_secret)
      match kem, shared_secret, ciphertext, secret_key with
      | Some kem, Some ss, Some ct, Some sk =>
          match level_k (kem_security_level kem) with
          | Some K => r ← qudo_mlkem_decaps K ss ct sk; let '(rc, ss) := r in mret (rc, Some ss)
          | None => mret (QUDO_KEM_ERROR_INVALID_ARG, shared_secret)
          end
      | _, _, _, _ => mret (QUDO_KEM_ERROR_INVALID_ARG, shared_secret)
      end).

(** ** Key generation *)

(** What the pairwise test calls: the functions above, on buffers of the object's sizes that hold [0]. *)
Definition some_bytes (o : option bytes) : bytes := match o with Some b => b | None => [] end.

Definition pct_algs (A : AlgOps) : AlgOps := {|
  Algs.QUDO_KEM_new := @Algs.QUDO_KEM_new A;
  Algs.QUDO_KEM_keypair := @Algs.QUDO_KEM_keypair A;
  Algs.QUDO_KEM_keypair_from_seed := @Algs.QUDO_KEM_keypair_from_seed A;
  Algs.QUDO_KEM_encaps kem pk :=
    r ← QUDO_KEM_encaps (Some kem) (Some (zeros (kem_length_ciphertext kem))) (Some (zeros 32)) (Some pk);
    let '(rc, (ct, ss)) := r in mret (rc, (some_bytes ct, some_bytes ss));
  Algs.QUDO_KEM_encaps_derand kem pk rnd :=
    r ← QUDO_KEM_encaps_derand (Some kem) (Some (zeros (kem_length_ciphertext kem))) (Some (zeros 32)) (Some pk) (Some rnd);
    let '(rc, (ct, ss)) := r in mret (rc, (some_bytes ct, some_bytes ss));
  Algs.QUDO_KEM_decaps kem ct sk :=
    r ← QUDO_KEM_decaps (Some kem) (Some (zeros 32)) (Some ct) (Some sk);
    let '(rc, ss) := r in mret (rc, some_bytes ss);
  Algs.QUDO_MLDSA_new := @Algs.QUDO_MLDSA_new A;
  Algs.QUDO_MLDSA_keypair := @Algs.QUDO_MLDSA_keypair A;
  Algs.QUDO_MLDSA_keypair_internal := @Algs.QUDO_MLDSA_keypair_internal A;
  Algs.QUDO_MLDSA_sign_internal := @Algs.QUDO_MLDSA_sign_internal A;
  Algs.QUDO_MLDSA_verify_internal := @Algs.QUDO_MLDSA_verify_internal A;
  Algs.QUDO_SLHDSA_new := @Algs.QUDO_SLHDSA_new A;
  Algs.QUDO_SLHDSA_keypair := @Algs.QUDO_SLHDSA_keypair A;
  Algs.QUDO_SLHDSA_keypair_internal := @Algs.QUDO_SLHDSA_keypair_internal A;
  Algs.QUDO_SLHDSA_sign := @Algs.QUDO_SLHDSA_sign A;
  Algs.QUDO_SLHDSA_sign_ex := @Algs.QUDO_SLHDSA_sign_ex A;
  Algs.QUDO_SLHDSA_verify := @Algs.QUDO_SLHDSA_verify A |}.

Context {A : AlgOps}.

(** The end of the key generation functions: in the module, a fresh pair that fails its test is wiped. *)
Definition keypair_finish (kem : QUDO_KEM) (pk sk : bytes) : M (Z * buffers) :=
  if QUDO_FIPS_MODULE then
    t ← qudo_pqc_is_self_testing;
    ok ← (if t : bool then mret 1 else @qudo_pqc_mlkem_pct E (pct_algs A) (Some kem) (Some pk) (Some sk) 0);
    if ok =? 0 then
      let pk := blit pk 0 (zeros (kem_length_public_key kem)) in
      let sk := blit sk 0 (zeros (kem_length_secret_key kem)) in
      _ ← qudo_pqc_set_error_state (Some QUDO_ST_TYPE_PCT);
      mret (QUDO_KEM_ERROR_CRYPTO, (Some pk, Some sk))
    else mret (QUDO_KEM_SUCCESS, (Some pk, Some sk))
  else mret (QUDO_KEM_SUCCESS, (Some pk, Some sk)).

Definition keypair_end (kem : QUDO_KEM) (r : Z * (bytes * bytes)) : M (Z * buffers) :=
  let '(rc, (pk, sk)) := r in
  if negb (rc =? QUDO_KEM_SUCCESS) then mret (rc, (Some pk, Some sk)) else keypair_finish kem pk sk.

Definition QUDO_KEM_keypair (kem : option QUDO_KEM) (public_key secret_key : option bytes) : M (Z * buffers) :=
  QUDO_FIPS_GATE (QUDO_KEM_ERROR, (public_key, secret_key))
    (QUDO_FIPS_IND_CHECK kem (QUDO_KEM_ERROR, (public_key, secret_key))
      match kem, public_key, secret_key with
      | Some kem, Some pk, Some sk =>
          match level_k (kem_security_level kem) with
          | Some K => r ← qudo_mlkem_keypair K pk sk; keypair_end kem r
          | None => mret (QUDO_KEM_ERROR_INVALID_ARG, (public_key, secret_key))
          end
      | _, _, _ => mret (QUDO_KEM_ERROR_INVALID_ARG, (public_key, secret_key))
      end).

(** The third result is [seed_out] afterwards; a NULL [seed_out] is replaced by a scratch buffer that is wiped. *)
Definition QUDO_KEM_keypair_derand (kem : option QUDO_KEM) (public_key secret_key seed_out : option bytes) (seed_out_len : nat)
  : M (Z * buffers * option bytes) :=
  QUDO_FIPS_GATE (QUDO_KEM_ERROR, (public_key, secret_key), seed_out)
    (QUDO_FIPS_IND_CHECK kem (QUDO_KEM_ERROR, (public_key, secret_key), seed_out)
      match kem, public_key, secret_key with
      | Some kem, Some pk, Some sk =>
          if not_null seed_out && (seed_out_len <? QUDO_KEM_SEED_BYTES)%nat
          then mret (QUDO_KEM_ERROR_BUFFER_TOO_SMALL, (public_key, secret_key), seed_out)
          else match level_k (kem_security_level kem) with
          | Some K =>
              let target := match seed_out with Some o => o | None => zeros QUDO_KEM_SEED_BYTES end in
              r ← qudo_mlkem_keypair_derand K pk sk (Some target);
              let '(rc, bufs, seed) := r in
              let seed_out := match seed_out with Some _ => seed | None => None end in
              r ← keypair_end kem (rc, bufs);
              let '(rc, bufs) := r in mret (rc, bufs, seed_out)
          | None => mret (QUDO_KEM_ERROR_INVALID_ARG, (public_key, secret_key), seed_out)
          end
      | _, _, _ => mret (QUDO_KEM_ERROR_INVALID_ARG, (public_key, secret_key), seed_out)
      end).

Definition QUDO_KEM_keypair_from_seed (kem : option QUDO_KEM) (public_key secret_key seed : option bytes) : M (Z * buffers) :=
  QUDO_FIPS_GATE (QUDO_KEM_ERROR, (public_key, secret_key))
    (QUDO_FIPS_IND_CHECK kem (QUDO_KEM_ERROR, (public_key, secret_key))
      match kem, public_key, secret_key, seed with
      | Some kem, Some pk, Some sk, Some seed =>
          match level_k (kem_security_level kem) with
          | Some K => r ← qudo_mlkem_keypair_from_seed K pk sk seed; keypair_end kem r
          | None => mret (QUDO_KEM_ERROR_INVALID_ARG, (public_key, secret_key))
          end
      | _, _, _, _ => mret (QUDO_KEM_ERROR_INVALID_ARG, (public_key, secret_key))
      end).

(** ** Key checks *)

Definition QUDO_KEM_check_pk (kem : option QUDO_KEM) (public_key : option bytes) (pk_len : nat) : Z :=
  match kem, public_key with
  | Some kem, Some pk =>
      if negb (Nat.eqb pk_len (kem_length_public_key kem)) then QUDO_KEM_ERROR_VERIFY
      else match level_k (kem_security_level kem) with
      | Some K => if mlk_kem_check_pk K pk =? 0 then QUDO_KEM_SUCCESS else QUDO_KEM_ERROR_VERIFY
      | None => QUDO_KEM_ERROR_INVALID_ARG
      end
  | _, _ => QUDO_KEM_ERROR_INVALID_ARG
  end.

Definition QUDO_KEM_check_sk (kem : option QUDO_KEM) (secret_key : option bytes) (sk_len : nat) : Z :=
  match kem, secret_key with
  | Some kem, Some sk =>
      if negb (Nat.eqb sk_len (kem_length_secret_key kem)) then QUDO_KEM_ERROR_VERIFY
      else match level_k (kem_security_level kem) with
      | Some K => if mlk_kem_check_sk K sk =? 0 then QUDO_KEM_SUCCESS else QUDO_KEM_ERROR_VERIFY
      | None => QUDO_KEM_ERROR_INVALID_ARG
      end
  | _, _ => QUDO_KEM_ERROR_INVALID_ARG
  end.

(** ** The interface by level *)

Definition QUDO_KEM_keypair_generate (level : Z) (public_key secret_key : option bytes) : M (Z * buffers) :=
  QUDO_FIPS_GATE (QUDO_KEM_ERROR, (public_key, secret_key))
    match public_key, secret_key with
    | Some pk, Some sk =>
        match level_k level with
        | Some K => r ← qudo_mlkem_keypair K pk sk; let '(rc, (pk, sk)) := r in mret (rc, (Some pk, Some sk))
        | None => mret (QUDO_KEM_ERROR_INVALID_ARG, (public_key, secret_key))
        end
    | _, _ => mret (QUDO_KEM_ERROR_INVALID_ARG, (public_key, secret_key))
    end.

Definition QUDO_KEM_encapsulate (level : Z) (ciphertext shared_secret public_key : option bytes) : M (Z * buffers) :=
  QUDO_FIPS_GATE (QUDO_KEM_ERROR, (ciphertext, shared_secret))
    match ciphertext, shared_secret, public_key with
    | Some ct, Some ss, Some pk =>
        match level_k level with
        | Some K => r ← qudo_mlkem_encaps K ct ss pk; let '(rc, (ct, ss)) := r in mret (rc, (Some ct, Some ss))
        | None => mret (QUDO_KEM_ERROR_INVALID_ARG, (ciphertext, shared_secret))
        end
    | _, _, _ => mret (QUDO_KEM_ERROR_INVALID_ARG, (ciphertext, shared_secret))
    end.

Definition QUDO_KEM_decapsulate (level : Z) (shared_secret ciphertext secret_key : option bytes) : M (Z * option bytes) :=
  QUDO_FIPS_GATE (QUDO_KEM_ERROR, shared_secret)
    match shared_secret, ciphertext, secret_key with
    | Some ss, Some ct, Some sk =>
        match level_k level with
        | Some K => r ← qudo_mlkem_decaps K ss ct sk; let '(rc, ss) := r in mret (rc, Some ss)
        | None => mret (QUDO_KEM_ERROR_INVALID_ARG, shared_secret)
        end
    | _, _, _ => mret (QUDO_KEM_ERROR_INVALID_ARG, shared_secret)
    end.

Definition QUDO_KEM_get_shared_secret_size (level : Z) : nat := match level_k level with Some _ => 32 | None => 0 end.

Definition QUDO_KEM_get_algorithm_name (level : Z) : option string :=
  if level =? QUDO_KEM_512 then Some QUDO_KEM_alg_mlkem_512 else if level =? QUDO_KEM_768 then Some QUDO_KEM_alg_mlkem_768
  else if level =? QUDO_KEM_1024 then Some QUDO_KEM_alg_mlkem_1024 else None.

Definition QUDO_KEM_is_algorithm_supported (algorithm_name : option string) : Z :=
  match algorithm_name with
  | None => 0
  | Some n => if strcasecmp_eq n QUDO_KEM_alg_mlkem_512 || strcasecmp_eq n QUDO_KEM_alg_mlkem_768 || strcasecmp_eq n QUDO_KEM_alg_mlkem_1024
              then 1 else 0
  end.

(** The status and [*kem]. *)
Definition QUDO_KEM_get_algorithm_info (algorithm_name : option string) : Z * option QUDO_KEM :=
  match algorithm_name with
  | None => (QUDO_KEM_ERROR_INVALID_ARG, None)
  | Some n => match template_by_name n with Some t => (QUDO_KEM_SUCCESS, Some t) | None => (QUDO_KEM_ERROR_INVALID_ARG, None) end
  end.

(** The status and the level, when it is written. *)
Definition QUDO_KEM_get_level_from_name (name : option string) : Z * option Z :=
  match name with
  | None => (QUDO_KEM_ERROR_INVALID_ARG, None)
  | Some n =>
      if strcasecmp_eq n QUDO_KEM_alg_mlkem_512 then (QUDO_KEM_SUCCESS, Some QUDO_KEM_512)
      else if strcasecmp_eq n QUDO_KEM_alg_mlkem_768 then (QUDO_KEM_SUCCESS, Some QUDO_KEM_768)
      else if strcasecmp_eq n QUDO_KEM_alg_mlkem_1024 then (QUDO_KEM_SUCCESS, Some QUDO_KEM_1024)
      else (QUDO_KEM_ERROR_INVALID_ARG, None)
  end.

End Wrapper.

(** ** Refusals *)

Section Refusals.
Context {E : Env} {B : BuildConfig} (I : AesImpl) (fuel : nat) {A : AlgOps}.
Context (Hfips : QUDO_FIPS_MODULE = true) (w : World) (Hca : callable I w) (Hns : in_service w = false).

Lemma gate_refuses {X} (err : X) m : logs (QUDO_FIPS_GATE err m) w err.
Proof.
  unfold QUDO_FIPS_GATE. rewrite Hfips. eapply logs_bind; [now apply (gate_logs I) |]. intros l _. rewrite Hns. apply logs_ret.
Qed.
End Refusals.

(** ** In service *)

Section InService.
Context {E : Env} {B : BuildConfig} (I : AesImpl) (fuel : nat) {A : AlgOps}.

(** The conditions under which the gates let an operation with [kem] pass: the module runs, its generator is seeded, and the algorithm
    reaches the minimum level. *)
Record serves (kem : QUDO_KEM) (w : World) : Prop := {
  sv_running : g_module_state (w_core w) = QUDO_PQC_STATE_RUNNING;
  sv_ready : g_fips_rand_ready (w_rand w) <> 0;
  sv_level : qudo_pqc_get_security_level (Some (kem_algorithm_name kem)) <> 0 /\
             g_min_security_level w <= qudo_pqc_get_security_level (Some (kem_algorithm_name kem)) }.

Lemma gate_passes {X} (err : X) m w : g_module_state (w_core w) = QUDO_PQC_STATE_RUNNING -> QUDO_FIPS_GATE err m w = m w.
Proof.
  intros Hr. unfold QUDO_FIPS_GATE. destruct QUDO_FIPS_MODULE; [| reflexivity].
  unfold qudo_pqc_is_running_or_selftest, get_state, mbind, M_bind, gets. rewrite Hr. reflexivity.
Qed.

Lemma level_passes n ind w : qudo_pqc_get_security_level (Some n) <> 0 -> g_min_security_level w <= qudo_pqc_get_security_level (Some n) ->
  qudo_pqc_check_security_level (Some n) ind w = Some ((1, ind), w).
Proof.
  intros H0 Hm. unfold qudo_pqc_check_security_level. destruct (Z.eqb_spec (qudo_pqc_get_security_level (Some n)) 0); [contradiction |].
  unfold mbind, M_bind, gets. destruct (Z.ltb_spec (qudo_pqc_get_security_level (Some n)) (g_min_security_level w)); [lia | reflexivity].
Qed.

Lemma ind_check_passes {X} kem (err : X) m w : serves kem w -> QUDO_FIPS_IND_CHECK (Some kem) err m w = m w.
Proof.
  intros [_ Hd [H0 Hm]]. unfold QUDO_FIPS_IND_CHECK. destruct QUDO_FIPS_MODULE; [| reflexivity].
  unfold qudo_fips_rand_is_ready, mbind, M_bind, gets. destruct (Z.eqb_spec (g_fips_rand_ready (w_rand w)) 0); [contradiction |].
  now rewrite level_passes.
Qed.

Lemma gates_pass {X} kem (err : X) m w : serves kem w -> QUDO_FIPS_GATE err (QUDO_FIPS_IND_CHECK (Some kem) err m) w = m w.
Proof. intros Hs. rewrite gate_passes by apply Hs. now apply ind_check_passes. Qed.

Lemma serves_frame kem w w' : g_module_state (w_core w') = g_module_state (w_core w) -> w_rand w' = w_rand w ->
  g_min_security_level w' = g_min_security_level w -> serves kem w -> serves kem w'.
Proof. intros H1 H2 H3 [S1 S2 S3]. constructor; [now rewrite H1 | now rewrite H2 | now rewrite H3]. Qed.

Context (kem : QUDO_KEM) (K : nat) (HK : level_k (kem_security_level kem) = Some K) (HK4 : K = 2%nat \/ K = 3%nat \/ K = 4%nat).
Context (Hct : kem_length_ciphertext kem = MLKEM_INDCCA_CIPHERTEXTBYTES K).

Lemma encaps_derand_run w ct ss pk rnd k c : serves kem w ->
  are_bytes rnd -> length rnd = 32%nat -> are_bytes pk -> length pk = MLKEM_INDCCA_PUBLICKEYBYTES K ->
  length ct = MLKEM_INDCCA_CIPHERTEXTBYTES K -> length ss = 32%nat -> ML_KEM.modulus_check K pk = true ->
  ML_KEM.Encaps_internal K fuel pk rnd = Some (k, c) ->
  QUDO_KEM_encaps_derand fuel (Some kem) (Some ct) (Some ss) (Some pk) (Some rnd) w = Some ((QUDO_KEM_SUCCESS, (Some c, Some k)), w).
Proof.
  intros Hs Hr Lr Hp Lp Lct Lss Hm He. unfold QUDO_KEM_encaps_derand. rewrite gates_pass by exact Hs. rewrite HK.
  unfold qudo_mlkem_encaps_derand, mbind, M_bind, lift. rewrite enc_refines, Hm, He by assumption. reflexivity.
Qed.

Lemma decaps_run w ss ct sk k : serves kem w ->
  are_bytes ct -> length ct = MLKEM_INDCCA_CIPHERTEXTBYTES K -> are_bytes sk -> length sk = MLKEM_INDCCA_SECRETKEYBYTES K -> length ss = 32%nat ->
  ML_KEM.hash_check K sk = true -> ML_KEM.Decaps_internal K fuel sk ct = Some k ->
  QUDO_KEM_decaps fuel (Some kem) (Some ss) (Some ct) (Some sk) w = Some ((QUDO_KEM_SUCCESS, Some k), w).
Proof.
  intros Hs Hc Lc Hk Lk Lss Hh Hd. unfold QUDO_KEM_decaps. rewrite gates_pass by exact Hs. rewrite HK.
  unfold qudo_mlkem_decaps, mbind, M_bind, lift. rewrite dec_refines, Hh, Hd by assumption. reflexivity.
Qed.

End InService.

(** ** Key generation in service *)

Lemma G_length x : length (fst (ML_KEM.G x)) = 32%nat.
Proof. unfold ML_KEM.G, K_PKE.G, SHA3_512. cbn [fst]. rewrite length_take, length_keccak_sponge by lia. reflexivity. Qed.

Lemma Encaps_length K fuel ek m k c : ML_KEM.Encaps_internal K fuel ek m = Some (k, c) -> length k = 32%nat.
Proof.
  unfold ML_KEM.Encaps_internal. pose proof (G_length (m ++ ML_KEM.H ek)) as HG. destruct (ML_KEM.G _) as [k1 r1]. cbn [fst] in HG. intros H.
  apply bind_Some in H as (c1 & _ & H). congruence.
Qed.

Lemma Encaps_ct K fuel ek m k c : K = 2%nat \/ K = 3%nat \/ K = 4%nat -> are_bytes ek -> length ek = MLKEM_INDCCA_PUBLICKEYBYTES K ->
  are_bytes m -> length m = 32%nat -> ML_KEM.Encaps_internal K fuel ek m = Some (k, c) ->
  length c = MLKEM_INDCCA_CIPHERTEXTBYTES K /\ are_bytes c.
Proof.
  intros HK He Le Hm Lm. destruct (sizes K HK) as (_ & _ & S3 & _). rewrite S3 in Le. rewrite (Encaps_code K HK) by assumption.
  destruct (ML_KEM.G _) as [k1 r1]. intros H. apply bind_Some in H as (c1 & Hc & H).
  injection H as <- <-. now apply (enc_ct_shape K HK) in Hc.
Qed.

Lemma Decaps_length K fuel dk c k : ML_KEM.Decaps_internal K fuel dk c = Some k -> length k = 32%nat.
Proof.
  unfold ML_KEM.Decaps_internal. set (m := K_PKE.Decrypt K (ML_KEM.dk_PKE K dk) c). pose proof (G_length (m ++ ML_KEM.dk_h K dk)) as HG.
  destruct (ML_KEM.G _) as [k1 r1]. cbn [fst] in HG. intros H. apply bind_Some in H as (c1 & _ & H). injection H as <-.
  case_bool_decide; [exact HG |]. apply length_keccak_sponge. lia.
Qed.

Definition pct_message : bytes := replicate 32 0x55.

Lemma pct_message_ok : are_bytes pct_message /\ length pct_message = 32%nat.
Proof. split; [now apply is_u8_dec_list | reflexivity]. Qed.

(** The parameter set of a template, and its sizes. *)
Lemma template_sizes level kem K : template_by_level level = Some kem -> level_k level = Some K ->
  (K = 2%nat \/ K = 3%nat \/ K = 4%nat) /\ kem_security_level kem = level /\ kem_length_ciphertext kem = MLKEM_INDCCA_CIPHERTEXTBYTES K /\
  kem_length_public_key kem = MLKEM_INDCCA_PUBLICKEYBYTES K /\ kem_length_secret_key kem = MLKEM_INDCCA_SECRETKEYBYTES K.
Proof.
  unfold template_by_level, level_k. destruct (Z.eqb_spec level QUDO_KEM_512) as [-> |]; [intros [= <-] [= <-]; repeat split; auto |].
  destruct (Z.eqb_spec level QUDO_KEM_768) as [-> |]; [intros [= <-] [= <-]; repeat split; auto |].
  destruct (Z.eqb_spec level QUDO_KEM_1024) as [-> |]; [intros [= <-] [= <-]; repeat split; auto | discriminate].
Qed.

Section FromSeed.
Context {E : Env} {B : BuildConfig} (I : AesImpl) (fuel : nat) {A : AlgOps}.
Context (level : Z) (kem : QUDO_KEM) (K : nat) (Ht : template_by_level level = Some kem) (HK : level_k level = Some K).
Context (w : World) (Hsv : serves kem w) (Hst : lock_free (g_self_test_lock (w_core w))) (Hau : lock_free (g_audit_lock (w_audit w))).
Context (Hcb : g_self_test_cb (w_core w) = None) (Hmem : env_malloc_ok (n_alloc (w_env w)) = true).

Let w1 : World := on_env (set_n_alloc (S (n_alloc (w_env w)))) w.

(** The pairwise test of a pair whose encapsulation and decapsulation complete. *)
Lemma pct_run pk sk k k' c : are_bytes pk -> are_bytes sk -> length pk = MLKEM_INDCCA_PUBLICKEYBYTES K ->
  length sk = MLKEM_INDCCA_SECRETKEYBYTES K -> ML_KEM.modulus_check K pk = true -> ML_KEM.hash_check K sk = true ->
  ML_KEM.Encaps_internal K fuel pk pct_message = Some (k, c) -> ML_KEM.Decaps_internal K fuel sk c = Some k' ->
  exists l, @qudo_pqc_mlkem_pct E (pct_algs I fuel A) (Some kem) (Some pk) (Some sk) 0 w =
    Some (if bool_decide (k' = k) then 1 else 0, set_w_log l w1).
Proof.
  intros Hp Hs Lp Ls Cp Cs He Hd. destruct (template_sizes level kem K Ht HK) as (HK4 & Hlv & Sc & _ & _).
  assert (HKk : level_k (kem_security_level kem) = Some K) by now rewrite Hlv.
  assert (Hsv1 : serves kem w1) by now apply (serves_frame kem w).
  destruct (Encaps_ct K fuel _ _ _ _ HK4 Hp Lp (proj1 pct_message_ok) (proj2 pct_message_ok) He) as [Lc Bc]. pose proof (Encaps_length _ _ _ _ _ _ He) as Lk. pose proof (Decaps_length _ _ _ _ _ Hd) as Lk'.
  rewrite (@mlkem_pct_run E B (pct_algs I fuel A) kem pk sk c k k' 0 0 0 w w1 w1 Hst Hcb).
  { cbv zeta. cbn [Z.eqb]. rewrite !take_ge by lia. destruct (decide (k' = k)) as [-> | Hne].
    - exists (w_log w1). rewrite !bool_decide_eq_true_2 by auto. now destruct w1.
    - eexists. rewrite !bool_decide_eq_false_2 by tauto. reflexivity. }
  - rewrite (sv_running _ _ Hsv). discriminate.
  - rewrite Sc. destruct HK4 as [-> | [-> | ->]]; discriminate.
  - exact Hmem.
  - cbn [Z.eqb]. change (@Algs.QUDO_KEM_encaps_derand (pct_algs I fuel A) kem pk (replicate 32 85))
      with (r ← QUDO_KEM_encaps_derand fuel (Some kem) (Some (zeros (kem_length_ciphertext kem))) (Some (zeros 32)) (Some pk) (Some pct_message);
            let '(rc, (ct, ss)) := r in (mret (rc, (some_bytes ct, some_bytes ss)) : M _)).
    unfold mbind, M_bind. fold w1. rewrite (encaps_derand_run fuel kem K HKk HK4 w1 _ _ pk pct_message k c); auto using length_zeros; try reflexivity.
    + now apply is_u8_dec_list.
    + rewrite length_zeros. exact Sc.
  - change (@Algs.QUDO_KEM_decaps (pct_algs I fuel A) kem c sk)
      with (r ← QUDO_KEM_decaps fuel (Some kem) (Some (zeros 32)) (Some c) (Some sk);
            let '(rc, ss) := r in (mret (rc, some_bytes ss) : M _)).
    unfold mbind, M_bind. rewrite (decaps_run fuel kem K HKk HK4 w1 _ c sk k'); auto using length_zeros.
  - lia.
  - lia.
  - exact Hau.
  - exact Hau.
Qed.

Context (Hfips : QUDO_FIPS_MODULE = true).

(** The end of key generation: the pair is handed over if its test passes, otherwise it is wiped and the failure is latched. *)
Lemma finish_run pk sk k k' c : are_bytes pk -> are_bytes sk -> length pk = MLKEM_INDCCA_PUBLICKEYBYTES K ->
  length sk = MLKEM_INDCCA_SECRETKEYBYTES K -> ML_KEM.modulus_check K pk = true -> ML_KEM.hash_check K sk = true ->
  ML_KEM.Encaps_internal K fuel pk pct_message = Some (k, c) -> ML_KEM.Decaps_internal K fuel sk c = Some k' ->
  exists l, keypair_finish I fuel (A := A) kem pk sk w =
    Some (if bool_decide (k' = k) then (QUDO_KEM_SUCCESS, (Some pk, Some sk))
          else (QUDO_KEM_ERROR_CRYPTO, (Some (zeros (length pk)), Some (zeros (length sk)))),
          set_w_log l (if bool_decide (k' = k) then w1 else on_core (enter_error (Some QUDO_ST_TYPE_PCT)) w1)).
Proof.
  intros Hp Hs Lp Ls Cp Cs He Hd. destruct (template_sizes level kem K Ht HK) as (HK4 & Hlv & _ & Sp & Ss).
  destruct (pct_run pk sk k k' c Hp Hs Lp Ls Cp Cs He Hd) as [l Hrun]. unfold keypair_finish. rewrite Hfips.
  assert (Hself : qudo_pqc_is_self_testing w = Some (false, w)).
  { unfold qudo_pqc_is_self_testing, get_state, mbind, M_bind, gets. now rewrite (sv_running _ _ Hsv). }
  unfold mbind at 1, M_bind at 1. rewrite Hself. cbv beta iota.
  unfold mbind at 1, M_bind at 1. rewrite Hrun. destruct (bool_decide (k' = k)); cbn [Z.eqb]; [exists l; reflexivity |].
  destruct (set_error_run (Some QUDO_ST_TYPE_PCT) (set_w_log l w1) Hau) as (l' & Hl' & _). exists l'.
  unfold mbind, M_bind. rewrite Hl'. rewrite Sp, Ss, !blit_all, Lp, Ls by (rewrite length_zeros; lia). reflexivity.
Qed.

End FromSeed.

(** ** Claims *)

(** C8. ML-KEM key generation hands out tested keys only.  In a running FIPS module (generator seeded, security level allowed, memory available, no test callback),
    [QUDO_KEM_keypair_from_seed] computes the key pair that FIPS 203 derives from the seed; it then encapsulates to the new public
    key with the fixed randomness 0x55..55 and decapsulates; if the secrets agree it returns SUCCESS and exactly the pair, with the
    module still running, and if not it returns ERROR_CRYPTO, both buffers are zero, and the module has entered the error state (unless the conditional check is
    disabled).  The secrets do agree whenever the decryption noise of that encapsulation is small. *)
Theorem kem_keypair_from_seed_tested {E : Env} {B : BuildConfig} {A : AlgOps} (I : AesImpl) (fuel : nat) (level : Z) (kem : QUDO_KEM) (K : nat)
  (w : World) (pk0 sk0 seed ek dk : bytes)
  (Ht : template_by_level level = Some kem) (HK : level_k level = Some K) (Hfips : QUDO_FIPS_MODULE = true) (Hsv : serves kem w)
  (Hst : lock_free (g_self_test_lock (w_core w))) (Hau : lock_free (g_audit_lock (w_audit w)))
  (Hcb : g_self_test_cb (w_core w) = None) (Hmem : env_malloc_ok (n_alloc (w_env w)) = true)
  (Hpk : length pk0 = kem_length_public_key kem) (Hsk : length sk0 = kem_length_secret_key kem)
  (Hseed : are_bytes seed) (Hlen : length seed = 64%nat)
  (Hkey : ML_KEM.KeyGen_internal K fuel (take 32 seed) (drop 32 seed) = Some (ek, dk)) :
  exists k k' c noise l,
    ML_KEM.Encaps_internal K fuel ek pct_message = Some (k, c) /\ ML_KEM.Decaps_internal K fuel dk c = Some k' /\
    kem_noise K fuel seed pct_message = Some noise /\ (small_noise noise = true -> k' = k) /\
    QUDO_KEM_keypair_from_seed I fuel (A := A) (Some kem) (Some pk0) (Some sk0) (Some seed) w =
      Some (if bool_decide (k' = k) then (QUDO_KEM_SUCCESS, (Some ek, Some dk))
            else (QUDO_KEM_ERROR_CRYPTO, (Some (zeros (length pk0)), Some (zeros (length sk0)))),
            set_w_log l (let w1 := on_env (set_n_alloc (S (n_alloc (w_env w)))) w in
                         if bool_decide (k' = k) then w1 else on_core (enter_error (Some QUDO_ST_TYPE_PCT)) w1)).
Proof.
  destruct (template_sizes level kem K Ht HK) as (HK4 & Hlv & _ & Sp & Ss).
  assert (Bm : are_bytes pct_message) by now apply is_u8_dec_list.
  destruct (kem_agree K HK4 fuel seed pct_message ek dk Hseed Hlen Bm eq_refl Hkey)
    as (Cp & Cs & Bp & Bs & Lp & Ls & c & k & k' & noise & He & Hn & Hd & Hsame).
  destruct (finish_run I fuel (A := A) level kem K Ht HK w Hsv Hst Hau Hcb Hmem Hfips ek dk k k' c Bp Bs Lp Ls Cp Cs He Hd) as [l Hrun].
  exists k, k', c, noise, l. split; [exact He |]. split; [exact Hd |]. split; [exact Hn |]. split; [exact Hsame |].
  unfold QUDO_KEM_keypair_from_seed. rewrite gates_pass by exact Hsv. rewrite Hlv, HK.
  unfold qudo_mlkem_keypair_from_seed. unfold mbind at 1 2, M_bind at 1 2, lift. rewrite (keygen_refines K HK4), Hkey by (auto; lia).
  cbn [mbind option_bind]. unfold mret at 1, M_ret at 1. unfold keypair_end, status, QUDO_KEM_SUCCESS. cbn [Z.eqb negb].
  rewrite Hrun, Hpk, Hsk, Lp, Ls, Sp, Ss. reflexivity.
Qed.

(** C39. Outside service the ML-KEM interface does nothing: when a FIPS module is neither running nor self-testing, creating an object returns NULL, and
    key generation, encapsulation and decapsulation in every form return QUDO_KEM_ERROR and leave all buffers of the caller as they are; only the
    log changes. *)
Theorem kem_refuses_outside_service {E : Env} {B : BuildConfig} {A : AlgOps} (I : AesImpl) (fuel : nat) (w : World)
  (Hfips : QUDO_FIPS_MODULE = true) (Hca : callable I w) (Hns : in_service w = false) :
  (forall n, logs (QUDO_KEM_new I n) w None) /\ (forall level, logs (QUDO_KEM_new_by_level I level) w None) /\
  (forall kem pk sk, logs (QUDO_KEM_keypair I fuel (A := A) kem pk sk) w (QUDO_KEM_ERROR, (pk, sk))) /\
  (forall kem pk sk so n, logs (QUDO_KEM_keypair_derand I fuel (A := A) kem pk sk so n) w (QUDO_KEM_ERROR, (pk, sk), so)) /\
  (forall kem pk sk seed, logs (QUDO_KEM_keypair_from_seed I fuel (A := A) kem pk sk seed) w (QUDO_KEM_ERROR, (pk, sk))) /\
  (forall kem ct ss pk, logs (QUDO_KEM_encaps I fuel kem ct ss pk) w (QUDO_KEM_ERROR, (ct, ss))) /\
  (forall kem ct ss pk r, logs (QUDO_KEM_encaps_derand fuel kem ct ss pk r) w (QUDO_KEM_ERROR, (ct, ss))) /\
  (forall kem ss ct sk, logs (QUDO_KEM_decaps fuel kem ss ct sk) w (QUDO_KEM_ERROR, ss)) /\
  (forall level pk sk, logs (QUDO_KEM_keypair_generate I fuel level pk sk) w (QUDO_KEM_ERROR, (pk, sk))) /\
  (forall level ct ss pk, logs (QUDO_KEM_encapsulate I fuel level ct ss pk) w (QUDO_KEM_ERROR, (ct, ss))) /\
  (forall level ss ct sk, logs (QUDO_KEM_decapsulate fuel level ss ct sk) w (QUDO_KEM_ERROR, ss)).
Proof. repeat split; intros; now apply (gate_refuses I). Qed.

Lemma kem_refuses_outside_service_witness :
  let w := on_core (set_g_module_state QUDO_PQC_STATE_INIT) demo_world in
  logs (@QUDO_KEM_keypair plain_env demo_config AesCt 0 toy_algs (Some mlkem_768_kem) (Some [1]) (Some [2])) w (QUDO_KEM_ERROR, (Some [1], Some [2])).
Proof.
  intros w. assert (Hca : callable AesCt w).
  { destruct demo_callable as [H1 H2 H3 H4]. constructor; [exact H1 | exact H2 | discriminate | exact H4]. }
  destruct (@kem_refuses_outside_service plain_env demo_config toy_algs AesCt 0 w eq_refl Hca eq_refl) as (_ & _ & H & _). apply H.
Defined.

Lemma demo_serves : serves mlkem_512_kem demo_world.
Proof. constructor; [reflexivity | discriminate | split; vm_compute; discriminate]. Qed.

Lemma kem_keypair_from_seed_tested_witness :
  exists ek dk l, ML_KEM.KeyGen_internal 2 1 (take 32 demo_seed) (drop 32 demo_seed) = Some (ek, dk) /\
    @QUDO_KEM_keypair_from_seed plain_env demo_config AesCt 1 toy_algs (Some mlkem_512_kem) (Some (zeros 800)) (Some (zeros 1632)) (Some demo_seed)
      demo_world
    = Some ((QUDO_KEM_SUCCESS, (Some ek, Some dk)), set_w_log l (on_env (set_n_alloc 1) demo_world)).
Proof.
  destruct (kem_noise_small_key 2 1 _ _ (or_introl eq_refl) demo_seed_bytes demo_noise_small) as (ek & dk & Hkey & Hsmall).
  pose proof demo_seed_bytes as Hb. assert (Hl : length demo_seed = 64%nat) by reflexivity.
  destruct (@kem_keypair_from_seed_tested plain_env demo_config toy_algs AesCt 1 QUDO_KEM_512 mlkem_512_kem 2 demo_world (zeros 800) (zeros 1632) demo_seed ek dk)
    as (k & k' & c & noise & l & _ & _ & Hn & Hsame & Hrun); try exact Hkey; try exact demo_serves; try reflexivity; try (now left); try assumption.
  exists ek, dk, l. split; [exact Hkey |]. rewrite Hrun, bool_decide_eq_true_2 by exact (Hsame (Hsmall _ Hn)). reflexivity.
Defined.

(** C40. Key generation by level is not tested: [QUDO_KEM_keypair_generate], the level-based entry point of the same interface, hands out in a running
    FIPS module whatever pair FIPS 203 derives from the 64 bytes the generator served.  It runs no pairwise consistency test and does not
    consult the minimum security level: after the random bytes are drawn, the state of the module, its log included, does not change. *)
Theorem kem_keypair_generate_untested {E : Env} {B : BuildConfig} (I : AesImpl) (fuel : nat) (level : Z) (K : nat) (w w1 : World)
  (pk0 sk0 coins ek dk : bytes)
  (HK : level_k level = Some K) (Hrun : g_module_state (w_core w) = QUDO_PQC_STATE_RUNNING)
  (Hpk : length pk0 = get_public_key_size level) (Hsk : length sk0 = get_secret_key_size level)
  (Hrand : randombytes I 64 w = Some ((QUDO_KEM_SUCCESS, coins), w1)) (Hb : are_bytes coins) (Hlen : length coins = 64%nat)
  (Hkey : ML_KEM.KeyGen_internal K fuel (take 32 coins) (drop 32 coins) = Some (ek, dk)) :
  QUDO_KEM_keypair_generate I fuel level (Some pk0) (Some sk0) w = Some ((QUDO_KEM_SUCCESS, (Some ek, Some dk)), w1).
Proof.
  assert (HK4 : K = 2%nat \/ K = 3%nat \/ K = 4%nat).
  { unfold level_k in HK. destruct (level =? QUDO_KEM_512); [injection HK; auto |]. destruct (level =? QUDO_KEM_768); [injection HK; auto |].
    destruct (level =? QUDO_KEM_1024); [injection HK; auto | discriminate]. }
  unfold get_public_key_size in Hpk. unfold get_secret_key_size in Hsk. rewrite HK in Hpk, Hsk.
  unfold QUDO_KEM_keypair_generate. rewrite gate_passes by exact Hrun. rewrite HK. unfold qudo_mlkem_keypair, mlk_kem_keypair.
  change (2 * MLKEM_SYMBYTES)%nat with 64%nat. unfold mbind, M_bind. rewrite Hrand. cbn [QUDO_KEM_SUCCESS Z.eqb negb]. unfold lift.
  rewrite (keygen_refines K HK4), Hkey by assumption. reflexivity.
Qed.

(** A build with a host generator, which serves [demo_seed], and a module whose minimum level excludes ML-KEM-512. *)
Definition host_env : Env := {|
  env_getentropy := @env_getentropy plain_env; env_host_rand _ _ n := if Nat.eqb n 64 then Some demo_seed else None;
  env_malloc_ok := @env_malloc_ok plain_env; env_rwlock_init_ok := @env_rwlock_init_ok plain_env; env_once_ok := @env_once_ok plain_env;
  env_st_cb := @env_st_cb plain_env; env_stack := @env_stack plain_env; env_hmac_ctx := @env_hmac_ctx plain_env |}.
Definition host_config : BuildConfig := {|
  QUDO_FIPS_MODULE := true; QUDO_PQC_DISABLE_EMBEDDED_HMAC := true; QUDO_PQC_USE_HOST_DRBG := true |}.
Definition strict_world : World := set_g_min_security_level 5 (on_rand (set_g_host_rand_provider (Some 1)) demo_world).

Lemma kem_keypair_generate_untested_witness :
  exists ek dk w1, @QUDO_KEM_keypair_generate host_env host_config AesCt 1 QUDO_KEM_512 (Some (zeros 800)) (Some (zeros 1632)) strict_world
    = Some ((QUDO_KEM_SUCCESS, (Some ek, Some dk)), w1).
Proof.
  destruct (kem_noise_small_key 2 1 _ _ (or_introl eq_refl) demo_seed_bytes demo_noise_small) as (ek & dk & Hkey & _). exists ek, dk, (on_env (set_n_host 1) strict_world).
  apply (@kem_keypair_generate_untested host_env host_config AesCt 1 QUDO_KEM_512 2 strict_world (on_env (set_n_host 1) strict_world)
           (zeros 800) (zeros 1632) demo_seed ek dk);
    [reflexivity | reflexivity | reflexivity | reflexivity | vm_compute; reflexivity | now apply is_u8_dec_list | reflexivity | exact Hkey].
Defined.
