(* ===== verification/KeyEncoding.v ===== *)
(** * Encodings of keys: base64, DER lengths, PEM

    The functions that [qudo-mlkem/src/mlkem_interop.c], [qudo-mldsa/src/mldsa_interop.c] and [qudo-slhdsa/src/slhdsa_interop.c] share: each of
    the three files has its own copy, and the copies differ in names only, except [asn1_decode_length] of SLH-DSA, which has one more check.  A position in a
    buffer is a natural number; characters are their codes; a C string is the part of its buffer before the first 0. *)

From stdpp Require Import base list numbers.
From Stdlib Require Import ZArith Lia ZifyNat.
From S2P Require Import Prelude MlkemSampling.

#[local] Open Scope Z_scope.

(** Arithmetic with division and remainder by constants. *)
#[local] Ltac Zify.zify_post_hook ::= Z.to_euclidean_division_equations.

(** ** Status codes

    [QUDO_KEM_status_t], [QUDO_MLDSA_status_t] and [QUDO_SLHDSA_status_t] agree on these. *)

Definition SUCCESS : Z := 0.
Definition ERROR_INVALID_ARG : Z := -2.
Definition ERROR_NULL_PTR : Z := -3.
Definition ERROR_ALLOC : Z := -4.
Definition ERROR_DECODE : Z := -7.
Definition ERROR_BUFFER_TOO_SMALL : Z := -13.

(** Status, buffer and length after a call. *)
Definition result : Type := Z * option bytes * option nat.

(** ** Base64 *)

(** A..Z, a..z, 0..9, +, / *)
Definition mlkem_b64_alphabet : bytes :=
  map Z.of_nat (seq 65 26) ++ map Z.of_nat (seq 97 26) ++ map Z.of_nat (seq 48 10) ++ [43; 47].

Definition mlkem_b64_decode_char (c : Z) : Z :=
  if (65 <=? c) && (c <=? 90) then c - 65
  else if (97 <=? c) && (c <=? 122) then c - 97 + 26
  else if (48 <=? c) && (c <=? 57) then c - 48 + 52
  else if c =? 43 then 62
  else if c =? 47 then 63
  else -1.

Definition MLKEM_PEM_LINE : nat := 64.

Definition mlkem_b64_encoded_len (bin_len : nat) : nat :=
  let groups := ((bin_len + 2) / 3)%nat in
  let b64 := (groups * 4)%nat in
  let lines := ((b64 + MLKEM_PEM_LINE - 1) / MLKEM_PEM_LINE)%nat in
  (b64 + lines)%nat.

Definition b64_char (v : Z) : Z := rd mlkem_b64_alphabet (Z.to_nat (Z.land v 0x3F)).

Definition b64_group (v : Z) : bytes :=
  [b64_char (Z.shiftr v 18); b64_char (Z.shiftr v 12); b64_char (Z.shiftr v 6); b64_char v].

(** The characters appended at [out_pos]; [col] is the column reached. *)
Fixpoint mlkem_b64_encode_wrapped (inp : bytes) (col : nat) : bytes :=
  match inp with
  | a :: b :: c :: rest =>
      let v := Z.lor (Z.lor (Z.shiftl a 16) (Z.shiftl b 8)) c in
      let col := (col + 4)%nat in
      b64_group v ++
      (if (MLKEM_PEM_LINE <=? col)%nat then 10 :: mlkem_b64_encode_wrapped rest 0 else mlkem_b64_encode_wrapped rest col)
  | [a; b] =>
      let v := Z.lor (Z.shiftl a 16) (Z.shiftl b 8) in
      [b64_char (Z.shiftr v 18); b64_char (Z.shiftr v 12); b64_char (Z.shiftr v 6); 61; 10]
  | [a] =>
      let v := Z.shiftl a 16 in
      [b64_char (Z.shiftr v 18); b64_char (Z.shiftr v 12); 61; 61; 10]
  | [] => if Nat.eqb col 0 then [] else [10]
  end.

(** [out] is what has been written, of at most [out_len] bytes; [None] is -1. *)
Fixpoint b64_decode_loop (inp : bytes) (out_len : nat) (out : bytes) (buf : Z) (buf_bits : Z) (pad : Z) : option bytes :=
  match inp with
  | [] => Some out
  | c :: inp =>
      if (c =? 13) || (c =? 10) || (c =? 32) || (c =? 9) then b64_decode_loop inp out_len out buf buf_bits pad
      else if c =? 61 then b64_decode_loop inp out_len out buf buf_bits (pad + 1)
      else if negb (pad =? 0) then None
      else
        let v := mlkem_b64_decode_char c in
        if v <? 0 then None
        else
          let buf := Z.lor (u32 (Z.shiftl buf 6)) v in
          let buf_bits := buf_bits + 6 in
          if 8 <=? buf_bits then
            let buf_bits := buf_bits - 8 in
            if (out_len <=? length out)%nat then None
            else
              let out := out ++ [u8 (Z.land (Z.shiftr buf buf_bits) 0xFF)] in
              b64_decode_loop inp out_len out (Z.land buf (Z.shiftl 1 buf_bits - 1)) buf_bits pad
          else b64_decode_loop inp out_len out buf buf_bits pad
  end.

Definition mlkem_b64_decode (inp : bytes) (out_len : nat) : option bytes := b64_decode_loop inp out_len [] 0 0 0.

(** The bytes written; the function returns their number. *)
Definition asn1_encode_length (len : nat) : bytes :=
  let n := Z.of_nat len in
  if n <? 128 then [u8 n]
  else if n <=? 0xFF then [0x81; u8 n]
  else if n <=? 0xFFFF then [0x82; u8 (Z.shiftr n 8); u8 (Z.land n 0xFF)]
  else [0x83; u8 (Z.shiftr n 16); u8 (Z.land (Z.shiftr n 8) 0xFF); u8 (Z.land n 0xFF)].

(** The length and the position after it; [None] is the return value 0. *)
Definition asn1_decode_length (buf : bytes) (p end_ : nat) : option (Z * nat) :=
  if (end_ <=? p)%nat then None
  else
    let first := rd buf p in
    let p := (p + 1)%nat in
    if first <? 128 then Some (first, p)
    else
      let num_bytes := Z.to_nat (Z.land first 0x7F) in
      if Nat.eqb num_bytes 0 || (4 <? num_bytes)%nat || (end_ - p <? num_bytes)%nat then None
      else Some (fold_left (fun out_len i => Z.lor (u64 (Z.shiftl out_len 8)) (rd buf (p + i))) (seq 0 num_bytes) 0, (p + num_bytes)%nat).

(** SLH-DSA: the value must fit the rest of the input. *)
Definition slhdsa_asn1_decode_length (buf : bytes) (p end_ : nat) : option (Z * nat) :=
  '(len, p) ← asn1_decode_length buf p end_; if Z.of_nat (end_ - p) <? len then None else Some (len, p).

Definition check (b : bool) : option unit := if b then Some tt else None.

(** ** PEM *)

(** "PUBLIC KEY", "PRIVATE KEY", "-----", "BEGIN " and "END " *)
Definition PUBLIC_KEY : bytes := [80; 85; 66; 76; 73; 67; 32; 75; 69; 89].
Definition PRIVATE_KEY : bytes := [80; 82; 73; 86; 65; 84; 69; 32; 75; 69; 89].
Definition dashes : bytes := replicate 5 45.
Definition start_marker (label : bytes) : bytes := dashes ++ [66; 69; 71; 73; 78; 32] ++ label ++ dashes.
Definition end_marker (label : bytes) : bytes := dashes ++ [69; 78; 68; 32] ++ label ++ dashes.

(** Export as PEM: the DER object goes to a buffer of [der_size] bytes on the stack (erased afterwards for private keys). *)
Definition export_pem (label : bytes) (der_size : nat) (export_der : option bytes -> nat -> option bytes -> option nat -> result)
    (key : option bytes) (key_len : nat) (pem_buffer : option bytes) (pem_len : option nat) : result :=
  match key, pem_len with
  | Some _, Some pl =>
      match export_der key key_len (Some (zeros der_size)) (Some der_size) with
      | (0, Some der, Some der_len) =>
          let hdr := start_marker label ++ [10] in
          let ftr := end_marker label ++ [10] in
          let need := (length hdr + mlkem_b64_encoded_len der_len + length ftr + 1)%nat in
          match pem_buffer with
          | None => (SUCCESS, pem_buffer, Some need)
          | Some buf =>
              if (pl <? need)%nat then (ERROR_BUFFER_TOO_SMALL, pem_buffer, Some need)
              else
                let text := hdr ++ mlkem_b64_encode_wrapped (take der_len der) 0 ++ ftr in
                (SUCCESS, Some (blit buf 0 (text ++ [0])), Some (length text))
          end
      | (status, _, _) => (status, pem_buffer, pem_len)
      end
  | _, _ => (ERROR_NULL_PTR, pem_buffer, pem_len)
  end.

(** A C string: the characters before the terminating 0. *)
Fixpoint c_string (buf : bytes) : bytes :=
  match buf with [] => [] | c :: buf => if c =? 0 then [] else c :: c_string buf end.

Fixpoint is_prefix (m s : bytes) : bool :=
  match m, s with
  | [], _ => true
  | a :: m, b :: s => (a =? b) && is_prefix m s
  | _ :: _, [] => false
  end.

(** [strstr]: the position of the first occurrence. *)
Fixpoint strstr (s m : bytes) : option nat :=
  if is_prefix m s then Some 0%nat
  else match s with [] => None | _ :: s => option_map S (strstr s m) end.

(** When the end marker starts within the start marker, [end_pos - start_pos] wraps around as a [size_t] and the decoder runs on into the rest of
    the string. *)
Definition import_pem (label : bytes) (der_size : nat) (import_der : option bytes -> nat -> option bytes -> option nat -> result)
    (pem_buffer : option bytes) (key : option bytes) (key_len : option nat) : result :=
  match pem_buffer, key_len with
  | Some buf, Some _ =>
      let s := c_string buf in
      match strstr s (start_marker label), strstr s (end_marker label) with
      | Some start_pos, Some end_pos =>
          if (end_pos <=? start_pos)%nat then (ERROR_DECODE, key, key_len)
          else
            let start_pos := (start_pos + length (start_marker label))%nat in
            let text := if (end_pos <? start_pos)%nat then drop start_pos s else sub s start_pos (end_pos - start_pos) in
            match mlkem_b64_decode text der_size with
            | None => (ERROR_DECODE, key, key_len)
            | Some der => import_der (Some der) (length der) key key_len
            end
      | _, _ => (ERROR_DECODE, key, key_len)
      end
  | _, _ => (ERROR_NULL_PTR, key, key_len)
  end.

(** ** DER lengths *)

Lemma lor_shl8 a b : 0 <= a < 2 ^ 56 -> 0 <= b < 256 -> Z.lor (u64 (Z.shiftl a 8)) b = a * 256 + b.
Proof.
  intros Ha Hb. rewrite u64_mod, Z.mod_small by (rewrite Z.shiftl_mul_pow2; lia). rewrite Z.lor_comm, lor_shift by lia. lia.
Qed.

(** The rest of the input at position [p] of a buffer that ends at [e]. *)
Definition at_pos (der : bytes) (e p : nat) (s : bytes) : Prop := drop p (take e der) = s /\ (p <= e <= length der)%nat.

Lemma at_pos_rest der e p s : at_pos der e p s -> (e - p = length s)%nat.
Proof. intros [<- H]. rewrite length_drop, length_take. lia. Qed.

Lemma at_pos_app der e p a s : at_pos der e p (a ++ s) -> at_pos der e (p + length a) s /\ sub der p (length a) = a /\ (p + length a <= e)%nat.
Proof.
  intros H. pose proof (at_pos_rest _ _ _ _ H) as Hl. rewrite length_app in Hl. destruct H as [H Hb]. split; [| split; [| lia]].
  - split; [| lia]. rewrite <- drop_drop, H. now rewrite drop_app_length.
  - unfold sub. transitivity (take (length a) (drop p (take e der))); [| rewrite H; apply take_app_length].
    rewrite skipn_firstn_comm, take_take. f_equal. lia.
Qed.

Lemma at_pos_cons der e p b s : at_pos der e p (b :: s) -> at_pos der e (p + 1) s /\ rd der p = b /\ (p < e)%nat.
Proof.
  intros H. destruct (at_pos_app der e p [b] s H) as (H1 & H2 & H3). cbn [length] in *. split; [exact H1 |]. split; [| lia].
  destruct H as [_ Hb]. unfold sub in H2. unfold rd. rewrite <- (take_drop p der). rewrite app_nth2; rewrite length_take; [| lia].
  replace (p - Nat.min p (length der))%nat with 0%nat by lia. destruct (drop p der) as [|x y]; [discriminate H2 |]. cbn in H2. now injection H2.
Qed.

(** Two results at the same position: the lengths remain. *)
Ltac same_position :=
  lazymatch goal with |- Some (?a, ?i) = Some (?b, ?j) => replace i with j by lia; cut (a = b); [intros ->; reflexivity |] end.

Lemma decode_length_at der e p n s : Z.of_nat n < 2 ^ 24 -> at_pos der e p (asn1_encode_length n ++ s) ->
  asn1_decode_length der p e = Some (Z.of_nat n, (p + length (asn1_encode_length n))%nat) /\ at_pos der e (p + length (asn1_encode_length n)) s.
Proof.
  intros Hz H. destruct (at_pos_app _ _ _ _ _ H) as (Hs & _ & Hle). split; [| exact Hs].
  pose proof (at_pos_rest _ _ _ _ H) as Hr. rewrite length_app in Hr.
  unfold asn1_decode_length, asn1_encode_length in *. set (z := Z.of_nat n) in *. assert (Hz0 : 0 <= z) by lia. clearbody z.
  destruct (Z.ltb_spec z 128); [| destruct (Z.leb_spec z 255); [| destruct (Z.leb_spec z 65535)]]; cbn [app length] in *;
    apply at_pos_cons in H as (H & R0 & _); rewrite R0; destruct (Nat.leb_spec e p); try lia.
  - rewrite !u8_mod. rewrite Z.mod_small by lia. destruct (Z.ltb_spec z 128); [reflexivity | lia].
  - change (129 <? 128) with false. change (Z.to_nat (Z.land 129 127)) with 1%nat. change (Nat.eqb 1 0) with false. change (4 <? 1)%nat with false. cbn [orb].
    destruct (Nat.ltb_spec (e - (p + 1)) 1); [lia |]. apply at_pos_cons in H as (H & R1 & _).
    cbn [seq fold_left]. rewrite Nat.add_0_r, R1. same_position. rewrite u8_mod, Z.mod_small by lia. rewrite lor_shl8; lia.
  - change (130 <? 128) with false. change (Z.to_nat (Z.land 130 127)) with 2%nat. change (Nat.eqb 2 0) with false. change (4 <? 2)%nat with false. cbn [orb].
    destruct (Nat.ltb_spec (e - (p + 1)) 2); [lia |]. apply at_pos_cons in H as (H & R1 & _). apply at_pos_cons in H as (H & R2 & _).
    cbn [seq fold_left]. rewrite Nat.add_0_r, R1, R2. same_position.
    rewrite Z.shiftr_div_pow2 by lia. change 255 with (Z.ones 8). rewrite Z.land_ones by lia. change (2 ^ 8) with 256.
    rewrite !u8_mod. rewrite (Z.mod_small (z / 256)) by lia. rewrite Zmod_mod. rewrite (lor_shl8 0), lor_shl8; lia.
  - change (131 <? 128) with false. change (Z.to_nat (Z.land 131 127)) with 3%nat. change (Nat.eqb 3 0) with false. change (4 <? 3)%nat with false. cbn [orb].
    destruct (Nat.ltb_spec (e - (p + 1)) 3); [lia |]. apply at_pos_cons in H as (H & R1 & _). apply at_pos_cons in H as (H & R2 & _).
    apply at_pos_cons in H as (H & R3 & _). cbn [seq fold_left]. rewrite Nat.add_0_r, R1, R2. replace (p + 1 + 2)%nat with (p + 1 + 1 + 1)%nat by lia. rewrite R3.
    same_position. rewrite !Z.shiftr_div_pow2 by lia. change 255 with (Z.ones 8). rewrite !Z.land_ones by lia.
    change (2 ^ 8) with 256. change (2 ^ 16) with 65536. rewrite !u8_mod. rewrite (Z.mod_small (z / 65536)) by lia. rewrite !Zmod_mod.
    rewrite (lor_shl8 0), (lor_shl8 (0 * 256 + z / 65536)), lor_shl8; lia.
Qed.

Lemma at_pos_ok der e p s : at_pos der e p s -> (p <= e)%nat.
Proof. intros [_ H]. lia. Qed.

Lemma check_true b : b = true -> check b = Some tt.
Proof. now intros ->. Qed.

Lemma check_inv b u : check b = Some u -> b = true.
Proof. now destruct b. Qed.

(** Next byte of the input: the guard [p < end && *p == b] holds. *)
Lemma at_pos_guard der e p b s : at_pos der e p (b :: s) -> check ((p <? e)%nat && (rd der p =? b)) = Some tt /\ at_pos der e (p + 1) s.
Proof.
  intros H. apply at_pos_cons in H as (H & R & L). split; [| exact H]. apply check_true. rewrite R, Z.eqb_refl, andb_true_r. now apply Nat.ltb_lt.
Qed.

(** ** Base64 round trip *)

Definition b64_alpha (v : Z) : Z := rd mlkem_b64_alphabet (Z.to_nat v).

Lemma b64_char_alpha v : 0 <= v -> b64_char v = b64_alpha (v mod 64).
Proof. intros H. unfold b64_char, b64_alpha. change 63 with (Z.ones 6). now rewrite Z.land_ones by lia. Qed.

(** A character of the alphabet: it decodes to its index, and is no blank, padding, dash or terminator. *)
Definition plain (c : Z) : bool := negb ((c =? 13) || (c =? 10) || (c =? 32) || (c =? 9)) && negb (c =? 61) && negb (c =? 45) && negb (c =? 0).

Lemma b64_alpha_ok v : 0 <= v < 64 -> mlkem_b64_decode_char (b64_alpha v) = v /\ plain (b64_alpha v) = true.
Proof.
  intros H. assert (A : Forall (fun n => (mlkem_b64_decode_char (b64_alpha (Z.of_nat n)) =? Z.of_nat n) && plain (b64_alpha (Z.of_nat n)) = true) (seq 0 64))
    by (repeat (apply Forall_cons; [reflexivity |]); apply Forall_nil).
  rewrite List.Forall_forall in A. specialize (A (Z.to_nat v)). rewrite Z2Nat.id in A by lia.
  destruct (andb_prop _ _ (A ltac:(apply in_seq; lia))) as [A1 A2]. split; [now apply Z.eqb_eq | exact A2].
Qed.

Lemma decode_step v s ol out buf bits : 0 <= v < 64 -> 0 <= buf < 2 ^ bits -> 0 <= bits <= 6 ->
  b64_decode_loop (b64_alpha v :: s) ol out buf bits 0 =
    if bits <? 2 then b64_decode_loop s ol out (buf * 64 + v) (bits + 6) 0
    else if (ol <=? length out)%nat then None
    else b64_decode_loop s ol (out ++ [(buf * 64 + v) / 2 ^ (bits - 2)]) ((buf * 64 + v) mod 2 ^ (bits - 2)) (bits - 2) 0.
Proof.
  intros Hv Hb Hbits. destruct (b64_alpha_ok v Hv) as [D P]. cbn [b64_decode_loop]. rewrite D. unfold plain in P.
  apply andb_prop in P as [P _]. apply andb_prop in P as [P _]. apply andb_prop in P as [P1 P2]. apply negb_true_iff in P1, P2. rewrite P1, P2. cbn [Z.eqb negb].
  destruct (Z.ltb_spec v 0); [lia |].
  assert (2 ^ bits <= 64) by (change 64 with (2 ^ 6); apply Z.pow_le_mono_r; lia).
  assert (E : Z.lor (u32 (Z.shiftl buf 6)) v = buf * 64 + v).
  { rewrite u32_id by (unfold is_u32; rewrite Z.shiftl_mul_pow2; lia). rewrite Z.lor_comm, lor_shift; lia. }
  rewrite E. destruct (Z.ltb_spec bits 2), (Z.leb_spec 8 (bits + 6)); try lia; [reflexivity |].
  replace (bits + 6 - 8) with (bits - 2) by lia. destruct (Nat.leb_spec ol (length out)); [reflexivity |].
  rewrite (Z.shiftl_mul_pow2 1), Z.mul_1_l by lia.
  replace (2 ^ (bits - 2) - 1) with (Z.ones (bits - 2)) by (rewrite Z.ones_equiv; lia). rewrite Z.land_ones, Z.shiftr_div_pow2 by lia.
  change 255 with (Z.ones 8). rewrite Z.land_ones by lia. change (2 ^ 8) with 256.
  assert (B : 0 <= (buf * 64 + v) / 2 ^ (bits - 2) < 256).
  { split; [apply Z.div_pos; lia | apply Z.div_lt_upper_bound; [lia |]]. replace (2 ^ (bits - 2) * 256) with (2 ^ bits * 64); [nia |].
    replace bits with (bits - 2 + 2) at 1 by lia. rewrite Z.pow_add_r by lia. lia. }
  rewrite Z.mod_small by exact B. now rewrite u8_id by exact B.
Qed.

(** The characters of one, two and three bytes, as digits in base 64. *)
Lemma digits3 a b c : is_u8 a -> is_u8 b -> is_u8 c ->
  b64_group (Z.lor (Z.lor (Z.shiftl a 16) (Z.shiftl b 8)) c) =
    [b64_alpha (a / 4); b64_alpha (a mod 4 * 16 + b / 16); b64_alpha (b mod 16 * 4 + c / 64); b64_alpha (c mod 64)].
Proof.
  unfold is_u8. intros Ha Hb Hc. rewrite <- Z.lor_assoc, Z.lor_comm. rewrite (Z.lor_comm (Z.shiftl b 8)), (lor_shift c b 8), lor_shift by lia.
  unfold b64_group. rewrite !Z.shiftr_div_pow2 by lia. rewrite !b64_char_alpha by (try apply Z.div_pos; lia).
  repeat (apply (f_equal2 cons); [apply f_equal; lia |]). reflexivity.
Qed.

Lemma digits2 a b : is_u8 a -> is_u8 b -> let v := Z.lor (Z.shiftl a 16) (Z.shiftl b 8) in
  b64_char (Z.shiftr v 18) = b64_alpha (a / 4) /\ b64_char (Z.shiftr v 12) = b64_alpha (a mod 4 * 16 + b / 16) /\
  b64_char (Z.shiftr v 6) = b64_alpha (b mod 16 * 4).
Proof.
  intros Ha Hb v. pose proof (digits3 a b 0 Ha Hb (conj (Z.le_refl 0) eq_refl)) as E. rewrite Z.lor_0_r in E. fold v in E. injection E as E1 E2 E3 _.
  split; [exact E1 |]. split; [exact E2 |]. rewrite E3. f_equal. change (0 / 64) with 0. lia.
Qed.

Lemma digits1 a : is_u8 a -> let v := Z.shiftl a 16 in
  b64_char (Z.shiftr v 18) = b64_alpha (a / 4) /\ b64_char (Z.shiftr v 12) = b64_alpha (a mod 4 * 16).
Proof.
  intros Ha v. pose proof (digits2 a 0 Ha (conj (Z.le_refl 0) eq_refl)) as (E1 & E2 & _). rewrite Z.shiftl_0_l, Z.lor_0_r in E1, E2. fold v in E1, E2.
  split; [exact E1 |]. rewrite E2. f_equal. change (0 / 16) with 0. lia.
Qed.

(** Two runs of the decoder with the same output, buffer and number of bits. *)
Lemma loop_cong s ol out l l' y y' z z' pad : l = l' -> y = y' -> z = z' ->
  b64_decode_loop s ol (out ++ l) y z pad = b64_decode_loop s ol (out ++ l') y' z' pad.
Proof. now intros -> -> ->. Qed.

Ltac same_digits := apply loop_cong; [repeat (apply (f_equal2 cons); [lia |]); reflexivity | lia | lia].

(** Decoding one, two and three bytes. *)
Lemma decode1 a s ol out : is_u8 a -> (length out < ol)%nat ->
  b64_decode_loop (b64_alpha (a / 4) :: b64_alpha (a mod 4 * 16) :: s) ol out 0 0 0 = b64_decode_loop s ol (out ++ [a]) 0 4 0.
Proof.
  unfold is_u8. intros Ha Hl. rewrite decode_step by lia. cbn [Z.ltb Z.compare]. rewrite decode_step by lia. change (0 + 6 <? 2) with false.
  cbv iota. destruct (Nat.leb_spec ol (length out)); [lia |]. same_digits.
Qed.

Lemma decode2 a b s ol out : is_u8 a -> is_u8 b -> (length out + 1 < ol)%nat ->
  b64_decode_loop (b64_alpha (a / 4) :: b64_alpha (a mod 4 * 16 + b / 16) :: b64_alpha (b mod 16 * 4) :: s) ol out 0 0 0 =
  b64_decode_loop s ol (out ++ [a; b]) 0 2 0.
Proof.
  unfold is_u8. intros Ha Hb Hl. rewrite decode_step by lia. cbn [Z.ltb Z.compare]. rewrite decode_step by lia. change (0 + 6 <? 2) with false. cbv iota.
  destruct (Nat.leb_spec ol (length out)); [lia |]. change (2 ^ (0 + 6 - 2)) with 16. change (0 + 6 - 2) with 4.
  rewrite decode_step by (change (2 ^ 4) with 16; lia). change (4 <? 2) with false. cbv iota. rewrite length_app. cbn [length].
  destruct (Nat.leb_spec ol (length out + 1)); [lia |]. rewrite <- app_assoc. cbn [app]. change (2 ^ (4 - 2)) with 4. change (4 - 2) with 2.
  same_digits.
Qed.

Lemma decode3 a b c s ol out : is_u8 a -> is_u8 b -> is_u8 c -> (length out + 2 < ol)%nat ->
  b64_decode_loop (b64_alpha (a / 4) :: b64_alpha (a mod 4 * 16 + b / 16) :: b64_alpha (b mod 16 * 4 + c / 64) :: b64_alpha (c mod 64) :: s) ol out 0 0 0 =
  b64_decode_loop s ol (out ++ [a; b; c]) 0 0 0.
Proof.
  unfold is_u8. intros Ha Hb Hc Hl. rewrite decode_step by lia. cbn [Z.ltb Z.compare]. rewrite decode_step by lia. change (0 + 6 <? 2) with false. cbv iota.
  destruct (Nat.leb_spec ol (length out)); [lia |]. change (2 ^ (0 + 6 - 2)) with 16. change (0 + 6 - 2) with 4.
  rewrite decode_step by (change (2 ^ 4) with 16; lia). change (4 <? 2) with false. cbv iota. rewrite length_app. cbn [length].
  destruct (Nat.leb_spec ol (length out + 1)); [lia |]. change (2 ^ (4 - 2)) with 4. change (4 - 2) with 2.
  rewrite decode_step by (change (2 ^ 2) with 4; lia). change (2 <? 2) with false. cbv iota. rewrite !length_app. cbn [length].
  destruct (Nat.leb_spec ol (length out + 1 + 1)); [lia |]. rewrite <- !app_assoc. cbn [app]. change (2 ^ (2 - 2)) with 1. change (2 - 2) with 0.
  rewrite Z.mod_1_r, Z.div_1_r. same_digits.
Qed.

(** Induction on three elements at a time, as the encoder reads its input. *)
Lemma list_ind3 {A} (P : list A -> Prop) :
  P [] -> (forall a, P [a]) -> (forall a b, P [a; b]) -> (forall a b c l, P l -> P (a :: b :: c :: l)) -> forall l, P l.
Proof.
  intros H0 H1 H2 H3. fix rec 1. intros [|a [|b [|c l]]]; [exact H0 | apply H1 | apply H2 | apply H3, rec].
Qed.

Lemma newline_skipped s ol out buf bits pad : b64_decode_loop (10 :: s) ol out buf bits pad = b64_decode_loop s ol out buf bits pad.
Proof. reflexivity. Qed.

Lemma b64_roundtrip inp : are_bytes inp -> forall col ol out, (length out + length inp <= ol)%nat ->
  b64_decode_loop (mlkem_b64_encode_wrapped inp col) ol out 0 0 0 = Some (out ++ inp).
Proof.
  induction inp as [|a|a b|a b c l IH] using list_ind3; intros Hb col ol out Hl; cbn [length] in Hl; cbn [mlkem_b64_encode_wrapped].
  - rewrite app_nil_r. now destruct (Nat.eqb col 0).
  - inversion_clear Hb as [|? ? Ha _]. destruct (digits1 a Ha) as [-> ->]. rewrite decode1 by (assumption || lia). reflexivity.
  - inversion_clear Hb as [|? ? Ha Hb']. inversion_clear Hb' as [|? ? Hb'' _]. destruct (digits2 a b Ha Hb'') as (-> & -> & ->).
    rewrite decode2 by (assumption || lia). reflexivity.
  - inversion_clear Hb as [|? ? Ha Hb']. inversion_clear Hb' as [|? ? Hb'' Hc']. inversion_clear Hc' as [|? ? Hc Hr]. rewrite digits3 by assumption. cbn [app].
    rewrite decode3 by (assumption || lia).
    destruct (_ <=? _)%nat; [rewrite newline_skipped |]; rewrite IH; try assumption; rewrite ?length_app; cbn [length]; try lia; rewrite <- app_assoc; reflexivity.
Qed.

Lemma length_encode_wrapped inp : forall col, (col < 64)%nat -> (col mod 4 = 0)%nat ->
  length (mlkem_b64_encode_wrapped inp col) = (4 * ((length inp + 2) / 3) + (col + 4 * ((length inp + 2) / 3) + 63) / 64)%nat.
Proof.
  induction inp as [|a|a b|a b c l IH] using list_ind3; intros col H1 H2; cbn [mlkem_b64_encode_wrapped length].
  - destruct (Nat.eqb_spec col 0) as [-> | Hc]; [reflexivity |]. cbn [length]. change ((0 + 2) / 3)%nat with 0%nat. lia.
  - change ((1 + 2) / 3)%nat with 1%nat. lia.
  - change ((2 + 2) / 3)%nat with 1%nat. lia.
  - rewrite length_app. cbn [b64_group length]. replace ((S (S (S (length l))) + 2) / 3)%nat with (1 + (length l + 2) / 3)%nat by lia.
    set (g := ((length l + 2) / 3)%nat) in *. unfold MLKEM_PEM_LINE. destruct (Nat.leb_spec 64 (col + 4)).
    + cbn [length]. rewrite IH by (reflexivity || lia). replace col with 60%nat by lia. lia.
    + rewrite IH by lia. lia.
Qed.

Lemma encode_wrapped_plain inp : are_bytes inp -> forall col, Forall (fun c => c <> 45 /\ c <> 0) (mlkem_b64_encode_wrapped inp col).
Proof.
  assert (A : forall v, 0 <= v < 64 -> b64_alpha v <> 45 /\ b64_alpha v <> 0).
  { intros v Hv. destruct (b64_alpha_ok v Hv) as [_ P]. unfold plain in P. apply andb_prop in P as [P P2]. apply andb_prop in P as [_ P1].
    apply negb_true_iff in P1, P2. split; now apply Z.eqb_neq. }
  unfold are_bytes, is_u8.
  induction inp as [|a|a b|a b c l IH] using list_ind3; intros Hb col; cbn [mlkem_b64_encode_wrapped].
  - destruct (Nat.eqb col 0); repeat constructor; lia.
  - inversion_clear Hb as [|? ? Ha _]. destruct (digits1 a Ha) as [-> ->]. repeat (apply Forall_cons; [first [apply A; lia | lia] |]). apply Forall_nil.
  - inversion_clear Hb as [|? ? Ha Hb']. inversion_clear Hb' as [|? ? Hb'' _]. destruct (digits2 a b Ha Hb'') as (-> & -> & ->).
    repeat (apply Forall_cons; [first [apply A; lia | lia] |]). apply Forall_nil.
  - inversion_clear Hb as [|? ? Ha Hb']. inversion_clear Hb' as [|? ? Hb'' Hc']. inversion_clear Hc' as [|? ? Hc Hr]. rewrite digits3 by assumption. cbn [app].
    repeat (apply Forall_cons; [apply A; lia |]). destruct (_ <=? _)%nat; [apply Forall_cons; [lia |] |]; now apply IH.
Qed.

(** ** PEM text *)

Lemma c_string_app t rest : Forall (fun c => c <> 0) t -> c_string (t ++ 0 :: rest) = t.
Proof.
  induction 1 as [|c t Hc _ IH]; cbn [app c_string]; [reflexivity |]. destruct (Z.eqb_spec c 0); [contradiction | now rewrite IH].
Qed.

Lemma strstr_prefix m s : strstr (m ++ s) m = Some 0%nat.
Proof.
  assert (P : is_prefix m (m ++ s) = true) by (induction m as [|c m IH]; cbn; rewrite ?Z.eqb_refl; auto).
  destruct (m ++ s); cbn [strstr]; now rewrite P.
Qed.

(** Text without a dash cannot hold the beginning of a marker. *)
Lemma strstr_skip t s m : Forall (fun c => c <> 45) t -> strstr (t ++ s) (45 :: m) = option_map (Nat.add (length t)) (strstr s (45 :: m)).
Proof.
  induction 1 as [|c t Hc _ IH]; cbn [app length]; [now destruct (strstr s _) |]. cbn [strstr is_prefix].
  destruct (Z.eqb_spec 45 c); [congruence |]. cbn [andb]. rewrite IH. now destruct (strstr s _).
Qed.

(** What the export writes before the terminator. *)
Definition pem_text (label der : bytes) : bytes := start_marker label ++ [10] ++ mlkem_b64_encode_wrapped der 0 ++ end_marker label ++ [10].

Definition label_ok (label : bytes) : Prop := label = PUBLIC_KEY \/ label = PRIVATE_KEY.

Lemma pem_text_nonzero label der : label_ok label -> are_bytes der -> Forall (fun c => c <> 0) (pem_text label der).
Proof.
  intros HL H. unfold pem_text. rewrite !Forall_app. split; [destruct HL as [-> | ->]; repeat constructor; discriminate |].
  split; [repeat constructor; discriminate |]. split; [| split; [destruct HL as [-> | ->] |]; repeat constructor; discriminate].
  eapply Forall_impl; [| exact (encode_wrapped_plain der H 0)]; intros c [_ Hc]; exact Hc.
Qed.

(** The end marker does not occur before the end. *)
Lemma body_end label der : are_bytes der ->
  strstr (10 :: mlkem_b64_encode_wrapped der 0 ++ end_marker label ++ [10]) (end_marker label) = Some (1 + length (mlkem_b64_encode_wrapped der 0))%nat.
Proof.
  intros H. set (body := mlkem_b64_encode_wrapped der 0). change (end_marker label) with (45 :: tl (end_marker label)) at 2.
  change (10 :: body ++ end_marker label ++ [10]) with ((10 :: body) ++ end_marker label ++ [10]). rewrite strstr_skip.
  - change (45 :: tl (end_marker label)) with (end_marker label). rewrite strstr_prefix. cbn [option_map length]. f_equal. lia.
  - apply Forall_cons; [discriminate |]. eapply Forall_impl; [| exact (encode_wrapped_plain der H 0)]; intros c [Hc _]; exact Hc.
Qed.

Lemma pem_text_end label der : label_ok label -> are_bytes der ->
  strstr (pem_text label der) (end_marker label) = Some (length (start_marker label) + 1 + length (mlkem_b64_encode_wrapped der 0))%nat.
Proof.
  intros HL H. transitivity (option_map (Nat.add (length (start_marker label))) (strstr (10 :: mlkem_b64_encode_wrapped der 0 ++ end_marker label ++ [10]) (end_marker label))).
  - unfold pem_text. generalize (mlkem_b64_encode_wrapped der 0 ++ end_marker label ++ [10]). intros t.
    destruct HL as [-> | ->]; cbn; now destruct (strstr t _).
  - rewrite body_end by exact H. cbn [option_map]. f_equal. lia.
Qed.

Lemma length_pem_text label der :
  length (pem_text label der) = (length (start_marker label ++ [10%Z]) + mlkem_b64_encoded_len (length der) + length (end_marker label ++ [10%Z]))%nat.
Proof.
  unfold pem_text. rewrite !length_app, length_encode_wrapped by (reflexivity || lia). unfold mlkem_b64_encoded_len, MLKEM_PEM_LINE.
  rewrite (Nat.mul_comm 4). replace (0 + (length der + 2) / 3 * 4 + 63)%nat with ((length der + 2) / 3 * 4 + 64 - 1)%nat by lia. cbn [length]. lia.
Qed.

(** The text between the markers. *)
Lemma pem_text_body label der :
  sub (pem_text label der) (length (start_marker label)) (1 + length (mlkem_b64_encode_wrapped der 0)) = 10 :: mlkem_b64_encode_wrapped der 0.
Proof.
  set (body := mlkem_b64_encode_wrapped der 0). unfold pem_text, sub. fold body. rewrite drop_app_length.
  change (1 + length body)%nat with (length (10 :: body)). change ([10] ++ body ++ end_marker label ++ [10]) with ((10 :: body) ++ end_marker label ++ [10]).
  apply take_app_length.
Qed.

Lemma decode_body der ol : are_bytes der -> (length der <= ol)%nat -> mlkem_b64_decode (10 :: mlkem_b64_encode_wrapped der 0) ol = Some der.
Proof. intros H L. unfold mlkem_b64_decode. rewrite newline_skipped. exact (b64_roundtrip der H 0 ol [] L). Qed.

Lemma import_pem_text label size import_der (der rest : bytes) (key : option bytes) (n : nat) :
  label_ok label -> are_bytes der -> (length der <= size)%nat ->
  import_pem label size import_der (Some (pem_text label der ++ 0 :: rest)) key (Some n) = import_der (Some der) (length der) key (Some n).
Proof.
  intros HL H L. unfold import_pem. rewrite c_string_app by now apply pem_text_nonzero. cbv zeta.
  rewrite (pem_text_end label der HL H). unfold pem_text at 1. rewrite strstr_prefix. rewrite Nat.add_0_l.
  set (k := length (start_marker label)). set (m := length (mlkem_b64_encode_wrapped der 0)).
  destruct (Nat.leb_spec (k + 1 + m) 0); [lia |]. destruct (Nat.ltb_spec (k + 1 + m) k); [lia |].
  replace (k + 1 + m - k)%nat with (1 + m)%nat by lia. unfold k, m. now rewrite pem_text_body, decode_body.
Qed.

Lemma take_blit buf src : take (length src) (blit buf 0 src) = src.
Proof. unfold blit. rewrite take_0. cbn [app]. apply take_app_length. Qed.

Lemma drop_blit buf src : drop (length src) (blit buf 0 src) = drop (length src) buf.
Proof. unfold blit. rewrite take_0. cbn [app]. apply drop_app_length. Qed.

Lemma length_blit0 buf src : (length src <= length buf)%nat -> length (blit buf 0 src) = length buf.
Proof. intros H. unfold blit. rewrite take_0. cbn [app]. rewrite length_app, length_drop. lia. Qed.

(** The export as PEM, for an export function that writes the object [obj]. *)
Lemma export_pem_spec label size export_der (key obj : bytes) (key_len : nat) (buf : option bytes) (pl : nat) :
  export_der (Some key) key_len (Some (zeros size)) (Some size) = (SUCCESS, Some (blit (zeros size) 0 obj), Some (length obj)) ->
  let need := (length (pem_text label obj) + 1)%nat in
  export_pem label size export_der (Some key) key_len buf (Some pl) =
    match buf with
    | None => (SUCCESS, None, Some need)
    | Some b => if (pl <? need)%nat then (ERROR_BUFFER_TOO_SMALL, Some b, Some need)
                else (SUCCESS, Some (blit b 0 (pem_text label obj ++ [0])), Some (length (pem_text label obj)))
    end.
Proof.
  intros E need. unfold export_pem. rewrite E. unfold SUCCESS at 1. cbv zeta iota. rewrite <- length_pem_text, take_blit. fold need.
  destruct buf as [b|]; [| reflexivity]. destruct (pl <? need)%nat; [reflexivity |]. unfold pem_text. rewrite <- !app_assoc. reflexivity.
Qed.
