(* ===== verification/KeyInterop.v ===== *)
(** * Import and export of keys

    Public keys of ML-KEM ([qudo-mlkem/src/mlkem_interop.c]) and ML-DSA ([qudo-mldsa/src/mldsa_interop.c]), private keys of ML-DSA, and both kinds of keys of
    SLH-DSA ([qudo-slhdsa/src/slhdsa_interop.c]), as DER and PEM, in the build of the module (without OpenSSL).  The functions for public keys of
    ML-KEM and of ML-DSA are the same text up to the object identifiers and key sizes: they are one definition over [scheme].  The parsers are
    written with the steps that the C code repeats: a tag, a tag with a length, an algorithm identifier. *)

From stdpp Require Import base list numbers strings.
From Stdlib Require Import ZArith Lia ZifyNat.
From S2P Require Import Prelude KeyEncoding.

#[local] Open Scope Z_scope.

(** ** Object identifiers and sizes *)

Definition OID_ML_KEM_512 : bytes := [0x60; 0x86; 0x48; 0x01; 0x65; 0x03; 0x04; 0x04; 0x01].
Definition OID_ML_KEM_768 : bytes := [0x60; 0x86; 0x48; 0x01; 0x65; 0x03; 0x04; 0x04; 0x02].
Definition OID_ML_KEM_1024 : bytes := [0x60; 0x86; 0x48; 0x01; 0x65; 0x03; 0x04; 0x04; 0x03].

Definition OID_ML_DSA_44 : bytes := [0x60; 0x86; 0x48; 0x01; 0x65; 0x03; 0x04; 0x03; 0x11].
Definition OID_ML_DSA_65 : bytes := [0x60; 0x86; 0x48; 0x01; 0x65; 0x03; 0x04; 0x03; 0x12].
Definition OID_ML_DSA_87 : bytes := [0x60; 0x86; 0x48; 0x01; 0x65; 0x03; 0x04; 0x03; 0x13].

Definition ML_DSA_44_PUBLIC_KEY_BYTES : nat := 1312.
Definition ML_DSA_44_SECRET_KEY_BYTES : nat := 2560.
Definition ML_DSA_65_PUBLIC_KEY_BYTES : nat := 1952.
Definition ML_DSA_65_SECRET_KEY_BYTES : nat := 4032.
Definition ML_DSA_87_PUBLIC_KEY_BYTES : nat := 2592.
Definition ML_DSA_87_SECRET_KEY_BYTES : nat := 4896.
Definition MLDSA_SEEDBYTES : nat := 32.

Definition get_oid_for_key_size (key_len : nat) : option bytes :=
  if Nat.eqb key_len 800 then Some OID_ML_KEM_512
  else if Nat.eqb key_len 1184 then Some OID_ML_KEM_768
  else if Nat.eqb key_len 1568 then Some OID_ML_KEM_1024
  else None.

Definition get_oid_for_public_key_size (key_len : nat) : option bytes :=
  if Nat.eqb key_len 1312 then Some OID_ML_DSA_44
  else if Nat.eqb key_len 1952 then Some OID_ML_DSA_65
  else if Nat.eqb key_len 2592 then Some OID_ML_DSA_87
  else None.

(** The secret key, the secret key with the public key, or the seed with the secret key. *)
Definition get_oid_for_private_key_size (key_len : nat) : option bytes :=
  if Nat.eqb key_len ML_DSA_44_SECRET_KEY_BYTES || Nat.eqb key_len (ML_DSA_44_SECRET_KEY_BYTES + ML_DSA_44_PUBLIC_KEY_BYTES)
     || Nat.eqb key_len (MLDSA_SEEDBYTES + ML_DSA_44_SECRET_KEY_BYTES) then Some OID_ML_DSA_44
  else if Nat.eqb key_len ML_DSA_65_SECRET_KEY_BYTES || Nat.eqb key_len (ML_DSA_65_SECRET_KEY_BYTES + ML_DSA_65_PUBLIC_KEY_BYTES)
          || Nat.eqb key_len (MLDSA_SEEDBYTES + ML_DSA_65_SECRET_KEY_BYTES) then Some OID_ML_DSA_65
  else if Nat.eqb key_len ML_DSA_87_SECRET_KEY_BYTES || Nat.eqb key_len (ML_DSA_87_SECRET_KEY_BYTES + ML_DSA_87_PUBLIC_KEY_BYTES)
          || Nat.eqb key_len (MLDSA_SEEDBYTES + ML_DSA_87_SECRET_KEY_BYTES) then Some OID_ML_DSA_87
  else None.

(** The two files with the same functions for public keys. *)
Inductive scheme := mlkem | mldsa.

Definition oid_for_public_key (s : scheme) : nat -> option bytes :=
  match s with mlkem => get_oid_for_key_size | mldsa => get_oid_for_public_key_size end.

Definition oid_known (s : scheme) (oid : bytes) : bool :=
  match s with
  | mlkem => bool_decide (oid = OID_ML_KEM_512) || bool_decide (oid = OID_ML_KEM_768) || bool_decide (oid = OID_ML_KEM_1024)
  | mldsa => bool_decide (oid = OID_ML_DSA_44) || bool_decide (oid = OID_ML_DSA_65) || bool_decide (oid = OID_ML_DSA_87)
  end.

Definition public_len_ok (s : scheme) (len : Z) : bool :=
  match s with
  | mlkem => (len =? 800) || (len =? 1184) || (len =? 1568)
  | mldsa => (len =? Z.of_nat ML_DSA_44_PUBLIC_KEY_BYTES) || (len =? Z.of_nat ML_DSA_65_PUBLIC_KEY_BYTES) || (len =? Z.of_nat ML_DSA_87_PUBLIC_KEY_BYTES)
  end.

(** ** Writing *)

(** A SubjectPublicKeyInfo and a PrivateKeyInfo with the given lengths of the two sequences, as the export functions write them through [p]. *)
Definition alg_id (alg_id_content_len : nat) (oid : bytes) : bytes :=
  [0x30] ++ asn1_encode_length alg_id_content_len ++ [0x06; u8 (Z.of_nat (length oid))] ++ oid.

Definition spki (spki_content_len alg_id_content_len : nat) (oid key : bytes) : bytes :=
  [0x30] ++ asn1_encode_length spki_content_len ++ alg_id alg_id_content_len oid ++
  [0x03] ++ asn1_encode_length (1 + length key) ++ [0x00] ++ key.

Definition pkcs8 (pki_content_len alg_id_content_len : nat) (oid content : bytes) : bytes :=
  [0x30] ++ asn1_encode_length pki_content_len ++ [0x02; 0x01; 0x00] ++ alg_id alg_id_content_len oid ++
  [0x04] ++ asn1_encode_length (length content) ++ content.

(** The end of an export: the size is reported when the buffer is too small. *)
Definition write_der (der : bytes) (dl total_len : nat) (enc : bytes) : result :=
  if (dl <? total_len)%nat then (ERROR_BUFFER_TOO_SMALL, Some der, Some total_len)
  else (SUCCESS, Some (blit der 0 enc), Some (length enc)).

Definition export_public_key_der (s : scheme) (public_key : option bytes) (public_key_len : nat) (der_buffer : option bytes) (der_len : option nat) : result :=
  match public_key, der_buffer, der_len with
  | Some pk, Some der, Some dl =>
      match oid_for_public_key s public_key_len with
      | None => (ERROR_INVALID_ARG, der_buffer, der_len)
      | Some oid =>
          let alg_id_content_len := (2 + length oid)%nat in
          let alg_id_total := (1 + length (asn1_encode_length alg_id_content_len) + alg_id_content_len)%nat in
          let bit_string_content_len := (1 + public_key_len)%nat in
          let bit_string_total := (1 + length (asn1_encode_length bit_string_content_len) + bit_string_content_len)%nat in
          let spki_content_len := (alg_id_total + bit_string_total)%nat in
          let total_len := (1 + length (asn1_encode_length spki_content_len) + spki_content_len)%nat in
          write_der der dl total_len (spki spki_content_len alg_id_content_len oid (take public_key_len pk))
      end
  | _, _, _ => (ERROR_NULL_PTR, der_buffer, der_len)
  end.

(** The private key is wrapped in two OCTET STRINGs. *)
Definition QUDO_MLDSA_export_private_key_der (private_key : option bytes) (private_key_len : nat) (der_buffer : option bytes) (der_len : option nat) : result :=
  match private_key, der_buffer, der_len with
  | Some sk, Some der, Some dl =>
      match get_oid_for_private_key_size private_key_len with
      | None => (ERROR_INVALID_ARG, der_buffer, der_len)
      | Some oid =>
          let version_len := 3%nat in
          let alg_id_content_len := (2 + length oid)%nat in
          let alg_id_total := (1 + length (asn1_encode_length alg_id_content_len) + alg_id_content_len)%nat in
          let inner_oct_total := (1 + length (asn1_encode_length private_key_len) + private_key_len)%nat in
          let outer_oct_total := (1 + length (asn1_encode_length inner_oct_total) + inner_oct_total)%nat in
          let pki_content_len := (version_len + alg_id_total + outer_oct_total)%nat in
          let total_len := (1 + length (asn1_encode_length pki_content_len) + pki_content_len)%nat in
          write_der der dl total_len
            (pkcs8 pki_content_len alg_id_content_len oid ([0x04] ++ asn1_encode_length private_key_len ++ take private_key_len sk))
      end
  | _, _, _ => (ERROR_NULL_PTR, der_buffer, der_len)
  end.

(** ** Reading *)

Section Scan.
Context (decode_length : bytes -> nat -> nat -> option (Z * nat)) (der : bytes) (end_ : nat).

(** [p >= end || *p++ != tag] is an error. *)
Definition scan_tag (p : nat) (tag : Z) : option nat := _ ← check ((p <? end_)%nat && (rd der p =? tag)); Some (p + 1)%nat.

Definition scan_header (p : nat) (tag : Z) : option (Z * nat) := p ← scan_tag p tag; decode_length der p end_.

Definition scan_alg_id (p : nat) : option (bytes * nat) :=
  '(_, p) ← scan_header p 0x30;
  p ← scan_tag p 0x06;
  _ ← check (p <? end_)%nat;
  let oid_len := Z.to_nat (rd der p) in
  let p := (p + 1)%nat in
  _ ← check (oid_len <=? end_ - p)%nat;
  Some (sub der p oid_len, (p + oid_len)%nat).

(** The length of the key in a BIT STRING without unused bits. *)
Definition scan_bit_string (p : nat) : option (Z * nat) :=
  '(len, p) ← scan_header p 0x03;
  _ ← check (negb (len =? 0));
  p ← scan_tag p 0x00;
  Some (len - 1, p).

(** The version: an INTEGER that is skipped. *)
Definition scan_version (p : nat) : option nat :=
  '(len, p) ← scan_header p 0x02;
  _ ← check (len <=? Z.of_nat (end_ - p));
  Some (p + Z.to_nat len)%nat.

End Scan.

(** The checks of the import function up to the copy: the position and the length of the key. *)
Definition import_public_scan (s : scheme) (der : bytes) (end_ : nat) : option (nat * nat) :=
  _ ← check (10 <=? end_)%nat;
  '(_, p) ← scan_header asn1_decode_length der end_ 0 0x30;
  '(oid, p) ← scan_alg_id asn1_decode_length der end_ p;
  _ ← check (oid_known s oid);
  p ← (if (p <? end_)%nat && (rd der p =? 0x05) then scan_tag der end_ (p + 1) 0x00 else Some p);
  '(len, p) ← scan_bit_string asn1_decode_length der end_ p;
  _ ← check (public_len_ok s len);
  let len := Z.to_nat len in
  _ ← check (len <=? end_ - p)%nat;
  Some (p, len).

(** The end of an import: the size is reported when the buffer is too small. *)
Definition read_key (found : option (nat * nat)) (der key : bytes) (kl : nat) : result :=
  match found with
  | None => (ERROR_DECODE, Some key, Some kl)
  | Some (p, len) =>
      if (kl <? len)%nat then (ERROR_BUFFER_TOO_SMALL, Some key, Some len)
      else (SUCCESS, Some (blit key 0 (sub der p len)), Some len)
  end.

Definition import_public_key_der (s : scheme) (der_buffer : option bytes) (der_len : nat) (public_key : option bytes) (public_key_len : option nat) : result :=
  match der_buffer, public_key, public_key_len with
  | Some der, Some pk, Some pkl => read_key (import_public_scan s der der_len) der pk pkl
  | _, _, _ => (ERROR_NULL_PTR, public_key, public_key_len)
  end.

(** 0 when the length is not that of a seed with a secret key. *)
Definition get_sk_len_from_seed_priv_inner_len (inner_len : nat) : nat :=
  if Nat.eqb inner_len (42 + ML_DSA_44_SECRET_KEY_BYTES) then ML_DSA_44_SECRET_KEY_BYTES
  else if Nat.eqb inner_len (42 + ML_DSA_65_SECRET_KEY_BYTES) then ML_DSA_65_SECRET_KEY_BYTES
  else if Nat.eqb inner_len (42 + ML_DSA_87_SECRET_KEY_BYTES) then ML_DSA_87_SECRET_KEY_BYTES
  else 0.

Definition sk_len_ok (len : nat) : bool :=
  Nat.eqb len ML_DSA_44_SECRET_KEY_BYTES || Nat.eqb len ML_DSA_65_SECRET_KEY_BYTES || Nat.eqb len ML_DSA_87_SECRET_KEY_BYTES.

(** Seed and secret key in a SEQUENCE that ends at [inner_end]. *)
Definition seed_priv_scan (der : bytes) (inner inner_end : nat) (sk_len : nat) : option (nat * nat) :=
  '(_, inner) ← scan_header asn1_decode_length der inner_end inner 0x30;
  inner ← scan_tag der inner_end inner 0x04;
  inner ← scan_tag der inner_end inner 0x20;
  _ ← check (MLDSA_SEEDBYTES <=? inner_end - inner)%nat;
  '(sk_oct_len, inner) ← scan_header asn1_decode_length der inner_end (inner + MLDSA_SEEDBYTES) 0x04;
  _ ← check ((sk_oct_len =? Z.of_nat sk_len) && (sk_oct_len <=? Z.of_nat (inner_end - inner)));
  Some (inner, sk_len).

(** A secret key in an inner OCTET STRING that fills the outer one. *)
Definition priv_only_scan (der : bytes) (p len : nat) : option (nat * nat) :=
  _ ← check ((4 <=? len)%nat && (rd der p =? 0x04));
  '(inner_len, inner) ← asn1_decode_length der (p + 1) (p + len);
  _ ← check (Z.of_nat inner + inner_len =? Z.of_nat (p + len));
  _ ← check (sk_len_ok (Z.to_nat inner_len));
  Some (inner, Z.to_nat inner_len).

Definition import_private_scan (der : bytes) (end_ : nat) : option (nat * nat) :=
  _ ← check (10 <=? end_)%nat;
  '(_, p) ← scan_header asn1_decode_length der end_ 0 0x30;
  p ← scan_version asn1_decode_length der end_ p;
  '(oid, p) ← scan_alg_id asn1_decode_length der end_ p;
  _ ← check (oid_known mldsa oid);
  '(len, p) ← scan_header asn1_decode_length der end_ p 0x04;
  _ ← check (len <=? Z.of_nat (end_ - p));
  let len := Z.to_nat len in
  let seed_priv_sk_len := get_sk_len_from_seed_priv_inner_len len in
  if (0 <? seed_priv_sk_len)%nat then seed_priv_scan der p (p + len) seed_priv_sk_len
  else
    match priv_only_scan der p len with
    | Some found => Some found
    | None =>
        _ ← check (sk_len_ok len || Nat.eqb len (ML_DSA_44_SECRET_KEY_BYTES + ML_DSA_44_PUBLIC_KEY_BYTES)
                   || Nat.eqb len (ML_DSA_65_SECRET_KEY_BYTES + ML_DSA_65_PUBLIC_KEY_BYTES)
                   || Nat.eqb len (ML_DSA_87_SECRET_KEY_BYTES + ML_DSA_87_PUBLIC_KEY_BYTES));
        Some (p, len)
    end.

Definition QUDO_MLDSA_import_private_key_der (der_buffer : option bytes) (der_len : nat) (private_key : option bytes) (private_key_len : option nat) : result :=
  match der_buffer, private_key, private_key_len with
  | Some der, Some sk, Some skl => read_key (import_private_scan der der_len) der sk skl
  | _, _, _ => (ERROR_NULL_PTR, private_key, private_key_len)
  end.

(** ** The interface of the two files *)

Definition QUDO_KEM_export_public_key_der := export_public_key_der mlkem.
Definition QUDO_KEM_import_public_key_der := import_public_key_der mlkem.
Definition QUDO_KEM_export_public_key_pem := export_pem PUBLIC_KEY 4096 QUDO_KEM_export_public_key_der.
Definition QUDO_KEM_import_public_key_pem := import_pem PUBLIC_KEY 4096 QUDO_KEM_import_public_key_der.

Definition QUDO_MLDSA_export_public_key_der := export_public_key_der mldsa.
Definition QUDO_MLDSA_import_public_key_der := import_public_key_der mldsa.
Definition QUDO_MLDSA_export_public_key_pem := export_pem PUBLIC_KEY 4096 QUDO_MLDSA_export_public_key_der.
Definition QUDO_MLDSA_import_public_key_pem := import_pem PUBLIC_KEY 4096 QUDO_MLDSA_import_public_key_der.
Definition QUDO_MLDSA_export_private_key_pem := export_pem PRIVATE_KEY (8 * 1024) QUDO_MLDSA_export_private_key_der.
Definition QUDO_MLDSA_import_private_key_pem := import_pem PRIVATE_KEY (8 * 1024) QUDO_MLDSA_import_private_key_der.

(** ** Reading what was written *)

(** A length that a decoder reads back, in front of [s]. *)
Definition decodes (decode_length : bytes -> nat -> nat -> option (Z * nat)) (n : nat) (s : bytes) : Prop :=
  forall der e p, at_pos der e p (asn1_encode_length n ++ s) ->
    decode_length der p e = Some (Z.of_nat n, (p + length (asn1_encode_length n))%nat).

Lemma decodes_plain n s : Z.of_nat n < 2 ^ 24 -> decodes asn1_decode_length n s.
Proof. intros Hn der e p H. exact (proj1 (decode_length_at _ _ _ _ _ Hn H)). Qed.

Lemma decodes_slhdsa n s : Z.of_nat n < 2 ^ 24 -> (n <= length s)%nat -> decodes slhdsa_asn1_decode_length n s.
Proof.
  intros Hn Hs der e p H. unfold slhdsa_asn1_decode_length. destruct (decode_length_at _ _ _ _ _ Hn H) as [E H']. rewrite E. cbn [mbind option_bind].
  apply at_pos_rest in H'. rewrite H'. destruct (Z.ltb_spec (Z.of_nat (length s)) (Z.of_nat n)); [lia | reflexivity].
Qed.

Section ScanAt.
Context (dec : bytes -> nat -> nat -> option (Z * nat)) (der : bytes) (e : nat).

Lemma scan_tag_at p tag s : at_pos der e p (tag :: s) -> scan_tag der e p tag = Some (p + 1)%nat /\ at_pos der e (p + 1) s.
Proof. intros H. destruct (at_pos_guard _ _ _ _ _ H) as [G H']. unfold scan_tag. rewrite G. now split. Qed.

Lemma scan_header_at p tag n s : decodes dec n s -> at_pos der e p (tag :: asn1_encode_length n ++ s) ->
  exists q, scan_header dec der e p tag = Some (Z.of_nat n, q) /\ at_pos der e q s.
Proof.
  intros D H. destruct (scan_tag_at _ _ _ H) as [E H']. unfold scan_header. rewrite E. cbn [mbind option_bind].
  exists (p + 1 + length (asn1_encode_length n))%nat. split; [exact (D _ _ _ H') | exact (proj1 (at_pos_app _ _ _ _ _ H'))].
Qed.

Lemma scan_alg_id_at p n oid s : decodes dec n (0x06 :: 9 :: oid ++ s) -> length oid = 9%nat -> at_pos der e p (alg_id n oid ++ s) ->
  exists q, scan_alg_id dec der e p = Some (oid, q) /\ at_pos der e q s.
Proof.
  intros D Lo H. unfold alg_id in H. rewrite Lo in H. change (u8 (Z.of_nat 9)) with 9 in H. rewrite <- !app_assoc in H. cbn [app] in H.
  destruct (scan_header_at _ _ _ _ D H) as (q & E1 & H1). destruct (scan_tag_at _ _ _ H1) as [E2 H2]. destruct (at_pos_cons _ _ _ _ _ H2) as (H3 & R3 & L3).
  destruct (at_pos_app _ _ _ _ _ H3) as (H4 & S4 & L4).
  exists (q + 1 + 1 + length oid)%nat. split; [| exact H4].
  unfold scan_alg_id. rewrite E1. cbn [mbind option_bind]. rewrite E2. cbn [mbind option_bind].
  rewrite (check_true (_ <? _)%nat) by now apply Nat.ltb_lt. cbn [mbind option_bind]. rewrite R3. change (Z.to_nat 9) with 9%nat. rewrite <- Lo.
  rewrite (check_true (_ <=? _)%nat) by (apply Nat.leb_le; lia). cbn [mbind option_bind]. now rewrite S4.
Qed.

Lemma scan_bit_string_at p n s : decodes dec (1 + n) (0x00 :: s) -> at_pos der e p (0x03 :: asn1_encode_length (1 + n) ++ 0x00 :: s) ->
  exists q, scan_bit_string dec der e p = Some (Z.of_nat n, q) /\ at_pos der e q s.
Proof.
  intros D H. destruct (scan_header_at _ _ _ _ D H) as (q & E1 & H1). destruct (scan_tag_at _ _ _ H1) as [E2 H2].
  exists (q + 1)%nat. split; [| exact H2]. unfold scan_bit_string. rewrite E1. cbn [mbind option_bind].
  rewrite (check_true (negb _)) by (apply negb_true_iff, Z.eqb_neq; lia). cbn [mbind option_bind]. rewrite E2. cbn [mbind option_bind].
  do 2 f_equal. lia.
Qed.

Lemma scan_version_at p s : decodes dec 1 (0x00 :: s) -> at_pos der e p (0x02 :: 0x01 :: 0x00 :: s) ->
  exists q, scan_version dec der e p = Some q /\ at_pos der e q s.
Proof.
  intros D H. destruct (scan_header_at p 0x02 1 (0x00 :: s) D H) as (q & E1 & H1). pose proof (at_pos_rest _ _ _ _ H1) as L1. destruct (at_pos_cons _ _ _ _ _ H1) as (H2 & _ & _).
  exists (q + 1)%nat. split; [| exact H2]. unfold scan_version. rewrite E1. cbn [mbind option_bind].
  rewrite (check_true (_ <=? _)) by (apply Z.leb_le; rewrite L1; cbn [length]; lia). reflexivity.
Qed.

End ScanAt.

Lemma at_start der e s : take e der = s -> (e <= length der)%nat -> at_pos der e 0 s.
Proof. intros H L. split; [now rewrite drop_0 | lia]. Qed.

Lemma length_oid s oid : oid_known s oid = true -> length oid = 9%nat.
Proof. unfold oid_known. destruct s; intros H; repeat (apply orb_true_iff in H as [H|H]); apply bool_decide_eq_true_1 in H; now subst. Qed.

(** The sizes of the public keys, from FIPS 203 and FIPS 204. *)
Definition public_size (s : scheme) (n : nat) : Prop :=
  match s with
  | mlkem => n = 800%nat \/ n = 1184%nat \/ n = 1568%nat
  | mldsa => n = 1312%nat \/ n = 1952%nat \/ n = 2592%nat
  end.

(** They are the sizes the imports accept. *)
Lemma public_len_size s n : public_len_ok s (Z.of_nat n) = true <-> public_size s n.
Proof.
  unfold public_size, public_len_ok, ML_DSA_44_PUBLIC_KEY_BYTES, ML_DSA_65_PUBLIC_KEY_BYTES, ML_DSA_87_PUBLIC_KEY_BYTES.
  destruct s; rewrite !orb_true_iff, !Z.eqb_eq; lia.
Qed.

Lemma public_size_range s n : public_size s n -> (255 < n < 3000)%nat.
Proof. unfold public_size. destruct s; lia. Qed.

(** The parsers on their objects, with any lengths of the sequences and anything after the end. *)
Lemma import_public_scan_spki s n1 n2 oid key rest der e :
  Z.of_nat n1 < 2 ^ 24 -> Z.of_nat n2 < 2 ^ 24 -> oid_known s oid = true -> public_size s (length key) ->
  take e der = spki n1 n2 oid key ++ rest -> (e <= length der)%nat ->
  exists p, import_public_scan s der e = Some (p, length key) /\ sub der p (length key) = key.
Proof.
  intros H1 H2 Ho Hk E Le. pose proof (length_oid s oid Ho) as Lo. pose proof (public_size_range s _ Hk) as Rk.
  assert (L10 : (10 <= e)%nat) by (apply (f_equal length) in E; rewrite length_take in E; unfold spki, alg_id in E; rewrite !length_app, Lo in E; cbn [length] in E; lia).
  pose proof (at_start _ _ _ E Le) as H. unfold spki in H. rewrite <- !app_assoc in H. cbn [app] in H.
  destruct (scan_header_at _ _ _ _ _ _ _ (decodes_plain n1 _ H1) H) as (p1 & E1 & P1).
  destruct (scan_alg_id_at _ _ _ _ _ _ _ (decodes_plain n2 _ H2) Lo P1) as (p2 & E2 & P2).
  assert (H3 : Z.of_nat (1 + length key) < 2 ^ 24) by lia.
  destruct (scan_bit_string_at _ _ _ _ _ _ (decodes_plain (1 + length key) _ H3) P2) as (p3 & E3 & P3).
  destruct (at_pos_app _ _ _ _ _ P3) as (_ & S4 & L4). destruct (at_pos_cons _ _ _ _ _ P2) as (_ & R2 & _).
  exists p3. split; [| exact S4]. unfold import_public_scan. rewrite (check_true (10 <=? e)%nat) by now apply Nat.leb_le. cbn [mbind option_bind].
  rewrite E1. cbn [mbind option_bind]. rewrite E2. cbn [mbind option_bind]. rewrite Ho. cbn [check mbind option_bind].
  rewrite R2. change (0x03 =? 0x05) with false. rewrite andb_false_r. cbn [mbind option_bind]. rewrite E3. cbn [mbind option_bind]. rewrite Nat2Z.id.
  rewrite (check_true _ (proj2 (public_len_size s _) Hk)). cbn [mbind option_bind]. rewrite (check_true (_ <=? _)%nat) by (apply Nat.leb_le; lia). reflexivity.
Qed.

Lemma import_private_prefix n1 n2 oid content rest der e :
  Z.of_nat n1 < 2 ^ 24 -> Z.of_nat n2 < 2 ^ 24 -> oid_known mldsa oid = true -> Z.of_nat (length content) < 2 ^ 24 ->
  take e der = pkcs8 n1 n2 oid content ++ rest -> (e <= length der)%nat ->
  exists p, at_pos der e p (content ++ rest) /\
    import_private_scan der e =
      (let len := length content in
       let k := get_sk_len_from_seed_priv_inner_len len in
       if (0 <? k)%nat then seed_priv_scan der p (p + len) k
       else match priv_only_scan der p len with
            | Some found => Some found
            | None =>
                _ ← check (sk_len_ok len || Nat.eqb len (ML_DSA_44_SECRET_KEY_BYTES + ML_DSA_44_PUBLIC_KEY_BYTES)
                   || Nat.eqb len (ML_DSA_65_SECRET_KEY_BYTES + ML_DSA_65_PUBLIC_KEY_BYTES)
                   || Nat.eqb len (ML_DSA_87_SECRET_KEY_BYTES + ML_DSA_87_PUBLIC_KEY_BYTES));
                Some (p, len)
            end).
Proof.
  intros H1 H2 Ho H3 E Le. pose proof (length_oid mldsa oid Ho) as Lo.
  assert (L10 : (10 <= e)%nat) by (apply (f_equal length) in E; rewrite length_take in E; unfold pkcs8, alg_id in E; rewrite !length_app, Lo in E; cbn [length] in E; lia).
  pose proof (at_start _ _ _ E Le) as H. unfold pkcs8 in H. rewrite <- !app_assoc in H. cbn [app] in H.
  destruct (scan_header_at _ _ _ _ _ _ _ (decodes_plain n1 _ H1) H) as (p1 & E1 & P1).
  destruct (scan_version_at _ _ _ _ _ (decodes_plain 1 _ eq_refl) P1) as (p2 & E2 & P2).
  destruct (scan_alg_id_at _ _ _ _ _ _ _ (decodes_plain n2 _ H2) Lo P2) as (p3 & E3 & P3).
  destruct (scan_header_at _ _ _ _ _ _ _ (decodes_plain _ _ H3) P3) as (p4 & E4 & P4).
  pose proof (at_pos_rest _ _ _ _ P4) as L4. rewrite length_app in L4.
  exists p4. split; [exact P4 |]. unfold import_private_scan. rewrite (check_true (10 <=? e)%nat) by now apply Nat.leb_le. cbn [mbind option_bind].
  rewrite E1. cbn [mbind option_bind]. rewrite E2. cbn [mbind option_bind]. rewrite E3. cbn [mbind option_bind]. rewrite Ho. cbn [check mbind option_bind].
  rewrite E4. cbn [mbind option_bind]. rewrite (check_true (_ <=? _)) by (apply Z.leb_le; lia). cbn [mbind option_bind]. now rewrite Nat2Z.id.
Qed.

(** Whatever is accepted lies within the input. *)
Ltac invert_checks H :=
  repeat match type of H with
    | check _ ≫= _ = _ => let E := fresh "E" in apply bind_Some in H as ([] & E & H); apply check_inv in E
    | _ ≫= _ = _ => let D := fresh "D" in apply bind_Some in H as ([? ?] & D & H) || apply bind_Some in H as (? & D & H)
    end.

Lemma scan_tag_inv der e p tag q : scan_tag der e p tag = Some q -> (p < e)%nat /\ rd der p = tag /\ q = (p + 1)%nat.
Proof.
  unfold scan_tag. intros H. invert_checks H. injection H as <-. apply andb_prop in E as [E1 E2]. now apply Nat.ltb_lt in E1; apply Z.eqb_eq in E2.
Qed.

Lemma scan_header_inv dec der e p tag r : scan_header dec der e p tag = Some r -> rd der p = tag.
Proof. unfold scan_header. intros H. apply bind_Some in H as (q & H & _). now apply scan_tag_inv in H. Qed.

Lemma scan_bit_string_inv dec der e p len q : scan_bit_string dec der e p = Some (len, q) -> (q <= e)%nat.
Proof.
  unfold scan_bit_string. intros H. invert_checks H. injection H as <- <-.
  match goal with D : scan_tag _ _ _ _ = Some _ |- _ => apply scan_tag_inv in D end. lia.
Qed.

Lemma public_len_pos s z : public_len_ok s z = true -> 0 <= z.
Proof.
  destruct s; unfold public_len_ok, ML_DSA_44_PUBLIC_KEY_BYTES, ML_DSA_65_PUBLIC_KEY_BYTES, ML_DSA_87_PUBLIC_KEY_BYTES;
    rewrite !orb_true_iff, !Z.eqb_eq; lia.
Qed.

Lemma import_public_scan_inside s der e p len : import_public_scan s der e = Some (p, len) -> public_size s len /\ (p + len <= e)%nat /\ rd der 0 = 0x30.
Proof.
  unfold import_public_scan. intros H. invert_checks H. injection H as <- <-.
  match goal with E : public_len_ok _ _ = true |- _ => pose proof (public_len_pos _ _ E); rename E into EL end.
  split; [apply public_len_size; now rewrite Z2Nat.id |]. split.
  - match goal with D : scan_bit_string _ _ _ _ = _, E : (Z.to_nat _ <=? _)%nat = true |- _ => apply scan_bit_string_inv in D; apply Nat.leb_le in E; lia end.
  - match goal with D : scan_header _ _ _ 0 _ = _ |- _ => exact (scan_header_inv _ _ _ _ _ _ D) end.
Qed.

(** ** What is written *)

Lemma enc_len_short n : (n < 128)%nat -> length (asn1_encode_length n) = 1%nat.
Proof. intros H. unfold asn1_encode_length. destruct (Z.ltb_spec (Z.of_nat n) 128); [reflexivity | lia]. Qed.

Lemma enc_len_long n : (255 < n < 256 * 256)%nat -> length (asn1_encode_length n) = 3%nat.
Proof.
  intros H. unfold asn1_encode_length. destruct (Z.ltb_spec (Z.of_nat n) 128); [lia |]. destruct (Z.leb_spec (Z.of_nat n) 255); [lia |].
  destruct (Z.leb_spec (Z.of_nat n) 65535); [reflexivity | lia].
Qed.

Lemma length_spki n1 n2 oid key : length (spki n1 n2 oid key) =
  (6 + length (asn1_encode_length n1) + length (asn1_encode_length n2) + length (asn1_encode_length (1 + length key)) + length oid + length key)%nat.
Proof. unfold spki, alg_id. rewrite !length_app. cbn [length]. lia. Qed.

Lemma length_pkcs8 n1 n2 oid content : length (pkcs8 n1 n2 oid content) =
  (8 + length (asn1_encode_length n1) + length (asn1_encode_length n2) + length (asn1_encode_length (length content)) + length oid + length content)%nat.
Proof. unfold pkcs8, alg_id. rewrite !length_app. cbn [length]. lia. Qed.

Ltac literal_bytes := repeat (apply List.Forall_cons; [first [apply u8_range | unfold is_u8; lia] |]); apply List.Forall_nil.

Lemma enc_len_bytes n : are_bytes (asn1_encode_length n).
Proof.
  unfold asn1_encode_length. repeat (destruct (_ : bool)); literal_bytes.
Qed.

Lemma alg_id_bytes n oid : are_bytes oid -> are_bytes (alg_id n oid).
Proof.
  intros H. unfold alg_id, are_bytes. rewrite !Forall_app.
  repeat split; try apply enc_len_bytes; try exact H; literal_bytes.
Qed.

Lemma spki_bytes n1 n2 oid key : are_bytes oid -> are_bytes key -> are_bytes (spki n1 n2 oid key).
Proof.
  intros Ho Hk. unfold spki, are_bytes. rewrite !Forall_app.
  repeat split; try apply enc_len_bytes; try apply alg_id_bytes; try assumption; literal_bytes.
Qed.

Lemma pkcs8_bytes n1 n2 oid content : are_bytes oid -> are_bytes content -> are_bytes (pkcs8 n1 n2 oid content).
Proof.
  intros Ho Hk. unfold pkcs8, are_bytes. rewrite !Forall_app.
  repeat split; try apply enc_len_bytes; try apply alg_id_bytes; try assumption; literal_bytes.
Qed.

(** The object for a public key. *)
Definition public_oid (s : scheme) (n : nat) : bytes := default [] (oid_for_public_key s n).
Definition public_object (s : scheme) (key : bytes) : bytes := spki (18 + length key) 11 (public_oid s (length key)) key.

Lemma public_oid_ok s n : public_size s n ->
  oid_for_public_key s n = Some (public_oid s n) /\ oid_known s (public_oid s n) = true /\ length (public_oid s n) = 9%nat /\ are_bytes (public_oid s n).
Proof.
  intros H. destruct s; destruct H as [-> | [-> | ->]]; (repeat split; apply is_u8_dec_list; reflexivity).
Qed.

Lemma length_public_object s key : public_size s (length key) -> length (public_object s key) = (22 + length key)%nat.
Proof.
  intros H. destruct (public_oid_ok s _ H) as (_ & _ & L & _). apply public_size_range in H.
  unfold public_object. rewrite length_spki, L, (enc_len_short 11), !enc_len_long by lia. lia.
Qed.

Lemma export_public_spec s (pk der : bytes) (dl : nat) : public_size s (length pk) ->
  export_public_key_der s (Some pk) (length pk) (Some der) (Some dl) = write_der der dl (22 + length pk) (public_object s pk).
Proof.
  intros H. destruct (public_oid_ok s _ H) as (E & _ & L & _). apply public_size_range in H. unfold export_public_key_der. rewrite E. cbv zeta. rewrite L, firstn_all.
  change (length (asn1_encode_length (2 + 9))) with 1%nat. rewrite (enc_len_long (1 + length pk)) by lia.
  replace (1 + 1 + (2 + 9) + (1 + 3 + (1 + length pk)))%nat with (18 + length pk)%nat by lia. rewrite enc_len_long by lia.
  replace (1 + 3 + (18 + length pk))%nat with (22 + length pk)%nat by lia. reflexivity.
Qed.

Lemma import_public_spec s (key rest der : bytes) (e : nat) (pk : bytes) (pkl : nat) :
  public_size s (length key) -> take e der = public_object s key ++ rest -> (e <= length der)%nat ->
  import_public_key_der s (Some der) e (Some pk) (Some pkl) =
    if (pkl <? length key)%nat then (ERROR_BUFFER_TOO_SMALL, Some pk, Some (length key)) else (SUCCESS, Some (blit pk 0 key), Some (length key)).
Proof.
  intros H Hd He. destruct (public_oid_ok s _ H) as (_ & Ho & _). pose proof (public_size_range s _ H) as R.
  assert (H1 : Z.of_nat (18 + length key) < 2 ^ 24) by lia.
  destruct (import_public_scan_spki s _ 11 _ key rest der e H1 eq_refl Ho H Hd He) as (p & E & S).
  unfold import_public_key_der, read_key. now rewrite E, S.
Qed.

(** The object for an ML-DSA private key. *)
Definition private_oid (n : nat) : bytes := default [] (get_oid_for_private_key_size n).
Definition private_content (key : bytes) : bytes := [0x04] ++ asn1_encode_length (length key) ++ key.
Definition private_object (key : bytes) : bytes := pkcs8 (24 + length key) 11 (private_oid (length key)) (private_content key).

(** The sizes of the secret keys of FIPS 204, of a secret key with its public key, and of a seed with a secret key. *)
Definition secret_sizes : list Z := [2560; 4032; 4896].
Definition private_sizes : list Z := secret_sizes ++ [3872; 5984; 7488] ++ [2592; 4064; 4928].

Definition secret_size (n : nat) : bool := existsb (Z.eqb (Z.of_nat n)) secret_sizes.
Definition private_size (n : nat) : Prop := In (Z.of_nat n) private_sizes.

Lemma sk_len_size n : sk_len_ok n = secret_size n.
Proof.
  apply eq_true_iff_eq. unfold sk_len_ok, secret_size, secret_sizes, ML_DSA_44_SECRET_KEY_BYTES, ML_DSA_65_SECRET_KEY_BYTES, ML_DSA_87_SECRET_KEY_BYTES.
  cbn [existsb]. rewrite !orb_true_iff, !Nat.eqb_eq, !Z.eqb_eq. lia.
Qed.

Lemma private_size_cases n : private_size n ->
  (Z.of_nat n = 2560 \/ Z.of_nat n = 4032 \/ Z.of_nat n = 4896) \/ (Z.of_nat n = 3872 \/ Z.of_nat n = 5984 \/ Z.of_nat n = 7488) \/
  (Z.of_nat n = 2592 \/ Z.of_nat n = 4064 \/ Z.of_nat n = 4928).
Proof.
  unfold private_size, private_sizes, secret_sizes. cbn [app In]. lia.
Qed.

(** They are the sizes with an object identifier. *)
Lemma private_size_oid n : private_size n <-> is_Some (get_oid_for_private_key_size n).
Proof.
  split.
  - intros H. apply private_size_cases in H. repeat match type of H with _ \/ _ => destruct H as [H|H] end; rewrite <- (Nat2Z.id n), H; eexists; vm_compute; reflexivity.
  - unfold private_size, get_oid_for_private_key_size. intros [x H].
    destruct (_ || _) eqn:E in H; [| clear E; destruct (_ || _) eqn:E in H; [| clear E; destruct (_ || _) eqn:E in H; [| discriminate H]]];
      clear H; rewrite !orb_true_iff, !Nat.eqb_eq in E; destruct E as [[-> | ->] | ->]; vm_compute; tauto.
Qed.

Lemma private_oid_ok n : private_size n ->
  get_oid_for_private_key_size n = Some (private_oid n) /\ oid_known mldsa (private_oid n) = true /\ length (private_oid n) = 9%nat /\ are_bytes (private_oid n).
Proof.
  intros Hn. apply private_size_oid in Hn as [oid E]. unfold private_oid. rewrite E. cbn [default]. split; [reflexivity |]. unfold get_oid_for_private_key_size in E.
  repeat (destruct (_ || _) in E; [injection E as <-; repeat split; apply is_u8_dec_list; reflexivity |]). discriminate E.
Qed.

Lemma length_private_content key : private_size (length key) -> length (private_content key) = (4 + length key)%nat.
Proof. intros H. apply private_size_cases in H. unfold private_content. rewrite !length_app, enc_len_long by lia. cbn [length]. lia. Qed.

Lemma length_private_object key : private_size (length key) -> length (private_object key) = (28 + length key)%nat.
Proof.
  intros H. destruct (private_oid_ok _ H) as (_ & _ & L & _). pose proof (length_private_content key H) as Lc. apply private_size_cases in H.
  unfold private_object. rewrite length_pkcs8, L, Lc, (enc_len_short 11), !enc_len_long by lia. lia.
Qed.

Lemma export_private_spec (sk der : bytes) (dl : nat) : private_size (length sk) ->
  QUDO_MLDSA_export_private_key_der (Some sk) (length sk) (Some der) (Some dl) = write_der der dl (28 + length sk) (private_object sk).
Proof.
  intros H. destruct (private_oid_ok _ H) as (E & _ & L & _). apply private_size_cases in H. unfold QUDO_MLDSA_export_private_key_der. rewrite E. cbv zeta. rewrite L, firstn_all.
  change (length (asn1_encode_length (2 + 9))) with 1%nat. rewrite (enc_len_long (length sk)) by lia.
  replace (1 + 3 + length sk)%nat with (4 + length sk)%nat by lia. rewrite (enc_len_long (4 + length sk)) by lia.
  replace (3 + (1 + 1 + (2 + 9)) + (1 + 3 + (4 + length sk)))%nat with (24 + length sk)%nat by lia. rewrite enc_len_long by lia.
  replace (1 + 3 + (24 + length sk))%nat with (28 + length sk)%nat by lia. reflexivity.
Qed.

(** ** Reading an exported private key *)

(** The input that ends after [a]. *)
Lemma at_pos_trunc der e p a s : at_pos der e p (a ++ s) -> at_pos der (p + length a) p a.
Proof.
  intros H. pose proof (at_pos_rest _ _ _ _ H) as L. rewrite length_app in L. destruct H as [H B]. split; [| lia].
  transitivity (take (length a) (drop p (take e der))); [| rewrite H; apply take_app_length].
  rewrite !skipn_firstn_comm, take_take. f_equal. lia.
Qed.

Definition bare_len_ok (len : nat) : bool :=
  sk_len_ok len || Nat.eqb len (ML_DSA_44_SECRET_KEY_BYTES + ML_DSA_44_PUBLIC_KEY_BYTES)
    || Nat.eqb len (ML_DSA_65_SECRET_KEY_BYTES + ML_DSA_65_PUBLIC_KEY_BYTES) || Nat.eqb len (ML_DSA_87_SECRET_KEY_BYTES + ML_DSA_87_PUBLIC_KEY_BYTES).

(** The size of the wrapped key is never that of another format. *)
Lemma wrapped_size n : private_size n -> get_sk_len_from_seed_priv_inner_len (4 + n) = 0%nat /\ bare_len_ok (4 + n) = false.
Proof.
  intros H. apply private_size_cases in H.
  repeat match type of H with _ \/ _ => destruct H as [H|H] end; rewrite <- (Nat2Z.id n), H; vm_compute; auto.
Qed.

Lemma priv_only_scan_at der e p key rest : private_size (length key) -> at_pos der e p (private_content key ++ rest) ->
  exists q, sub der q (length key) = key /\
    priv_only_scan der p (4 + length key) = if sk_len_ok (length key) then Some (q, length key) else None.
Proof.
  intros Hs H. pose proof (private_size_cases _ Hs) as Hn. pose proof (length_private_content key Hs) as Lc.
  apply at_pos_trunc in H. rewrite Lc in H. set (e' := (p + (4 + length key))%nat) in *. unfold private_content in H. cbn [app] in H.
  destruct (at_pos_cons _ _ _ _ _ H) as (H1 & R & _). assert (Hb : Z.of_nat (length key) < 2 ^ 24) by lia.
  destruct (decode_length_at _ _ _ _ _ Hb H1) as [D H2]. rewrite <- (app_nil_r key) in H2. destruct (at_pos_app _ _ _ _ _ H2) as (_ & S & _). rewrite app_nil_r in S.
  rewrite enc_len_long in D, S by lia. exists (p + 1 + 3)%nat. split; [exact S |].
  unfold priv_only_scan. rewrite R. change (4 <=? 4 + length key)%nat with true. cbn [andb Z.eqb Pos.eqb check mbind option_bind].
  fold e'. rewrite D. cbn [mbind option_bind]. rewrite (check_true (_ =? _)) by (apply Z.eqb_eq; unfold e'; lia). cbn [mbind option_bind]. rewrite Nat2Z.id.
  now destruct (sk_len_ok (length key)).
Qed.

Lemma import_private_spec (key rest der : bytes) (e : nat) (sk : bytes) (skl : nat) :
  private_size (length key) -> take e der = private_object key ++ rest -> (e <= length der)%nat ->
  QUDO_MLDSA_import_private_key_der (Some der) e (Some sk) (Some skl) =
    if secret_size (length key) then
      if (skl <? length key)%nat then (ERROR_BUFFER_TOO_SMALL, Some sk, Some (length key)) else (SUCCESS, Some (blit sk 0 key), Some (length key))
    else (ERROR_DECODE, Some sk, Some skl).
Proof.
  intros H Hd He. destruct (private_oid_ok _ H) as (_ & Ho & _). pose proof (private_size_cases _ H) as R. pose proof (length_private_content key H) as Lc.
  assert (H1 : Z.of_nat (24 + length key) < 2 ^ 24) by lia. assert (H3 : Z.of_nat (length (private_content key)) < 2 ^ 24) by (rewrite Lc; lia).
  destruct (import_private_prefix _ 11 _ _ rest der e H1 eq_refl Ho H3 Hd He) as (p & P & E).
  destruct (priv_only_scan_at _ _ _ _ _ H P) as (q & S & Eq). destruct (wrapped_size _ H) as [W1 W2].
  unfold QUDO_MLDSA_import_private_key_der, read_key. rewrite E, Lc. cbv zeta. rewrite W1. change (0 <? 0)%nat with false. cbv iota. rewrite Eq.
  fold (bare_len_ok (4 + length key)). rewrite W2, sk_len_size. destruct (secret_size (length key)); [now rewrite S | reflexivity].
Qed.

(** ** Round trips, for any pair of export and import *)

(** An export and an import of keys of [n] bytes: the object has [n + d] bytes; a short buffer is answered with the exact size; reading back gives the key when
    [readable] and an error otherwise. *)
Definition der_pair (export_der import_der : option bytes -> nat -> option bytes -> option nat -> result) (d : nat) (readable : bool) (key : bytes) : Prop :=
  forall (der : bytes) (dl : nat) (out : bytes) (ol : nat),
  let n := (d + length key)%nat in
  ((dl < n)%nat -> export_der (Some key) (length key) (Some der) (Some dl) = (ERROR_BUFFER_TOO_SMALL, Some der, Some n)) /\
  ((n <= dl <= length der)%nat ->
     exists der', export_der (Some key) (length key) (Some der) (Some dl) = (SUCCESS, Some der', Some n) /\
       length der' = length der /\ drop n der' = drop n der /\
       import_der (Some der') n (Some out) (Some ol) =
         if readable then
           if (ol <? length key)%nat then (ERROR_BUFFER_TOO_SMALL, Some out, Some (length key)) else (SUCCESS, Some (blit out 0 key), Some (length key))
         else (ERROR_DECODE, Some out, Some ol)).

(** The same for text: [need] bytes with the terminator. *)
Definition pem_pair (export_text : option bytes -> nat -> option bytes -> option nat -> result) (import_text : option bytes -> option bytes -> option nat -> result)
    (need : nat) (readable : bool) (key : bytes) : Prop :=
  forall (buf : bytes) (pl : nat) (out : bytes) (ol : nat),
  export_text (Some key) (length key) None (Some pl) = (SUCCESS, None, Some need) /\
  ((pl < need)%nat -> export_text (Some key) (length key) (Some buf) (Some pl) = (ERROR_BUFFER_TOO_SMALL, Some buf, Some need)) /\
  ((need <= pl <= length buf)%nat ->
     exists pem, export_text (Some key) (length key) (Some buf) (Some pl) = (SUCCESS, Some pem, Some (need - 1)%nat) /\
       length pem = length buf /\ drop need pem = drop need buf /\
       import_text (Some pem) (Some out) (Some ol) =
         if readable then
           if (ol <? length key)%nat then (ERROR_BUFFER_TOO_SMALL, Some out, Some (length key)) else (SUCCESS, Some (blit out 0 key), Some (length key))
         else (ERROR_DECODE, Some out, Some ol)).

Section Pairs.
Context (export_der import_der : option bytes -> nat -> option bytes -> option nat -> result) (d : nat) (readable : bool) (key obj : bytes).
Context (Hlen : length obj = (d + length key)%nat).
Context (Hexp : forall der dl, export_der (Some key) (length key) (Some der) (Some dl) = write_der der dl (d + length key) obj).
Context (Himp : forall rest der e out ol, take e der = obj ++ rest -> (e <= length der)%nat ->
  import_der (Some der) e (Some out) (Some ol) =
    if readable then
      if (ol <? length key)%nat then (ERROR_BUFFER_TOO_SMALL, Some out, Some (length key)) else (SUCCESS, Some (blit out 0 key), Some (length key))
    else (ERROR_DECODE, Some out, Some ol)).

Lemma der_pair_intro : der_pair export_der import_der d readable key.
Proof.
  intros der dl out ol n. rewrite Hexp. unfold write_der. fold n. split; intros H; destruct (Nat.ltb_spec dl n); try lia; [reflexivity |].
  assert (L : (length obj <= length der)%nat) by lia. exists (blit der 0 obj). rewrite Hlen. fold n. split; [reflexivity |]. split; [now apply length_blit0 |].
  unfold n. rewrite <- Hlen. split; [apply drop_blit |]. apply (Himp []); [rewrite app_nil_r; apply take_blit | now rewrite length_blit0].
Qed.

Lemma pem_pair_intro label size : label_ok label -> are_bytes obj -> (length obj <= size)%nat ->
  pem_pair (export_pem label size export_der) (import_pem label size import_der) (length (pem_text label obj) + 1) readable key.
Proof.
  intros HL Hb Hs buf pl out ol.
  assert (E : export_der (Some key) (length key) (Some (zeros size)) (Some size) = (SUCCESS, Some (blit (zeros size) 0 obj), Some (length obj))).
  { rewrite Hexp. unfold write_der. rewrite <- Hlen. destruct (Nat.ltb_spec size (length obj)); [lia | reflexivity]. }
  split; [exact (export_pem_spec label size export_der key obj (length key) None pl E) |].
  pose proof (export_pem_spec label size export_der key obj (length key) (Some buf) pl E) as E2. cbv zeta iota in E2. rewrite E2.
  set (need := (length (pem_text label obj) + 1)%nat). split; intros H; destruct (Nat.ltb_spec pl need); try lia; [reflexivity |].
  assert (Ln : length (pem_text label obj ++ [0]) = need) by (rewrite length_app; reflexivity).
  exists (blit buf 0 (pem_text label obj ++ [0])). split; [replace (need - 1)%nat with (length (pem_text label obj)) by (unfold need; lia); reflexivity |].
  split; [apply length_blit0; lia |]. split; [rewrite <- Ln; apply drop_blit |].
  unfold blit. rewrite take_0. cbn [app]. rewrite <- app_assoc. cbn [app]. rewrite import_pem_text by assumption.
  apply (Himp []); [rewrite app_nil_r; apply firstn_all | lia].
Qed.

End Pairs.

(** ** Claims *)

(** C27. Public keys survive export and import.  For every public key of ML-KEM (three sizes) and of ML-DSA (three sizes) and all buffers: the DER export reports the exact
    size, 22 bytes more than the key, when the buffer is too small, and leaves it alone; otherwise it writes exactly that many bytes, and the import of what was
    written returns the key, or the size it needs.  The PEM export answers a size query, and a buffer that is too small, with the exact number of bytes including the terminator; otherwise
    it writes text of that size, returns its length, and the import of the text returns the key: base64 in lines of 64 characters decodes to
    the object, and the estimate of its length is exact, so that the text never overruns the buffer. *)
Theorem public_key_roundtrip (s : scheme) (key : bytes) (Hk : public_size s (length key)) (Hb : are_bytes key) :
  let need := (27 + mlkem_b64_encoded_len (22 + length key) + 25 + 1)%nat in
  match s with
  | mlkem => der_pair QUDO_KEM_export_public_key_der QUDO_KEM_import_public_key_der 22 true key /\
             pem_pair QUDO_KEM_export_public_key_pem QUDO_KEM_import_public_key_pem need true key
  | mldsa => der_pair QUDO_MLDSA_export_public_key_der QUDO_MLDSA_import_public_key_der 22 true key /\
             pem_pair QUDO_MLDSA_export_public_key_pem QUDO_MLDSA_import_public_key_pem need true key
  end.
Proof.
  intros need. pose proof (length_public_object s key Hk) as L. pose proof (public_size_range s _ Hk) as R. destruct (public_oid_ok s _ Hk) as (_ & _ & _ & Ho).
  assert (N : (length (pem_text PUBLIC_KEY (public_object s key)) + 1)%nat = need) by (rewrite length_pem_text, L; reflexivity).
  pose proof (fun der dl => export_public_spec s key der dl Hk) as Hexp. pose proof (fun rest der e out ol => import_public_spec s key rest der e out ol Hk) as Himp.
  pose proof (der_pair_intro _ _ 22 true key _ L Hexp Himp) as HD.
  pose proof (pem_pair_intro _ _ 22 true key _ L Hexp Himp PUBLIC_KEY 4096 (or_introl eq_refl) (spki_bytes _ _ _ _ Ho Hb)) as HP. rewrite N in HP.
  assert (LS : (length (public_object s key) <= 4096)%nat) by (rewrite L; lia).
  specialize (HP LS). destruct s; now split.
Qed.

Lemma public_key_roundtrip_witness :
  let key := replicate 800 7 in
  length key = 800%nat /\
  exists pem, QUDO_KEM_export_public_key_pem (Some key) 800 (Some (zeros 1200)) (Some 1200%nat) = (0, Some pem, Some 1166%nat) /\
    QUDO_KEM_import_public_key_pem (Some pem) (Some (zeros 800)) (Some 800%nat) = (0, Some key, Some 800%nat).
Proof.
  intros key. split; [reflexivity |]. assert (Hb : are_bytes key) by (apply is_u8_dec_list; reflexivity).
  destruct (proj2 (proj2 (proj2 (public_key_roundtrip mlkem key (or_introl eq_refl) Hb) (zeros 1200) 1200%nat (zeros 800) 800%nat)) ltac:(split; apply Nat.leb_le; reflexivity)) as (d & E & _ & _ & I).
  exists d. split; [exact E |]. exact (eq_trans I ltac:(vm_compute; reflexivity)).
Defined.

(** C29. ML-DSA private keys.  The export accepts exactly nine sizes: a secret key (2560, 4032, 4896 bytes), a secret key followed by its public key (3872, 5984, 7488), and a
    seed followed by a secret key (2592, 4064, 4928); any other size is refused and the buffer left alone.  For the nine it writes a PrivateKeyInfo of 28 bytes more than the key, or reports
    that size.  The import of the object, and of the PEM text, returns the key for the three sizes of a secret key alone; for the other six the object is written and cannot be
    read: the import refuses its own module's output, because only the three sizes of a secret key are accepted within the inner OCTET STRING that the export adds. *)
Theorem mldsa_private_key_roundtrip (key : bytes) (Hb : are_bytes key) :
  (~ private_size (length key) -> forall der dl,
     QUDO_MLDSA_export_private_key_der (Some key) (length key) (Some der) (Some dl) = (ERROR_INVALID_ARG, Some der, Some dl)) /\
  (private_size (length key) ->
     der_pair QUDO_MLDSA_export_private_key_der QUDO_MLDSA_import_private_key_der 28 (secret_size (length key)) key /\
     pem_pair QUDO_MLDSA_export_private_key_pem QUDO_MLDSA_import_private_key_pem (28 + mlkem_b64_encoded_len (28 + length key) + 26 + 1)
       (secret_size (length key)) key).
Proof.
  split.
  { intros Hn der dl. unfold QUDO_MLDSA_export_private_key_der. destruct (get_oid_for_private_key_size (length key)) eqn:E; [| reflexivity].
    destruct Hn. apply private_size_oid. eauto. }
  intros Hk. pose proof (length_private_object key Hk) as L. pose proof (private_size_cases _ Hk) as R. destruct (private_oid_ok _ Hk) as (_ & _ & _ & Ho).
  assert (N : (length (pem_text PRIVATE_KEY (private_object key)) + 1)%nat = (28 + mlkem_b64_encoded_len (28 + length key) + 26 + 1)%nat) by (rewrite length_pem_text, L; reflexivity).
  pose proof (fun der dl => export_private_spec key der dl Hk) as Hexp. pose proof (fun rest der e out ol => import_private_spec key rest der e out ol Hk) as Himp.
  assert (Hc : are_bytes (private_content key)) by (unfold private_content, are_bytes; rewrite !Forall_app; repeat split; [literal_bytes | apply enc_len_bytes | exact Hb]).
  split; [exact (der_pair_intro _ _ 28 _ key _ L Hexp Himp) |]. rewrite <- N.
  refine (pem_pair_intro _ _ 28 _ key _ L Hexp Himp PRIVATE_KEY (8 * 1024) (or_intror eq_refl) (pkcs8_bytes _ _ _ _ Ho Hc) _). rewrite L. lia.
Qed.

(** An ML-DSA-87 secret key comes back; a seed with an ML-DSA-44 secret key is exported with success and refused on import; 2561 bytes are refused. *)
Lemma mldsa_private_key_roundtrip_witness :
  (let key := replicate 4896 7 in
   exists der, QUDO_MLDSA_export_private_key_der (Some key) (length key) (Some (zeros 5000)) (Some 5000%nat) = (0, Some der, Some 4924%nat) /\
     QUDO_MLDSA_import_private_key_der (Some der) 4924 (Some (zeros 4896)) (Some 4896%nat) = (0, Some key, Some 4896%nat)) /\
  (let key := replicate 2592 7 in
   exists der, QUDO_MLDSA_export_private_key_der (Some key) 2592 (Some (zeros 3000)) (Some 3000%nat) = (0, Some der, Some 2620%nat) /\
     QUDO_MLDSA_import_private_key_der (Some der) 2620 (Some (zeros 3000)) (Some 3000%nat) = (-7, Some (zeros 3000), Some 3000%nat)) /\
  QUDO_MLDSA_export_private_key_der (Some (replicate 2561 7)) (length (replicate 2561 7)) (Some []) (Some 0%nat) = (ERROR_INVALID_ARG, Some [], Some 0%nat).
Proof.
  assert (Hb : forall n, are_bytes (replicate n 7)) by (intros n; apply Forall_replicate; split; [discriminate | reflexivity]).
  split; [| split].
  - intros key. assert (Hk : private_size (length key)) by (vm_compute; tauto).
    destruct (proj2 (proj1 (proj2 (mldsa_private_key_roundtrip key (Hb _)) Hk) (zeros 5000) 5000%nat (zeros 4896) 4896%nat) ltac:(split; apply Nat.leb_le; reflexivity)) as (d & E & _ & _ & I).
    exists d. split; [exact E |]. exact (eq_trans I ltac:(vm_compute; reflexivity)).
  - intros key. assert (Hk : private_size (length key)) by (vm_compute; tauto).
    destruct (proj2 (proj1 (proj2 (mldsa_private_key_roundtrip key (Hb _)) Hk) (zeros 3000) 3000%nat (zeros 3000) 3000%nat) ltac:(split; apply Nat.leb_le; reflexivity)) as (d & E & _ & _ & I).
    exists d. split; [exact E |]. exact (eq_trans I ltac:(vm_compute; reflexivity)).
  - apply (proj1 (mldsa_private_key_roundtrip (replicate 2561 7) (Hb _))). intros H. vm_compute in H.
    repeat (destruct H as [H | H]; [discriminate H |]). exact H.
Defined.

(** C37. What the public-key imports accept.  Accepted input begins with the SEQUENCE tag, the key returned has one of the three sizes, lies within the input and
    fits the output buffer; every other call leaves the output buffer alone.  But beyond that the imports are lenient: the lengths of the two SEQUENCEs are
    read and not used, data after the key is ignored, and the algorithm identifier is not compared with the size of the key, so that an object that names one
    parameter set and holds a key of another is accepted. *)
Theorem import_public_key_accepts (s : scheme) :
  (forall der e pk pkl st pk' len, import_public_key_der s (Some der) e (Some pk) (Some pkl) = (st, pk', len) ->
     (st = SUCCESS /\ rd der 0 = 0x30 /\
        exists p n, pk' = Some (blit pk 0 (sub der p n)) /\ len = Some n /\ public_size s n /\ (n <= pkl)%nat /\ (p + n <= e)%nat) \/
     (st <> SUCCESS /\ pk' = Some pk)) /\
  (forall n1 n2 oid key rest pk pkl, Z.of_nat n1 < 2 ^ 24 -> Z.of_nat n2 < 2 ^ 24 -> oid_known s oid = true -> public_size s (length key) -> (length key <= pkl)%nat ->
     let der := spki n1 n2 oid key ++ rest in
     import_public_key_der s (Some der) (length der) (Some pk) (Some pkl) = (SUCCESS, Some (blit pk 0 key), Some (length key))).
Proof.
  split.
  - intros der e pk pkl st pk' len H. unfold import_public_key_der, read_key in H. destruct (import_public_scan s der e) as [[p n]|] eqn:E; [| injection H as <- <- <-; now right].
    apply import_public_scan_inside in E as (Hn & Hp & H0). destruct (Nat.ltb_spec pkl n); injection H as <- <- <-; [now right | left].
    split; [reflexivity |]. split; [exact H0 |]. now exists p, n.
  - intros n1 n2 oid key rest pk pkl H1 H2 Ho Hk Hl der.
    destruct (import_public_scan_spki s n1 n2 oid key rest der (length der) H1 H2 Ho Hk (firstn_all der) (Nat.le_refl _)) as (p & E & S).
    unfold import_public_key_der, read_key. rewrite E, S. destruct (Nat.ltb_spec pkl (length key)); [lia | reflexivity].
Qed.

(** An object that names ML-KEM-512, claims two empty sequences, holds an ML-KEM-1024 key and ends with other data. *)
Lemma import_public_key_accepts_witness :
  let der := spki 0 0 OID_ML_KEM_512 (replicate 1568 7) ++ [1; 2; 3] in
  QUDO_KEM_import_public_key_der (Some der) (length der) (Some (zeros 1568)) (Some 1568%nat) =
    (SUCCESS, Some (blit (zeros 1568) 0 (replicate 1568 7)), Some (length (replicate 1568 7))).
Proof.
  apply (proj2 (import_public_key_accepts mlkem)); [reflexivity | reflexivity | reflexivity | now right; right | apply Nat.leb_le; reflexivity].
Defined.
