(* ===== verification/SlhdsaInterop.v ===== *)
(** * Import and export of SLH-DSA keys

    [qudo-slhdsa/src/slhdsa_interop.c] in the build of the module (without OpenSSL), with the parameter table of [qudo-slhdsa/src/slhdsa_config.c].  A parameter
    set is the value of its enumeration, as any integer can be passed.  In contrast to the other two algorithms the caller names the parameter set on
    export, a NULL buffer asks for the size, and the import compares the size of the key with the object identifier. *)

From stdpp Require Import base list numbers strings.
From Stdlib Require Import ZArith Lia ZifyNat.
From S2P Require Import Prelude KeyEncoding KeyInterop.

#[local] Open Scope Z_scope.

(** ** Parameter sets *)

Record slhdsa_param_info_t := { param_set : Z; name : string; nist_level : Z; pk_bytes : nat; sk_bytes : nat; sig_bytes : Z }.

Definition param_table : list slhdsa_param_info_t :=
  [ {| param_set := 1; name := "SLH-DSA-SHA2-128s"; nist_level := 1; pk_bytes := 32; sk_bytes := 64; sig_bytes := 7856 |};
    {| param_set := 2; name := "SLH-DSA-SHA2-128f"; nist_level := 1; pk_bytes := 32; sk_bytes := 64; sig_bytes := 17088 |};
    {| param_set := 3; name := "SLH-DSA-SHA2-192s"; nist_level := 3; pk_bytes := 48; sk_bytes := 96; sig_bytes := 16224 |};
    {| param_set := 4; name := "SLH-DSA-SHA2-192f"; nist_level := 3; pk_bytes := 48; sk_bytes := 96; sig_bytes := 35664 |};
    {| param_set := 5; name := "SLH-DSA-SHA2-256s"; nist_level := 5; pk_bytes := 64; sk_bytes := 128; sig_bytes := 29792 |};
    {| param_set := 6; name := "SLH-DSA-SHA2-256f"; nist_level := 5; pk_bytes := 64; sk_bytes := 128; sig_bytes := 49856 |};
    {| param_set := 7; name := "SLH-DSA-SHAKE-128s"; nist_level := 1; pk_bytes := 32; sk_bytes := 64; sig_bytes := 7856 |};
    {| param_set := 8; name := "SLH-DSA-SHAKE-128f"; nist_level := 1; pk_bytes := 32; sk_bytes := 64; sig_bytes := 17088 |};
    {| param_set := 9; name := "SLH-DSA-SHAKE-192s"; nist_level := 3; pk_bytes := 48; sk_bytes := 96; sig_bytes := 16224 |};
    {| param_set := 10; name := "SLH-DSA-SHAKE-192f"; nist_level := 3; pk_bytes := 48; sk_bytes := 96; sig_bytes := 35664 |};
    {| param_set := 11; name := "SLH-DSA-SHAKE-256s"; nist_level := 5; pk_bytes := 64; sk_bytes := 128; sig_bytes := 29792 |};
    {| param_set := 12; name := "SLH-DSA-SHAKE-256f"; nist_level := 5; pk_bytes := 64; sk_bytes := 128; sig_bytes := 49856 |} ].

Definition find_param (ps : Z) : option slhdsa_param_info_t := List.find (fun info => param_set info =? ps) param_table.

Definition slhdsa_get_algorithm_name (ps : Z) : option string := name <$> find_param ps.
Definition slhdsa_get_public_key_bytes (ps : Z) : nat := default 0%nat (pk_bytes <$> find_param ps).
Definition slhdsa_get_secret_key_bytes (ps : Z) : nat := default 0%nat (sk_bytes <$> find_param ps).
Definition slhdsa_get_signature_bytes (ps : Z) : Z := default 0 (sig_bytes <$> find_param ps).
Definition slhdsa_get_nist_level (ps : Z) : Z := default 0 (nist_level <$> find_param ps).

Definition slhdsa_get_parameter_set (algorithm_name : option string) : Z :=
  match algorithm_name with
  | None => 0
  | Some n => default 0 (param_set <$> List.find (fun info => bool_decide (name info = n)) param_table)
  end.

(** ** Object identifiers *)

Definition OID_BASE : bytes := [0x60; 0x86; 0x48; 0x01; 0x65; 0x03; 0x04; 0x03].
Definition OID_LEN : nat := 9.

Definition get_oid_suffix_for_param_set (ps : Z) : Z :=
  match ps with
  | 1 => 0x14 | 2 => 0x15 | 3 => 0x16 | 4 => 0x17 | 5 => 0x18 | 6 => 0x19
  | 7 => 0x1A | 8 => 0x1B | 9 => 0x1C | 10 => 0x1D | 11 => 0x1E | 12 => 0x1F
  | _ => 0
  end.

Definition get_param_set_from_oid_suffix (suffix : Z) : Z :=
  match suffix with
  | 0x14 => 1 | 0x15 => 2 | 0x16 => 3 | 0x17 => 4 | 0x18 => 5 | 0x19 => 6
  | 0x1A => 7 | 0x1B => 8 | 0x1C => 9 | 0x1D => 10 | 0x1E => 11 | 0x1F => 12
  | _ => 0
  end.

(** ** DER *)

Definition slhdsa_alg_id (oid_suffix : Z) : bytes :=
  [0x30; u8 (Z.of_nat (2 + OID_LEN)); 0x06; Z.of_nat OID_LEN] ++ OID_BASE ++ [oid_suffix].

(** The end of an export: no buffer asks for the size, and a buffer that is too small leaves the length alone. *)
Definition slhdsa_write (der_out : option bytes) (dl total_len : nat) (enc : bytes) : result :=
  match der_out with
  | None => (SUCCESS, None, Some total_len)
  | Some der => if (dl <? total_len)%nat then (ERROR_BUFFER_TOO_SMALL, Some der, Some dl) else (SUCCESS, Some (blit der 0 enc), Some total_len)
  end.

Definition QUDO_SLHDSA_export_public_key_der (public_key : option bytes) (public_key_len : nat) (ps : Z) (der_out : option bytes) (der_out_len : option nat) : result :=
  match public_key, der_out_len with
  | Some pk, Some dl =>
      let oid_suffix := get_oid_suffix_for_param_set ps in
      if oid_suffix =? 0 then (ERROR_INVALID_ARG, der_out, der_out_len)
      else
        let algid_total_len := (2 + (2 + OID_LEN))%nat in
        let bitstr_content_len := (1 + public_key_len)%nat in
        let bitstr_total_len := (1 + length (asn1_encode_length bitstr_content_len) + bitstr_content_len)%nat in
        let seq_content_len := (algid_total_len + bitstr_total_len)%nat in
        let total_len := (1 + length (asn1_encode_length seq_content_len) + seq_content_len)%nat in
        slhdsa_write der_out dl total_len
          ([0x30] ++ asn1_encode_length seq_content_len ++ slhdsa_alg_id oid_suffix ++
           [0x03] ++ asn1_encode_length bitstr_content_len ++ [0x00] ++ take public_key_len pk)
  | _, _ => (ERROR_NULL_PTR, der_out, der_out_len)
  end.

Definition QUDO_SLHDSA_export_private_key_der (private_key : option bytes) (private_key_len : nat) (ps : Z) (der_out : option bytes) (der_out_len : option nat) : result :=
  match private_key, der_out_len with
  | Some sk, Some dl =>
      let oid_suffix := get_oid_suffix_for_param_set ps in
      if oid_suffix =? 0 then (ERROR_INVALID_ARG, der_out, der_out_len)
      else
        let version_len := 3%nat in
        let algid_total_len := (2 + (2 + OID_LEN))%nat in
        let oct_total_len := (1 + length (asn1_encode_length private_key_len) + private_key_len)%nat in
        let seq_content_len := (version_len + algid_total_len + oct_total_len)%nat in
        let total_len := (1 + length (asn1_encode_length seq_content_len) + seq_content_len)%nat in
        slhdsa_write der_out dl total_len
          ([0x30] ++ asn1_encode_length seq_content_len ++ [0x02; 0x01; 0x00] ++ slhdsa_alg_id oid_suffix ++
           [0x04] ++ asn1_encode_length private_key_len ++ take private_key_len sk)
  | _, _ => (ERROR_NULL_PTR, der_out, der_out_len)
  end.

(** The parameter set that an object identifier names; 0 is an error. *)
Definition param_set_of_oid (oid : bytes) : option Z :=
  _ ← check (Nat.eqb (length oid) OID_LEN);
  _ ← check (bool_decide (take 8 oid = OID_BASE));
  let ps := get_param_set_from_oid_suffix (rd oid 8) in
  _ ← check (negb (ps =? 0));
  Some ps.

Definition slhdsa_public_scan (der : bytes) (end_ : nat) : option (nat * nat) :=
  _ ← check (10 <=? end_)%nat;
  '(_, p) ← scan_header slhdsa_asn1_decode_length der end_ 0 0x30;
  '(oid, p) ← scan_alg_id slhdsa_asn1_decode_length der end_ p;
  ps ← param_set_of_oid oid;
  let expected_pk_len := slhdsa_get_public_key_bytes ps in
  '(len, p) ← scan_bit_string slhdsa_asn1_decode_length der end_ p;
  _ ← check (len =? Z.of_nat expected_pk_len);
  _ ← check (len <=? Z.of_nat (end_ - p));
  Some (p, expected_pk_len).

Definition slhdsa_private_scan (der : bytes) (end_ : nat) : option (nat * nat) :=
  _ ← check (10 <=? end_)%nat;
  '(_, p) ← scan_header slhdsa_asn1_decode_length der end_ 0 0x30;
  p ← scan_version slhdsa_asn1_decode_length der end_ p;
  '(oid, p) ← scan_alg_id slhdsa_asn1_decode_length der end_ p;
  ps ← param_set_of_oid oid;
  let expected_sk_len := slhdsa_get_secret_key_bytes ps in
  '(len, p) ← scan_header slhdsa_asn1_decode_length der end_ p 0x04;
  _ ← check (len =? Z.of_nat expected_sk_len);
  _ ← check (len <=? Z.of_nat (end_ - p));
  Some (p, expected_sk_len).

(** The end of an import. *)
Definition slhdsa_read (found : option (nat * nat)) (der : bytes) (key : option bytes) (kl : nat) : result :=
  match found with
  | None => (ERROR_DECODE, key, Some kl)
  | Some (p, len) =>
      match key with
      | None => (SUCCESS, None, Some len)
      | Some k => if (kl <? len)%nat then (ERROR_BUFFER_TOO_SMALL, Some k, Some kl) else (SUCCESS, Some (blit k 0 (sub der p len)), Some len)
      end
  end.

Definition QUDO_SLHDSA_import_public_key_der (der_in : option bytes) (der_in_len : nat) (public_key : option bytes) (public_key_len : option nat) : result :=
  match der_in, public_key_len with
  | Some der, Some kl => slhdsa_read (slhdsa_public_scan der der_in_len) der public_key kl
  | _, _ => (ERROR_NULL_PTR, public_key, public_key_len)
  end.

Definition QUDO_SLHDSA_import_private_key_der (der_in : option bytes) (der_in_len : nat) (private_key : option bytes) (private_key_len : option nat) : result :=
  match der_in, private_key_len with
  | Some der, Some kl => slhdsa_read (slhdsa_private_scan der der_in_len) der private_key kl
  | _, _ => (ERROR_NULL_PTR, private_key, private_key_len)
  end.

(** ** PEM *)

Definition slhdsa_b64_encoded_len := mlkem_b64_encoded_len.
Definition slhdsa_b64_encode_wrapped := mlkem_b64_encode_wrapped.
Definition slhdsa_b64_decode := mlkem_b64_decode.

(** [snprintf] writes the two marker lines: there is room, as [need] counts them. *)
Definition slhdsa_pem_wrap (label der : bytes) (out : option bytes) (out_len : nat) : result :=
  let hdr_len := (11 + length label + 5 + 1)%nat in
  let ftr_len := (9 + length label + 5 + 1)%nat in
  let b64_len := slhdsa_b64_encoded_len (length der) in
  let need := (hdr_len + b64_len + ftr_len + 1)%nat in
  match out with
  | None => (SUCCESS, None, Some need)
  | Some buf =>
      if (out_len <? need)%nat then (ERROR_BUFFER_TOO_SMALL, Some buf, Some out_len)
      else
        let text := (start_marker label ++ [10]) ++ slhdsa_b64_encode_wrapped der 0 ++ end_marker label ++ [10] in
        (SUCCESS, Some (blit buf 0 (text ++ [0])), Some (length text))
  end.

(** [None] is QUDO_SLHDSA_ERROR_DECODE.  The length argument of the C function is not used. *)
Definition slhdsa_pem_unwrap (label pem : bytes) (der_size : nat) : option bytes :=
  let begin := start_marker label in
  let end_ := end_marker label in
  _ ← check (length begin <? 64)%nat;
  _ ← check (length end_ <? 64)%nat;
  let s := c_string pem in
  i ← strstr s begin;
  let p := drop (i + length begin) s in
  q ← strstr p end_;
  _ ← check (0 <? q)%nat;
  slhdsa_b64_decode (take q p) der_size.

(** Export as text: the object goes to an allocated buffer of its exact size. *)
Definition slhdsa_export_pem (label : bytes) (export_der : option bytes -> nat -> Z -> option bytes -> option nat -> result) (malloc : nat -> bool)
    (key : option bytes) (key_len : nat) (ps : Z) (out : option bytes) (out_len : option nat) : result :=
  match key, out_len with
  | Some _, Some ol =>
      match export_der key key_len ps None (Some 0%nat) with
      | (0, _, Some der_len) =>
          if malloc der_len then
            match export_der key key_len ps (Some (zeros der_len)) (Some der_len) with
            | (0, Some der, _) => slhdsa_pem_wrap label der out ol
            | (rc, _, _) => (rc, out, out_len)
            end
          else (ERROR_ALLOC, out, out_len)
      | (rc, _, _) => (rc, out, out_len)
      end
  | _, _ => (ERROR_NULL_PTR, out, out_len)
  end.

Definition slhdsa_import_pem (label : bytes) (der_size : nat) (import_der : option bytes -> nat -> option bytes -> option nat -> result)
    (pem_in : option bytes) (key : option bytes) (key_len : option nat) : result :=
  match pem_in, key_len with
  | Some pem, Some _ =>
      match slhdsa_pem_unwrap label pem der_size with
      | None => (ERROR_DECODE, key, key_len)
      | Some der => import_der (Some der) (length der) key key_len
      end
  | _, _ => (ERROR_NULL_PTR, key, key_len)
  end.

Definition QUDO_SLHDSA_export_public_key_pem := slhdsa_export_pem PUBLIC_KEY QUDO_SLHDSA_export_public_key_der.
Definition QUDO_SLHDSA_import_public_key_pem := slhdsa_import_pem PUBLIC_KEY (8 * 1024) QUDO_SLHDSA_import_public_key_der.
Definition QUDO_SLHDSA_export_private_key_pem := slhdsa_export_pem PRIVATE_KEY QUDO_SLHDSA_export_private_key_der.
Definition QUDO_SLHDSA_import_private_key_pem := slhdsa_import_pem PRIVATE_KEY (16 * 1024) QUDO_SLHDSA_import_private_key_der.

(** ** What is written *)

Definition slhdsa_oid (ps : Z) : bytes := OID_BASE ++ [get_oid_suffix_for_param_set ps].

Lemma slhdsa_alg_id_eq suffix : slhdsa_alg_id suffix = alg_id 11 (OID_BASE ++ [suffix]).
Proof. reflexivity. Qed.

Lemma ps_cases ps : 1 <= ps <= 12 ->
  ps = 1 \/ ps = 2 \/ ps = 3 \/ ps = 4 \/ ps = 5 \/ ps = 6 \/ ps = 7 \/ ps = 8 \/ ps = 9 \/ ps = 10 \/ ps = 11 \/ ps = 12.
Proof. lia. Qed.

Ltac each_ps H := apply ps_cases in H; repeat match type of H with _ \/ _ => destruct H as [H|H] end; subst.

(** Names and parameter sets correspond. *)
Lemma slhdsa_names ps : 1 <= ps <= 12 -> slhdsa_get_parameter_set (slhdsa_get_algorithm_name ps) = ps.
Proof. intros H. each_ps H; reflexivity. Qed.

Lemma suffix_ok ps : 1 <= ps <= 12 ->
  (get_oid_suffix_for_param_set ps =? 0) = false /\ param_set_of_oid (slhdsa_oid ps) = Some ps /\ are_bytes (slhdsa_oid ps).
Proof. intros H. each_ps H; (split; [reflexivity | split; [reflexivity | apply is_u8_dec_list; reflexivity]]). Qed.

Lemma suffix_bad ps : ps < 1 \/ 12 < ps -> get_oid_suffix_for_param_set ps = 0.
Proof. intros H. destruct ps as [| p | p]; try reflexivity. do 4 (destruct p as [p | p |]; try reflexivity; try lia). Qed.

Lemma pk_sizes ps : 1 <= ps <= 12 -> slhdsa_get_public_key_bytes ps = 32%nat \/ slhdsa_get_public_key_bytes ps = 48%nat \/ slhdsa_get_public_key_bytes ps = 64%nat.
Proof. intros H. each_ps H; vm_compute; auto. Qed.

Lemma sk_sizes ps : 1 <= ps <= 12 -> slhdsa_get_secret_key_bytes ps = 64%nat \/ slhdsa_get_secret_key_bytes ps = 96%nat \/ slhdsa_get_secret_key_bytes ps = 128%nat.
Proof. intros H. each_ps H; vm_compute; auto. Qed.

Definition slhdsa_public_object (ps : Z) (key : bytes) : bytes := spki (16 + length key) 11 (slhdsa_oid ps) key.

Definition oct_len (n : nat) : nat := (1 + length (asn1_encode_length n) + n)%nat.
Definition slhdsa_private_object (ps : Z) (key : bytes) : bytes := pkcs8 (16 + oct_len (length key)) 11 (slhdsa_oid ps) key.

(** 20 or, for the longest keys, 22 bytes more than the key. *)
Definition private_size_of (n : nat) : nat := if Nat.eqb n 128 then 150%nat else (20 + n)%nat.

Lemma length_slhdsa_public ps key : 1 <= ps <= 12 -> length key = slhdsa_get_public_key_bytes ps -> length (slhdsa_public_object ps key) = (18 + length key)%nat.
Proof.
  intros Hp L. unfold slhdsa_public_object. rewrite length_spki. change (length (slhdsa_oid ps)) with 9%nat.
  rewrite (enc_len_short 11) by lia. destruct (pk_sizes ps Hp) as [E | [E | E]]; rewrite L, E; reflexivity.
Qed.

Lemma length_slhdsa_private ps key : 1 <= ps <= 12 -> length key = slhdsa_get_secret_key_bytes ps -> length (slhdsa_private_object ps key) = private_size_of (length key).
Proof.
  intros Hp L. unfold slhdsa_private_object. rewrite length_pkcs8. change (length (slhdsa_oid ps)) with 9%nat.
  rewrite (enc_len_short 11) by lia. destruct (sk_sizes ps Hp) as [E | [E | E]]; rewrite L, E; reflexivity.
Qed.

Lemma slhdsa_export_public ps (key : bytes) out dl : 1 <= ps <= 12 -> length key = slhdsa_get_public_key_bytes ps ->
  QUDO_SLHDSA_export_public_key_der (Some key) (length key) ps out (Some dl) = slhdsa_write out dl (18 + length key) (slhdsa_public_object ps key).
Proof.
  intros Hp L. unfold QUDO_SLHDSA_export_public_key_der. cbv zeta. rewrite (proj1 (suffix_ok ps Hp)), firstn_all, slhdsa_alg_id_eq.
  pose proof (pk_sizes ps Hp) as S. rewrite <- L in S. unfold slhdsa_public_object, spki. rewrite (enc_len_short (1 + length key)) by lia.
  change (2 + (2 + OID_LEN) + (1 + 1 + (1 + length key)))%nat with (16 + length key)%nat. rewrite (enc_len_short (16 + length key)) by lia. reflexivity.
Qed.

Lemma slhdsa_export_private ps (key : bytes) out dl : 1 <= ps <= 12 -> length key = slhdsa_get_secret_key_bytes ps ->
  QUDO_SLHDSA_export_private_key_der (Some key) (length key) ps out (Some dl) = slhdsa_write out dl (private_size_of (length key)) (slhdsa_private_object ps key).
Proof.
  intros Hp L. unfold QUDO_SLHDSA_export_private_key_der. cbv zeta. rewrite (proj1 (suffix_ok ps Hp)), firstn_all, slhdsa_alg_id_eq.
  unfold slhdsa_private_object, pkcs8. fold (oct_len (length key)). change (3 + (2 + (2 + OID_LEN)) + oct_len (length key))%nat with (16 + oct_len (length key))%nat.
  replace (1 + length (asn1_encode_length (16 + oct_len (length key))) + (16 + oct_len (length key)))%nat with (private_size_of (length key)); [reflexivity |].
  destruct (sk_sizes ps Hp) as [E | [E | E]]; rewrite L, E; reflexivity.
Qed.

(** ** Reading it back *)

Lemma slhdsa_public_scan_at ps key rest der e : 1 <= ps <= 12 -> length key = slhdsa_get_public_key_bytes ps ->
  take e der = slhdsa_public_object ps key ++ rest -> (e <= length der)%nat ->
  exists p, slhdsa_public_scan der e = Some (p, length key) /\ sub der p (length key) = key.
Proof.
  intros Hp L E Le. pose proof (eq_refl : length (slhdsa_oid ps) = 9%nat) as Lo. destruct (suffix_ok ps Hp) as (_ & Ho & _). pose proof (pk_sizes ps Hp) as R. rewrite <- L in R.
  assert (L10 : (10 <= e)%nat) by (apply (f_equal length) in E; rewrite length_take, length_app, (length_slhdsa_public ps key Hp L) in E; lia).
  pose proof (at_start _ _ _ E Le) as H. unfold slhdsa_public_object, spki in H. rewrite <- !app_assoc in H. cbn [app] in H.
  pose proof (fun D => scan_header_at slhdsa_asn1_decode_length _ _ _ _ _ _ D H) as X. destruct X as (p1 & E1 & P1); [apply decodes_slhdsa; [lia |]; unfold alg_id; rewrite !length_app; cbn [length]; rewrite !length_app; change (length (slhdsa_oid ps)) with 9%nat; rewrite !enc_len_short by lia; cbn [length]; rewrite length_app; lia |].
  pose proof (fun D => scan_alg_id_at slhdsa_asn1_decode_length _ _ _ _ _ _ D (Lo : length (slhdsa_oid ps) = 9%nat) P1) as X. destruct X as (p2 & E2 & P2); [apply decodes_slhdsa; [lia |]; cbn [length]; rewrite length_app; change (length (slhdsa_oid ps)) with 9%nat; lia |].
  pose proof (fun D => scan_bit_string_at slhdsa_asn1_decode_length _ _ _ _ _ D P2) as X. destruct X as (p3 & E3 & P3); [apply decodes_slhdsa; [lia |]; cbn [length]; rewrite length_app; lia |].
  destruct (at_pos_app _ _ _ _ _ P3) as (_ & S4 & L4).
  exists p3. split; [| exact S4]. unfold slhdsa_public_scan. rewrite (check_true (10 <=? e)%nat) by now apply Nat.leb_le. cbn [mbind option_bind].
  rewrite E1. cbn [mbind option_bind]. rewrite E2. cbn [mbind option_bind]. rewrite Ho. cbn [mbind option_bind]. rewrite E3. cbn [mbind option_bind]. rewrite <- L.
  rewrite (check_true (_ =? _)) by apply Z.eqb_refl. cbn [mbind option_bind]. rewrite (check_true (_ <=? _)) by (apply Z.leb_le; lia). reflexivity.
Qed.

Lemma slhdsa_private_scan_at ps key rest der e : 1 <= ps <= 12 -> length key = slhdsa_get_secret_key_bytes ps ->
  take e der = slhdsa_private_object ps key ++ rest -> (e <= length der)%nat ->
  exists p, slhdsa_private_scan der e = Some (p, length key) /\ sub der p (length key) = key.
Proof.
  intros Hp L E Le. pose proof (eq_refl : length (slhdsa_oid ps) = 9%nat) as Lo. destruct (suffix_ok ps Hp) as (_ & Ho & _). pose proof (sk_sizes ps Hp) as R. rewrite <- L in R.
  assert (Lm : length (slhdsa_private_object ps key) = private_size_of (length key)) by now apply length_slhdsa_private.
  assert (R2 : (oct_len (length key) <= 131)%nat) by (destruct R as [-> | [-> | ->]]; apply Nat.leb_le; reflexivity).
  assert (L10 : (10 <= e)%nat) by (apply (f_equal length) in E; rewrite length_take, length_app, Lm in E; unfold private_size_of in E; destruct (Nat.eqb (length key) 128); lia).
  pose proof (at_start _ _ _ E Le) as H. unfold slhdsa_private_object, pkcs8 in H. rewrite <- !app_assoc in H. cbn [app] in H.
  pose proof (fun D => scan_header_at slhdsa_asn1_decode_length _ _ _ _ _ _ D H) as X. destruct X as (p1 & E1 & P1); [apply decodes_slhdsa; [lia |]; unfold alg_id, oct_len; cbn [length]; rewrite !length_app; cbn [length]; rewrite !length_app; change (length (slhdsa_oid ps)) with 9%nat; rewrite (enc_len_short 11) by lia; lia |].
  pose proof (fun D => scan_version_at slhdsa_asn1_decode_length _ _ _ _ D P1) as X. destruct X as (p2 & E2 & P2); [apply decodes_slhdsa; [lia |]; cbn [length]; lia |].
  pose proof (fun D => scan_alg_id_at slhdsa_asn1_decode_length _ _ _ _ _ _ D (Lo : length (slhdsa_oid ps) = 9%nat) P2) as X. destruct X as (p3 & E3 & P3); [apply decodes_slhdsa; [lia |]; cbn [length]; rewrite length_app; change (length (slhdsa_oid ps)) with 9%nat; lia |].
  pose proof (fun D => scan_header_at slhdsa_asn1_decode_length _ _ _ _ _ _ D P3) as X. destruct X as (p4 & E4 & P4); [apply decodes_slhdsa; [lia |]; rewrite length_app; lia |].
  destruct (at_pos_app _ _ _ _ _ P4) as (_ & S4 & L4).
  exists p4. split; [| exact S4]. unfold slhdsa_private_scan. rewrite (check_true (10 <=? e)%nat) by now apply Nat.leb_le. cbn [mbind option_bind].
  rewrite E1. cbn [mbind option_bind]. rewrite E2. cbn [mbind option_bind]. rewrite E3. cbn [mbind option_bind]. rewrite Ho. cbn [mbind option_bind].
  rewrite E4. cbn [mbind option_bind]. rewrite <- L.
  rewrite (check_true (_ =? _)) by apply Z.eqb_refl. cbn [mbind option_bind]. rewrite (check_true (_ <=? _)) by (apply Z.leb_le; lia). reflexivity.
Qed.


(** ** Round trips *)

(** The answer of an import that finds the key. *)
Definition found_key (key : bytes) (out : option bytes) (ol : nat) : result :=
  match out with
  | None => (SUCCESS, None, Some (length key))
  | Some o => if (ol <? length key)%nat then (ERROR_BUFFER_TOO_SMALL, Some o, Some ol) else (SUCCESS, Some (blit o 0 key), Some (length key))
  end.

(** An export and an import of an object of [n] bytes. *)
Definition slhdsa_der_pair (export_der : option bytes -> nat -> Z -> option bytes -> option nat -> result)
    (import_der : option bytes -> nat -> option bytes -> option nat -> result) (ps : Z) (n : nat) (key : bytes) : Prop :=
  forall (der : bytes) (dl : nat) (out : option bytes) (ol : nat),
  export_der (Some key) (length key) ps None (Some dl) = (SUCCESS, None, Some n) /\
  ((dl < n)%nat -> export_der (Some key) (length key) ps (Some der) (Some dl) = (ERROR_BUFFER_TOO_SMALL, Some der, Some dl)) /\
  ((n <= dl <= length der)%nat ->
     exists der', export_der (Some key) (length key) ps (Some der) (Some dl) = (SUCCESS, Some der', Some n) /\
       length der' = length der /\ drop n der' = drop n der /\ import_der (Some der') n out (Some ol) = found_key key out ol).

(** The same for text: [need] bytes with the terminator, when the allocation of the object succeeds. *)
Definition slhdsa_pem_pair (export_text : (nat -> bool) -> option bytes -> nat -> Z -> option bytes -> option nat -> result)
    (import_text : option bytes -> option bytes -> option nat -> result) (ps : Z) (n need : nat) (key : bytes) : Prop :=
  forall (malloc : nat -> bool) (buf : bytes) (pl : nat) (out : option bytes) (ol : nat),
  if malloc n then
    export_text malloc (Some key) (length key) ps None (Some pl) = (SUCCESS, None, Some need) /\
    ((pl < need)%nat -> export_text malloc (Some key) (length key) ps (Some buf) (Some pl) = (ERROR_BUFFER_TOO_SMALL, Some buf, Some pl)) /\
    ((need <= pl <= length buf)%nat ->
       exists pem, export_text malloc (Some key) (length key) ps (Some buf) (Some pl) = (SUCCESS, Some pem, Some (need - 1)%nat) /\
         length pem = length buf /\ drop need pem = drop need buf /\ import_text (Some pem) out (Some ol) = found_key key out ol)
  else export_text malloc (Some key) (length key) ps (Some buf) (Some pl) = (ERROR_ALLOC, Some buf, Some pl).

Section Pairs.
Context (export_der : option bytes -> nat -> Z -> option bytes -> option nat -> result) (import_der : option bytes -> nat -> option bytes -> option nat -> result).
Context (ps : Z) (n : nat) (key obj : bytes).
Context (Hlen : length obj = n).
Context (Hexp : forall out dl, export_der (Some key) (length key) ps out (Some dl) = slhdsa_write out dl n obj).
Context (Himp : forall rest der e out ol, take e der = obj ++ rest -> (e <= length der)%nat -> import_der (Some der) e out (Some ol) = found_key key out ol).

Lemma slhdsa_der_pair_intro : slhdsa_der_pair export_der import_der ps n key.
Proof.
  intros der dl out ol. rewrite !Hexp. unfold slhdsa_write. split; [reflexivity |]. split; intros H; destruct (Nat.ltb_spec dl n); try lia; [reflexivity |].
  exists (blit der 0 obj). split; [reflexivity |]. split; [apply length_blit0; lia |]. rewrite <- Hlen. split; [apply drop_blit |].
  apply (Himp []); [rewrite app_nil_r; apply take_blit | rewrite length_blit0; lia].
Qed.

Lemma pem_unwrap_text label size rest : label_ok label -> are_bytes obj -> (length obj <= size)%nat ->
  slhdsa_pem_unwrap label (pem_text label obj ++ 0 :: rest) size = Some obj.
Proof.
  intros HL Hb Hs. unfold slhdsa_pem_unwrap. cbv zeta. rewrite c_string_app by now apply pem_text_nonzero.
  rewrite (check_true (length (start_marker label) <? 64)%nat) by (destruct HL as [-> | ->]; reflexivity). cbn [mbind option_bind].
  rewrite (check_true (length (end_marker label) <? 64)%nat) by (destruct HL as [-> | ->]; reflexivity). cbn [mbind option_bind].
  unfold pem_text. rewrite strstr_prefix. cbn [mbind option_bind]. rewrite Nat.add_0_l, drop_app_length. cbn [app]. rewrite body_end by exact Hb. cbn [mbind option_bind].
  rewrite (check_true (0 <? _)%nat) by reflexivity. cbn [mbind option_bind].
  change (1 + length (mlkem_b64_encode_wrapped obj 0))%nat with (length (10 :: mlkem_b64_encode_wrapped obj 0)).
  rewrite app_comm_cons, take_app_length. now apply decode_body.
Qed.

Lemma slhdsa_pem_pair_intro label size : label_ok label -> are_bytes obj -> (length obj <= size)%nat ->
  slhdsa_pem_pair (slhdsa_export_pem label export_der) (slhdsa_import_pem label size import_der) ps n (length (pem_text label obj) + 1) key.
Proof.
  intros HL Hb Hs malloc buf pl out ol. set (need := (length (pem_text label obj) + 1)%nat).
  assert (N : (11 + length label + 5 + 1 + mlkem_b64_encoded_len (length obj) + (9 + length label + 5 + 1) + 1)%nat = need).
  { unfold need. rewrite length_pem_text. destruct HL as [-> | ->]; cbn [length app start_marker end_marker dashes replicate PUBLIC_KEY PRIVATE_KEY]; lia. }
  assert (E : forall o, slhdsa_export_pem label export_der malloc (Some key) (length key) ps o (Some pl) = if malloc n then slhdsa_pem_wrap label obj o pl else (ERROR_ALLOC, o, Some pl)).
  { intros o. unfold slhdsa_export_pem. rewrite Hexp. unfold slhdsa_write at 1, SUCCESS at 1. cbv iota. destruct (malloc n); [| reflexivity].
    rewrite Hexp. unfold slhdsa_write. rewrite Nat.ltb_irrefl. unfold SUCCESS at 1. cbv iota.
    replace (blit (zeros n) 0 obj) with obj; [reflexivity |]. unfold blit. rewrite take_0, drop_ge by (rewrite length_zeros; lia). now rewrite app_nil_r. }
  rewrite !E. destruct (malloc n); [| reflexivity]. unfold slhdsa_pem_wrap, slhdsa_b64_encoded_len. cbv zeta. rewrite N.
  split; [reflexivity |]. split; intros H; destruct (Nat.ltb_spec pl need); try lia; [reflexivity |].
  assert (T : (start_marker label ++ [10]) ++ slhdsa_b64_encode_wrapped obj 0 ++ end_marker label ++ [10] = pem_text label obj) by (unfold pem_text; now rewrite <- app_assoc).
  rewrite T. assert (Ln : length (pem_text label obj ++ [0]) = need) by (rewrite length_app; reflexivity).
  exists (blit buf 0 (pem_text label obj ++ [0])). split; [replace (need - 1)%nat with (length (pem_text label obj)) by (unfold need; lia); reflexivity |].
  split; [apply length_blit0; lia |]. split; [rewrite <- Ln; apply drop_blit |].
  unfold blit. rewrite take_0. cbn [app]. rewrite <- app_assoc. cbn [app]. unfold slhdsa_import_pem. rewrite pem_unwrap_text by assumption.
  apply (Himp []); [rewrite app_nil_r; apply firstn_all | lia].
Qed.

End Pairs.

(** ** Claims *)

(** C28. SLH-DSA keys survive export and import.  For each of the twelve parameter sets, every public and every private key of its sizes and all buffers: without a
    buffer the DER and PEM exports report the exact size; a buffer that is too small is refused and left alone; otherwise exactly that many bytes are written, and the
    import of what was written returns the key (or its size, without a buffer).  A failed allocation is reported and changes nothing; numbers that are no parameter set are
    refused. *)
Theorem slhdsa_key_roundtrip (ps : Z) :
  (1 <= ps <= 12 ->
   (forall key, length key = slhdsa_get_public_key_bytes ps -> are_bytes key ->
      slhdsa_der_pair QUDO_SLHDSA_export_public_key_der QUDO_SLHDSA_import_public_key_der ps (18 + length key) key /\
      slhdsa_pem_pair QUDO_SLHDSA_export_public_key_pem QUDO_SLHDSA_import_public_key_pem ps (18 + length key)
        (27 + slhdsa_b64_encoded_len (18 + length key) + 25 + 1) key) /\
   (forall key, length key = slhdsa_get_secret_key_bytes ps -> are_bytes key ->
      slhdsa_der_pair QUDO_SLHDSA_export_private_key_der QUDO_SLHDSA_import_private_key_der ps (private_size_of (length key)) key /\
      slhdsa_pem_pair QUDO_SLHDSA_export_private_key_pem QUDO_SLHDSA_import_private_key_pem ps (private_size_of (length key))
        (28 + slhdsa_b64_encoded_len (private_size_of (length key)) + 26 + 1) key)) /\
  (ps < 1 \/ 12 < ps -> forall key n out dl,
     QUDO_SLHDSA_export_public_key_der (Some key) n ps out (Some dl) = (ERROR_INVALID_ARG, out, Some dl) /\
     QUDO_SLHDSA_export_private_key_der (Some key) n ps out (Some dl) = (ERROR_INVALID_ARG, out, Some dl)).
Proof.
  split.
  - intros Hp. destruct (suffix_ok ps Hp) as (_ & _ & Ho). split; intros key L Hb.
    + pose proof (length_slhdsa_public ps key Hp L) as Lo. pose proof (pk_sizes ps Hp) as R. rewrite <- L in R.
      assert (Hexp : forall out dl, QUDO_SLHDSA_export_public_key_der (Some key) (length key) ps out (Some dl) = slhdsa_write out dl (18 + length key) (slhdsa_public_object ps key))
        by (intros; now apply slhdsa_export_public).
      assert (Himp : forall rest der e out ol, take e der = slhdsa_public_object ps key ++ rest -> (e <= length der)%nat ->
                QUDO_SLHDSA_import_public_key_der (Some der) e out (Some ol) = found_key key out ol).
      { intros rest der e out ol Hd He. destruct (slhdsa_public_scan_at ps key rest der e Hp L Hd He) as (p & E & S).
        unfold QUDO_SLHDSA_import_public_key_der, slhdsa_read. rewrite E. cbv iota. rewrite S. reflexivity. }
      split; [exact (slhdsa_der_pair_intro _ _ ps _ key _ Lo Hexp Himp) |].
      pose proof (slhdsa_pem_pair_intro _ _ ps _ key _ Lo Hexp Himp PUBLIC_KEY (8 * 1024) (or_introl eq_refl) (spki_bytes _ _ _ _ Ho Hb)) as HP.
      rewrite length_pem_text, Lo in HP. apply HP. lia.
    + pose proof (length_slhdsa_private ps key Hp L) as Lo. pose proof (sk_sizes ps Hp) as R. rewrite <- L in R.
      assert (Hexp : forall out dl, QUDO_SLHDSA_export_private_key_der (Some key) (length key) ps out (Some dl) = slhdsa_write out dl (private_size_of (length key)) (slhdsa_private_object ps key))
        by (intros; now apply slhdsa_export_private).
      assert (Himp : forall rest der e out ol, take e der = slhdsa_private_object ps key ++ rest -> (e <= length der)%nat ->
                QUDO_SLHDSA_import_private_key_der (Some der) e out (Some ol) = found_key key out ol).
      { intros rest der e out ol Hd He. destruct (slhdsa_private_scan_at ps key rest der e Hp L Hd He) as (p & E & S).
        unfold QUDO_SLHDSA_import_private_key_der, slhdsa_read. rewrite E. cbv iota. rewrite S. reflexivity. }
      split; [exact (slhdsa_der_pair_intro _ _ ps _ key _ Lo Hexp Himp) |].
      pose proof (slhdsa_pem_pair_intro _ _ ps _ key _ Lo Hexp Himp PRIVATE_KEY (16 * 1024) (or_intror eq_refl) (pkcs8_bytes _ _ _ _ Ho Hb)) as HP.
      rewrite length_pem_text, Lo in HP. apply HP. unfold private_size_of. destruct (Nat.eqb (length key) 128); lia.
  - intros H key n out dl. unfold QUDO_SLHDSA_export_public_key_der, QUDO_SLHDSA_export_private_key_der. rewrite (suffix_bad ps H). now split.
Qed.

Lemma slhdsa_key_roundtrip_witness :
  let key := replicate 128 7 in
  exists der, QUDO_SLHDSA_export_private_key_der (Some key) 128 6 (Some (zeros 200)) (Some 200%nat) = (0, Some der, Some 150%nat) /\
    QUDO_SLHDSA_import_private_key_der (Some der) 150 (Some (zeros 128)) (Some 128%nat) = (0, Some key, Some 128%nat).
Proof.
  intros key. assert (Hb : are_bytes key) by (apply is_u8_dec_list; reflexivity).
  destruct (proj2 (proj2 (proj1 (proj2 (proj1 (slhdsa_key_roundtrip 6) ltac:(lia)) key eq_refl Hb) (zeros 200) 200%nat (Some (zeros 128)) 128%nat)) ltac:(split; apply Nat.leb_le; reflexivity)) as (d & E & _ & _ & I).
  exists d. split; [exact E |]. exact (eq_trans I ltac:(vm_compute; reflexivity)).
Defined.
