(* ===== verification/Fips204.v ===== *)
(** * FIPS 204 reference arithmetic

    Rounding and hints of ML-DSA (FIPS 204, 7.4), as the standard defines them. *)

From stdpp Require Import base list numbers.
From Stdlib Require Import ZArith Lia.
From S2P Require Import Prelude.

#[local] Open Scope Z_scope.

Module DSA.

Definition q : Z := 8380417.
Definition d : Z := 13.

(** [m mod± a]: the representative in (-a/2, a/2]. *)
Definition mod_pm (m a : Z) : Z := let r := m mod a in if a / 2 <? r then r - a else r.

(** ** Algorithms 35 to 40 *)

Definition Power2Round (r : Z) : Z * Z :=
  let r := r mod q in
  let r0 := mod_pm r (2 ^ d) in
  ((r - r0) / 2 ^ d, r0).

Definition Decompose (gamma2 r : Z) : Z * Z :=
  let r := r mod q in
  let r0 := mod_pm r (2 * gamma2) in
  if r - r0 =? q - 1 then (0, r0 - 1) else ((r - r0) / (2 * gamma2), r0).

Definition HighBits (gamma2 r : Z) : Z := fst (Decompose gamma2 r).
Definition LowBits (gamma2 r : Z) : Z := snd (Decompose gamma2 r).

Definition UseHint (gamma2 : Z) (h : bool) (r : Z) : Z :=
  let m := (q - 1) / (2 * gamma2) in
  let '(r1, r0) := Decompose gamma2 r in
  if h && (0 <? r0) then (r1 + 1) mod m else if h && (r0 <=? 0) then (r1 - 1) mod m else r1.

End DSA.
