(* ===== verification/MldsaRounding.v ===== *)
(** * ML-DSA arithmetic: reduction, rounding and hints

    Model of the portable code of [mldsa-native/mldsa/src/ct.h], [reduce.h], [rounding.h], and of the loops over them in [poly.c] and
    [poly_kl.c].  An [int32_t] is a [Z] in [-2^31, 2^31); every result of type [int32_t] is written [i32]: that it truncates nothing is
    part of the theorems. *)

From stdpp Require Import base list numbers.
From Stdlib Require Import ZArith Lia.
From S2P Require Import Prelude Fips202 Fips203 Fips204.

#[local] Open Scope Z_scope.

(** ** params.h *)

Definition MLDSA_N : nat := 256.
Definition MLDSA_Q : Z := 8380417.
Definition MLDSA_D : Z := 13.

(** [MLD_CONFIG_PARAMETER_SET] *)
Inductive parameter_set := P44 | P65 | P87.

Definition MLDSA_K (s : parameter_set) : nat := match s with P44 => 4 | P65 => 6 | P87 => 8 end.
Definition MLDSA_L (s : parameter_set) : nat := match s with P44 => 4 | P65 => 5 | P87 => 7 end.
Definition MLDSA_OMEGA (s : parameter_set) : nat := match s with P44 => 80 | P65 => 55 | P87 => 75 end.
Definition MLDSA_CTILDEBYTES (s : parameter_set) : nat := match s with P44 => 32 | P65 => 48 | P87 => 64 end.
Definition MLDSA_POLYZ_PACKEDBYTES (s : parameter_set) : nat := match s with P44 => 576 | _ => 640 end.
Definition MLDSA_POLYVECH_PACKEDBYTES (s : parameter_set) : nat := MLDSA_OMEGA s + MLDSA_K s.

Definition MLDSA_SIG_Z_OFFSET (s : parameter_set) : nat := MLDSA_CTILDEBYTES s.
Definition MLDSA_SIG_H_OFFSET (s : parameter_set) : nat := MLDSA_SIG_Z_OFFSET s + MLDSA_L s * MLDSA_POLYZ_PACKEDBYTES s.
Definition MLDSA_CRYPTO_BYTES (s : parameter_set) : nat := MLDSA_SIG_H_OFFSET s + MLDSA_POLYVECH_PACKEDBYTES s.

Definition MLDSA_GAMMA2 (s : parameter_set) : Z := match s with P44 => (MLDSA_Q - 1) / 88 | _ => (MLDSA_Q - 1) / 32 end.

(** ** ct.h *)

Definition mld_cast_uint32_to_int32 (x : Z) : Z := i32 x.
Definition mld_cast_int64_to_uint32 (x : Z) : Z := Z.land x 0xffffffff.
Definition mld_cast_int32_to_uint32 (x : Z) : Z := mld_cast_int64_to_uint32 x.

Definition mld_ct_sel_int32 (a b cond : Z) : Z :=
  let au := mld_cast_int32_to_uint32 a in
  let bu := mld_cast_int32_to_uint32 b in
  let res := Z.lxor bu (Z.land cond (Z.lxor au bu)) in
  mld_cast_uint32_to_int32 res.

Definition mld_ct_cmask_neg_i32 (x : Z) : Z := mld_cast_int64_to_uint32 (Z.shiftr x 31).
Definition mld_ct_abs_i32 (x : Z) : Z := mld_ct_sel_int32 (i32 (- x)) x (mld_ct_cmask_neg_i32 x).

(** ** reduce.h *)

Definition MLD_REDUCE32_DOMAIN_MAX : Z := 2 ^ 31 - 1 - Z.shiftl 1 22.
Definition MLD_REDUCE32_RANGE_MAX : Z := 6283009.

Definition mld_montgomery_reduce (a : Z) : Z :=
  let QINV := 58728449 in
  let a_reduced := mld_cast_int64_to_uint32 a in
  let a_inverted := Z.land (u64 (a_reduced * QINV)) 0xffffffff in
  let t := mld_cast_uint32_to_int32 a_inverted in
  let r := a - t * MLDSA_Q in
  i32 (Z.shiftr r 32).

Definition mld_reduce32 (a : Z) : Z :=
  let t := Z.shiftr (i32 (a + Z.shiftl 1 22)) 23 in
  i32 (a - i32 (t * MLDSA_Q)).

Definition mld_caddq (a : Z) : Z := mld_ct_sel_int32 (i32 (a + MLDSA_Q)) a (mld_ct_cmask_neg_i32 a).

(** ** rounding.h *)

(** The pair [(a0, a1)]. *)
Definition mld_power2round (a : Z) : Z * Z :=
  let a1 := Z.shiftr (i32 (a + Z.shiftl 1 (MLDSA_D - 1) - 1)) MLDSA_D in
  let a0 := i32 (a - Z.shiftl a1 MLDSA_D) in
  (a0, a1).

Definition mld_decompose (s : parameter_set) (a : Z) : Z * Z :=
  let a1 := Z.shiftr (i32 (a + 127)) 7 in
  let a1 :=
    match s with
    | P44 => let a1 := Z.shiftr (i32 (a1 * 11275 + Z.shiftl 1 23)) 24 in mld_ct_sel_int32 0 a1 (mld_ct_cmask_neg_i32 (43 - a1))
    | _ => let a1 := Z.shiftr (i32 (a1 * 1025 + Z.shiftl 1 21)) 22 in Z.land a1 15
    end in
  let a0 := i32 (a - i32 (a1 * 2 * MLDSA_GAMMA2 s)) in
  let a0 := mld_ct_sel_int32 (i32 (a0 - MLDSA_Q)) a0 (mld_ct_cmask_neg_i32 (i32 ((MLDSA_Q - 1) / 2 - a0))) in
  (a0, a1).

Definition mld_make_hint (s : parameter_set) (a0 a1 : Z) : Z :=
  if (MLDSA_GAMMA2 s <? a0) || (a0 <? - MLDSA_GAMMA2 s) || ((a0 =? - MLDSA_GAMMA2 s) && negb (a1 =? 0)) then 1 else 0.

Definition mld_use_hint (s : parameter_set) (a hint : Z) : Z :=
  let '(a0, a1) := mld_decompose s a in
  if hint =? 0 then a1
  else
    match s with
    | P44 => if 0 <? a0 then (if a1 =? 43 then 0 else a1 + 1) else (if a1 =? 0 then 43 else a1 - 1)
    | _ => if 0 <? a0 then Z.land (a1 + 1) 15 else Z.land (a1 - 1) 15
    end.

(** ** poly.c and poly_kl.c: one coefficient at a time *)

Definition mld_poly : Type := list Z.

Definition mld_poly_reduce (a : mld_poly) : mld_poly := map mld_reduce32 a.
Definition mld_poly_caddq (a : mld_poly) : mld_poly := map mld_caddq a.

(** The polynomials [a1] and [a0]. *)
Definition mld_poly_power2round (a : mld_poly) : mld_poly * mld_poly :=
  (map (fun c => snd (mld_power2round c)) a, map (fun c => fst (mld_power2round c)) a).
Definition mld_poly_decompose (s : parameter_set) (a0 : mld_poly) : mld_poly * mld_poly :=
  (map (fun c => snd (mld_decompose s c)) a0, map (fun c => fst (mld_decompose s c)) a0).
Definition mld_poly_use_hint (s : parameter_set) (a h : mld_poly) : mld_poly := zip_with (mld_use_hint s) a h.

(** 0 or 0xFFFFFFFF. *)
Definition mld_poly_chknorm (a : mld_poly) (B : Z) : Z :=
  fold_left (fun t c => Z.lor t (mld_ct_cmask_neg_i32 (i32 (B - 1 - mld_ct_abs_i32 c)))) a 0.

(** ** Machine arithmetic *)

#[local] Ltac Zify.zify_post_hook ::= Z.to_euclidean_division_equations.

Lemma cast_u32 x : mld_cast_int64_to_uint32 x = x mod 2 ^ 32.
Proof. unfold mld_cast_int64_to_uint32. change 0xffffffff with (Z.ones 32). now rewrite Z.land_ones by lia. Qed.

Lemma cmask_neg_spec x : - 2 ^ 31 <= x < 2 ^ 31 -> mld_ct_cmask_neg_i32 x = if x <? 0 then 0xffffffff else 0.
Proof.
  intros H. unfold mld_ct_cmask_neg_i32. rewrite cast_u32, Z.shiftr_div_pow2 by lia. destruct (Z.ltb_spec x 0).
  - replace (x / 2 ^ 31) with (-1) by lia. reflexivity.
  - rewrite (Z.div_small x) by lia. reflexivity.
Qed.

Lemma sel_spec a b (c : bool) : - 2 ^ 31 <= a < 2 ^ 31 -> - 2 ^ 31 <= b < 2 ^ 31 ->
  mld_ct_sel_int32 a b (if c then 0xffffffff else 0) = if c then a else b.
Proof.
  intros Ha Hb. unfold mld_ct_sel_int32, mld_cast_int32_to_uint32, mld_cast_int64_to_uint32, mld_cast_uint32_to_int32. cbv zeta. destruct c.
  - replace (Z.lxor (Z.land b 0xffffffff) (Z.land 0xffffffff (Z.lxor (Z.land a 0xffffffff) (Z.land b 0xffffffff)))) with (Z.land a 0xffffffff).
    + rewrite i32_u32. now apply i32_id.
    + apply Z.bits_inj'. intros i Hi. rewrite Z.lxor_spec, !Z.land_spec, Z.lxor_spec, !Z.land_spec.
      destruct (Z.testbit a i), (Z.testbit b i), (Z.testbit 0xffffffff i); reflexivity.
  - rewrite Z.land_0_l, Z.lxor_0_r, i32_u32. now apply i32_id.
Qed.

Lemma sel_neg a b x : - 2 ^ 31 <= a < 2 ^ 31 -> - 2 ^ 31 <= b < 2 ^ 31 -> - 2 ^ 31 <= x < 2 ^ 31 ->
  mld_ct_sel_int32 a b (mld_ct_cmask_neg_i32 x) = if x <? 0 then a else b.
Proof. intros Ha Hb Hx. rewrite cmask_neg_spec by exact Hx. now apply sel_spec. Qed.

Lemma abs_spec x : - 2 ^ 31 < x < 2 ^ 31 -> mld_ct_abs_i32 x = Z.abs x.
Proof. intros H. unfold mld_ct_abs_i32. rewrite i32_id, sel_neg by lia. destruct (Z.ltb_spec x 0); lia. Qed.

(** ** Reduction *)

(** Montgomery reduction: [a * 2^-32] modulo q. *)
Lemma montgomery_spec a : - 2 ^ 31 * MLDSA_Q < a < 2 ^ 31 * MLDSA_Q ->
  (2 ^ 32 * mld_montgomery_reduce a) mod MLDSA_Q = a mod MLDSA_Q /\ Z.abs (mld_montgomery_reduce a) < MLDSA_Q.
Proof.
  intros Ha. unfold mld_montgomery_reduce. cbv zeta. rewrite cast_u32, u64_mod. change 0xffffffff with (Z.ones 32). rewrite Z.land_ones by lia.
  set (t := mld_cast_uint32_to_int32 _). assert (Ht : - 2 ^ 31 <= t < 2 ^ 31) by apply i32_range.
  assert (Hd : exists k, a - t * MLDSA_Q = k * 2 ^ 32).
  { assert (E : exists k, t = a * 58728449 + k * 2 ^ 32).
    { unfold t, mld_cast_uint32_to_int32. rewrite i32_mod.
      exists (- (a / 2 ^ 32 * 58728449) - (a mod 2 ^ 32 * 58728449) / 2 ^ 64 * 2 ^ 32 - ((a mod 2 ^ 32 * 58728449) mod 2 ^ 64) / 2 ^ 32
              - ((((a mod 2 ^ 32 * 58728449) mod 2 ^ 64) mod 2 ^ 32 + 2 ^ 31) / 2 ^ 32)).
      pose proof (Z.div_mod a (2 ^ 32)). pose proof (Z.div_mod (a mod 2 ^ 32 * 58728449) (2 ^ 64)).
      pose proof (Z.div_mod ((a mod 2 ^ 32 * 58728449) mod 2 ^ 64) (2 ^ 32)).
      pose proof (Z.div_mod (((a mod 2 ^ 32 * 58728449) mod 2 ^ 64) mod 2 ^ 32 + 2 ^ 31) (2 ^ 32)). lia. }
    destruct E as [k E]. exists (- (a * 114592) - k * MLDSA_Q). rewrite E. unfold MLDSA_Q. lia. }
  destruct Hd as [k Hk]. rewrite Hk, Z.shiftr_div_pow2, Z.div_mul by lia. unfold MLDSA_Q in *.
  assert (Hkb : Z.abs k < 8380417) by lia. rewrite i32_id by lia. split; [| exact Hkb].
  replace (2 ^ 32 * k) with (a + (- t) * 8380417) by lia. apply Z.mod_add. lia.
Qed.

Lemma reduce32_spec a : - 2 ^ 31 <= a <= MLD_REDUCE32_DOMAIN_MAX ->
  mld_reduce32 a mod MLDSA_Q = a mod MLDSA_Q /\ - MLD_REDUCE32_RANGE_MAX <= mld_reduce32 a < MLD_REDUCE32_RANGE_MAX.
Proof.
  unfold MLD_REDUCE32_DOMAIN_MAX, MLD_REDUCE32_RANGE_MAX, mld_reduce32, MLDSA_Q. change (Z.shiftl 1 22) with 4194304. intros Ha. cbv zeta.
  rewrite (i32_id (a + 4194304)), Z.shiftr_div_pow2 by lia. change (2 ^ 23) with 8388608. set (t := (a + 4194304) / 8388608).
  assert (Ht : -256 <= t <= 255) by (unfold t; lia). rewrite (i32_id (t * 8380417)) by lia.
  assert (B : - 6283009 <= a - t * 8380417 < 6283009) by (unfold t; lia). rewrite i32_id by lia. split; [| exact B].
  replace (a - t * 8380417) with (a + (- t) * 8380417) by lia. apply Z.mod_add. lia.
Qed.

Lemma caddq_spec a : - MLDSA_Q < a < MLDSA_Q -> mld_caddq a = a mod MLDSA_Q.
Proof.
  unfold MLDSA_Q, mld_caddq. intros H. rewrite (i32_id (a + MLDSA_Q)) by (unfold MLDSA_Q; lia). rewrite sel_neg by (unfold MLDSA_Q; lia).
  unfold MLDSA_Q. destruct (Z.ltb_spec a 0); [apply (Z.mod_unique _ _ (-1)); lia | symmetry; apply Z.mod_small; lia].
Qed.

(** ** Rounding *)

Lemma mod_pm_eq m a : 0 < a -> a mod 2 = 0 -> DSA.mod_pm m a = m - a * ((m + a / 2 - 1) / a).
Proof.
  intros Ha He. unfold DSA.mod_pm. cbv zeta. pose proof (Z.div_mod m a) as D. pose proof (Z.mod_pos_bound m a) as B.
  assert (E : (m + a / 2 - 1) / a = if a / 2 <? m mod a then m / a + 1 else m / a).
  { symmetry. destruct (Z.ltb_spec (a / 2) (m mod a)).
    - apply (Z.div_unique _ _ _ (m mod a + a / 2 - 1 - a)); lia.
    - apply (Z.div_unique _ _ _ (m mod a + a / 2 - 1)); lia. }
  rewrite E. destruct (a / 2 <? m mod a); lia.
Qed.

Lemma power2round_spec a : 0 <= a < MLDSA_Q -> mld_power2round a = (snd (DSA.Power2Round a), fst (DSA.Power2Round a)).
Proof.
  unfold MLDSA_Q. intros H. unfold mld_power2round, DSA.Power2Round, MLDSA_D, DSA.d. cbv zeta. rewrite (Z.mod_small a) by exact H. rewrite mod_pm_eq by (try reflexivity; lia).
  change (Z.shiftl 1 (13 - 1)) with 4096. change (2 ^ 13) with 8192. change (8192 / 2) with 4096. rewrite (i32_id (a + 4096 - 1)) by lia.
  rewrite Z.shiftl_mul_pow2, Z.shiftr_div_pow2 by lia. change (2 ^ 13) with 8192. cbn [fst snd].
  set (t := (a + 4096 - 1) / 8192). replace (a - (a - 8192 * t)) with (t * 8192) by lia. rewrite Z.div_mul by lia. f_equal. rewrite i32_id; [lia | unfold t; lia].
Qed.

(** [(q - 1) / (2 gamma2)]: 44 or 16. *)
Definition hint_modulus (s : parameter_set) : Z := match s with P44 => 44 | _ => 16 end.

(** The quotient of [a] by 2 gamma2, rounded to nearest, half down. *)
Definition rounded (s : parameter_set) (a : Z) : Z := (a + MLDSA_GAMMA2 s - 1) / (2 * MLDSA_GAMMA2 s).

Lemma gamma2_values s : MLDSA_GAMMA2 s = match s with P44 => 95232 | _ => 261888 end.
Proof. now destruct s. Qed.

Lemma rounded_bounds s a : 0 <= a < MLDSA_Q ->
  0 <= rounded s a <= hint_modulus s /\ 2 * MLDSA_GAMMA2 s * rounded s a - MLDSA_GAMMA2 s < a <= 2 * MLDSA_GAMMA2 s * rounded s a + MLDSA_GAMMA2 s.
Proof. unfold rounded, hint_modulus, MLDSA_Q. rewrite gamma2_values. destruct s; lia. Qed.

(** The multiplications by 11275 / 2^24 and 1025 / 2^22 divide exactly. *)
Lemma quotient_exact s a : 0 <= a < MLDSA_Q ->
  match s with P44 => ((a + 127) / 128 * 11275 + 2 ^ 23) / 2 ^ 24 | _ => ((a + 127) / 128 * 1025 + 2 ^ 21) / 2 ^ 22 end = rounded s a.
Proof.
  intros H. destruct (rounded_bounds s a H) as [Hr Hb]. rewrite gamma2_values in Hb. unfold hint_modulus in Hr. set (h := rounded s a) in *. clearbody h. unfold MLDSA_Q in H.
  destruct s; symmetry.
  - assert (F : 1488 * h - 743 <= (a + 127) / 128 <= 1488 * h + 744) by lia. set (f := (a + 127) / 128) in *. clearbody f. apply (Z.div_unique _ _ _ (f * 11275 + 2 ^ 23 - 2 ^ 24 * h)); lia.
  - assert (F : 4092 * h - 2045 <= (a + 127) / 128 <= 4092 * h + 2046) by lia. set (f := (a + 127) / 128) in *. clearbody f. apply (Z.div_unique _ _ _ (f * 1025 + 2 ^ 21 - 2 ^ 22 * h)); lia.
  - assert (F : 4092 * h - 2045 <= (a + 127) / 128 <= 4092 * h + 2046) by lia. set (f := (a + 127) / 128) in *. clearbody f. apply (Z.div_unique _ _ _ (f * 1025 + 2 ^ 21 - 2 ^ 22 * h)); lia.
Qed.

(** Decompose of the standard, by cases on the rounded quotient. *)
Lemma Decompose_rounded s a : 0 <= a < MLDSA_Q ->
  DSA.Decompose (MLDSA_GAMMA2 s) a =
    if rounded s a =? hint_modulus s then (0, a - MLDSA_Q) else (rounded s a, a - 2 * MLDSA_GAMMA2 s * rounded s a).
Proof.
  intros H. unfold DSA.Decompose. cbv zeta. rewrite (Z.mod_small a) by exact H.
  rewrite mod_pm_eq by (rewrite gamma2_values; destruct s; (reflexivity || lia)).
  replace (2 * MLDSA_GAMMA2 s / 2) with (MLDSA_GAMMA2 s) by (rewrite gamma2_values; destruct s; reflexivity). fold (rounded s a).
  pose proof (rounded_bounds s a H) as [Hr _]. set (h := rounded s a) in *. clearbody h. rewrite gamma2_values. unfold hint_modulus, DSA.q, MLDSA_Q in *.
  set (g := match s with P44 => 95232 | _ => 261888 end). replace (a - (a - 2 * g * h)) with (h * (2 * g)) by lia.
  destruct (Z.eqb_spec (h * (2 * g)) (8380417 - 1)), (Z.eqb_spec h (match s with P44 => 44 | _ => 16 end)); unfold g in *; destruct s; try lia;
    try (f_equal; lia); rewrite Z.div_mul by lia; reflexivity.
Qed.

Lemma decompose_spec s a : 0 <= a < MLDSA_Q -> mld_decompose s a = (DSA.LowBits (MLDSA_GAMMA2 s) a, DSA.HighBits (MLDSA_GAMMA2 s) a).
Proof.
  intros H. unfold DSA.LowBits, DSA.HighBits. rewrite Decompose_rounded by exact H. pose proof (quotient_exact s a H) as Q. pose proof (rounded_bounds s a H) as [Hr Hb].
  unfold mld_decompose. cbv zeta. assert (Hf : 0 <= (a + 127) / 128 <= 65472) by (unfold MLDSA_Q in H; lia).
  rewrite (i32_id (a + 127)) by (unfold MLDSA_Q in H; lia). rewrite (Z.shiftr_div_pow2 (a + 127) 7) by lia. change (2 ^ 7) with 128. set (f := (a + 127) / 128) in *. clearbody f.
  assert (A1 : match s with
    | P44 => mld_ct_sel_int32 0 (Z.shiftr (i32 (f * 11275 + Z.shiftl 1 23)) 24) (mld_ct_cmask_neg_i32 (43 - Z.shiftr (i32 (f * 11275 + Z.shiftl 1 23)) 24))
    | _ => Z.land (Z.shiftr (i32 (f * 1025 + Z.shiftl 1 21)) 22) 15
    end = if rounded s a =? hint_modulus s then 0 else rounded s a).
  { unfold hint_modulus in *. destruct s; (rewrite i32_id by (rewrite ?Z.shiftl_mul_pow2 by lia; lia)); rewrite Z.shiftl_mul_pow2, Z.shiftr_div_pow2, Z.mul_1_l, Q by lia.
    - rewrite sel_neg by lia. destruct (Z.ltb_spec (43 - rounded P44 a) 0), (Z.eqb_spec (rounded P44 a) 44); lia.
    - change 15 with (Z.ones 4). rewrite Z.land_ones by lia. destruct (Z.eqb_spec (rounded P65 a) 16) as [-> | ]; [reflexivity | apply Z.mod_small; lia].
    - change 15 with (Z.ones 4). rewrite Z.land_ones by lia. destruct (Z.eqb_spec (rounded P87 a) 16) as [-> | ]; [reflexivity | apply Z.mod_small; lia]. }
  rewrite A1. clear A1 Q Hf. set (h := rounded s a) in *. clearbody h. rewrite gamma2_values in *. change ((MLDSA_Q - 1) / 2) with 4190208.
  unfold MLDSA_Q, hint_modulus in *. destruct (Z.eqb_spec h (match s with P44 => 44 | _ => 16 end)) as [E | E]; cbn [fst snd].
  - match goal with |- context [i32 (a - i32 ?z)] => replace (i32 (a - i32 z)) with a by (change z with 0; rewrite (i32_id 0), i32_id; lia) end.
    rewrite (i32_id (a - _)), (i32_id (4190208 - a)), sel_neg by lia.
    destruct (Z.ltb_spec (4190208 - a) 0); [reflexivity | destruct s; lia].
  - assert (B1 : 0 <= h * 2 * match s with P44 => 95232 | _ => 261888 end < 2 ^ 31) by (destruct s; lia). rewrite (i32_id (h * 2 * _)) by lia.
    replace (h * 2 * match s with P44 => 95232 | _ => 261888 end) with (2 * match s with P44 => 95232 | _ => 261888 end * h) by lia.
    set (a0 := a - 2 * match s with P44 => 95232 | _ => 261888 end * h). assert (B0 : -261888 <= a0 <= 261888) by (unfold a0; destruct s; lia).
    rewrite (i32_id a0), (i32_id (a0 - _)), (i32_id (4190208 - a0)), sel_neg by lia. destruct (Z.ltb_spec (4190208 - a0) 0); [lia | reflexivity].
Qed.

Lemma HighBits_range s a : 0 <= a < MLDSA_Q -> 0 <= DSA.HighBits (MLDSA_GAMMA2 s) a < hint_modulus s /\ Z.abs (DSA.LowBits (MLDSA_GAMMA2 s) a) <= MLDSA_GAMMA2 s.
Proof.
  intros H. unfold DSA.HighBits, DSA.LowBits. rewrite Decompose_rounded by exact H. pose proof (rounded_bounds s a H) as [Hr Hb].
  rewrite gamma2_values in *. unfold MLDSA_Q, hint_modulus in *. destruct (Z.eqb_spec (rounded s a) (match s with P44 => 44 | _ => 16 end)); cbn [fst snd]; destruct s; lia.
Qed.

Lemma use_hint_spec s a h : 0 <= a < MLDSA_Q -> h = 0 \/ h = 1 -> mld_use_hint s a h = DSA.UseHint (MLDSA_GAMMA2 s) (h =? 1) a.
Proof.
  intros H Hh. unfold mld_use_hint, DSA.UseHint. rewrite decompose_spec by exact H. pose proof (HighBits_range s a H) as [Hr Hl]. unfold DSA.LowBits, DSA.HighBits in *.
  replace ((DSA.q - 1) / (2 * MLDSA_GAMMA2 s)) with (hint_modulus s) by (rewrite gamma2_values; destruct s; reflexivity).
  destruct (DSA.Decompose (MLDSA_GAMMA2 s) a) as [r1 r0]. cbn [fst snd] in *. cbv zeta iota. destruct Hh as [-> | ->]; cbn [Z.eqb Pos.eqb andb]; [reflexivity |].
  unfold hint_modulus in *. destruct (Z.ltb_spec 0 r0), (Z.leb_spec r0 0); try lia; destruct s;
    change 15 with (Z.ones 4); rewrite ?Z.land_ones by lia; try reflexivity.
  - destruct (Z.eqb_spec r1 43) as [-> | ]; [reflexivity | symmetry; apply Z.mod_small; lia].
  - destruct (Z.eqb_spec r1 0) as [-> | ]; [reflexivity | symmetry; apply Z.mod_small; lia].
Qed.

(** The residue that a high part [a1] and a low part [a0] stand for, and its rounded quotient. *)
Lemma recompose s a0 a1 : 0 <= a1 < hint_modulus s -> - 2 * MLDSA_GAMMA2 s < a0 <= 2 * MLDSA_GAMMA2 s ->
  let a := (a1 * (2 * MLDSA_GAMMA2 s) + a0) mod MLDSA_Q in
  0 <= a < MLDSA_Q /\ DSA.UseHint (MLDSA_GAMMA2 s) (mld_make_hint s a0 a1 =? 1) a = a1.
Proof.
  intros H1 H0 a. assert (Ha : 0 <= a < MLDSA_Q) by (apply Z.mod_pos_bound; reflexivity). split; [exact Ha |].
  unfold DSA.UseHint. rewrite Decompose_rounded by exact Ha. replace ((DSA.q - 1) / (2 * MLDSA_GAMMA2 s)) with (hint_modulus s) by (rewrite gamma2_values; destruct s; reflexivity).
  pose proof (rounded_bounds s a Ha) as [Hr Hb]. unfold mld_make_hint. rewrite gamma2_values in *. unfold hint_modulus in *.
  set (h := rounded s a) in *. clearbody h.
  assert (Ea : a = a1 * (2 * match s with P44 => 95232 | _ => 261888 end) + a0 \/ (a1 = 0 /\ a = a0 + MLDSA_Q)).
  { unfold a. rewrite gamma2_values. unfold MLDSA_Q. destruct s; lia. }
  clearbody a. unfold MLDSA_Q in *.
  destruct s; match goal with |- context [h =? ?m] => destruct (Z.eqb_spec h m) end;
    repeat match goal with
      | |- context [?x <? ?y] => destruct (Z.ltb_spec x y)
      | |- context [?x <=? ?y] => destruct (Z.leb_spec x y)
      | |- context [a0 =? ?y] => destruct (Z.eqb_spec a0 y)
      | |- context [a1 =? ?y] => destruct (Z.eqb_spec a1 y)
      end; cbn [orb andb negb Z.eqb Pos.eqb]; try lia.
Qed.

(** The hint is set exactly when the high parts differ. *)
Lemma make_hint_spec s a0 a1 : 0 <= a1 < hint_modulus s -> - 2 * MLDSA_GAMMA2 s < a0 <= 2 * MLDSA_GAMMA2 s ->
  mld_make_hint s a0 a1 = if DSA.HighBits (MLDSA_GAMMA2 s) (a1 * (2 * MLDSA_GAMMA2 s) + a0) =? a1 then 0 else 1.
Proof.
  intros H1 H0. set (x := a1 * (2 * MLDSA_GAMMA2 s) + a0). set (a := x mod MLDSA_Q). assert (Ha : 0 <= a < MLDSA_Q) by (apply Z.mod_pos_bound; reflexivity).
  assert (E : DSA.HighBits (MLDSA_GAMMA2 s) x = DSA.HighBits (MLDSA_GAMMA2 s) a).
  { unfold DSA.HighBits, DSA.Decompose. cbv zeta. unfold a. change MLDSA_Q with DSA.q. now rewrite Z.mod_mod by discriminate. }
  rewrite E. unfold DSA.HighBits. rewrite Decompose_rounded by exact Ha. pose proof (rounded_bounds s a Ha) as [Hr Hb].
  assert (Ea : a = x \/ (a1 = 0 /\ a = a0 + MLDSA_Q)).
  { unfold a, x, hint_modulus, MLDSA_Q in *. rewrite gamma2_values in *. destruct s; lia. }
  unfold x in *. clear E. clearbody a. set (h := rounded s a) in *. clearbody h. unfold mld_make_hint, hint_modulus, MLDSA_Q in *. rewrite gamma2_values in *.
  destruct s; match goal with |- context [h =? ?m] => destruct (Z.eqb_spec h m) end; cbn [fst];
    repeat match goal with
      | |- context [?x <? ?y] => destruct (Z.ltb_spec x y)
      | |- context [a0 =? ?y] => destruct (Z.eqb_spec a0 y)
      | |- context [?x =? a1] => destruct (Z.eqb_spec x a1)
      | |- context [a1 =? ?y] => destruct (Z.eqb_spec a1 y)
      end; cbn [orb andb negb]; try lia.
Qed.

(** ** Polynomials *)

Lemma cmask_or t c (b : bool) : t = (if b then 0xffffffff else 0) -> Z.lor t (if c : bool then 0xffffffff else 0) = if b || c then 0xffffffff else 0.
Proof. intros ->. now destruct b, c. Qed.

(** The norm check: does some coefficient reach the bound? *)
Lemma chknorm_spec a B : Forall (fun c => Z.abs c < 2 ^ 31) a -> 0 < B < 2 ^ 31 ->
  mld_poly_chknorm a B = if existsb (fun c => B <=? Z.abs c) a then 0xffffffff else 0.
Proof.
  intros Ha HB. unfold mld_poly_chknorm.
  assert (G : forall b, fold_left (fun t c => Z.lor t (mld_ct_cmask_neg_i32 (i32 (B - 1 - mld_ct_abs_i32 c)))) a (if b : bool then 0xffffffff else 0) =
                if b || existsb (fun c => B <=? Z.abs c) a then 0xffffffff else 0); [| exact (G false)].
  induction Ha as [|c a Hc Ha IH]; intros b; cbn [fold_left existsb]; [now rewrite orb_false_r |].
  rewrite abs_spec, i32_id, cmask_neg_spec by lia.
  replace (B - 1 - Z.abs c <? 0) with (B <=? Z.abs c) by (destruct (Z.leb_spec B (Z.abs c)), (Z.ltb_spec (B - 1 - Z.abs c) 0); lia).
  rewrite (cmask_or _ _ b eq_refl), IH. now rewrite orb_assoc.
Qed.

(** Coefficients in [0, q). *)
Definition reduced (a : list Z) : Prop := Forall (fun c => 0 <= c < MLDSA_Q) a.

Lemma map_reduced {A} (f g : Z -> A) a : reduced a -> (forall c, 0 <= c < MLDSA_Q -> f c = g c) -> map f a = map g a.
Proof. intros Ha H. apply map_ext_Forall. eapply Forall_impl; [| exact Ha]. exact H. Qed.

(** ** Claims *)

(** ML-DSA reduction and rounding.  On their domains, [mld_poly_reduce] keeps residues and bounds them by 6283009, [mld_poly_caddq] gives the representative in [0, q),
    [mld_poly_chknorm] is nonzero exactly when some coefficient reaches the bound; and for coefficients in [0, q) and both values of gamma2, [mld_poly_power2round],
    [mld_poly_decompose] and [mld_poly_use_hint] are Power2Round, Decompose and UseHint of FIPS 204: the multiplications by 11275 / 2^24 and 1025 / 2^22
    round exactly for every coefficient, and no 32-bit intermediate overflows. *)
Theorem mld_rounding_fips204 (s : parameter_set) (a : mld_poly) :
  (Forall (fun c => - 2 ^ 31 <= c <= MLD_REDUCE32_DOMAIN_MAX) a ->
     map (fun c => c mod MLDSA_Q) (mld_poly_reduce a) = map (fun c => c mod MLDSA_Q) a /\
     Forall (fun c => - MLD_REDUCE32_RANGE_MAX <= c < MLD_REDUCE32_RANGE_MAX) (mld_poly_reduce a)) /\
  (Forall (fun c => - MLDSA_Q < c < MLDSA_Q) a -> mld_poly_caddq a = map (fun c => c mod MLDSA_Q) a) /\
  (forall B, Forall (fun c => Z.abs c < 2 ^ 31) a -> 0 < B < 2 ^ 31 -> mld_poly_chknorm a B = if existsb (fun c => B <=? Z.abs c) a then 0xffffffff else 0) /\
  (reduced a ->
     mld_poly_power2round a = (map (fun c => fst (DSA.Power2Round c)) a, map (fun c => snd (DSA.Power2Round c)) a) /\
     mld_poly_decompose s a = (map (DSA.HighBits (MLDSA_GAMMA2 s)) a, map (DSA.LowBits (MLDSA_GAMMA2 s)) a) /\
     forall h, Forall (fun b => b = 0 \/ b = 1) h ->
       mld_poly_use_hint s a h = zip_with (fun c b => DSA.UseHint (MLDSA_GAMMA2 s) (b =? 1) c) a h).
Proof.
  split; [| split; [| split]].
  - intros H. unfold mld_poly_reduce. split.
    + rewrite map_map. apply map_ext_Forall. eapply Forall_impl; [| exact H]. intros c Hc. exact (proj1 (reduce32_spec c Hc)).
    + apply Forall_map. eapply Forall_impl; [| exact H]. intros c Hc. exact (proj2 (reduce32_spec c Hc)).
  - intros H. apply map_ext_Forall. eapply Forall_impl; [| exact H]. exact caddq_spec.
  - intros B Ha HB. now apply chknorm_spec.
  - intros Ha. split; [| split].
    + unfold mld_poly_power2round. f_equal; apply map_reduced; try exact Ha; intros c Hc; now rewrite power2round_spec.
    + unfold mld_poly_decompose. f_equal; apply map_reduced; try exact Ha; intros c Hc; now rewrite decompose_spec.
    + intros h Hh. unfold mld_poly_use_hint. revert h Hh. induction Ha as [|c a Hc Ha IH]; intros [|b h] Hh; try reflexivity. cbn [zip_with].
      apply Forall_cons_1 in Hh as [Hb Hh]. now rewrite use_hint_spec, IH.
Qed.

Lemma mld_rounding_fips204_witness :
  let a := [0; 95232; 95233; 8285184; 8285185; 8380416] in
  reduced a /\ mld_poly_decompose P44 a = (map (DSA.HighBits (MLDSA_GAMMA2 P44)) a, map (DSA.LowBits (MLDSA_GAMMA2 P44)) a) /\
  map (DSA.HighBits (MLDSA_GAMMA2 P44)) a = [0; 0; 1; 43; 0; 0].
Proof.
  intros a. assert (H : reduced a) by (unfold reduced, a, MLDSA_Q; repeat (apply List.Forall_cons; [lia |]); apply List.Forall_nil).
  split; [exact H |]. split; [exact (proj1 (proj2 (proj2 (proj2 (proj2 (mld_rounding_fips204 P44 a))) H))) | vm_compute; reflexivity].
Defined.
