(* ===== verification/MldsaHint.v ===== *)
(** * ML-DSA hints in signatures

    The hint section of a signature: [mld_pack_sig_h] and [mld_sig_unpack_hints] of [mldsa-native/mldsa/src/packing.c], with HintBitPack of FIPS 204
    (Algorithm 20).  A failing call returns MLD_ERR_FAIL with what it has written so far. *)

From stdpp Require Import base list numbers sorting.
From Stdlib Require Import ZArith Lia.
From S2P Require Import Prelude Fips202 Fips203 Fips204 MldsaRounding.

#[local] Open Scope Z_scope.

Definition MLD_ERR_FAIL : Z := -1.

(** ** packing.c *)

(** The loop over the coefficients of one polynomial: [false] is the early return. *)
Fixpoint pack_hints_poly (omega : nat) (hint_bit : nat -> Z) (js : list nat) (sig_h : bytes) (n : nat) : bool * bytes * nat :=
  match js with
  | [] => (true, sig_h, n)
  | j :: js =>
      if negb (hint_bit j =? 0) then
        if Nat.eqb n omega then (false, sig_h, n)
        else pack_hints_poly omega hint_bit js (wr sig_h n (u8 (Z.of_nat j))) (n + 1)
      else pack_hints_poly omega hint_bit js sig_h n
  end.

(** The loop over the polynomials. *)
Fixpoint pack_hints_rows (s : parameter_set) (w0 w1 : list mld_poly) (ks : list nat) (sig_h : bytes) (n : nat) : Z * bytes :=
  match ks with
  | [] => (0, sig_h)
  | k :: ks =>
      let bit j := mld_make_hint s (rd (nth k w0 []) j) (rd (nth k w1 []) j) in
      let '(ok, sig_h, n) := pack_hints_poly (MLDSA_OMEGA s) bit (seq 0 MLDSA_N) sig_h n in
      if ok then pack_hints_rows s w0 w1 ks (wr sig_h (MLDSA_OMEGA s + k) (u8 (Z.of_nat n))) n else (MLD_ERR_FAIL, sig_h)
  end.

(** The hint section of [sig]; the rest of [sig] is not written. *)
Definition mld_pack_sig_h (s : parameter_set) (sig : bytes) (w0 w1 : list mld_poly) : Z * bytes :=
  let '(r, sig_h) := pack_hints_rows s w0 w1 (seq 0 (MLDSA_K s)) (zeros (MLDSA_POLYVECH_PACKEDBYTES s)) 0 in
  (r, blit sig (MLDSA_SIG_H_OFFSET s) sig_h).

Fixpoint unpack_hints_loop (packed_hints : bytes) (old_hint_count : nat) (js : list nat) (h : mld_poly) : bool * mld_poly :=
  match js with
  | [] => (true, h)
  | j :: js =>
      if (old_hint_count <? j)%nat && (rd packed_hints j <=? rd packed_hints (j - 1)) then (false, h)
      else unpack_hints_loop packed_hints old_hint_count js (wr h (Z.to_nat (rd packed_hints j)) 1)
  end.

(** Row [i]; [h] is the polynomial before the call. *)
Definition mld_sig_unpack_hints (s : parameter_set) (h : mld_poly) (sig : bytes) (i : nat) : Z * mld_poly :=
  let packed_hints := drop (MLDSA_SIG_H_OFFSET s) sig in
  let omega := MLDSA_OMEGA s in
  let old_hint_count := if Nat.eqb i 0 then 0%nat else Z.to_nat (rd packed_hints (omega + i - 1)) in
  let new_hint_count := Z.to_nat (rd packed_hints (omega + i)) in
  if (new_hint_count <? old_hint_count)%nat || (omega <? new_hint_count)%nat then (MLD_ERR_FAIL, h)
  else
    let '(ok, h) := unpack_hints_loop packed_hints old_hint_count (seq old_hint_count (new_hint_count - old_hint_count)) (zeros MLDSA_N) in
    if ok then
      if Nat.eqb i (MLDSA_K s - 1) && existsb (fun j => negb (rd packed_hints j =? 0)) (seq new_hint_count (omega - new_hint_count)) then (MLD_ERR_FAIL, h)
      else (0, h)
    else (MLD_ERR_FAIL, h).

(** ** FIPS 204, Algorithm 20 *)

(** Positions of the nonzero coefficients, in order. *)
Definition positions (h : list Z) : list nat := List.filter (fun j => negb (rd h j =? 0)) (seq 0 (length h)).

Fixpoint tallies (n : nat) (rows : list (list nat)) : list nat :=
  match rows with [] => [] | r :: rows => (n + length r)%nat :: tallies (n + length r) rows end.

Definition encode_rows (omega : nat) (rows : list (list nat)) : bytes :=
  map Z.of_nat (concat rows ++ replicate (omega - length (concat rows)) 0%nat ++ tallies 0 rows).

Definition HintBitPack (omega : nat) (h : list (list Z)) : bytes := encode_rows omega (map positions h).

(** ** Packing *)

(** Indices [A] in a table of [omega] entries, then the tallies [T]. *)
Definition hint_section (omega : nat) (A : list nat) (T : bytes) : bytes := map Z.of_nat A ++ replicate (omega - length A) 0 ++ T.

Lemma wr_app (l1 l2 : list Z) x y : wr (l1 ++ x :: l2) (length l1) y = l1 ++ y :: l2.
Proof. unfold wr. rewrite insert_app_r_alt by lia. now rewrite Nat.sub_diag. Qed.

Lemma hint_section_add omega A T j : (length A < omega)%nat -> (j < 256)%nat ->
  wr (hint_section omega A T) (length A) (u8 (Z.of_nat j)) = hint_section omega (A ++ [j]) T.
Proof.
  intros HA Hj. unfold hint_section. rewrite u8_id by (unfold is_u8; lia). rewrite map_app, length_app. cbn [map length].
  replace (omega - length A)%nat with (S (omega - (length A + 1))) by lia. cbn [replicate app].
  rewrite <- (length_map Z.of_nat A) at 2. rewrite wr_app. now rewrite <- app_assoc.
Qed.

Lemma hint_section_tally omega A T1 x T2 v : (length A <= omega)%nat ->
  wr (hint_section omega A (T1 ++ x :: T2)) (omega + length T1) v = hint_section omega A (T1 ++ v :: T2).
Proof.
  intros HA. unfold hint_section. rewrite !app_assoc.
  assert (L : length ((map Z.of_nat A ++ replicate (omega - length A) 0) ++ T1) = (omega + length T1)%nat) by (rewrite !length_app, length_map, length_replicate; lia).
  rewrite <- L. apply wr_app.
Qed.

Lemma pack_poly_spec omega bit T js : Forall (fun j => (j < 256)%nat) js -> forall A, (length A <= omega)%nat ->
  forall L, L = List.filter (fun j => negb (bit j =? 0)) js ->
  if (length A + length L <=? omega)%nat
  then pack_hints_poly omega bit js (hint_section omega A T) (length A) = (true, hint_section omega (A ++ L) T, (length A + length L)%nat)
  else exists b n, pack_hints_poly omega bit js (hint_section omega A T) (length A) = (false, b, n).
Proof.
  induction 1 as [|j js Hj Hjs IH]; intros A HA L ->; cbn [List.filter pack_hints_poly].
  - cbn [length]. rewrite Nat.add_0_r, app_nil_r. destruct (Nat.leb_spec (length A) omega); [reflexivity | lia].
  - destruct (negb (bit j =? 0)); [| now apply IH]. cbn [length]. destruct (Nat.eqb_spec (length A) omega) as [E | E].
    + destruct (Nat.leb_spec (length A + S (length (List.filter (fun j => negb (bit j =? 0)) js))) omega); [lia | eauto].
    + rewrite hint_section_add by lia. specialize (IH (A ++ [j])). rewrite length_app in IH. cbn [length] in IH. specialize (IH ltac:(lia) _ eq_refl).
      rewrite <- Nat.add_assoc in IH. cbn [Nat.add] in IH. rewrite <- app_assoc in IH. exact IH.
Qed.

Section Rows.
Context (s : parameter_set) (w0 w1 : list mld_poly).

Definition hint_bit_at (k j : nat) : Z := mld_make_hint s (rd (nth k w0 []) j) (rd (nth k w1 []) j).
Definition hint_row (k : nat) : list nat := List.filter (fun j => negb (hint_bit_at k j =? 0)) (seq 0 MLDSA_N).

Lemma hint_row_eq k : hint_row k = List.filter (fun j => negb (hint_bit_at k j =? 0)) (seq 0 MLDSA_N).
Proof. unfold hint_row. reflexivity. Qed.

Lemma pack_rows_spec n : forall k A T, length T = k -> (length A <= MLDSA_OMEGA s)%nat ->
  let rows := map hint_row (seq k n) in
  let r := pack_hints_rows s w0 w1 (seq k n) (hint_section (MLDSA_OMEGA s) A (T ++ replicate n 0)) (length A) in
  if (length A + length (concat rows) <=? MLDSA_OMEGA s)%nat
  then r = (0, hint_section (MLDSA_OMEGA s) (A ++ concat rows) (T ++ map Z.of_nat (tallies (length A) rows)))
  else fst r = MLD_ERR_FAIL.
Proof.
  assert (HO : (MLDSA_OMEGA s <= 80)%nat) by (destruct s; cbn; lia).
  induction n as [|n IH]; intros k A T HT HA; cbv zeta.
  - cbn [seq map concat length pack_hints_rows tallies replicate]. rewrite Nat.add_0_r, !app_nil_r. destruct (Nat.leb_spec (length A) (MLDSA_OMEGA s)); [reflexivity | lia].
  - cbn [seq map concat pack_hints_rows replicate]. rewrite length_app.
    pose proof (pack_poly_spec (MLDSA_OMEGA s) (hint_bit_at k) (T ++ 0 :: replicate n 0) (seq 0 MLDSA_N)
      ltac:(apply List.Forall_forall; intros j Hj; apply in_seq in Hj; unfold MLDSA_N in Hj; lia) A HA (hint_row k) (hint_row_eq k)) as P.
    change (fun j => mld_make_hint s (rd (nth k w0 []) j) (rd (nth k w1 []) j)) with (hint_bit_at k).
    destruct (Nat.leb_spec (length A + length (hint_row k)) (MLDSA_OMEGA s)) as [H1 | H1].
    + rewrite P. subst k. rewrite hint_section_tally by (rewrite length_app; lia). rewrite u8_id by (unfold is_u8; lia).
      specialize (IH (S (length T)) (A ++ hint_row (length T)) (T ++ [Z.of_nat (length A + length (hint_row (length T)))])). rewrite length_app in IH. cbn [length] in IH. rewrite length_app in IH.
      specialize (IH ltac:(lia) H1). cbv zeta in IH. rewrite <- app_assoc in IH. cbn [app] in IH. rewrite <- Nat.add_assoc in IH.
      rewrite Nat.add_assoc in IH. rewrite Nat.add_assoc.
      destruct (_ <=? _)%nat; [| exact IH]. rewrite IH. cbn [tallies map]. rewrite <- (app_assoc A), <- (app_assoc T). reflexivity.
    + destruct P as (b & m & P). rewrite P. destruct (Nat.leb_spec (length A + (length (hint_row k) + length (concat (map hint_row (seq (S k) n))))) (MLDSA_OMEGA s)); [lia | reflexivity].
Qed.

(** The hint section that is written, when there are at most omega hints. *)
Lemma pack_sig_h_spec sig :
  let rows := map hint_row (seq 0 (MLDSA_K s)) in
  if (length (concat rows) <=? MLDSA_OMEGA s)%nat then mld_pack_sig_h s sig w0 w1 = (0, blit sig (MLDSA_SIG_H_OFFSET s) (encode_rows (MLDSA_OMEGA s) rows))
  else fst (mld_pack_sig_h s sig w0 w1) = MLD_ERR_FAIL.
Proof.
  cbv zeta. pose proof (pack_rows_spec (MLDSA_K s) 0 [] [] eq_refl (Nat.le_0_l _)) as P. cbv zeta in P. cbn [length app Nat.add] in P.
  unfold mld_pack_sig_h. replace (zeros (MLDSA_POLYVECH_PACKEDBYTES s)) with (hint_section (MLDSA_OMEGA s) [] (replicate (MLDSA_K s) 0)).
  - destruct (_ <=? _)%nat; [| now destruct (pack_hints_rows _ _ _ _ _ _)]. rewrite P. unfold encode_rows, hint_section. rewrite !map_app, fmap_replicate. reflexivity.
  - unfold hint_section, zeros, MLDSA_POLYVECH_PACKEDBYTES. cbn [length map app]. rewrite Nat.sub_0_r. symmetry. apply replicate_add.
Qed.

End Rows.

(** ** Unpacking *)

(** The section as numbers. *)
Definition old_count (omega : nat) (Y : list nat) (i : nat) : nat := if Nat.eqb i 0 then 0%nat else nth (omega + i - 1) Y 0%nat.
Definition new_count (omega : nat) (Y : list nat) (i : nat) : nat := nth (omega + i) Y 0%nat.
Definition segment (omega : nat) (Y : list nat) (i : nat) : list nat :=
  map (fun j => nth j Y 0%nat) (seq (old_count omega Y i) (new_count omega Y i - old_count omega Y i)).

(** What a row must satisfy. *)
Definition row_ok (s : parameter_set) (Y : list nat) (i : nat) : Prop :=
  (old_count (MLDSA_OMEGA s) Y i <= new_count (MLDSA_OMEGA s) Y i <= MLDSA_OMEGA s)%nat /\
  StronglySorted lt (segment (MLDSA_OMEGA s) Y i) /\
  (i = (MLDSA_K s - 1)%nat -> forall j, (new_count (MLDSA_OMEGA s) Y i <= j < MLDSA_OMEGA s)%nat -> nth j Y 0%nat = 0%nat).

(** [h[j] = 1] for the listed positions. *)
Definition mark (l : list nat) (h : list Z) : list Z := fold_left (fun h j => wr h j 1) l h.

Lemma rd_of_nat Y j : rd (map Z.of_nat Y) j = Z.of_nat (nth j Y 0%nat).
Proof. unfold rd. change 0 with (Z.of_nat 0). apply map_nth. Qed.

Lemma unpack_loop_spec Y old m : forall j h, (old <= j)%nat ->
  let l := map (fun j => nth j Y 0%nat) (seq j m) in
  let ok := if (old <? j)%nat then StronglySorted lt (nth (j - 1) Y 0%nat :: l) else StronglySorted lt l in
  let r := unpack_hints_loop (map Z.of_nat Y) old (seq j m) h in
  (fst r = true <-> ok) /\ (ok -> snd r = mark l h).
Proof.
  induction m as [|m IH]; intros j h Hj; cbv zeta.
  - cbn [seq map unpack_hints_loop fst snd mark fold_left]. split; [| reflexivity]. split; [| reflexivity]. intros _. destruct (old <? j)%nat; repeat constructor.
  - cbn [seq map unpack_hints_loop]. rewrite !rd_of_nat, Nat2Z.id.
    specialize (IH (S j) (wr h (nth j Y 0%nat) 1) ltac:(lia)). cbv zeta in IH. replace (old <? S j)%nat with true in IH by (symmetry; apply Nat.ltb_lt; lia).
    replace (S j - 1)%nat with j in IH by lia. destruct IH as [IH1 IH2].
    destruct (Nat.ltb_spec old j) as [Ho | Ho]; cbn [andb].
    + destruct (Z.leb_spec (Z.of_nat (nth j Y 0%nat)) (Z.of_nat (nth (j - 1) Y 0%nat))) as [Hle | Hlt]; cbn [fst snd].
      * split; [split; [discriminate |]; intros Hs | intros Hs]; apply StronglySorted_inv in Hs as [_ Hs]; apply Forall_cons_1 in Hs as [Hs _]; lia.
      * split; [rewrite IH1; split; intros Hs | intros Hs].
        -- constructor; [exact Hs |]. apply StronglySorted_inv in Hs as [_ Hs]. apply List.Forall_cons; [lia |]. eapply Forall_impl; [exact Hs |]. cbn beta. lia.
        -- now apply StronglySorted_inv in Hs as [Hs _].
        -- apply StronglySorted_inv in Hs as [Hs _]. now rewrite (IH2 Hs).
    + split; [exact IH1 |]. intros Hs. now rewrite (IH2 Hs).
Qed.

Lemma existsb_false {A} (f : A -> bool) l : existsb f l = false <-> forall x, In x l -> f x = false.
Proof.
  induction l as [|a l IH]; cbn [existsb In]; [tauto |]. rewrite orb_false_iff, IH. split; [intros [H1 H2] x [<- | Hx]; auto | intros H; split; auto].
Qed.

Lemma unpack_spec s sig Y h i : drop (MLDSA_SIG_H_OFFSET s) sig = map Z.of_nat Y ->
  (fst (mld_sig_unpack_hints s h sig i) = 0 <-> row_ok s Y i) /\
  (row_ok s Y i -> snd (mld_sig_unpack_hints s h sig i) = mark (segment (MLDSA_OMEGA s) Y i) (zeros MLDSA_N)).
Proof.
  intros HY. unfold mld_sig_unpack_hints, row_ok. cbv zeta. rewrite HY, !rd_of_nat, !Nat2Z.id.
  replace (if Nat.eqb i 0 then 0%nat else nth (MLDSA_OMEGA s + i - 1) Y 0%nat) with (old_count (MLDSA_OMEGA s) Y i) by reflexivity.
  replace (nth (MLDSA_OMEGA s + i) Y 0%nat) with (new_count (MLDSA_OMEGA s) Y i) by reflexivity. unfold segment.
  set (omega := MLDSA_OMEGA s). set (old := old_count omega Y i). set (new := new_count omega Y i).
  destruct (Nat.ltb_spec new old); [cbn [orb fst]; split; [split; [discriminate | lia] | lia] |].
  destruct (Nat.ltb_spec omega new); [cbn [orb fst]; split; [split; [discriminate | lia] | lia] |]. cbn [orb].
  pose proof (unpack_loop_spec Y old (new - old) old (zeros MLDSA_N) (Nat.le_refl _)) as P. cbv zeta in P. rewrite Nat.ltb_irrefl in P. destruct P as [P1 P2].
  destruct (unpack_hints_loop _ old _ _) as [ok h']. cbn [fst snd] in P1, P2. destruct ok.
  - assert (Hs : StronglySorted lt (map (fun j => nth j Y 0%nat) (seq old (new - old)))) by now apply P1. specialize (P2 Hs). subst h'.
    destruct (Nat.eqb_spec i (MLDSA_K s - 1)) as [Hi | Hi]; cbn [andb].
    + destruct (existsb _ _) eqn:Ex; cbn [fst snd].
      * split; [split; [discriminate |] |]; intros (_ & _ & Hz); specialize (Hz Hi); exfalso; apply existsb_exists in Ex as (j & Hj & Hj2); apply in_seq in Hj; rewrite rd_of_nat, Hz in Hj2 by lia; discriminate Hj2.
      * split; [| reflexivity]. split; [| reflexivity]. intros _. split; [lia |]. split; [exact Hs |]. intros _ j Hj. rewrite existsb_false in Ex.
        specialize (Ex j ltac:(apply in_seq; lia)). rewrite rd_of_nat in Ex. apply negb_false_iff, Z.eqb_eq in Ex. lia.
    + cbn [fst snd]. split; [| reflexivity]. split; [| reflexivity]. intros _. split; [lia |]. split; [exact Hs |]. intros E. contradiction.
  - cbn [fst snd]. split; [split; [discriminate |] |]; intros (_ & Hs & _); apply P1 in Hs; discriminate Hs.
Qed.

(** ** Sorted positions *)

Lemma rd_mark l : forall h j, Forall (fun p => (p < length h)%nat) l -> rd (mark l h) j = if existsb (Nat.eqb j) l then 1 else rd h j.
Proof.
  unfold mark. induction l as [|p l IH]; intros h j Hl; [reflexivity |]. cbn [fold_left existsb]. apply Forall_cons_1 in Hl as [Hp Hl].
  rewrite IH by (unfold wr; now rewrite length_insert). destruct (existsb (Nat.eqb j) l); [now rewrite orb_true_r |]. rewrite orb_false_r.
  destruct (Nat.eqb_spec j p) as [-> | Hne]; [now apply rd_wr_eq | apply rd_wr_ne; congruence].
Qed.

Lemma length_mark l : forall h, length (mark l h) = length h.
Proof. unfold mark. induction l as [|p l IH]; intros h; [reflexivity |]. cbn [fold_left]. rewrite IH. unfold wr. apply length_insert. Qed.

Lemma sorted_seq n : forall k, StronglySorted lt (seq k n).
Proof. induction n as [|n IH]; intros k; cbn [seq]; constructor; [apply IH |]. apply List.Forall_forall. intros x Hx. apply in_seq in Hx. lia. Qed.

Lemma sorted_filter (f : nat -> bool) l : StronglySorted lt l -> StronglySorted lt (List.filter f l).
Proof.
  induction 1 as [|x l Hl IH Hx]; cbn [List.filter]; [constructor |]. destruct (f x); [| exact IH]. constructor; [exact IH |].
  apply List.Forall_forall. intros y Hy. apply filter_In in Hy as [Hy _]. rewrite List.Forall_forall in Hx. now apply Hx.
Qed.

(** A sorted list is determined by its elements. *)
Lemma sorted_ext l1 : forall l2, StronglySorted lt l1 -> StronglySorted lt l2 -> (forall x, In x l1 <-> In x l2) -> l1 = l2.
Proof.
  induction l1 as [|x l1 IH]; intros [|y l2] H1 H2 HI; [reflexivity | destruct (proj2 (HI y) (or_introl eq_refl)) | destruct (proj1 (HI x) (or_introl eq_refl)) |].
  apply StronglySorted_inv in H1 as [H1 Hx], H2 as [H2 Hy]. rewrite List.Forall_forall in Hx, Hy. assert (E : x = y).
  { destruct (proj1 (HI x) (or_introl eq_refl)) as [E | E]; [now symmetry |]. destruct (proj2 (HI y) (or_introl eq_refl)) as [E' | E']; [exact E' |].
    specialize (Hx y E'). specialize (Hy x E). lia. }
  subst y. f_equal. apply IH; [exact H1 | exact H2 |]. intros z. specialize (HI z). cbn [In] in HI. split; intros Hz.
  - destruct (proj1 HI (or_intror Hz)) as [-> | E]; [specialize (Hx z Hz); lia | exact E].
  - destruct (proj2 HI (or_intror Hz)) as [-> | E]; [specialize (Hy z Hz); lia | exact E].
Qed.

Definition sorted_row (l : list nat) : Prop := StronglySorted lt l /\ Forall (fun j => (j < MLDSA_N)%nat) l.

Lemma positions_mark l : sorted_row l -> positions (mark l (zeros MLDSA_N)) = l.
Proof.
  intros [Hs Hb]. unfold positions. rewrite length_mark. apply sorted_ext; [apply sorted_filter, sorted_seq | exact Hs |]. intros x.
  assert (L : length (zeros MLDSA_N) = MLDSA_N) by apply length_replicate. rewrite L, filter_In, in_seq. rewrite rd_mark by now rewrite L.
  rewrite List.Forall_forall in Hb. replace (rd (zeros MLDSA_N) x) with 0 by (unfold rd, zeros; symmetry; apply nth_fill).
  destruct (existsb (Nat.eqb x) l) eqn:E.
  - apply existsb_exists in E as (y & Hy & E). apply Nat.eqb_eq in E as ->. split; [now intros _ | intros _; split; [specialize (Hb y Hy); lia | reflexivity]].
  - rewrite existsb_false in E. split; [intros [_ H]; discriminate H |]. intros Hx. specialize (E x Hx). now rewrite Nat.eqb_refl in E.
Qed.

(** ** Canonical sections *)

Lemma tallies_nth rows : forall n i, (i < length rows)%nat -> nth i (tallies n rows) 0%nat = (n + length (concat (take (S i) rows)))%nat.
Proof.
  induction rows as [|r rows IH]; intros n i Hi; cbn [length] in Hi; [lia |]. cbn [tallies firstn concat]. rewrite length_app. destruct i as [|i].
  - cbn [nth firstn concat length]. rewrite firstn_O. cbn [concat length]. lia.
  - cbn [nth]. rewrite IH by lia. lia.
Qed.

Lemma length_tallies rows : forall n, length (tallies n rows) = length rows.
Proof. induction rows as [|r rows IH]; intros n; cbn [tallies length]; [reflexivity |]. now rewrite IH. Qed.

Lemma nth_window (A B C : list nat) : map (fun j => nth j (A ++ B ++ C) 0%nat) (seq (length A) (length B)) = B.
Proof.
  induction B as [|b B IH] in A |- *; [reflexivity |]. cbn [length seq map app]. rewrite nth_middle. f_equal.
  specialize (IH (A ++ [b])). rewrite length_app, Nat.add_1_r, <- app_assoc in IH. exact IH.
Qed.

Lemma take_nth_split {A} (d : A) (l : list A) i : (i < length l)%nat -> take (S i) l = take i l ++ [nth i l d].
Proof. intros Hi. apply take_S_r. rewrite nth_lookup. destruct (lookup_lt_is_Some_2 l i Hi) as [x E]. now rewrite E. Qed.

Section Canonical.
Context (s : parameter_set) (rows : list (list nat)).
Hypothesis (HK : length rows = MLDSA_K s) (HO : (length (concat rows) <= MLDSA_OMEGA s)%nat) (HR : Forall sorted_row rows).

Definition canonical_section : list nat := concat rows ++ replicate (MLDSA_OMEGA s - length (concat rows)) 0%nat ++ tallies 0 rows.

Lemma canonical_count i : (i < MLDSA_K s)%nat -> nth (MLDSA_OMEGA s + i) canonical_section 0%nat = length (concat (take (S i) rows)).
Proof.
  intros Hi. unfold canonical_section. rewrite app_assoc, app_nth2; rewrite length_app, length_replicate; [| lia].
  replace (_ - _)%nat with i by lia. rewrite tallies_nth by lia. lia.
Qed.

Lemma canonical_new i : (i < MLDSA_K s)%nat -> new_count (MLDSA_OMEGA s) canonical_section i = length (concat (take (S i) rows)).
Proof. exact (canonical_count i). Qed.

Lemma canonical_old i : (i < MLDSA_K s)%nat -> old_count (MLDSA_OMEGA s) canonical_section i = length (concat (take i rows)).
Proof.
  intros Hi. unfold old_count. destruct i as [|i]; [now rewrite take_0 |]. cbn [Nat.eqb].
  replace (MLDSA_OMEGA s + S i - 1)%nat with (MLDSA_OMEGA s + i)%nat by lia. now apply canonical_count, Nat.lt_succ_l.
Qed.

Lemma canonical_segment i : (i < MLDSA_K s)%nat -> segment (MLDSA_OMEGA s) canonical_section i = nth i rows [].
Proof.
  intros Hi. unfold segment. rewrite canonical_old, canonical_new by exact Hi. rewrite (take_nth_split []) by lia.
  rewrite concat_app, length_app. cbn [concat]. rewrite app_nil_r, Nat.add_sub_swap, Nat.sub_diag by lia. cbn [Nat.add].
  assert (E : concat rows = concat (take i rows) ++ nth i rows [] ++ concat (drop (S i) rows)).
  { rewrite <- (take_drop (S i) rows) at 1. rewrite (take_nth_split []) by lia. rewrite !concat_app. cbn [concat]. now rewrite app_nil_r, <- app_assoc. }
  unfold canonical_section. generalize (replicate (MLDSA_OMEGA s - length (concat rows)) 0%nat ++ tallies 0 rows). intros R.
  rewrite E, <- !app_assoc. apply nth_window.
Qed.

Lemma canonical_row_ok i : (i < MLDSA_K s)%nat -> row_ok s canonical_section i.
Proof.
  intros Hi. unfold row_ok. rewrite canonical_segment, canonical_old, canonical_new by exact Hi. split; [| split].
  - assert (E : length (concat (take (S i) rows)) = (length (concat (take i rows)) + length (nth i rows []))%nat).
    { rewrite (take_nth_split []) by lia. rewrite concat_app, length_app. cbn [concat]. now rewrite app_nil_r. }
    assert (E2 : length (concat rows) = (length (concat (take (S i) rows)) + length (concat (drop (S i) rows)))%nat) by now rewrite <- length_app, <- concat_app, take_drop.
    lia.
  - assert (Hin : In (nth i rows []) rows) by (apply nth_In; lia). rewrite List.Forall_forall in HR. exact (proj1 (HR _ Hin)).
  - intros -> j Hj. rewrite take_ge in Hj by lia. unfold canonical_section. rewrite app_nth2 by lia. rewrite app_nth1 by (rewrite length_replicate; lia). apply nth_fill.
Qed.

End Canonical.

(** Every accepted section is the canonical one of its rows. *)
Section Accepted.
Context (s : parameter_set) (Y : list nat).
Hypothesis (HL : length Y = MLDSA_POLYVECH_PACKEDBYTES s) (HY : forall i, (i < MLDSA_K s)%nat -> row_ok s Y i).

#[local] Abbreviation omega := (MLDSA_OMEGA s).

Lemma old_succ i : old_count omega Y (S i) = new_count omega Y i.
Proof. unfold old_count, new_count. cbn [Nat.eqb]. f_equal. lia. Qed.

Lemma accepted_counts i : (i < MLDSA_K s)%nat -> (old_count omega Y i <= new_count omega Y i <= omega)%nat.
Proof. intros Hi. exact (proj1 (HY i Hi)). Qed.

Lemma length_segment i : length (segment omega Y i) = (new_count omega Y i - old_count omega Y i)%nat.
Proof. unfold segment. now rewrite length_map, length_seq. Qed.

Lemma take_window n m : (n + m <= length Y)%nat -> take (n + m) Y = take n Y ++ map (fun j => nth j Y 0%nat) (seq n m).
Proof.
  induction m as [|m IH]; intros Hm; [now rewrite Nat.add_0_r, app_nil_r |].
  rewrite Nat.add_succ_r, (take_nth_split 0%nat) by lia. rewrite IH by lia. rewrite seq_S, map_app, <- app_assoc. reflexivity.
Qed.

Lemma accepted_concat m : (m <= MLDSA_K s)%nat -> concat (map (segment omega Y) (seq 0 m)) = take (old_count omega Y m) Y.
Proof.
  unfold MLDSA_POLYVECH_PACKEDBYTES in HL. induction m as [|m IH]; intros Hm; [reflexivity |]. rewrite seq_S, map_app, concat_app, IH by lia.
  cbn [map concat Nat.add]. rewrite app_nil_r, old_succ. pose proof (accepted_counts m ltac:(lia)) as [H1 H2].
  replace (new_count omega Y m) with (old_count omega Y m + (new_count omega Y m - old_count omega Y m))%nat at 1 by lia. unfold segment. now rewrite <- take_window by lia.
Qed.

Lemma accepted_tallies m : forall k, (k + m <= MLDSA_K s)%nat -> tallies (old_count omega Y k) (map (segment omega Y) (seq k m)) = map (new_count omega Y) (seq k m).
Proof.
  induction m as [|m IH]; intros k Hm; [reflexivity |]. cbn [seq map tallies]. rewrite length_segment.
  pose proof (accepted_counts k ltac:(lia)) as [H1 H2]. replace (_ + (_ - _))%nat with (new_count omega Y k) by lia. f_equal. rewrite <- old_succ. apply IH. lia.
Qed.

Lemma accepted_section : Y = canonical_section s (map (segment omega Y) (seq 0 (MLDSA_K s))).
Proof.
  assert (K0 : (0 < MLDSA_K s)%nat) by (destruct s; cbn; lia). unfold MLDSA_POLYVECH_PACKEDBYTES in HL.
  pose proof (HY (MLDSA_K s - 1) ltac:(lia)) as ((_ & Ho) & _ & Hz). specialize (Hz eq_refl).
  assert (N : old_count omega Y (MLDSA_K s) = new_count omega Y (MLDSA_K s - 1)) by (rewrite <- old_succ; f_equal; lia). rewrite <- N in Ho, Hz.
  unfold canonical_section. pose proof (accepted_tallies (MLDSA_K s) 0 ltac:(lia)) as T. change (old_count omega Y 0) with 0%nat in T. rewrite T. rewrite accepted_concat by lia. rewrite length_take_le by lia.
  set (c := old_count omega Y (MLDSA_K s)) in *.
  assert (E1 : replicate (omega - c) 0%nat = map (fun j => nth j Y 0%nat) (seq c (omega - c))).
  { apply replicate_as_elem_of. rewrite length_map, length_seq. split; [reflexivity |]. intros y Hy. apply list_elem_of_In, in_map_iff in Hy as (j & <- & Hj).
    apply in_seq in Hj. apply Hz. lia. }
  assert (E2 : map (new_count omega Y) (seq 0 (MLDSA_K s)) = map (fun j => nth j Y 0%nat) (seq omega (MLDSA_K s))).
  { pose proof (fmap_add_seq omega 0 (MLDSA_K s)) as F. rewrite Nat.add_0_r in F. rewrite <- F. symmetry. exact (map_map _ _ _). }
  rewrite E1, E2, app_assoc, <- take_window by lia. replace (c + (omega - c))%nat with omega by lia. rewrite <- take_window by lia. now rewrite take_ge by lia.
Qed.

End Accepted.

(** ** What signer and verifier agree on *)

Lemma make_hint_bit s a0 a1 : mld_make_hint s a0 a1 = 0 \/ mld_make_hint s a0 a1 = 1.
Proof. unfold mld_make_hint. repeat case_match; auto. Qed.

Lemma hint_row_sorted s w0 w1 k : sorted_row (hint_row s w0 w1 k).
Proof.
  unfold sorted_row. rewrite hint_row_eq. generalize MLDSA_N as n. intros n. split; [apply sorted_filter, sorted_seq |].
  apply List.Forall_forall. intros j Hj. apply filter_In in Hj as [Hj _]. apply in_seq in Hj. lia.
Qed.

(** The polynomial of hint bits of row [k]. *)
Definition hint_poly (s : parameter_set) (w0 w1 : list mld_poly) (k : nat) : mld_poly := map (hint_bit_at s w0 w1 k) (seq 0 MLDSA_N).

Lemma mark_bits (f : nat -> Z) n : (forall j, f j = 0 \/ f j = 1) ->
  mark (List.filter (fun j => negb (f j =? 0)) (seq 0 n)) (zeros n) = map f (seq 0 n).
Proof.
  intros Hf. set (l := List.filter _ _). assert (Lz : length (zeros n) = n) by apply length_replicate.
  assert (Hl : Forall (fun p => (p < length (zeros n))%nat) l).
  { rewrite Lz. apply List.Forall_forall. intros j Hj. apply filter_In in Hj as [Hj _]. apply in_seq in Hj. lia. }
  apply (nth_ext _ _ 0 0); [now rewrite length_mark, Lz, length_map, length_seq |]. rewrite length_mark, Lz. intros j Hj.
  fold (rd (mark l (zeros n)) j). rewrite rd_mark by exact Hl. rewrite nth_map_lt with (d := 0%nat), seq_nth by (rewrite ?length_seq; lia). cbn [Nat.add].
  replace (rd (zeros n) j) with 0 by (unfold rd, zeros; symmetry; apply nth_fill).
  destruct (existsb (Nat.eqb j) l) eqn:Hex.
  - apply existsb_exists in Hex as (x & Hx & Hjx). apply Nat.eqb_eq in Hjx as <-. apply filter_In in Hx as [_ Hx].
    destruct (Hf j) as [H | H]; rewrite H in *; [discriminate | reflexivity].
  - destruct (Hf j) as [H | H]; [now rewrite H |].
    rewrite existsb_false in Hex. specialize (Hex j). rewrite Nat.eqb_refl in Hex. discriminate Hex. apply filter_In. split; [apply in_seq; lia |]. now rewrite H.
Qed.

Lemma mark_row s w0 w1 k : mark (hint_row s w0 w1 k) (zeros MLDSA_N) = hint_poly s w0 w1 k.
Proof. rewrite hint_row_eq. unfold hint_poly. generalize MLDSA_N as n. intros n. apply mark_bits. intros j. apply make_hint_bit. Qed.

(** The hints of a signature.  [mld_pack_sig_h] succeeds exactly when there are at most omega hints, and then [mld_sig_unpack_hints] reads every row back exactly as
    [mld_make_hint] computed it. *)
Theorem mld_hints_roundtrip (s : parameter_set) (w0 w1 : list mld_poly) (sig : bytes) (h : mld_poly)
  (Hlen : length sig = MLDSA_CRYPTO_BYTES s) :
  let hints := length (concat (map (hint_row s w0 w1) (seq 0 (MLDSA_K s)))) in
  let '(r, sig') := mld_pack_sig_h s sig w0 w1 in
  (r = 0 <-> (hints <= MLDSA_OMEGA s)%nat) /\
  (r = 0 -> take (MLDSA_SIG_H_OFFSET s) sig' = take (MLDSA_SIG_H_OFFSET s) sig /\
     forall i, (i < MLDSA_K s)%nat -> mld_sig_unpack_hints s h sig' i = (0, hint_poly s w0 w1 i)).
Proof.
  set (rows := map (hint_row s w0 w1) (seq 0 (MLDSA_K s))). cbv zeta. pose proof (pack_sig_h_spec s w0 w1 sig) as P. cbv zeta in P. fold rows in P.
  destruct (Nat.leb_spec (length (concat rows)) (MLDSA_OMEGA s)) as [Ho | Ho].
  2:{ destruct (mld_pack_sig_h s sig w0 w1) as [r sig']. cbn [fst] in P. subst r. split; [split; [discriminate | lia] | discriminate]. }
  rewrite P. split; [tauto |]. intros _.
  assert (HK : length rows = MLDSA_K s) by (unfold rows; now rewrite length_map, length_seq).
  assert (HR : Forall sorted_row rows) by (unfold rows; apply Forall_map, List.Forall_forall; intros k _; apply hint_row_sorted).
  assert (Le : length (encode_rows (MLDSA_OMEGA s) rows) = MLDSA_POLYVECH_PACKEDBYTES s).
  { unfold encode_rows, MLDSA_POLYVECH_PACKEDBYTES. rewrite length_map, !length_app, length_replicate, length_tallies. lia. }
  assert (Lo : (MLDSA_SIG_H_OFFSET s + length (encode_rows (MLDSA_OMEGA s) rows) = length sig)%nat) by (rewrite Le, Hlen; reflexivity).
  assert (Lt : length (take (MLDSA_SIG_H_OFFSET s) sig) = MLDSA_SIG_H_OFFSET s) by (rewrite length_take; lia).
  split; [unfold blit; rewrite take_app_le by lia; now rewrite take_take, Nat.min_id |]. intros i Hi.
  assert (HY : drop (MLDSA_SIG_H_OFFSET s) (blit sig (MLDSA_SIG_H_OFFSET s) (encode_rows (MLDSA_OMEGA s) rows)) = map Z.of_nat (canonical_section s rows)).
  { unfold blit. rewrite <- Lt at 1. rewrite drop_app_length. rewrite drop_ge by lia. now rewrite app_nil_r. }
  destruct (unpack_spec s _ _ h i HY) as [U1 U2]. pose proof (canonical_row_ok s rows HK Ho HR i Hi) as Hok. specialize (U2 Hok). apply U1 in Hok.
  rewrite (canonical_segment s rows HK) in U2 by assumption. unfold rows in U2. rewrite nth_map_lt with (d := 0%nat), seq_nth in U2 by (rewrite ?length_seq; lia).
  cbn [Nat.add] in U2. rewrite mark_row in U2. destruct (mld_sig_unpack_hints _ _ _ _). cbn [fst snd] in *. congruence.
Qed.

(** Hints are not malleable: if every row of a signature's hint section is accepted, the section is the one that HintBitPack of FIPS 204 gives for the
    hints that were read. *)
Theorem mld_hints_canonical (s : parameter_set) (sig : bytes) (h : mld_poly) (hs : list mld_poly)
  (Hb : are_bytes sig) (Hlen : length sig = MLDSA_CRYPTO_BYTES s) (Hk : length hs = MLDSA_K s)
  (Hacc : forall i, (i < MLDSA_K s)%nat -> mld_sig_unpack_hints s h sig i = (0, nth i hs [])) :
  drop (MLDSA_SIG_H_OFFSET s) sig = HintBitPack (MLDSA_OMEGA s) hs.
Proof.
  set (Y := map Z.to_nat (drop (MLDSA_SIG_H_OFFSET s) sig)).
  assert (HY : drop (MLDSA_SIG_H_OFFSET s) sig = map Z.of_nat Y).
  { unfold Y. rewrite map_map. rewrite <- (map_id (drop _ sig)) at 1. apply map_ext_Forall. apply (Forall_drop _ (MLDSA_SIG_H_OFFSET s)) in Hb.
    eapply Forall_impl; [exact Hb |]. unfold is_u8. intros x Hx. lia. }
  assert (HL : length Y = MLDSA_POLYVECH_PACKEDBYTES s) by (unfold Y; rewrite length_map, length_drop, Hlen; unfold MLDSA_CRYPTO_BYTES; lia).
  assert (Hrow : forall i, (i < MLDSA_K s)%nat -> row_ok s Y i) by (intros i Hi; apply (unpack_spec s sig Y h i HY); now rewrite (Hacc i Hi)).
  assert (Hlt : forall j, (nth j Y 0 < MLDSA_N)%nat).
  { intros j. destruct (Nat.lt_ge_cases j (length Y)) as [Hj | Hj]; [| rewrite nth_overflow by exact Hj; unfold MLDSA_N; lia].
    apply (Forall_nth_lt (fun x => (x < MLDSA_N)%nat)); [| exact Hj]. unfold Y. apply Forall_map. apply (Forall_drop _ (MLDSA_SIG_H_OFFSET s)) in Hb.
    eapply Forall_impl; [exact Hb |]. unfold is_u8, MLDSA_N. intros x Hx. lia. }
  rewrite HY, (accepted_section s Y HL Hrow). unfold HintBitPack, encode_rows. f_equal. unfold canonical_section.
  replace (map (segment (MLDSA_OMEGA s) Y) (seq 0 (MLDSA_K s))) with (map positions hs); [reflexivity |].
  apply (nth_ext _ _ [] []); [rewrite !length_map, length_seq; exact Hk |]. rewrite length_map. intros i Hi. unfold mld_poly in Hk. rewrite Hk in Hi.
  rewrite nth_map_lt with (d := []) by (rewrite Hk; exact Hi). rewrite nth_map_lt with (d := 0%nat), seq_nth by (rewrite ?length_seq; exact Hi). cbn [Nat.add].
  destruct (unpack_spec s sig Y h i HY) as [_ U]. specialize (U (Hrow i Hi)). rewrite (Hacc i Hi) in U. cbn [snd] in U. unfold mld_poly in U. rewrite U. apply positions_mark.
  split; [exact (proj1 (proj2 (Hrow i Hi))) |]. unfold segment. apply Forall_map, List.Forall_forall. intros j _. apply Hlt.
Qed.
